(* ===== verification/_CoqProject ===== *)
-Q . S2P
Prelude.v
Mem.v
CString.v
Bitmap.v
AssocMap.v
KList.v
PageAlloc.v
Vm.v
VmCopy.v
Malloc.v
Heap.v
Qsort.v
MList.v
AddrSpace.v
UserSpace.v
Fork.v
Release.v
Ext2.v
Ext2Dir.v
Ahci.v
Uart.v
Stdio.v
Fs.v
Proc.v
Exec.v
Load.v
Elf.v
ForkProc.v
ArgStack.v
ExecProc.v
SysNo.v
Syscall.v
Kernel.v
SchedSpec.v
Sched.v
KernelProps.v
Wait.v
Boot.v
