(* ===== verification/Prelude.v ===== *)
(** * LoOS kernel verification library

    A model of the LoOS kernel (LoongArch, C under src/) and the theorems that
    make its parts correct.  This file is the prelude: machine integers, error
    and state monads, decidable case analysis and the tactics shared by all
    files.

    ** The program and its model

    The kernel boots one processor, takes over memory, mounts an ext2 image
    from a SATA disk, starts a first process and then runs [scheduler] for
    ever; processes enter the kernel through [trap_handler], which dispatches
    system calls.  Layers, from below:

    - [Mem]: memory as C sees it, a finite map from addresses to bytes, with
      little-endian loads and stores.  An access to an address that is not
      mapped is the error [Fault].
    - [CString] and [Qsort] (lolibc/string.c), [Bitmap] (lolibc/bits.h, struct/bitmap.c),
      [AssocMap] (struct/map.c), [KList] (kstruct/list.h), [MList]
      (struct/mlist.c), [Stdio] (lolibc/stdio.c): the C library.
    - [PageAlloc] (mm/memblock.c, mm/mm.c): physical pages, as the class
      [PageAllocator] and its instance [memblock].  [Malloc] (lolibc/stdlib.c)
      is the heap on top of it, [Heap] the heap as its clients see it, [Vm]
      and [VmCopy] (mm/n_vm.c) the page tables and the copies to and from user
      memory, [AddrSpace] (mm/n_vm.c) the mapping lists of processes.  The
      files from [Vm] to [Release] are proved against the class only.
    - [UserSpace], [Fork], [Release]: address spaces as a whole.  [process]
      says that heap, page table, frames, mapping list and free pages are in
      order and apart; [evolves] and [touch] bound what an operation changes.
      Each file has the theorem about one of [alloc_vm], [copy_pagetable] and
      [pgtbl_free].
    - [Ext2], [Ext2Dir] (fs/ext2.c): the file system on a disk that is a
      function from sectors to bytes.  [Ahci] (driver/ahci.c, driver/disk.c)
      is the driver, and [read_block_correct] there shows that it implements
      that disk.  [Uart] (driver/uart.c) is the console, [Fs] (fs/ext2_fs.c)
      file descriptors.
    - [Proc] (core/proc.c), [Exec] (core/exec.c, core/user.c), [SysNo] and [Syscall]
      (include/syscall.h, core/syscall.c, core/trap.c, core/time.c), [Kernel] (core/sche.c):
      processes; [Load] and [Elf] have the theorem about the program loader,
      [ForkProc] the one about [fork], [ArgStack] and [ExecProc] those about
      [exec].
      The state is [kstate]; a function that reaches the context switch of
      [swtch] stops there and returns the point at which the process goes on
      ([control]), and [Kernel.step] interleaves scheduler, traps and user
      mode.  [SchedSpec] is the abstract process table, [Sched] the proof that
      the kernel implements it, [KernelProps] and [Wait] the consequences.  [Boot] (core/kmain.c) composes the initialisers.

    Definitions have the names of the C functions; a helper stands for a loop
    or a stretch of a function and says which.  Structures in raw memory are
    offsets from a pointer; structures only the C compiler lays out (process
    slots, open files) are records.  A call that panics, halts or asserts is
    [Err Halt], a read of an uninitialised or missing value [Err Uninit].
    Integers are [Z], and conversions to a C type are written out ([u8], [s32],
    [u64], ...).

    ** What the theorems show

    - Processes: every execution of the kernel is one of the abstract table
      ([kernel_refines_table]); one process runs at a time ([one_running]),
      none starves ([no_starvation]), the dead stay dead ([dead_never_runs]),
      the machine goes off only when idle ([shutdown_idle]), slots are never
      given back ([slots_leak]); the outcomes of wait ([wait_any_outcomes],
      [exit_then_reap]).
    - Memory: pages ([kinit_memblock_ok], [kmalloc_kfree]); the heap hands out
      disjoint blocks ([malloc_free_safe]); mappings ([map_single_page_correct],
      [map_pages_correct]); user copies ([copy_to_va_correct],
      [copy_from_va_correct]); address spaces grow with cleared pages
      ([alloc_vm_correct]), get the segments of an executable
      file ([elf_loader_correct]) and, with the arguments on the stack, start
      as [exec] says ([exec_correct]; for a path that leads nowhere [exec] comes to
      [free(NULL)], [exec_missing]), are copied by fork
      ([copy_pagetable_correct], [fork_correct] for the call as a whole) and
      give back exactly what they own ([pgtbl_free_correct]); the pointer list
      they use is a sequence ([mlist_refines]).
    - Files: directory search and paths ([find_dir_entry_correct],
      [ext2_path_lookup_correct]), block map and reads
      ([get_physical_block_tree], [ext2_fread_correct]), the driver
      ([read_block_correct], [ahic_probe_port_correct], [read_block_stale]),
      descriptors ([descriptor_ops_safe], [dup_close_dangling]), console lines
      ([getstr_line], [getstr_overrun]).
    - Library: memory and string functions, tokens, sorting, lists, bitmaps, the
      association map, number conversion and formatted output.

    ** Fuel

    A loop that is not structural has a budget and the error [Fuel] when it is
    spent.  Budgets come from the data: the number of mapped addresses for
    loops to a NUL byte ([string_loops_terminate] says how they end on every
    memory), the number of links for list traversals, pages of the range for
    [Vm], the length of the array for [qsort], blocks of the file for [ext2_fread], the path's length for
    [ext2_path_lookup], 20 digits for [_uitoa], 64 slots for the process table.
    The theorems prove a result, which excludes [Fuel].  Three loops can run
    for ever in the code: [find_dir_entry] ([find_dir_entry_hangs] gives the
    directory block), the poll for a finished disk command (a controller that
    makes progress bounds it, [read_block_correct]), and [sys_wait4] on a
    reaped child, which yields in every turn ([dead_never_runs]).

    ** Not modelled

    - Assembly and single instructions: swtch.s, trap_entry.s, tlb_entry.s,
      _start.c, include/asm/cpu.h and tlb.h, writes to control registers
      ([dmw_init], [tlb_init], [vm_init], [trap_init] but for [timer_init]).
      The TLB enters as the parameter that translates user addresses.
    - Console messages ([printf], [Log], the functions that only print), the
      MMIO write of [shutdown], the self-test kstruct/list.c, and fs/open.c,
      which the build leaves out.
    - Interrupts inside the kernel: they are off but for the poll of [getstr],
      and a timer interrupt there, which yields inside the system call, is not
      represented; nor is a signal handler that itself makes system calls before
      it returns.
    - Exceptions of the kernel's own accesses: a definition ends with [Fault]
      at such an access and a machine has no step there.  On the processor
      [trap_handler] skips the instruction of a page exception (era + 4) and
      the kernel goes on with whatever the registers hold.  A theorem that
      states a [Fault] says that the access is made, not what comes after it.
    - The instruction set: a program changes memory arbitrarily
      ([step_user]) and every trap brings an arbitrary trap frame. *)

From Stdlib Require Export ZArith Lia.
From stdpp Require Export base tactics numbers gmap option list.

#[global] Open Scope Z_scope.

(** ** Machine integers *)

(** An integer of the C program is a [Z]; a conversion to a [w]-bit type is
    written out at the place where the C code converts or overflows. *)
Definition wrap (w x : Z) : Z := x mod 2 ^ w.
Definition swrap (w x : Z) : Z := (x + 2 ^ (w - 1)) mod 2 ^ w - 2 ^ (w - 1).

Abbreviation u8 := (wrap 8).
Abbreviation u16 := (wrap 16).
Abbreviation u32 := (wrap 32).
Abbreviation u64 := (wrap 64).
Abbreviation s8 := (swrap 8).
Abbreviation s32 := (swrap 32).
Abbreviation s64 := (swrap 64).

Lemma wrap_bound w x : 0 ≤ w → 0 ≤ wrap w x < 2 ^ w.
Proof. intros. apply Z.mod_pos_bound. lia. Qed.

Lemma wrap_id w x : 0 ≤ x < 2 ^ w → wrap w x = x.
Proof. apply Z.mod_small. Qed.

Lemma wrap_wrap w x : 0 ≤ w → wrap w (wrap w x) = wrap w x.
Proof. intros. apply wrap_id, wrap_bound; done. Qed.

Lemma swrap_bound w x : 0 < w → - 2 ^ (w - 1) ≤ swrap w x < 2 ^ (w - 1).
Proof.
  intros. unfold swrap. pose proof (Z.mod_pos_bound (x + 2 ^ (w - 1)) (2 ^ w)).
  assert (2 ^ w = 2 * 2 ^ (w - 1)) by (rewrite <- Z.pow_succ_r by lia; f_equal; lia).
  lia.
Qed.

Lemma swrap_id w x : 0 < w → - 2 ^ (w - 1) ≤ x < 2 ^ (w - 1) → swrap w x = x.
Proof.
  intros. unfold swrap.
  assert (2 ^ w = 2 * 2 ^ (w - 1)) by (rewrite <- Z.pow_succ_r by lia; f_equal; lia).
  rewrite Z.mod_small; lia.
Qed.

(** ** Outcomes *)

(** [Fault a]: an access outside the memory or the array the program owns, where the
    model stops (the processor traps, see "Not modelled" for what follows);
    [Halt]: [panic] or a failed [assert], which end in [halt(1)];
    [Uninit]: a read of a byte the code never wrote; [Overflow]: a signed result
    out of range where the code says that it overflows; [Fuel]: the loop budget
    of the model ran out (never an outcome of the program). *)
Inductive err := Fault (a : Z) | Halt | Uninit | Overflow | Fuel.

Inductive res (A : Type) := Ok (a : A) | Err (e : err).
Arguments Ok {A} _.
Arguments Err {A} _.

#[export] Instance err_eq_dec : EqDecision err.
Proof. solve_decision. Defined.
#[export] Instance res_eq_dec {A} `{EqDecision A} : EqDecision (res A).
Proof. solve_decision. Defined.

#[export] Instance res_ret : MRet res := @Ok.
#[export] Instance res_bind : MBind res :=
  λ A B f r, match r with Ok a => f a | Err e => Err e end.

Definition is_ok {A} (r : res A) : bool := match r with Ok _ => true | Err _ => false end.

(** [lift] turns a missing entry into an outcome. *)
Definition of_option {A} (e : err) (o : option A) : res A :=
  match o with Some a => Ok a | None => Err e end.

(** ** State and error *)
Definition M (S A : Type) : Type := S → res (A * S).

#[export] Instance M_ret {S} : MRet (M S) := λ A a s, Ok (a, s).
#[export] Instance M_bind {S} : MBind (M S) :=
  λ A B f m s, match m s with Ok (a, s') => f a s' | Err e => Err e end.

Section state.
Context {S : Type}.
Definition fail {A} (e : err) : M S A := λ _, Err e.
Definition get : M S S := λ s, Ok (s, s).
Definition put (s : S) : M S unit := λ _, Ok (tt, s).
Definition gets {A} (f : S → A) : M S A := λ s, Ok (f s, s).
Definition modify (f : S → S) : M S unit := λ s, Ok (tt, f s).
Definition lift {A} (r : res A) : M S A := λ s, match r with Ok a => Ok (a, s) | Err e => Err e end.
(** [assert(c)] under [CONFIG_ENABLE_DEBUG] (Kconfig's default): print, then [halt(1)]. *)
Definition assert (c : bool) : M S unit := if c then mret tt else fail Halt.
Definition panic {A} : M S A := fail Halt.

Lemma bind_ok {A B} (m : M S A) (f : A → M S B) s a s' :
  m s = Ok (a, s') → (m ≫= f) s = f a s'.
Proof. intros H. unfold mbind, M_bind. by rewrite H. Qed.

Lemma bind_err {A B} (m : M S A) (f : A → M S B) s e :
  m s = Err e → (m ≫= f) s = Err e.
Proof. intros H. unfold mbind, M_bind. by rewrite H. Qed.

Lemma bind_inv {A B} (m : M S A) (f : A → M S B) s r :
  (m ≫= f) s = Ok r → ∃ a s', m s = Ok (a, s') ∧ f a s' = Ok r.
Proof.
  unfold mbind, M_bind. destruct (m s) as [[a s']|] eqn:E; [|done]. eauto.
Qed.
End state.

(** ** Partial correctness

    [triple P m Q]: every run of [m] from a state in [P] that does not end in an [err] ends in
    [Q]. *)
Definition triple {S A} (P : S → Prop) (m : M S A) (Q : A → S → Prop) : Prop :=
  ∀ s a s', P s → m s = Ok (a, s') → Q a s'.

Section triple.
Context {S : Type}.
Implicit Types (P R : S → Prop).

Lemma triple_bind {A B} P (m : M S A) (f : A → M S B) R Q :
  triple P m (λ _, R) → (∀ a, triple R (f a) Q) → triple P (m ≫= f) Q.
Proof. intros Hm Hf s b s' Hs (a & s1 & E1 & E2)%bind_inv. eapply Hf; [by eapply Hm|done]. Qed.

Lemma triple_bind_val {A B} P (m : M S A) (f : A → M S B) (R : A → S → Prop) Q :
  triple P m R → (∀ a, triple (R a) (f a) Q) → triple P (m ≫= f) Q.
Proof. intros Hm Hf s b s' Hs (a & s1 & E1 & E2)%bind_inv. eapply Hf; [by eapply Hm|done]. Qed.

Lemma triple_ret {A} P (a : A) : triple P (mret a) (λ _, P).
Proof. by intros s b s' Hs [= <- <-]. Qed.
Lemma triple_fail {A} P e (Q : A → S → Prop) : triple P (fail e) Q.
Proof. done. Qed.
Lemma triple_gets {A} P (f : S → A) : triple P (gets f) (λ _, P).
Proof. by intros s b s' Hs [= <- <-]. Qed.
Lemma triple_modify P (f : S → S) : (∀ s, P s → P (f s)) → triple P (modify f) (λ _, P).
Proof. intros Hf s b s' Hs [= <- <-]. by apply Hf. Qed.
Lemma triple_lift {A} P (r : res A) : triple P (lift r) (λ _, P).
Proof. destruct r; [by intros s b s' Hs [= <- <-]|done]. Qed.
Lemma triple_assert P c : triple P (assert c) (λ _, P).
Proof. destruct c; [apply triple_ret|apply triple_fail]. Qed.
End triple.

(** Run a computation on a part of a larger state. *)
Definition zoom {S T A} (get : S → T) (set : T → S → S) (m : M T A) : M S A :=
  λ s, match m (get s) with Ok (a, t) => Ok (a, set t s) | Err e => Err e end.

Lemma zoom_ok {S T A} (g : S → T) (st : T → S → S) (m : M T A) s a t :
  m (g s) = Ok (a, t) → zoom g st m s = Ok (a, st t s).
Proof. intros H. unfold zoom. by rewrite H. Qed.

(** ** Tactics *)

(** One step of a monadic program whose head is known to succeed. *)
Ltac mstep := erewrite bind_ok; [| solve [eauto] || reflexivity]; cbn beta iota.
Ltac mstep_by H := erewrite bind_ok; [| apply H]; cbn beta iota.

(** Invert a successful monadic run. *)
Ltac minv H :=
  let a := fresh "a" in let s := fresh "s" in let E := fresh "E" in
  apply bind_inv in H as (a & s & E & H); cbn beta iota in *.

(** Split boolean tests on integers. *)
Ltac zcases :=
  repeat match goal with
  | |- context [Z.eqb ?a ?b] => destruct (Z.eqb_spec a b)
  | |- context [Z.ltb ?a ?b] => destruct (Z.ltb_spec a b)
  | |- context [Z.leb ?a ?b] => destruct (Z.leb_spec a b)
  end; try lia.

(** [lia] with quotients and remainders by constants. *)
Ltac zmod := Z.to_euclidean_division_equations; lia.

(** A closed decidable fact, by evaluation. *)
Ltac by_decide :=
  match goal with |- ?P => refine (@bool_decide_unpack P _ _); vm_compute; exact I end.

(** ** Hints *)
Create HintDb loos discriminated.
#[export] Hint Resolve wrap_bound swrap_bound : loos.
#[export] Hint Extern 4 (_ ≤ _) => lia : loos.
#[export] Hint Extern 4 (_ < _) => lia : loos.

(** ** Generic lemmas *)

(** A mask of low bits is a remainder, and clearing them a difference. *)
Lemma land_low x n : 0 ≤ n → Z.land x (2 ^ n - 1) = x mod 2 ^ n.
Proof.
  intros. replace (2 ^ n - 1) with (Z.ones n) by (rewrite Z.ones_equiv; lia).
  by apply Z.land_ones.
Qed.

Lemma land_high x n : 0 ≤ n → Z.land x (- 2 ^ n) = x - x mod 2 ^ n.
Proof.
  intros Hn.
  assert (- 2 ^ n = Z.shiftl (-1) n) as -> by (rewrite Z.shiftl_mul_pow2; lia).
  assert (Z.land x (Z.shiftl (-1) n) = Z.shiftl (Z.shiftr x n) n) as ->.
  { apply Z.bits_inj'. intros i Hi. rewrite Z.land_spec.
    destruct (decide (i < n)).
    - rewrite !Z.shiftl_spec_low by lia. by rewrite andb_false_r.
    - rewrite !Z.shiftl_spec_high, Z.shiftr_spec, Z.bits_m1 by lia.
      rewrite andb_true_r. f_equal. lia. }
  rewrite Z.shiftl_mul_pow2, Z.shiftr_div_pow2 by lia.
  pose proof (Z.div_mod x (2 ^ n)). lia.
Qed.

(** Disjoint bit fields add up. *)
Lemma lor_add x y n : 0 ≤ n → 0 ≤ x < 2 ^ n → y mod 2 ^ n = 0 → Z.lor y x = y + x.
Proof.
  intros Hn Hx Hy. symmetry. rewrite <- Z.lxor_lor; [apply Z.add_nocarry_lxor|];
  (apply Z.bits_inj'; intros i Hi; rewrite Z.land_spec, Z.bits_0;
   destruct (decide (i < n));
   [ rewrite <- (Z.mod_pow2_bits_low y n) by lia; rewrite Hy, Z.bits_0; done
   | rewrite <- (Z.mod_small x (2 ^ n)) by lia;
     rewrite (Z.mod_pow2_bits_high x n) by lia; apply andb_false_r ]).
Qed.

Lemma lookup_total_default {A} `{Inhabited A} (l : list A) i x :
  l !! i = Some x → l !!! i = x.
Proof. apply list_lookup_total_correct. Qed.

(** Extracting a field of [n] bits at bit [k], in place. *)
Lemma land_field x k n : 0 ≤ k → 0 ≤ n →
  Z.land x (Z.shiftl (Z.ones n) k) = x / 2 ^ k mod 2 ^ n * 2 ^ k.
Proof.
  intros Hk Hn. rewrite <- Z.shiftl_mul_pow2, <- Z.land_ones, <- Z.shiftr_div_pow2 by lia.
  apply Z.bits_inj'. intros i Hi. rewrite Z.land_spec. destruct (decide (i < k)).
  - rewrite !Z.shiftl_spec_low by lia. apply andb_false_r.
  - rewrite !Z.shiftl_spec_high, Z.land_spec, Z.shiftr_spec by lia. do 2 f_equal. lia.
Qed.

Lemma shiftr_land_field x k n : 0 ≤ k → 0 ≤ n →
  Z.land (Z.shiftr x k) (2 ^ n - 1) = x / 2 ^ k mod 2 ^ n.
Proof. intros. rewrite land_low by lia. by rewrite Z.shiftr_div_pow2. Qed.

(** ** Facts about small integers, by evaluation *)
Lemma enum (P : Z → Prop) `{!∀ x, Decision (P x)} a n x :
  bool_decide (Forall P (seqZ a n)) = true → a ≤ x < a + n → P x.
Proof. intros HP%bool_decide_eq_true_1 Hx. rewrite Forall_forall in HP. apply HP, elem_of_seqZ. lia. Qed.

(** A fact about the integers [x] in [a, a + n), by evaluation. *)
Ltac by_enum x a n :=
  pattern x; match goal with |- ?P x =>
    refine (@enum P ltac:(intro; cbv beta zeta; apply _) a n x _ _); [by vm_compute|lia] end.
