(* ===== verification/Mem.v ===== *)
(** * The byte-addressed memory the kernel works on

    [mem] is the memory as C sees it: a finite map from addresses to bytes, with
    [Fault] for an access to an address outside it.  [load]/[store] of 1, 2, 4
    and 8 bytes are little-endian, as on LoongArch.  The lemmas say what a store
    changes ([mem_at]: a memory holds these bytes at this address) and what it
    leaves alone. *)

From S2P Require Import Prelude.

Abbreviation mem := (gmap Z Z).

(** ** Little-endian words *)
Fixpoint le_combine (l : list Z) : Z :=
  match l with [] => 0 | b :: l => b + 256 * le_combine l end.

Fixpoint le_split (n : nat) (w : Z) : list Z :=
  match n with O => [] | S n => w mod 256 :: le_split n (w / 256) end.

Definition byte (b : Z) : Prop := 0 ≤ b < 256.
Abbreviation bytes := (Forall byte).

Lemma length_le_split n w : length (le_split n w) = n.
Proof. revert w. induction n; intros; simpl; [done|]. by rewrite IHn. Qed.

Lemma le_split_bytes n w : bytes (le_split n w).
Proof.
  revert w. induction n; intros; simpl; constructor; [|done].
  apply Z.mod_pos_bound. lia.
Qed.

Lemma le_combine_split n w : le_combine (le_split n w) = w mod 2 ^ (8 * Z.of_nat n).
Proof.
  revert w. induction n; intros w; simpl le_split; simpl le_combine.
  - by rewrite Z.mod_1_r.
  - rewrite IHn. replace (8 * Z.of_nat (S n)) with (8 + 8 * Z.of_nat n) by lia.
    rewrite Z.pow_add_r by lia. rewrite Z.rem_mul_r by lia. change (2 ^ 8) with 256. lia.
Qed.

Lemma le_combine_bound l : bytes l → 0 ≤ le_combine l < 2 ^ (8 * Z.of_nat (length l)).
Proof.
  induction 1; [simpl; lia|]. cbn [le_combine length].
  replace (8 * Z.of_nat (S (length l))) with (8 + 8 * Z.of_nat (length l)) by lia.
  rewrite Z.pow_add_r by lia. change (2 ^ 8) with 256. unfold byte in *. lia.
Qed.

Lemma le_split_combine l : bytes l → le_split (length l) (le_combine l) = l.
Proof.
  induction 1 as [|b l Hb Hl IH]; [done|]. cbn [le_split length le_combine]. unfold byte in Hb.
  rewrite (Z.mul_comm 256), Z.mod_add, Z.mod_small, Z.div_add, Z.div_small by lia.
  by rewrite Z.add_0_l, IH.
Qed.

(** ** Runs of bytes *)

(** The bytes at [a], [a + 1], ..., when all of them are mapped. *)
Fixpoint read_bytes (n : nat) (a : Z) (m : mem) : option (list Z) :=
  match n with
  | O => Some []
  | S n => b ← m !! a; l ← read_bytes n (a + 1) m; Some (b :: l)
  end.

Fixpoint write_bytes (a : Z) (l : list Z) (m : mem) : mem :=
  match l with [] => m | b :: l => write_bytes (a + 1) l (<[a := b]> m) end.

(** [m] holds the bytes [l] at [a]. *)
Definition mem_at (m : mem) (a : Z) (l : list Z) : Prop :=
  ∀ i b, l !! i = Some b → m !! (a + Z.of_nat i) = Some b.

(** The [n] addresses from [a] are mapped. *)
Definition mapped (m : mem) (a n : Z) : Prop := ∀ x, a ≤ x < a + n → is_Some (m !! x).

(** [m'] differs from [m] inside [a, a + n) only. *)
Definition only (a n : Z) (m m' : mem) : Prop :=
  ∀ x, ¬ (a ≤ x < a + n) → m' !! x = m !! x.

Lemma mem_at_nil m a : mem_at m a [].
Proof. intros i b. by rewrite lookup_nil. Qed.

Lemma mem_at_cons m a b l :
  mem_at m a (b :: l) ↔ m !! a = Some b ∧ mem_at m (a + 1) l.
Proof.
  split.
  - intros H. split.
    + specialize (H 0%nat b eq_refl). by rewrite Z.add_0_r in H.
    + intros i c Hi. specialize (H (S i) c Hi). rewrite <- H. f_equal. lia.
  - intros [H1 H2] [|i] c Hi; simplify_eq/=.
    + by rewrite Z.add_0_r.
    + rewrite <- (H2 i c Hi). f_equal. lia.
Qed.

Lemma mem_at_app m a l k :
  mem_at m a (l ++ k) ↔ mem_at m a l ∧ mem_at m (a + Z.of_nat (length l)) k.
Proof.
  revert a. induction l as [|b l IH]; intros a; simpl.
  - rewrite Z.add_0_r. pose proof (mem_at_nil m a). naive_solver.
  - rewrite !mem_at_cons, IH.
    replace (a + 1 + Z.of_nat (length l)) with (a + Z.of_nat (S (length l))) by lia.
    naive_solver.
Qed.

Lemma mem_at_mapped m a l : mem_at m a l → mapped m a (Z.of_nat (length l)).
Proof.
  intros H x Hx. destruct (lookup_lt_is_Some_2 l (Z.to_nat (x - a))) as [b Hb]; [lia|].
  exists b. rewrite <- (H _ _ Hb). f_equal. lia.
Qed.

Lemma mapped_mem_at_part m a n k : mapped m a n → k ≤ n → mapped m a k.
Proof. intros H Hk x Hx. apply H. lia. Qed.

Lemma mapped_mem_at m a n : mapped m a (Z.of_nat n) → ∃ l, length l = n ∧ mem_at m a l.
Proof.
  revert a. induction n; intros a H.
  - exists []. split; [done|apply mem_at_nil].
  - destruct (H a) as [b Hb]; [lia|].
    destruct (IHn (a + 1)) as (l & Hl & Hm); [intros x Hx; apply H; lia|].
    exists (b :: l). split; [simpl; lia|]. by apply mem_at_cons.
Qed.

Lemma mem_at_fun m a l k :
  mem_at m a l → mem_at m a k → length l = length k → l = k.
Proof.
  intros Hl Hk Hlen. apply list_eq_same_length with (length l); [done|done|].
  intros i x y Hi Hx Hy. specialize (Hl _ _ Hx). specialize (Hk _ _ Hy). congruence.
Qed.

Lemma read_bytes_Some n a m l :
  read_bytes n a m = Some l ↔ length l = n ∧ mem_at m a l.
Proof.
  revert a l. induction n; intros a l; simpl.
  - split; [intros [= <-]; split; [done|apply mem_at_nil]|].
    intros [? _]. by destruct l.
  - split.
    + intros H. apply bind_Some in H as (b & Hb & H). apply bind_Some in H as (k & Hk & H).
      simplify_eq/=. apply IHn in Hk as [<- Hk]. split; [done|]. by apply mem_at_cons.
    + intros [Hlen Hm]. destruct l as [|b l]; [done|]. apply mem_at_cons in Hm as [Hb Hm].
      rewrite Hb. simpl. rewrite (proj2 (IHn _ l)); [done|]. split; [|done]. by injection Hlen.
Qed.

Lemma mem_at_only m m' a l a' n :
  mem_at m a l → only a' n m m' →
  (a + Z.of_nat (length l) ≤ a' ∨ a' + n ≤ a) → mem_at m' a l.
Proof.
  intros H Ho Hd i b Hi. rewrite Ho; [by apply H|]. apply lookup_lt_Some in Hi. lia.
Qed.

Lemma mem_at_only_mapped m m' a n a' n' :
  mapped m a n → only a' n' m m' → (a + n ≤ a' ∨ a' + n' ≤ a) → mapped m' a n.
Proof. intros H Ho Hd x Hx. rewrite Ho by lia. by apply H. Qed.

Lemma only_refl a n m : only a n m m.
Proof. by intros x _. Qed.

Lemma only_trans a n m1 m2 m3 : only a n m1 m2 → only a n m2 m3 → only a n m1 m3.
Proof. intros H1 H2 x Hx. rewrite H2, H1; done. Qed.

Lemma only_weaken a n a' n' m m' :
  only a n m m' → a' ≤ a → a + n ≤ a' + n' → only a' n' m m'.
Proof. intros H ?? x Hx. apply H. lia. Qed.

(** ** Writing runs of bytes *)
Lemma write_bytes_only a l m : only a (Z.of_nat (length l)) m (write_bytes a l m).
Proof.
  revert a m. induction l as [|b l IH]; intros a m x Hx; simpl; [done|].
  rewrite IH by (simpl in *; lia). rewrite lookup_insert_ne; [done|]. simpl in Hx. lia.
Qed.

Lemma write_bytes_lookup a l m i b :
  l !! i = Some b → write_bytes a l m !! (a + Z.of_nat i) = Some b.
Proof.
  revert a m i. induction l as [|c l IH]; intros a m [|i] Hi; simplify_eq/=.
  - rewrite (write_bytes_only _ _ _) by lia. rewrite Z.add_0_r. apply lookup_insert_eq.
  - replace (a + Z.of_nat (S i)) with (a + 1 + Z.of_nat i) by lia. by apply IH.
Qed.

Lemma write_bytes_at a l m : mem_at (write_bytes a l m) a l.
Proof. intros i b. apply write_bytes_lookup. Qed.

Lemma write_bytes_dom a l m :
  mapped m a (Z.of_nat (length l)) → dom (write_bytes a l m) = dom m.
Proof.
  revert a m. induction l as [|b l IH]; intros a m H; simpl; [done|].
  rewrite IH.
  - rewrite dom_insert_L. assert (a ∈ dom m); [|set_solver].
    apply elem_of_dom, H. simpl. lia.
  - intros x Hx. rewrite lookup_insert. case_decide; [eauto|]. apply H. simpl. lia.
Qed.

Lemma mapped_dom m m' a n : dom m = dom m' → mapped m a n → mapped m' a n.
Proof. intros Hd H x Hx. rewrite <- elem_of_dom, <- Hd, elem_of_dom. by apply H. Qed.

Lemma write_bytes_mapped a l m a' n :
  mapped m a (Z.of_nat (length l)) → mapped m a' n → mapped (write_bytes a l m) a' n.
Proof. intros H. apply mapped_dom. by rewrite write_bytes_dom. Qed.

Lemma write_bytes_app a l k m :
  write_bytes a (l ++ k) m = write_bytes (a + Z.of_nat (length l)) k (write_bytes a l m).
Proof.
  revert a m. induction l as [|b l IH]; intros a m; simpl; [by rewrite Z.add_0_r|].
  rewrite IH. f_equal. lia.
Qed.

Lemma write_bytes_mem_at_ne a l m b k :
  mem_at m b k →
  (b + Z.of_nat (length k) ≤ a ∨ a + Z.of_nat (length l) ≤ b) →
  mem_at (write_bytes a l m) b k.
Proof. intros H Hd. eapply mem_at_only; [done|apply write_bytes_only|done]. Qed.

(** ** Loads and stores *)
Definition load (n : nat) (a : Z) : M mem Z := λ m,
  match read_bytes n a m with Some l => Ok (le_combine l, m) | None => Err (Fault a) end.

Definition store (n : nat) (a v : Z) : M mem unit := λ m,
  match read_bytes n a m with
  | Some _ => Ok (tt, write_bytes a (le_split n v) m)
  | None => Err (Fault a)
  end.

Abbreviation load8 := (load 1).
Abbreviation load16 := (load 2).
Abbreviation load32 := (load 4).
Abbreviation load64 := (load 8).
Abbreviation store8 := (store 1).
Abbreviation store32 := (store 4).
Abbreviation store64 := (store 8).

(** [m] holds the [n]-byte word [v] at [a]. *)
Definition word_at (n : nat) (m : mem) (a v : Z) : Prop :=
  ∃ l, length l = n ∧ mem_at m a l ∧ le_combine l = v.
Abbreviation word64_at := (word_at 8).

Lemma load_ok n m a v : word_at n m a v → load n a m = Ok (v, m).
Proof.
  intros (l & Hl & Hm & <-). unfold load. by rewrite (proj2 (read_bytes_Some _ _ _ l)).
Qed.

Lemma load_inv n m a v m' : load n a m = Ok (v, m') → m' = m ∧ word_at n m a v.
Proof.
  unfold load. destruct (read_bytes n a m) as [l|] eqn:E; [|done]. intros [= <- <-].
  apply read_bytes_Some in E as [??]. split; [done|]. by exists l.
Qed.

Lemma word_at_read n m a l v : read_bytes n a m = Some l → le_combine l = v → word_at n m a v.
Proof. intros [Hl Hm]%read_bytes_Some Hv. by exists l. Qed.

(** A word of a concrete memory, by evaluation. *)
Ltac by_word := eapply word_at_read; vm_compute; reflexivity.

Lemma word_at_fun n m a v v' : word_at n m a v → word_at n m a v' → v = v'.
Proof. intros H1%load_ok H2%load_ok. congruence. Qed.

Lemma load8_ok m a b : m !! a = Some b → load8 a m = Ok (b, m).
Proof.
  intros H. apply load_ok. exists [b]. split; [done|]. split; [|simpl; lia].
  apply mem_at_cons. split; [done|]. apply mem_at_nil.
Qed.

Lemma load8_none m a : m !! a = None → load8 a m = Err (Fault a).
Proof. intros H. unfold load. simpl. by rewrite H. Qed.

Lemma load_none n m a : m !! a = None → load (S n) a m = Err (Fault a).
Proof. intros H. unfold load. simpl. by rewrite H. Qed.

Lemma store_ok n m a v : mapped m a (Z.of_nat n) →
  store n a v m = Ok (tt, write_bytes a (le_split n v) m).
Proof.
  intros H. unfold store.
  destruct (mapped_mem_at m a n H) as (l & Hl & Hm).
  by rewrite (proj2 (read_bytes_Some _ _ _ l)).
Qed.

Lemma store8_ok m a v : is_Some (m !! a) → store8 a v m = Ok (tt, <[a := v mod 256]> m).
Proof.
  intros H. rewrite store_ok; [done|]. intros x Hx. by replace x with a by lia.
Qed.

Lemma store_at n a v m : word_at n (write_bytes a (le_split n v) m) a (v mod 2 ^ (8 * Z.of_nat n)).
Proof.
  exists (le_split n v). split; [apply length_le_split|].
  split; [apply write_bytes_at|apply le_combine_split].
Qed.

Lemma store64_at a v m : 0 ≤ v < 2 ^ 64 → word64_at (write_bytes a (le_split 8 v) m) a v.
Proof. intros H. pose proof (store_at 8 a v m) as S. rewrite Z.mod_small in S; done. Qed.

Lemma store_only n a v m : only a (Z.of_nat n) m (write_bytes a (le_split n v) m).
Proof. rewrite <- (length_le_split n v) at 1. apply write_bytes_only. Qed.

Lemma word_at_only n m m' a v a' n' :
  word_at n m a v → only a' n' m m' → (a + Z.of_nat n ≤ a' ∨ a' + n' ≤ a) → word_at n m' a v.
Proof. intros (l & <- & Hm & Hc) Ho Hd. exists l. split_and!; [done| |done]. by eapply mem_at_only. Qed.

(** A word depends on its own bytes only. *)
Lemma word_at_same n m m' a v : word_at n m a v →
  (∀ x, a ≤ x < a + Z.of_nat n → m' !! x = m !! x) → word_at n m' a v.
Proof.
  intros (l & <- & Hm & Hc) Hs. exists l. split_and!; [done| |done].
  intros i b Hi. rewrite Hs; [by apply Hm|]. apply lookup_lt_Some in Hi. lia.
Qed.

Lemma word64_zero m a : (∀ x, a ≤ x < a + 8 → m !! x = Some 0) → word64_at m a 0.
Proof.
  intros H. exists (replicate 8 0). split_and!; [done| |done].
  intros i b Hi. apply lookup_replicate_1 in Hi as [-> Hi]. apply H. lia.
Qed.

Lemma word_at_mapped n m a v : word_at n m a v → mapped m a (Z.of_nat n).
Proof. intros (l & <- & Hm & _). by apply mem_at_mapped. Qed.

#[export] Hint Resolve mem_at_nil only_refl write_bytes_only write_bytes_at store_only : loos.

(** ** Room above an address

    A loop that advances a pointer through mapped memory makes at most
    [size m] steps: [room m a] is the number of mapped addresses from [a] on. *)
Definition room (m : mem) (a : Z) : nat := size (filter (λ x, a ≤ x) (dom m)).

Lemma room_step m a : is_Some (m !! a) → (room m (a + 1) < room m a)%nat.
Proof.
  intros Ha. apply elem_of_dom in Ha. unfold room. apply subset_size. split.
  - intros x. rewrite !elem_of_filter. intros [? ?]. split; [lia|done].
  - intros Hsub. assert (a ∈ filter (λ x, a + 1 ≤ x) (dom m)) as H.
    { apply Hsub. by apply elem_of_filter. }
    apply elem_of_filter in H as [? _]. lia.
Qed.

Lemma room_size m a : (room m a ≤ size m)%nat.
Proof.
  unfold room. rewrite <- size_dom. apply subseteq_size. intros x. rewrite elem_of_filter. tauto.
Qed.

Lemma room_dom m m' a : dom m = dom m' → room m a = room m' a.
Proof. unfold room. by intros ->. Qed.

Lemma insert_dom (m : mem) a b : is_Some (m !! a) → dom (<[a := b]> m) = dom m.
Proof. intros H. rewrite dom_insert_L. apply elem_of_dom in H. set_solver. Qed.

Lemma mem_at_room m a l : mem_at m a l → (length l ≤ room m a)%nat.
Proof.
  revert a. induction l as [|b l IH]; intros a H; [simpl; lia|].
  apply mem_at_cons in H as [Hb H]. apply IH in H. pose proof (room_step m a). simpl.
  rewrite Hb in *. specialize (H0 ltac:(eauto)). lia.
Qed.

(** ** NUL-terminated strings *)
Abbreviation chars := (Forall (λ c, 0 < c < 256)).

Definition cstr (m : mem) (a : Z) (s : list Z) : Prop := mem_at m a (s ++ [0]) ∧ chars s.

Lemma cstr_nil m a : cstr m a [] ↔ m !! a = Some 0.
Proof.
  unfold cstr. simpl. rewrite mem_at_cons. pose proof (mem_at_nil m (a + 1)).
  assert (chars []) by constructor. tauto.
Qed.

Lemma cstr_cons m a c s : cstr m a (c :: s) ↔ m !! a = Some c ∧ 0 < c < 256 ∧ cstr m (a + 1) s.
Proof. unfold cstr. simpl. rewrite mem_at_cons, Forall_cons. tauto. Qed.

Lemma cstr_app m a s t :
  cstr m a (s ++ t) ↔ mem_at m a s ∧ chars s ∧ cstr m (a + Z.of_nat (length s)) t.
Proof. unfold cstr. rewrite <- app_assoc, mem_at_app, Forall_app. tauto. Qed.

Lemma cstr_room m a s : cstr m a s → (length s < room m a)%nat.
Proof. intros [H _]. apply mem_at_room in H. rewrite length_app in H. simpl in H. lia. Qed.

Lemma cstr_fuel m a s : cstr m a s → (length s < S (size m))%nat.
Proof. intros H%cstr_room. pose proof (room_size m a). lia. Qed.

Lemma cstr_only m m' a s a' n :
  cstr m a s → only a' n m m' →
  (a + Z.of_nat (length s) + 1 ≤ a' ∨ a' + n ≤ a) → cstr m' a s.
Proof.
  intros [H ?] Ho Hd. split; [|done]. eapply mem_at_only; [done..|].
  rewrite length_app. simpl. lia.
Qed.

Lemma cstr_fun m a s t : cstr m a s → cstr m a t → s = t.
Proof.
  revert a t. induction s as [|c s IH]; intros a [|d t]; rewrite ?cstr_nil, ?cstr_cons.
  - done.
  - intros ? (? & ? & ?). simplify_eq. lia.
  - intros (? & ? & ?) ?. simplify_eq. lia.
  - intros (? & ? & H1) (? & ? & H2). simplify_eq. f_equal. eauto.
Qed.

Lemma chars_bytes s : chars s → bytes s.
Proof. intros H. eapply Forall_impl; [done|]. unfold byte. simpl. lia. Qed.

(** Signed characters differ when the bytes do. *)
Lemma s8_inj a b : byte a → byte b → s8 a = s8 b → a = b.
Proof.
  unfold byte, swrap. change (2 ^ (8 - 1)) with 128. change (2 ^ 8) with 256. intros Ha Hb H.
  pose proof (Z.div_mod (a + 128) 256). pose proof (Z.div_mod (b + 128) 256).
  pose proof (Z.mod_pos_bound (a + 128) 256). pose proof (Z.mod_pos_bound (b + 128) 256).
  lia.
Qed.

(** ** Changes in a set of cells *)

(** [m'] differs from [m] in the cells of [P] only. *)
Definition changes (P : Z → Prop) (m m' : mem) : Prop :=
  dom m' = dom m ∧ ∀ a, ¬ P a → m' !! a = m !! a.

Lemma changes_refl P m : changes P m m.
Proof. done. Qed.

Lemma changes_trans P m1 m2 m3 : changes P m1 m2 → changes P m2 m3 → changes P m1 m3.
Proof. intros [D1 H1] [D2 H2]. split; [congruence|]. intros a Ha. by rewrite H2, H1. Qed.

Lemma changes_weaken (P Q : Z → Prop) m m' : (∀ a, P a → Q a) → changes P m m' → changes Q m m'.
Proof. intros HPQ [Hd H]. split; [done|]. intros a Ha. apply H. naive_solver. Qed.

Lemma only_changes a n m m' : dom m' = dom m → only a n m m' → changes (λ x, a ≤ x < a + n) m m'.
Proof. intros Hd Ho. by split. Qed.

Lemma changes_word n P m m' a v : word_at n m a v → changes P m m' →
  (∀ x, P x → ¬ (a ≤ x < a + Z.of_nat n)) → word_at n m' a v.
Proof. intros Hw [_ H] HP. eapply word_at_same; [done|]. intros x Hx. apply H. naive_solver. Qed.

Lemma changes_bytes P m m' a l : mem_at m a l → changes P m m' →
  (∀ x, P x → ¬ (a ≤ x < a + Z.of_nat (length l))) → mem_at m' a l.
Proof.
  intros Hm [_ H] HP i b Hi. rewrite H; [by apply Hm|]. intros Hx%HP. apply Hx.
  apply lookup_lt_Some in Hi. lia.
Qed.

Lemma changes_mapped P m m' a n : changes P m m' → mapped m a n → mapped m' a n.
Proof. intros [Hd _]. by apply mapped_dom. Qed.

(** A store of [n] bytes of a mapped word. *)
Lemma store_word n a v m : mapped m a (Z.of_nat n) → 0 ≤ v < 2 ^ (8 * Z.of_nat n) →
  ∃ m', store n a v m = Ok (tt, m') ∧ word_at n m' a v ∧
    changes (λ x, a ≤ x < a + Z.of_nat n) m m'.
Proof.
  intros Hm Hv. rewrite store_ok by done. eexists. split_and!; [done| |].
  - pose proof (store_at n a v m) as Hs. by rewrite Z.mod_small in Hs.
  - apply only_changes; [|apply store_only]. apply write_bytes_dom. by rewrite length_le_split.
Qed.

Lemma mapped_sub m a n b k : mapped m a n → a ≤ b → b + k ≤ a + n → mapped m b k.
Proof. intros H ?? x Hx. apply H. lia. Qed.

(** A store of a byte into a known run. *)
Lemma store8_run a T i v m : mem_at m a T → (i < length T)%nat → 0 ≤ v < 256 →
  ∃ m', store8 (a + Z.of_nat i) v m = Ok (tt, m') ∧ mem_at m' a (<[i := v]> T) ∧
    changes (λ x, a ≤ x < a + Z.of_nat (length T)) m m'.
Proof.
  intros Hm Hi Hv. destruct (lookup_lt_is_Some_2 T i Hi) as [b Hb].
  rewrite store8_ok by (rewrite (Hm _ _ Hb); eauto). rewrite Z.mod_small by done.
  eexists. split_and!; [done| |].
  - intros j c Hj. destruct (decide (i = j)) as [->|Hne].
    + rewrite list_lookup_insert_eq in Hj by lia. simplify_eq. apply lookup_insert_eq.
    + rewrite list_lookup_insert_ne in Hj by done. rewrite lookup_insert_ne by lia. by apply Hm.
  - apply only_changes; [apply insert_dom; rewrite (Hm _ _ Hb); eauto|].
    intros x Hx. rewrite lookup_insert_ne; [done|]. intros <-. apply Hx. lia.
Qed.

Lemma changes_cstr P m m' a s : cstr m a s → changes P m m' →
  (∀ x, P x → ¬ (a ≤ x < a + Z.of_nat (length s) + 1)) → cstr m' a s.
Proof.
  intros [Hm Hs] HC HP. split; [|done]. eapply changes_bytes; [done..|].
  intros x Hx. rewrite length_app. simpl. specialize (HP x Hx). lia.
Qed.

Lemma changes_write (P : Z → Prop) a l m : mapped m a (Z.of_nat (length l)) →
  (∀ x, a ≤ x < a + Z.of_nat (length l) → P x) → changes P m (write_bytes a l m).
Proof.
  intros Hm HP. eapply changes_weaken; [|apply only_changes; [by apply write_bytes_dom|apply write_bytes_only]].
  simpl. auto.
Qed.

(** A run of mapped cells of a concrete memory, by evaluation. *)
Lemma mapped_check n a m : is_Some (read_bytes n a m) → mapped m a (Z.of_nat n).
Proof. intros [l [<- Hl]%read_bytes_Some]. by apply mem_at_mapped. Qed.

Ltac by_mapped n := apply (mapped_check n); apply (bool_decide_unpack (is_Some _)); vm_compute; exact I.
