(* ===== verification/CString.v ===== *)
(** * lolibc/string.c: C strings and memory blocks

    Every function of [lolibc/string.c] except [qsort], as a program on the byte
    memory.  A loop that runs to a NUL byte has [fuel_of m] as its budget, one
    more than the number of mapped addresses; [Section termination] gives the
    outcome of the length, copy and span functions on every memory of bytes, which
    is never [Fuel].  Plain [char] is signed (the LoongArch ABI), hence [s8] where
    the code subtracts characters. *)

From S2P Require Import Prelude Mem.

Definition fuel_of (m : mem) : nat := S (size m).

(** ** The program *)

Fixpoint strlen_loop (fuel : nat) (s : Z) : M mem Z :=
  match fuel with
  | O => fail Fuel
  | S fuel => c ← load8 s; if c =? 0 then mret s else strlen_loop fuel (s + 1)
  end.

Definition strlen (s : Z) : M mem Z :=
  fuel ← gets fuel_of; e ← strlen_loop fuel s; mret (e - s).

(** The copy loop and the final [*dst = 0]. *)
Fixpoint strcpy_loop (fuel : nat) (dst src : Z) : M mem unit :=
  match fuel with
  | O => fail Fuel
  | S fuel =>
      c ← load8 src;
      if c =? 0 then store8 dst 0
      else store8 dst c;; strcpy_loop fuel (dst + 1) (src + 1)
  end.

Definition strcpy (dst src : Z) : M mem Z :=
  fuel ← gets fuel_of; strcpy_loop fuel dst src;; mret dst.

Fixpoint strncpy_fill (n : nat) (dst : Z) : M mem unit :=
  match n with
  | O => mret tt
  | S n => store8 dst 0;; strncpy_fill n (dst + 1)
  end.

Fixpoint strncpy_loop (n : nat) (dst src : Z) : M mem unit :=
  c ← load8 src;
  match n with
  | O => mret tt
  | S n' =>
      if c =? 0 then strncpy_fill n dst
      else store8 dst c;; strncpy_loop n' (dst + 1) (src + 1)
  end.

Definition strncpy (dst src n : Z) : M mem Z :=
  strncpy_loop (Z.to_nat n) dst src;; mret dst.

Definition strcat (dst src : Z) : M mem Z :=
  fuel ← gets fuel_of;
  e ← strlen_loop fuel dst;
  strcpy_loop fuel e src;; mret dst.

Fixpoint strncmp_loop (n : nat) (s1 s2 : Z) : M mem Z :=
  c1 ← load8 s1; c2 ← load8 s2;
  let d := s8 c1 - s8 c2 in
  if negb (c1 =? 0) && (c1 =? c2) then
    match n with
    | S (S _ as n') => strncmp_loop n' (s1 + 1) (s2 + 1)
    | _ => mret d
    end
  else mret d.

Definition strncmp (s1 s2 n : Z) : M mem Z := strncmp_loop (Z.to_nat n) s1 s2.

Definition MAX_STR_LEN : Z := 1024.
Definition strcmp (s1 s2 : Z) : M mem Z := strncmp s1 s2 MAX_STR_LEN.

(** [memset], [memcpy] and [memmove] return the pointer they advanced, as the code does. *)
Fixpoint memset_loop (n : nat) (s c : Z) : M mem Z :=
  match n with
  | O => mret s
  | S n => store8 s (u8 c);; memset_loop n (s + 1) c
  end.

Definition memset (s c n : Z) : M mem Z := memset_loop (Z.to_nat n) s c.

Fixpoint memcpy_loop (n : nat) (out in_ : Z) : M mem Z :=
  match n with
  | O => mret out
  | S n => b ← load8 in_; store8 out b;; memcpy_loop n (out + 1) (in_ + 1)
  end.

Definition memcpy (out in_ n : Z) : M mem Z := memcpy_loop (Z.to_nat n) out in_.

Fixpoint memmove_back (n : nat) (out in_ : Z) : M mem Z :=
  match n with
  | O => mret out
  | S n => b ← load8 in_; store8 out b;; memmove_back n (out - 1) (in_ - 1)
  end.

Definition memmove (dst src n : Z) : M mem Z :=
  if (src <? dst) && (dst <=? src + n)
  then memmove_back (Z.to_nat n) (dst + n - 1) (src + n - 1)
  else memcpy dst src n;; mret dst.

Fixpoint memcmp_loop (n : nat) (m1 m2 : Z) : M mem Z :=
  b1 ← load8 m1; b2 ← load8 m2;
  if b1 =? b2 then
    match n with
    | S (S _ as n') => memcmp_loop n' (m1 + 1) (m2 + 1)
    | _ => mret (b1 - b2)
    end
  else mret (b1 - b2).

Definition memcmp (s1 s2 n : Z) : M mem Z := memcmp_loop (Z.to_nat n) s1 s2.

(** The case folding of one [char]: 'A'..'Z' only. *)
Definition fold_case (c : Z) : Z := if (65 <=? c) && (c <=? 90) then c + 32 else c.

Fixpoint strcasecmp_loop (fuel : nat) (s1 s2 : Z) : M mem Z :=
  match fuel with
  | O => fail Fuel
  | S fuel =>
      b1 ← load8 s1; b2 ← load8 s2;
      if negb (b1 =? 0) && negb (b2 =? 0) then
        let c1 := fold_case (s8 b1) in let c2 := fold_case (s8 b2) in
        if negb (c1 =? c2) then mret (c1 - c2)
        else strcasecmp_loop fuel (s1 + 1) (s2 + 1)
      else mret (s8 b1 - s8 b2)
  end.

Definition strcasecmp (s1 s2 : Z) : M mem Z :=
  fuel ← gets fuel_of; strcasecmp_loop fuel s1 s2.

(** The inner [for] of [strspn] and [strcspn]: does [c] occur in the string at [a]? *)
Fixpoint char_in (fuel : nat) (c a : Z) : M mem bool :=
  match fuel with
  | O => fail Fuel
  | S fuel =>
      d ← load8 a;
      if d =? 0 then mret false
      else if c =? d then mret true else char_in fuel c (a + 1)
  end.

Fixpoint span_loop (stop : bool) (fuel : nat) (p set count : Z) : M mem Z :=
  match fuel with
  | O => fail Fuel
  | S fuel =>
      c ← load8 p;
      if c =? 0 then mret count
      else
        f ← gets fuel_of; b ← char_in f c set;
        if Bool.eqb b stop then mret count
        else span_loop stop fuel (p + 1) set (count + 1)
  end.

Definition strspn (s accept : Z) : M mem Z :=
  fuel ← gets fuel_of; span_loop false fuel s accept 0.

Definition strcspn (s reject : Z) : M mem Z :=
  fuel ← gets fuel_of; span_loop true fuel s reject 0.

(** [strtok] keeps its position in the static variable [lasts] ([0] is NULL). *)
Record strtok_state := { st_mem : mem; st_lasts : Z }.
Definition on_mem {A} : M mem A → M strtok_state A :=
  zoom st_mem (λ m s, {| st_mem := m; st_lasts := st_lasts s |}).
Definition set_lasts (p : Z) : M strtok_state unit :=
  modify (λ s, {| st_mem := st_mem s; st_lasts := p |}).

Definition strtok (str delim : Z) : M strtok_state Z :=
  lasts ← gets st_lasts;
  let sbegin := if str =? 0 then lasts else str in
  if sbegin =? 0 then mret 0
  else
    n ← on_mem (strspn sbegin delim);
    let sbegin := sbegin + n in
    c ← on_mem (load8 sbegin);
    if c =? 0 then set_lasts 0;; mret 0
    else
      k ← on_mem (strcspn sbegin delim);
      let send := sbegin + k in
      d ← on_mem (load8 send);
      if negb (d =? 0) then
        on_mem (store8 send 0);; set_lasts (send + 1);; mret sbegin
      else set_lasts send;; mret sbegin.

(** ** Memory blocks *)
Section blocks.
(** The destination does not overwrite source bytes that are still to be read
    by an ascending copy. *)
Definition ascending (dst src n : Z) : Prop := dst ≤ src ∨ src + n ≤ dst.

Lemma memset_loop_ok n s c m : mapped m s (Z.of_nat n) →
  memset_loop n s c m = Ok (s + Z.of_nat n, write_bytes s (replicate n (u8 c)) m).
Proof.
  revert s m. induction n as [|n IH]; intros s m H; cbn [memset_loop replicate write_bytes].
  - by rewrite Z.add_0_r.
  - mstep_by store8_ok; [|apply H; lia]. change 256 with (2 ^ 8). fold (wrap 8 (u8 c)).
    rewrite wrap_wrap by lia. rewrite IH; [do 2 f_equal; lia|].
    eapply mapped_dom; [symmetry; apply insert_dom, H; lia|]. intros x Hx. apply H. lia.
Qed.

Lemma memcpy_loop_ok l out in_ m : mem_at m in_ l → bytes l →
  mapped m out (Z.of_nat (length l)) → ascending out in_ (Z.of_nat (length l)) →
  memcpy_loop (length l) out in_ m = Ok (out + Z.of_nat (length l), write_bytes out l m).
Proof.
  revert out in_ m. induction l as [|b l IH]; intros out in_ m Hl Hb Hm Ha;
    cbn [memcpy_loop length write_bytes]; [by rewrite Z.add_0_r|].
  apply Forall_cons in Hb as [Hb Hbs]. apply mem_at_cons in Hl as [H0 Hl]. simpl in Hm, Ha.
  mstep_by (load8_ok m in_ b); [|done]. mstep_by store8_ok; [|apply Hm; lia].
  rewrite Z.mod_small by done. rewrite IH; [do 2 f_equal; lia|..].
  - intros i c Hi. rewrite lookup_insert_ne; [by apply Hl|].
    apply lookup_lt_Some in Hi. unfold ascending in Ha. lia.
  - done.
  - eapply mapped_dom; [symmetry; apply insert_dom, Hm; lia|]. intros x Hx. apply Hm. lia.
  - unfold ascending in *. lia.
Qed.

Lemma write_bytes_insert_comm a l x b m :
  ¬ (a ≤ x < a + Z.of_nat (length l)) →
  write_bytes a l (<[x := b]> m) = <[x := b]> (write_bytes a l m).
Proof.
  revert a m. induction l as [|c l IH]; intros a m Hx; simpl in *; [done|].
  rewrite insert_insert_ne by lia. apply IH. lia.
Qed.

Lemma write_bytes_snoc a l b m :
  write_bytes a (l ++ [b]) m = write_bytes a l (<[a + Z.of_nat (length l) := b]> m).
Proof. rewrite write_bytes_app, write_bytes_insert_comm; [done|lia]. Qed.

Lemma memmove_back_ok l dst src m : mem_at m src l → bytes l →
  mapped m dst (Z.of_nat (length l)) → src ≤ dst →
  memmove_back (length l) (dst + Z.of_nat (length l) - 1) (src + Z.of_nat (length l) - 1) m
  = Ok (dst - 1, write_bytes dst l m).
Proof.
  revert m. induction l as [|b l IH] using rev_ind; intros m Hl Hb Hm Hd.
  - cbn. unfold mret, M_ret. do 2 f_equal. lia.
  - rewrite length_app, Nat2Z.inj_add, Nat.add_1_r in *. simpl length in *.
    apply Forall_app in Hb as [Hbl Hb]. apply Forall_cons in Hb as [Hb _].
    apply mem_at_app in Hl as [Hl Hb0]. apply mem_at_cons in Hb0 as [Hb0 _].
    cbn [memmove_back].
    replace (src + (Z.of_nat (length l) + Z.of_nat 1) - 1) with (src + Z.of_nat (length l)) by lia.
    replace (dst + (Z.of_nat (length l) + Z.of_nat 1) - 1) with (dst + Z.of_nat (length l)) by lia.
    mstep_by (load8_ok m (src + Z.of_nat (length l)) b); [|done].
    mstep_by store8_ok; [|apply Hm; lia]. rewrite Z.mod_small by done.
    rewrite write_bytes_snoc. apply IH; [|done| |done].
    + intros i c Hi. rewrite lookup_insert_ne; [by apply Hl|].
      apply lookup_lt_Some in Hi. lia.
    + eapply mapped_dom; [symmetry; apply insert_dom, Hm; lia|]. intros x Hx. apply Hm. lia.
Qed.

(** [memset] fills exactly [n] bytes and returns the pointer past them. *)
Lemma memset_ok s c n m : 0 ≤ n → mapped m s n →
  memset s c n m = Ok (s + n, write_bytes s (replicate (Z.to_nat n) (u8 c)) m).
Proof.
  intros Hn H. unfold memset. rewrite memset_loop_ok; rewrite Z2Nat.id by lia; done.
Qed.

Lemma memcpy_ok l out in_ n m : n = Z.of_nat (length l) → mem_at m in_ l → bytes l →
  mapped m out n → ascending out in_ n →
  memcpy out in_ n m = Ok (out + n, write_bytes out l m).
Proof. intros -> **. unfold memcpy. rewrite Nat2Z.id. by apply memcpy_loop_ok. Qed.

Lemma memmove_ok l dst src n m : n = Z.of_nat (length l) → mem_at m src l → bytes l →
  mapped m dst n →
  memmove dst src n m =
    Ok (if (src <? dst) && (dst <=? src + n) then dst - 1 else dst, write_bytes dst l m).
Proof.
  intros -> Hl Hb Hm. unfold memmove.
  destruct ((src <? dst) && (dst <=? src + Z.of_nat (length l))) eqn:E.
  - rewrite Nat2Z.id. apply memmove_back_ok; [done..|lia].
  - apply andb_false_iff in E. mstep_by memcpy_ok; [done|done..|].
    unfold ascending. lia.
Qed.

(** C35: for every placement of source and destination, overlapping or not, [memmove]
    leaves at [dst] the bytes that were at [src] before the call and changes nothing
    else; it returns [dst], except on the descending branch, which leaves [dst - 1]. *)
Theorem memmove_correct l dst src n m : n = Z.of_nat (length l) → mem_at m src l → bytes l →
  mapped m dst n →
  memmove dst src n m =
    Ok (if (src <? dst) && (dst <=? src + n) then dst - 1 else dst, write_bytes dst l m).
Proof. apply memmove_ok. Qed.

Definition ex_mem : mem := write_bytes 100 [1; 2; 3; 4; 0; 0; 0; 0] ∅.

Lemma memmove_correct_witness :
  memmove 102 100 4 ex_mem = Ok (101, write_bytes 102 [1; 2; 3; 4] ex_mem).
Proof.
  apply (memmove_correct [1; 2; 3; 4] 102 100 4 ex_mem).
  - reflexivity.
  - apply (mem_at_app _ _ _ [0; 0; 0; 0]), write_bytes_at.
  - repeat constructor; done.
  - intros x Hx.
    assert (x = 102 ∨ x = 103 ∨ x = 104 ∨ x = 105) as [->|[->|[->| ->]]] by lia;
      eexists; vm_compute; reflexivity.
Defined.
End blocks.

(** ** Every memory: enough fuel, and the outcome *)
Section termination.
Lemma room_fuel m a : (room m a < fuel_of m)%nat.
Proof. pose proof (room_size m a). unfold fuel_of. lia. Qed.

(** The bytes from [a] on to the first NUL ([true]) or to the end of memory ([false]). *)
Inductive str_run (m : mem) : Z → list Z → bool → Prop :=
| run_nul a : m !! a = Some 0 → str_run m a [] true
| run_end a : m !! a = None → str_run m a [] false
| run_char a c l z : m !! a = Some c → 0 < c < 256 → str_run m (a + 1) l z → str_run m a (c :: l) z.

(** Exactly [k] mapped addresses from [a] on. *)
Definition extent (m : mem) (a k : Z) : Prop := 0 ≤ k ∧ mapped m a k ∧ m !! (a + k) = None.

Definition at_end {A} (a : Z) (z : bool) (r : res A) : res A := if z then r else Err (Fault a).

(** Copying the run [l] at [src], with [k] addresses at [dst].  A destination inside the run
    overwrites the NUL before it is read: the copy goes on to the end of memory. *)
Definition copied (m : mem) (dst src : Z) (l : list Z) (z : bool) (k : Z) : res mem :=
  let n := Z.of_nat (length l) in
  if bool_decide (src < dst ≤ src + n) || (k <? n + Z.b2z z) then Err (Fault (dst + k))
  else at_end (src + n) z (Ok (write_bytes dst (l ++ [0]) m)).

(** The characters of the run [l] against those of [t], that ends at [q]. *)
Fixpoint span_res (stop : bool) (l t : list Z) (z y : bool) (p q n : Z) : res Z :=
  match l with
  | [] => at_end p z (Ok n)
  | c :: l =>
      b ← (if bool_decide (c ∈ t) then Ok true else at_end q y (Ok false));
      if Bool.eqb b stop then Ok n else span_res stop l t z y (p + 1) q (n + 1)
  end.

Lemma run_exists m fuel a : (∀ x b, m !! x = Some b → byte b) → (room m a < fuel)%nat →
  ∃ l z, str_run m a l z ∧ (length l < fuel)%nat.
Proof.
  intros Hb. revert a. induction fuel as [|fuel IH]; intros a H; [lia|].
  destruct (m !! a) as [c|] eqn:E; [|exists [], false; split; [by constructor|simpl; lia]].
  destruct (decide (c = 0)) as [->|Hc]; [exists [], true; split; [by constructor|simpl; lia]|].
  pose proof (room_step m a ltac:(eauto)). destruct (IH (a + 1)) as (l & z & Hr & Hl); [lia|].
  exists (c :: l), z. split; [|simpl; lia]. specialize (Hb a c E). unfold byte in Hb.
  constructor; [done|lia|done].
Qed.

Lemma extent_step m a k : m !! a ≠ None → extent m a k ↔ 0 < k ∧ extent m (a + 1) (k - 1).
Proof.
  intros Ha. unfold extent. replace (a + 1 + (k - 1)) with (a + k) by lia. split.
  - intros (Hk & Hm & He). assert (k ≠ 0) by (intros ->; rewrite Z.add_0_r in He; done).
    split_and!; [lia|lia| |done]. intros x Hx. apply Hm. lia.
  - intros (Hk & _ & Hm & He). split_and!; [lia| |done]. intros x Hx.
    destruct (decide (x = a)) as [->|]; [by apply not_eq_None_Some|apply Hm; lia].
Qed.

Lemma extent_zero m a k : extent m a k → m !! a = None → k = 0.
Proof.
  intros (Hk & Hm & _) Ha. destruct (decide (k = 0)); [done|].
  destruct (Hm a ltac:(lia)) as [b Hb]. congruence.
Qed.

Lemma extent_exists m fuel a : (room m a < fuel)%nat → ∃ k, extent m a k ∧ k < Z.of_nat fuel.
Proof.
  revert a. induction fuel as [|fuel IH]; intros a H; [lia|].
  destruct (m !! a) as [b|] eqn:E.
  - pose proof (room_step m a ltac:(eauto)). destruct (IH (a + 1)) as (k & Hk & Hl); [lia|].
    exists (k + 1). split; [|lia]. apply extent_step; [congruence|].
    replace (k + 1 - 1) with k by lia. split; [destruct Hk; lia|done].
  - exists 0. split; [|lia]. split_and!; [done| |by rewrite Z.add_0_r]. intros x Hx. lia.
Qed.

Lemma extent_insert m a k x b : m !! x ≠ None → extent m a k → extent (<[x := b]> m) a k.
Proof.
  intros Hx (Hk & Hm & He). split_and!; [done| |].
  - eapply mapped_dom; [symmetry; apply insert_dom; by apply not_eq_None_Some|done].
  - rewrite lookup_insert_ne; [done|]. by intros ->.
Qed.

Lemma run_insert m a l z x b : m !! x ≠ None → (x < a ∨ a + Z.of_nat (length l) < x) →
  str_run m a l z → str_run (<[x := b]> m) a l z.
Proof.
  intros Hx Ha Hr. induction Hr as [a E|a E|a c l z E Hc _ IH]; simpl in Ha.
  - apply run_nul. by rewrite lookup_insert_ne by lia.
  - apply run_end. rewrite lookup_insert_ne; [done|]. by intros ->.
  - apply run_char; [by rewrite lookup_insert_ne by lia|done|]. apply IH. lia.
Qed.

Lemma run_cells m a l z x : str_run m a l z → a ≤ x < a + Z.of_nat (length l) →
  ∃ c, m !! x = Some c ∧ 0 < c < 256.
Proof.
  induction 1 as [| |a c l z E Hc _ IH]; simpl; intros Hx; [lia..|].
  destruct (decide (x = a)) as [->|]; [by exists c|apply IH; lia].
Qed.

Lemma strlen_loop_run fuel m a l z : str_run m a l z → (length l < fuel)%nat →
  strlen_loop fuel a m = at_end (a + Z.of_nat (length l)) z (Ok (a + Z.of_nat (length l), m)).
Proof.
  intros Hr. revert fuel. induction Hr as [a E|a E|a c l z E Hc _ IH]; intros [|fuel] Hf;
    cbn [length] in *; try lia; cbn [strlen_loop].
  - rewrite (bind_ok _ _ _ _ _ (load8_ok _ _ _ E)). by rewrite Z.add_0_r.
  - rewrite (bind_err _ _ _ _ (load8_none _ _ E)). by rewrite Z.add_0_r.
  - rewrite (bind_ok _ _ _ _ _ (load8_ok _ _ _ E)), (proj2 (Z.eqb_neq c 0)), IH by lia.
    by replace (a + 1 + Z.of_nat (length l)) with (a + Z.of_nat (S (length l))) by lia.
Qed.

Lemma char_in_run fuel c m a t y : str_run m a t y → (length t < fuel)%nat →
  char_in fuel c a m = if bool_decide (c ∈ t) then Ok (true, m)
    else at_end (a + Z.of_nat (length t)) y (Ok (false, m)).
Proof.
  intros Hr. revert fuel. induction Hr as [a E|a E|a e l z E He _ IH]; intros [|fuel] Hf;
    cbn [length] in *; try lia; cbn [char_in].
  - rewrite (bind_ok _ _ _ _ _ (load8_ok _ _ _ E)). done.
  - rewrite (bind_err _ _ _ _ (load8_none _ _ E)). by rewrite Z.add_0_r.
  - rewrite (bind_ok _ _ _ _ _ (load8_ok _ _ _ E)), (proj2 (Z.eqb_neq e 0)) by lia.
    destruct (Z.eqb_spec c e) as [->|Hn]; [by rewrite bool_decide_eq_true_2 by (by left)|].
    rewrite IH by lia. replace (a + 1 + Z.of_nat (length l)) with (a + Z.of_nat (S (length l))) by lia.
    by rewrite (bool_decide_ext (c ∈ e :: l) (c ∈ l)) by (rewrite elem_of_cons; tauto).
Qed.

Lemma span_loop_run stop fuel m p l z set t y n : str_run m p l z → str_run m set t y →
  (length l < fuel)%nat → (length t < fuel_of m)%nat →
  span_loop stop fuel p set n m =
    (n ← span_res stop l t z y p (set + Z.of_nat (length t)) n; Ok (n, m)).
Proof.
  intros Hr Ht Hf Hft. revert fuel n Hf. induction Hr as [a E|a E|a c l z E Hc _ IH]; intros [|fuel] n Hf;
    cbn [length] in *; try lia; cbn [span_loop span_res].
  - by rewrite (bind_ok _ _ _ _ _ (load8_ok _ _ _ E)).
  - by rewrite (bind_err _ _ _ _ (load8_none _ _ E)).
  - rewrite (bind_ok _ _ _ _ _ (load8_ok _ _ _ E)), (proj2 (Z.eqb_neq c 0)) by lia.
    rewrite (bind_ok _ _ _ (fuel_of m) m) by done.
    pose proof (char_in_run (fuel_of m) c m set t y Ht Hft) as C. unfold at_end in *.
    destruct (bool_decide (c ∈ t)); [|destruct y]; [rewrite (bind_ok _ _ _ _ _ C)..|by rewrite (bind_err _ _ _ _ C)];
      destruct stop; cbn [Bool.eqb mbind res_bind]; try done; apply IH; lia.
Qed.

(** The destination is not inside the run. *)
Lemma strcpy_loop_run l : ∀ fuel m src z dst k, str_run m src l z → extent m dst k →
  ¬ (src < dst ≤ src + Z.of_nat (length l)) → (length l < fuel)%nat →
  strcpy_loop fuel dst src m = (m' ← copied m dst src l z k; Ok (tt, m')).
Proof.
  induction l as [|c l IH]; intros [|fuel] m src z dst k Hr Hk Hn Hf; cbn [length] in *; try lia;
    cbn [strcpy_loop]; unfold copied; rewrite bool_decide_eq_false_2 by done; cbn [orb length app write_bytes].
  - inversion Hr as [? E|? E|]; subst.
    + rewrite (bind_ok _ _ _ _ _ (load8_ok _ _ _ E)). cbn [Z.eqb Z.b2z].
      destruct (m !! dst) as [b|] eqn:Ed.
      * rewrite store8_ok by eauto. pose proof (proj1 (extent_step m dst k ltac:(congruence)) Hk) as [? _].
        destruct (Z.ltb_spec k (Z.of_nat 0 + 1)); [lia|done].
      * rewrite (extent_zero _ _ _ Hk Ed). unfold store. simpl. by rewrite Ed, Z.add_0_r.
    + rewrite (bind_err _ _ _ _ (load8_none _ _ E)). destruct Hk as [? _].
      destruct (Z.ltb_spec k (Z.of_nat 0 + Z.b2z false)); [simpl in *; lia|]. simpl. by rewrite Z.add_0_r.
  - inversion Hr as [| |? ? ? ? E Hc Hl]; subst.
    rewrite (bind_ok _ _ _ _ _ (load8_ok _ _ _ E)), (proj2 (Z.eqb_neq c 0)) by lia.
    destruct (m !! dst) as [b|] eqn:Ed.
    + rewrite (bind_ok _ _ _ tt (<[dst := c]> m)).
      2:{ rewrite store8_ok by eauto. by rewrite Z.mod_small by lia. }
      pose proof (proj1 (extent_step m dst k ltac:(congruence)) Hk) as [? Hk'].
      rewrite (IH fuel (<[dst := c]> m) (src + 1) z (dst + 1) (k - 1)); [|by apply run_insert; [congruence|lia|]
        |by apply extent_insert; [congruence|]|lia..].
      unfold copied. rewrite bool_decide_eq_false_2 by lia. cbn [orb].
      replace (dst + 1 + (k - 1)) with (dst + k) by lia.
      replace (src + 1 + Z.of_nat (length l)) with (src + Z.of_nat (S (length l))) by lia.
      by destruct (Z.ltb_spec (k - 1) (Z.of_nat (length l) + Z.b2z z)),
        (Z.ltb_spec k (Z.of_nat (S (length l)) + Z.b2z z)); try lia.
    + rewrite (extent_zero _ _ _ Hk Ed), Z.add_0_r. destruct (Z.ltb_spec 0 (Z.of_nat (S (length l)) + Z.b2z z)).
      2:{ destruct z; simpl in *; lia. }
      rewrite (bind_err _ _ _ (Fault dst)); [done|]. unfold store. simpl. by rewrite Ed.
Qed.

(** The destination is inside: no NUL is ever read. *)
Lemma strcpy_loop_over fuel : ∀ m src dst k, src < dst → extent m dst k → k < Z.of_nat fuel →
  (∀ x, src ≤ x < dst → ∃ c, m !! x = Some c ∧ 0 < c < 256) →
  strcpy_loop fuel dst src m = Err (Fault (dst + k)).
Proof.
  induction fuel as [|fuel IH]; intros m src dst k Hlt Hk Hf Hc; [destruct Hk; lia|]. cbn [strcpy_loop].
  destruct (Hc src ltac:(lia)) as (c & E & Hcb).
  rewrite (bind_ok _ _ _ _ _ (load8_ok _ _ _ E)), (proj2 (Z.eqb_neq c 0)) by lia.
  destruct (m !! dst) as [b|] eqn:Ed.
  - rewrite (bind_ok _ _ _ tt (<[dst := c]> m)).
    2:{ rewrite store8_ok by eauto. by rewrite Z.mod_small by lia. }
    pose proof (proj1 (extent_step m dst k ltac:(congruence)) Hk) as [? Hk'].
    replace (dst + k) with (dst + 1 + (k - 1)) by lia.
    apply IH; [lia|by apply extent_insert; [congruence|]|lia|]. intros x Hx.
    destruct (decide (x = dst)) as [->|]; [exists c; by rewrite lookup_insert_eq|].
    rewrite lookup_insert_ne by done. apply Hc. lia.
  - rewrite (extent_zero _ _ _ Hk Ed), Z.add_0_r.
    rewrite (bind_err _ _ _ (Fault dst)); [done|]. unfold store. simpl. by rewrite Ed.
Qed.

Lemma strcpy_loop_all m src l z dst k : str_run m src l z → extent m dst k →
  (length l < fuel_of m)%nat → k < Z.of_nat (fuel_of m) →
  strcpy_loop (fuel_of m) dst src m = (m' ← copied m dst src l z k; Ok (tt, m')).
Proof.
  intros Hr Hk Hf Hfk. destruct (decide (src < dst ≤ src + Z.of_nat (length l))) as [Hin|Hin].
  - unfold copied. rewrite bool_decide_eq_true_2 by done. cbn [orb].
    apply (strcpy_loop_over (fuel_of m) m src dst k); [lia|done|done|]. intros x Hx.
    apply (run_cells m src l z x Hr). lia.
  - by apply (strcpy_loop_run l).
Qed.

Lemma run_extent m a l z k : str_run m a l z → extent m a k →
  extent m (a + Z.of_nat (length l)) (k - Z.of_nat (length l)).
Proof.
  intros Hr. revert k. induction Hr as [a E|a E|a c l z E Hc _ IH]; intros k Hk.
  - by rewrite Z.add_0_r, Z.sub_0_r.
  - by rewrite Z.add_0_r, Z.sub_0_r.
  - apply extent_step in Hk as [_ Hk]; [|congruence]. apply IH in Hk. simpl.
    replace (a + Z.of_nat (S (length l))) with (a + 1 + Z.of_nat (length l)) by lia.
    by replace (k - Z.of_nat (S (length l))) with (k - 1 - Z.of_nat (length l)) by lia.
Qed.

(** C36: what the string loops do on every memory of bytes, whether a string is terminated or
    not and however source and destination lie.  From [s] and from [d] there is a longest run of
    characters, ended by a NUL or by the end of memory.  [strlen] counts the run or traps at its
    end.  [strcpy] and [strcat] copy it with its NUL, or trap at the first address that is
    missing: of the destination when that is too short or begins inside the run (the NUL is
    overwritten before it is read), of the source when that has no NUL.  [strspn] and [strcspn]
    go by the first character that decides.  So every call ends, in a value or at an address that
    is not mapped. *)
Theorem string_loops_terminate m s d : (∀ a b, m !! a = Some b → byte b) →
  ∃ l z t y k, str_run m s l z ∧ str_run m d t y ∧ extent m d k ∧
    let ls := Z.of_nat (length l) in let ld := Z.of_nat (length t) in
    strlen s m = at_end (s + ls) z (Ok (ls, m)) ∧
    strcpy d s m = (m' ← copied m d s l z k; Ok (d, m')) ∧
    strcat d s m = at_end (d + ld) y (m' ← copied m (d + ld) s l z (k - ld); Ok (d, m')) ∧
    strspn s d m = (n ← span_res false l t z y s (d + ld) 0; Ok (n, m)) ∧
    strcspn s d m = (n ← span_res true l t z y s (d + ld) 0; Ok (n, m)).
Proof.
  intros Hb. destruct (run_exists m (fuel_of m) s Hb (room_fuel m s)) as (l & z & Hs & Hl).
  destruct (run_exists m (fuel_of m) d Hb (room_fuel m d)) as (t & y & Hd & Ht).
  destruct (extent_exists m (fuel_of m) d (room_fuel m d)) as (k & Hk & Hkf).
  assert (∀ A (f : nat → M mem A), (gets fuel_of ≫= f) m = f (fuel_of m) m) as G by done.
  exists l, z, t, y, k. do 3 (split; [done|]). cbv zeta.
  split_and!; unfold strlen, strcpy, strcat, strspn, strcspn; rewrite G.
  - unfold mbind, M_bind. rewrite (strlen_loop_run _ m s l z) by done. destruct z; [|done].
    unfold at_end, mret, M_ret. do 2 f_equal. lia.
  - unfold mbind at 1, M_bind. rewrite (strcpy_loop_all m s l z d k) by done. by destruct (copied m d s l z k).
  - unfold mbind at 1, M_bind at 1. rewrite (strlen_loop_run _ m d t y) by done. destruct y; [|done]. cbn [at_end].
    unfold mbind at 1, M_bind at 1. rewrite (strcpy_loop_all m s l z _ (k - Z.of_nat (length t))); [|done|by eapply run_extent|done|lia].
    by destruct (copied m _ s l z _).
  - by apply span_loop_run.
  - by apply span_loop_run.
Qed.

(** Four characters without a NUL at the end of memory, before them a string. *)
Definition ex_runs : mem := write_bytes 16 [104; 105; 0; 97; 98; 99; 100] ∅.

Lemma ex_runs_bytes a b : ex_runs !! a = Some b → byte b.
Proof.
  unfold ex_runs. cbn [write_bytes]. intros Hb.
  repeat (apply lookup_insert_Some in Hb as [[_ <-]|[_ Hb]]; [by unfold byte|]). by rewrite lookup_empty in Hb.
Qed.

Lemma string_loops_terminate_witness :
  ∃ l z, str_run ex_runs 19 l z ∧ strlen 19 ex_runs = at_end (19 + Z.of_nat (length l)) z (Ok (Z.of_nat (length l), ex_runs)).
Proof.
  destruct (string_loops_terminate ex_runs 19 16 ex_runs_bytes) as (l & z & t & y & k & Hs & _ & _ & E & _).
  exists l, z. split; [exact Hs|exact E].
Defined.

Example strlen_past_end : strlen 19 ex_runs = Err (Fault 23) ∧ strcpy 17 16 ex_runs = Err (Fault 23) ∧
  strcpy 18 19 ex_runs = Err (Fault 23) ∧ strcspn 19 16 ex_runs = Err (Fault 23).
Proof. by vm_compute. Qed.
End termination.

(** ** Strings *)
Section strings.
Lemma strlen_loop_ok fuel m a s : cstr m a s → (length s < fuel)%nat →
  strlen_loop fuel a m = Ok (a + Z.of_nat (length s), m).
Proof.
  revert a s. induction fuel as [|fuel IH]; intros a s Hs Hf; [lia|]. cbn [strlen_loop].
  destruct s as [|c s].
  - apply cstr_nil in Hs. mstep_by load8_ok; [|done]. simpl. by rewrite Z.add_0_r.
  - apply cstr_cons in Hs as (Hc & Hr & Hs). mstep_by load8_ok; [|done].
    rewrite (proj2 (Z.eqb_neq c 0)) by lia. simpl in Hf. rewrite (IH _ s) by (done || lia).
    do 2 f_equal. simpl. lia.
Qed.

(** [strlen] returns the number of bytes before the NUL and changes nothing. *)
Lemma strlen_ok m a s : cstr m a s → strlen a m = Ok (Z.of_nat (length s), m).
Proof.
  intros H. unfold strlen. mstep. mstep_by strlen_loop_ok; [|done|by eapply cstr_fuel].
  unfold mret, M_ret. do 2 f_equal. lia.
Qed.

Lemma strcpy_loop_ok fuel m dst src s : cstr m src s → (length s < fuel)%nat →
  mapped m dst (Z.of_nat (length s) + 1) → ascending dst src (Z.of_nat (length s) + 1) →
  strcpy_loop fuel dst src m = Ok (tt, write_bytes dst (s ++ [0]) m).
Proof.
  revert dst src m s. induction fuel as [|fuel IH]; intros dst src m s Hs Hf Hm Ha; [lia|].
  cbn [strcpy_loop]. destruct s as [|c s].
  - apply cstr_nil in Hs. mstep_by load8_ok; [|done]. simpl.
    apply store8_ok. apply Hm. simpl. lia.
  - apply cstr_cons in Hs as (Hc & Hr & Hs). mstep_by load8_ok; [|done].
    rewrite (proj2 (Z.eqb_neq c 0)) by lia. simpl in Hf, Hm, Ha.
    mstep_by store8_ok; [|apply Hm; lia]. rewrite Z.mod_small by lia.
    rewrite (IH _ _ _ s); [done| |lia| |].
    + eapply cstr_only; [done|apply (write_bytes_only dst [c])|].
      simpl. unfold ascending in Ha. lia.
    + eapply mapped_dom; [symmetry; apply insert_dom, Hm; lia|]. intros x Hx. apply Hm. lia.
    + unfold ascending in *. lia.
Qed.

(** [strcpy] copies the string and its NUL, touches exactly [length + 1] bytes at [dst]
    and returns [dst]; source and destination may overlap when [dst] is below [src]. *)
Theorem strcpy_correct m dst src s : cstr m src s → mapped m dst (Z.of_nat (length s) + 1) →
  ascending dst src (Z.of_nat (length s) + 1) →
  strcpy dst src m = Ok (dst, write_bytes dst (s ++ [0]) m).
Proof.
  intros. unfold strcpy. mstep. mstep_by strcpy_loop_ok; [done|done|by eapply cstr_fuel|done..].
Qed.

Definition ex_str : mem := write_bytes 64 (replicate 8 7) (write_bytes 16 [104; 105; 0] ∅).

Lemma ex_str_hi : cstr ex_str 16 [104; 105].
Proof. split; [|repeat constructor]. intros [|[|[|i]]] b Hi; simplify_eq/=; done. Qed.

Lemma ex_str_mapped n : 0 ≤ n ≤ 8 → mapped ex_str 64 n.
Proof.
  intros Hn. apply (mapped_mem_at_part ex_str 64 8 n); [|lia].
  apply (mem_at_mapped _ _ (replicate 8 7)), write_bytes_at.
Qed.

Lemma strcpy_correct_witness : strcpy 64 16 ex_str = Ok (64, write_bytes 64 [104; 105; 0] ex_str).
Proof.
  apply (strcpy_correct ex_str 64 16 [104; 105]).
  - exact ex_str_hi.
  - apply ex_str_mapped. simpl. lia.
  - unfold ascending. simpl. lia.
Defined.

Lemma strncpy_fill_ok n dst m : mapped m dst (Z.of_nat n) →
  strncpy_fill n dst m = Ok (tt, write_bytes dst (replicate n 0) m).
Proof.
  revert dst m. induction n as [|n IH]; intros dst m Hm; [done|]. cbn [strncpy_fill].
  mstep_by store8_ok; [|apply Hm; lia]. change (0 mod 256) with 0. rewrite IH; [done|].
  eapply mapped_dom; [symmetry; apply insert_dom, Hm; lia|]. intros x Hx. apply Hm. lia.
Qed.

Lemma strncpy_loop_ok n m dst src s : cstr m src s → mapped m dst (Z.of_nat n) →
  ascending dst src (Z.of_nat (length s) + 1) →
  strncpy_loop n dst src m =
    Ok (tt, write_bytes dst (take n s ++ replicate (n - length s) 0) m).
Proof.
  revert dst src m s. induction n as [|n IH]; intros dst src m s Hs Hm Ha.
  - cbn [strncpy_loop]. destruct s as [|c s].
    + apply cstr_nil in Hs. by mstep_by load8_ok.
    + apply cstr_cons in Hs as (Hc & _). by mstep_by load8_ok.
  - cbn [strncpy_loop]. destruct s as [|c s].
    + apply cstr_nil in Hs. mstep_by load8_ok; [|done].
      exact (strncpy_fill_ok (S n) dst m Hm).
    + apply cstr_cons in Hs as (Hc & Hr & Hs). mstep_by load8_ok; [|done].
      rewrite (proj2 (Z.eqb_neq c 0)) by lia. simpl in Ha.
      mstep_by store8_ok; [|apply Hm; lia]. rewrite Z.mod_small by lia.
      rewrite (IH _ _ _ s); [done| | |].
      * eapply cstr_only; [done|apply (write_bytes_only dst [c])|].
        simpl. unfold ascending in Ha. lia.
      * eapply mapped_dom; [symmetry; apply insert_dom, Hm; lia|]. intros x Hx. apply Hm. lia.
      * unfold ascending in *. lia.
Qed.

(** [strncpy] writes exactly [n] bytes: the first [n] of the string, padded with NULs;
    a string of [n] characters or more is left without terminator. *)
Theorem strncpy_correct m dst src s n : 0 ≤ n → cstr m src s → mapped m dst n →
  ascending dst src (Z.of_nat (length s) + 1) →
  strncpy dst src n m =
    Ok (dst, write_bytes dst (take (Z.to_nat n) s ++ replicate (Z.to_nat n - length s) 0) m).
Proof.
  intros. unfold strncpy.
  mstep_by strncpy_loop_ok; [done|done|by rewrite Z2Nat.id|done].
Qed.

Lemma strncpy_correct_witness :
  strncpy 64 16 5 ex_str = Ok (64, write_bytes 64 [104; 105; 0; 0; 0] ex_str) ∧
  strncpy 64 16 1 ex_str = Ok (64, write_bytes 64 [104] ex_str).
Proof.
  split.
  - apply (strncpy_correct ex_str 64 16 [104; 105] 5); [lia|exact ex_str_hi| |].
    + apply ex_str_mapped. lia.
    + unfold ascending. simpl. lia.
  - apply (strncpy_correct ex_str 64 16 [104; 105] 1); [lia|exact ex_str_hi| |].
    + apply ex_str_mapped. lia.
    + unfold ascending. simpl. lia.
Defined.

(** [strcat] appends: the string at [dst] becomes the concatenation. *)
Lemma strcat_ok m dst src s t : cstr m dst s → cstr m src t →
  mapped m (dst + Z.of_nat (length s)) (Z.of_nat (length t) + 1) →
  ascending (dst + Z.of_nat (length s)) src (Z.of_nat (length t) + 1) →
  strcat dst src m = Ok (dst, write_bytes (dst + Z.of_nat (length s)) (t ++ [0]) m).
Proof.
  intros Hs Ht Hm Ha. unfold strcat. mstep.
  mstep_by strlen_loop_ok; [|done|by eapply cstr_fuel].
  mstep_by strcpy_loop_ok; [done|done|by eapply cstr_fuel|done..].
Qed.

Lemma strcat_cstr m dst src s t : cstr m dst s → cstr m src t →
  mapped m (dst + Z.of_nat (length s)) (Z.of_nat (length t) + 1) →
  ascending (dst + Z.of_nat (length s)) src (Z.of_nat (length t) + 1) →
  ∃ m', strcat dst src m = Ok (dst, m') ∧ cstr m' dst (s ++ t).
Proof.
  intros Hs Ht Hm Ha. eexists. split; [by apply strcat_ok|].
  destruct Hs as [Hs Hcs], Ht as [Ht Hct].
  split; [|by apply Forall_app]. rewrite <- app_assoc. apply mem_at_app.
  split; [|apply write_bytes_at]. apply mem_at_app in Hs as [Hs _].
  apply write_bytes_mem_at_ne; [done|]. lia.
Qed.
End strings.

(** ** Comparison *)

(** The value C's comparison of two NUL-terminated strings has: the difference of the first
    characters that differ, the terminator counting as [0]. *)
Fixpoint cmp_spec (l1 l2 : list Z) : Z :=
  match l1, l2 with
  | [], [] => 0
  | [], c2 :: _ => - s8 c2
  | c1 :: _, [] => s8 c1
  | c1 :: l1, c2 :: l2 => if c1 =? c2 then cmp_spec l1 l2 else s8 c1 - s8 c2
  end.

Section compare.
Lemma s8_0 : s8 0 = 0.
Proof. reflexivity. Qed.

Lemma s8_nonzero c : 0 < c < 256 → s8 c ≠ 0.
Proof.
  intros Hc H. rewrite <- s8_0 in H. apply s8_inj in H; unfold byte; lia.
Qed.

Lemma cmp_spec_eq l1 l2 : chars l1 → chars l2 → cmp_spec l1 l2 = 0 ↔ l1 = l2.
Proof.
  intros H1. revert l2. induction H1 as [|c1 l1 Hc1 H1 IH]; intros l2 H2;
    destruct H2 as [|c2 l2 Hc2 H2]; cbn [cmp_spec].
  - done.
  - pose proof (s8_nonzero c2 Hc2). split; [lia|done].
  - pose proof (s8_nonzero c1 Hc1). split; [lia|done].
  - destruct (Z.eqb_spec c1 c2) as [->|Hne].
    + rewrite IH by done. naive_solver.
    + split; [|naive_solver]. intros E. destruct Hne. apply s8_inj; unfold byte; lia.
Qed.

(** One iteration of the loop, its test on [n] as a test. *)
Lemma strncmp_loop_step n s1 s2 m :
  strncmp_loop n s1 s2 m =
    (c1 ← load8 s1; c2 ← load8 s2;
     if negb (c1 =? 0) && (c1 =? c2) && (1 <? Z.of_nat n)
     then strncmp_loop (n - 1) (s1 + 1) (s2 + 1) else mret (s8 c1 - s8 c2)) m.
Proof.
  assert (∀ b, (b && (1 <? Z.of_nat 0)) = false) as E0 by (intros []; done).
  assert (∀ b, (b && (1 <? Z.of_nat 1)) = false) as E1 by (intros []; done).
  destruct n as [|[|n]]; cbn [strncmp_loop]; unfold mbind, M_bind;
    (destruct (load8 s1 m) as [[c1 m1]|]; [|done]);
    (destruct (load8 s2 m1) as [[c2 m2]|]; [|done]).
  - rewrite E0. by case_match.
  - rewrite E1. by case_match.
  - rewrite (proj2 (Z.ltb_lt 1 _)), andb_true_r by lia. done.
Qed.

Lemma strncmp_loop_ok n m a1 a2 s1 s2 : cstr m a1 s1 → cstr m a2 s2 →
  strncmp_loop n a1 a2 m = Ok (cmp_spec (take (n `max` 1) s1) (take (n `max` 1) s2), m).
Proof.
  revert a1 a2 s1 s2. induction n as [n IH] using lt_wf_ind; intros a1 a2 s1 s2 H1 H2.
  rewrite strncmp_loop_step.
  assert (∃ k, n `max` 1 = S k)%nat as [k Hk] by (exists (n `max` 1 - 1)%nat; lia).
  destruct s1 as [|c1 s1], s2 as [|c2 s2]; rewrite ?cstr_nil, ?cstr_cons in *; destruct_and?;
    (mstep_by load8_ok; [|done]); (mstep_by load8_ok; [|done]); rewrite Hk.
  - done.
  - done.
  - rewrite (proj2 (Z.eqb_neq c1 0)) by lia. cbn [negb andb take cmp_spec].
    rewrite s8_0, Z.sub_0_r. done.
  - rewrite (proj2 (Z.eqb_neq c1 0)) by lia. cbn [negb andb take cmp_spec].
    destruct (Z.eqb_spec c1 c2) as [->|]; [|done]. cbn [andb].
    destruct (Z.ltb_spec 1 (Z.of_nat n)).
    + rewrite (IH (n - 1)%nat) with (s1 := s1) (s2 := s2) by (done || lia).
      by replace ((n - 1) `max` 1)%nat with k by lia.
    + replace k with 0%nat by lia. by rewrite Z.sub_diag.
Qed.

(** [strncmp] compares at most [max 1 n] characters and returns the difference of the
    first characters that differ; [strcmp] is that comparison cut at [MAX_STR_LEN] = 1024
    characters, so on strings shorter than that it returns 0 exactly for equal strings. *)
Theorem strcmp_correct m a1 a2 s1 s2 : cstr m a1 s1 → cstr m a2 s2 →
  (∀ n, strncmp a1 a2 n m =
     Ok (cmp_spec (take (Z.to_nat n `max` 1) s1) (take (Z.to_nat n `max` 1) s2), m)) ∧
  ∃ r, strcmp a1 a2 m = Ok (r, m) ∧
    (r = 0 ↔ (take 1024 s1 = take 1024 s2)) ∧
    ((length s1 < 1024)%nat → (length s2 < 1024)%nat → r = 0 ↔ s1 = s2).
Proof.
  intros H1 H2. assert (∀ n, strncmp a1 a2 n m =
     Ok (cmp_spec (take (Z.to_nat n `max` 1) s1) (take (Z.to_nat n `max` 1) s2), m)) as Hn.
  { intros n. by apply strncmp_loop_ok. }
  split; [done|]. eexists. split; [apply Hn|].
  change (Z.to_nat MAX_STR_LEN `max` 1)%nat with 1024%nat.
  destruct H1 as [_ H1], H2 as [_ H2]. split.
  - apply cmp_spec_eq; by apply Forall_take.
  - intros L1 L2. rewrite !take_ge by lia. by apply cmp_spec_eq.
Qed.

Definition ex_two : mem := write_bytes 32 [97; 99; 0] (write_bytes 16 [97; 98; 0] ∅).

Lemma strcmp_correct_witness :
  strncmp 16 32 1 ex_two = Ok (0, ex_two) ∧
  ∃ r, strcmp 16 32 ex_two = Ok (r, ex_two) ∧
    (r = 0 ↔ (take 1024 [97; 98] = take 1024 [97; 99])) ∧
    ((2 < 1024)%nat → (2 < 1024)%nat → r = 0 ↔ [97; 98] = [97; 99]).
Proof.
  destruct (strcmp_correct ex_two 16 32 [97; 98] [97; 99]) as [H1 H2].
  - split; [|repeat constructor]. intros [|[|[|i]]] b Hi; simplify_eq/=; done.
  - split; [|repeat constructor]. intros [|[|[|i]]] b Hi; simplify_eq/=; done.
  - split; [exact (H1 1)|exact H2].
Defined.

Lemma memcmp_loop_ok n m a1 a2 l1 l2 : (0 < n)%nat → length l1 = n → length l2 = n →
  bytes l1 → bytes l2 → mem_at m a1 l1 → mem_at m a2 l2 →
  ∃ r, memcmp_loop n a1 a2 m = Ok (r, m) ∧ (r = 0 ↔ l1 = l2).
Proof.
  revert a1 a2 l1 l2. induction n as [|n IH]; intros a1 a2 l1 l2 Hn L1 L2 B1 B2 H1 H2; [lia|].
  destruct l1 as [|c1 l1]; [done|]. destruct l2 as [|c2 l2]; [done|].
  injection L1 as <-. injection L2 as L2. cbn [memcmp_loop].
  apply mem_at_cons in H1 as [H1 H1'], H2 as [H2 H2'].
  apply Forall_cons in B1 as [B1 B1'], B2 as [B2 B2'].
  mstep_by load8_ok; [|done]. mstep_by load8_ok; [|done].
  destruct (Z.eqb_spec c1 c2) as [->|Hne].
  - destruct l1 as [|d1 l1]; simpl.
    + destruct l2; [|done]. eexists. split; [done|]. split; [done|lia].
    + destruct (IH (a1 + 1) (a2 + 1) (d1 :: l1) l2) as (r & E & Hr); [simpl; lia|done..|].
      eexists. split; [exact E|]. rewrite Hr. naive_solver.
  - eexists. split; [done|]. split; [lia|]. naive_solver.
Qed.

(** [memcmp] of [n > 0] bytes is 0 exactly when the blocks are equal. *)
Lemma memcmp_ok m a1 a2 l1 l2 n : 0 < n → n = Z.of_nat (length l1) → length l2 = length l1 →
  bytes l1 → bytes l2 → mem_at m a1 l1 → mem_at m a2 l2 →
  ∃ r, memcmp a1 a2 n m = Ok (r, m) ∧ (r = 0 ↔ (l1 = l2)).
Proof.
  intros Hn -> L ????. unfold memcmp. rewrite Nat2Z.id.
  apply memcmp_loop_ok; [lia|done..].
Qed.

Lemma fold_case_s8 b : byte b → - 128 ≤ s8 b < 128.
Proof. intros _. apply (swrap_bound 8). lia. Qed.

Lemma fold_case_zero b : 0 < b < 256 → fold_case (s8 b) ≠ 0.
Proof.
  intros Hb H. pose proof (s8_nonzero b Hb) as H0. revert H. unfold fold_case.
  destruct ((65 <=? s8 b) && (s8 b <=? 90)) eqn:E; [|done]. lia.
Qed.

Lemma strcasecmp_loop_ok fuel m a1 a2 s1 s2 : cstr m a1 s1 → cstr m a2 s2 →
  (length s1 < fuel)%nat →
  ∃ r, strcasecmp_loop fuel a1 a2 m = Ok (r, m) ∧
    (r = 0 ↔ (λ c, fold_case (s8 c)) <$> s1 = (λ c, fold_case (s8 c)) <$> s2).
Proof.
  revert a1 a2 s1 s2. induction fuel as [|fuel IH]; intros a1 a2 s1 s2 H1 H2 Hf; [lia|].
  cbn [strcasecmp_loop]. destruct s1 as [|c1 s1], s2 as [|c2 s2];
    rewrite ?cstr_nil, ?cstr_cons in *; destruct_and?;
    (mstep_by load8_ok; [|done]); (mstep_by load8_ok; [|done]).
  - eexists. split; [done|]. done.
  - rewrite (proj2 (Z.eqb_neq c2 0)) by lia. eexists. split; [done|].
    pose proof (s8_nonzero c2). rewrite s8_0. split; [lia|done].
  - rewrite (proj2 (Z.eqb_neq c1 0)) by lia. eexists. split; [done|].
    pose proof (s8_nonzero c1). rewrite s8_0. split; [lia|done].
  - rewrite (proj2 (Z.eqb_neq c1 0)), (proj2 (Z.eqb_neq c2 0)) by lia. cbn [negb andb].
    rewrite !fmap_cons. destruct (Z.eqb_spec (fold_case (s8 c1)) (fold_case (s8 c2))) as [->|Hne].
    + cbn [negb]. destruct (IH (a1 + 1) (a2 + 1) s1 s2) as (r & E & Hr); [done..|simpl in Hf; lia|].
      eexists. split; [exact E|]. rewrite Hr. split; [by intros ->|by intros [=]].
    + cbn [negb]. eexists. split; [done|]. split; [lia|]. by intros [=].
Qed.

(** [strcasecmp] is 0 exactly when the strings are equal up to the case of 'A'..'Z'. *)
Lemma strcasecmp_ok m a1 a2 s1 s2 : cstr m a1 s1 → cstr m a2 s2 →
  ∃ r, strcasecmp a1 a2 m = Ok (r, m) ∧
    (r = 0 ↔ (λ c, fold_case (s8 c)) <$> s1 = (λ c, fold_case (s8 c)) <$> s2).
Proof.
  intros H1 H2. destruct (strcasecmp_loop_ok (fuel_of m) m a1 a2 s1 s2) as (r & E & Hr);
    [done..|by eapply cstr_fuel|]. exists r. split; [|done].
  unfold strcasecmp. mstep. exact E.
Qed.
End compare.

(** ** Spans and tokens *)

(** The length of the longest prefix of [s] whose characters are in [set] ([stop = false]) or
    outside it ([stop = true]). *)
Fixpoint span_len (stop : bool) (set s : list Z) : nat :=
  match s with
  | [] => 0
  | c :: s => if Bool.eqb (bool_decide (c ∈ set)) stop then 0 else S (span_len stop set s)
  end.

Section tokens.
Lemma char_in_ok fuel m a set c : cstr m a set → (length set < fuel)%nat →
  char_in fuel c a m = Ok (bool_decide (c ∈ set), m).
Proof.
  revert a set. induction fuel as [|fuel IH]; intros a set H Hf; [lia|]. cbn [char_in].
  destruct set as [|d set]; rewrite ?cstr_nil, ?cstr_cons in *; destruct_and?;
    (mstep_by load8_ok; [|done]).
  - rewrite bool_decide_eq_false_2 by set_solver. done.
  - rewrite (proj2 (Z.eqb_neq d 0)) by lia. destruct (Z.eqb_spec c d) as [->|Hne].
    + rewrite bool_decide_eq_true_2 by set_solver. done.
    + simpl in Hf. rewrite (IH (a + 1) set) by (done || lia). do 2 f_equal.
      apply bool_decide_ext. set_solver.
Qed.

Lemma span_loop_ok stop fuel m p set s l n : cstr m p s → cstr m set l →
  (length s < fuel)%nat →
  span_loop stop fuel p set n m = Ok (n + Z.of_nat (span_len stop l s), m).
Proof.
  revert p s n. induction fuel as [|fuel IH]; intros p s n Hs Hl Hf; [lia|]. cbn [span_loop].
  destruct s as [|c s]; rewrite ?cstr_nil, ?cstr_cons in *; destruct_and?;
    (mstep_by load8_ok; [|done]).
  - simpl. unfold mret, M_ret. by rewrite Z.add_0_r.
  - rewrite (proj2 (Z.eqb_neq c 0)) by lia. mstep.
    mstep_by char_in_ok; [|done|by eapply cstr_fuel]. cbn [span_len].
    case_match; [unfold mret, M_ret; by rewrite Z.add_0_r|]. simpl in Hf.
    rewrite (IH (p + 1) s) by (done || lia). do 2 f_equal. lia.
Qed.

Lemma strspn_ok m p set s l : cstr m p s → cstr m set l →
  strspn p set m = Ok (Z.of_nat (span_len false l s), m).
Proof. intros. unfold strspn. mstep. by rewrite (span_loop_ok _ _ _ _ _ s l) by (done || by eapply cstr_fuel). Qed.

Lemma strcspn_ok m p set s l : cstr m p s → cstr m set l →
  strcspn p set m = Ok (Z.of_nat (span_len true l s), m).
Proof. intros. unfold strcspn. mstep. by rewrite (span_loop_ok _ _ _ _ _ s l) by (done || by eapply cstr_fuel). Qed.

Lemma span_len_app stop set s t :
  Forall (λ c, bool_decide (c ∈ set) = negb stop) s →
  span_len stop set (s ++ t) = (length s + span_len stop set t)%nat.
Proof.
  induction 1 as [|c s Hc _ IH]; [done|]. simpl. rewrite Hc, IH. by destruct stop.
Qed.

Lemma span_len_stop stop set c s :
  bool_decide (c ∈ set) = stop → span_len stop set (c :: s) = 0%nat.
Proof. intros H. simpl. rewrite H. by destruct stop. Qed.

Lemma in_set_true (ds d : list Z) : Forall (.∈ ds) d → Forall (λ c, bool_decide (c ∈ ds) = true) d.
Proof. intros H. eapply Forall_impl; [done|]. intros c. apply bool_decide_eq_true_2. Qed.

Lemma in_set_false (ds t : list Z) : Forall (.∉ ds) t → Forall (λ c, bool_decide (c ∈ ds) = false) t.
Proof. intros H. eapply Forall_impl; [done|]. intros c. apply bool_decide_eq_false_2. Qed.

Lemma cstr_at m a s i c : cstr m a s → s !! i = Some c → m !! (a + Z.of_nat i) = Some c.
Proof. intros [H _] Hi. apply H. by rewrite lookup_app_l by (eapply lookup_lt_Some; eauto). Qed.

Lemma cstr_end m a s : cstr m a s → m !! (a + Z.of_nat (length s)) = Some 0.
Proof. intros [H _]. apply H. by apply list_lookup_middle. Qed.

Lemma on_mem_ok {A} (x : M mem A) m l r m' :
  x m = Ok (r, m') → on_mem x {| st_mem := m; st_lasts := l |}
                     = Ok (r, {| st_mem := m'; st_lasts := l |}).
Proof. intros H. unfold on_mem, zoom. simpl. by rewrite H. Qed.

(** The string [strtok] scans: its argument, or the saved position. *)
Definition tok_start (str lasts : Z) : Z := if str =? 0 then lasts else str.

(** C37: one call of [strtok] skips the leading delimiters [d], cuts the token [t] (it becomes
    a NUL-terminated string at its place) and saves the position after it; when only
    delimiters are left it returns NULL and forgets the position. *)
Theorem strtok_correct m str lasts delim ds d t rest :
  tok_start str lasts ≠ 0 →
  cstr m (tok_start str lasts) (d ++ t ++ rest) → cstr m delim ds →
  Forall (.∈ ds) d → Forall (.∉ ds) t →
  (t = [] → rest = []) → (∀ c r, rest = c :: r → c ∈ ds) →
  let tok := tok_start str lasts + Z.of_nat (length d) in
  let send := tok + Z.of_nat (length t) in
  strtok str delim {| st_mem := m; st_lasts := lasts |} =
    Ok (match t, rest with
        | [], _ => (0, {| st_mem := m; st_lasts := 0 |})
        | _, [] => (tok, {| st_mem := m; st_lasts := send |})
        | _, _ => (tok, {| st_mem := <[send := 0]> m; st_lasts := send + 1 |})
        end)
  ∧ (t ≠ [] → cstr (<[send := 0]> m) tok t).
Proof.
  intros Hp Hs Hd Fd Ft Hrest Hstop tok send.
  apply in_set_true in Fd. apply in_set_false in Ft.
  assert (cstr m tok (t ++ rest)) as Htok by (by apply cstr_app in Hs as (_ & _ & ?)).
  assert (span_len false ds (d ++ t ++ rest) = length d) as Hspn.
  { rewrite span_len_app by done. destruct t as [|c t]; [rewrite Hrest by done; simpl; lia|].
    apply Forall_cons in Ft as [Hc _]. simpl app. rewrite span_len_stop by done. lia. }
  assert (span_len true ds (t ++ rest) = length t) as Hcspn.
  { rewrite span_len_app by done. destruct rest as [|c rest]; [simpl; lia|].
    rewrite span_len_stop; [lia|]. by eapply bool_decide_eq_true_2, Hstop. }
  assert (m !! send = Some (default 0 (head rest))) as Hsend.
  { destruct rest as [|c rest]; simpl.
    - rewrite app_nil_r in Htok. by apply cstr_end.
    - eapply cstr_at; [done|]. by apply list_lookup_middle. }
  split.
  - unfold strtok. mstep. cbv zeta. cbn [st_lasts].
    change (if str =? 0 then lasts else str) with (tok_start str lasts). rewrite (proj2 (Z.eqb_neq _ 0) Hp).
    mstep_by @on_mem_ok; [|by apply strspn_ok]. rewrite Hspn. fold tok.
    destruct t as [|c t].
    { rewrite Hrest in Htok by done. apply cstr_nil in Htok.
      mstep_by @on_mem_ok; [|by apply load8_ok]. done. }
    pose proof (proj1 (cstr_cons _ _ _ _) Htok) as (Hc & Hr & _).
    mstep_by @on_mem_ok; [|by apply load8_ok]. rewrite (proj2 (Z.eqb_neq c 0)) by lia.
    mstep_by @on_mem_ok; [|by apply strcspn_ok]. rewrite Hcspn. fold send.
    mstep_by @on_mem_ok; [|by apply load8_ok].
    destruct rest as [|e rest]; simpl; [done|].
    assert (0 < e < 256) as He.
    { destruct Htok as [_ F]. apply Forall_app in F as [_ F]. by apply Forall_cons in F as [F _]. }
    rewrite (proj2 (Z.eqb_neq e 0)) by lia. cbn [negb].
    mstep_by @on_mem_ok; [|apply store8_ok; eauto]. done.
  - intros Hne. apply cstr_app in Htok as (Ht & Hct & _). split; [|done].
    apply mem_at_app. split.
    + apply (write_bytes_mem_at_ne send [0]); [done|]. unfold send. lia.
    + apply mem_at_cons. split; [apply lookup_insert_eq|apply mem_at_nil].
Qed.

Definition ex_tok : mem := write_bytes 64 [44; 0] (write_bytes 16 [44; 97; 98; 44; 99; 0] ∅).

Lemma strtok_correct_witness :
  strtok 16 64 {| st_mem := ex_tok; st_lasts := 0 |}
    = Ok (17, {| st_mem := <[19 := 0]> ex_tok; st_lasts := 20 |})
  ∧ ([97; 98] ≠ [] → cstr (<[19 := 0]> ex_tok) 17 [97; 98]).
Proof.
  apply (strtok_correct ex_tok 16 0 64 [44] [44] [97; 98] [44; 99]).
  - done.
  - split; [|repeat constructor]. intros [|[|[|[|[|[|i]]]]]] b Hi; simplify_eq/=; done.
  - split; [|repeat constructor]. intros [|[|i]] b Hi; simplify_eq/=; done.
  - repeat constructor.
  - repeat constructor; set_solver.
  - done.
  - intros c r [= <- _]. set_solver.
Defined.
End tokens.
