(* ===== verification/Bitmap.v ===== *)
(** * lolibc/bits.h and lolibc/struct/bitmap.c

    The bit helpers on machine words, and the bitmap allocator on a byte array
    ([list Z], an access outside it is a [Fault]).  A bitmap is read through
    [bit_at]; the theorems say which bits each operation tests and changes. *)

From S2P Require Import Prelude Mem.

(** ** bits.h *)
Definition get_bit (x l : Z) : bool := negb (Z.land (Z.shiftr x l) 1 =? 0).

(** [1u << l] and its complement are 32-bit values, whatever the width of [x]. *)
Definition set_bit (x l : Z) (status : bool) : Z :=
  if status then Z.lor x (u32 (Z.shiftl 1 l))
  else Z.land x (2 ^ 32 - 1 - u32 (Z.shiftl 1 l)).

Definition get_bits_range (x s len : Z) : Z :=
  Z.land (Z.shiftr x s) (u64 (u64 (Z.shiftl 1 len) - 1)).

(** ** bitmap.c *)
Abbreviation bitmap := (list Z).

Definition byte_get (i : Z) : M bitmap Z := λ l,
  match (if 0 <=? i then l !! Z.to_nat i else None) with
  | Some b => Ok (b, l)
  | None => Err (Fault i)
  end.

Definition byte_set (i v : Z) : M bitmap unit := λ l,
  match (if 0 <=? i then l !! Z.to_nat i else None) with
  | Some _ => Ok (tt, <[Z.to_nat i := u8 v]> l)
  | None => Err (Fault i)
  end.

(** [index] is an [int]; the comparison with the [size_t] is unsigned. *)
Definition bitmap_is_in_use (map_max index : Z) : M bitmap bool :=
  assert (u64 index <? map_max);;
  b ← byte_get (Z.quot index 8);
  mret (get_bit b (Z.rem index 8)).

Definition bitmap_set_status (map_max index : Z) (status : bool) : M bitmap unit :=
  assert (u64 index <? map_max);;
  b ← byte_get (Z.quot index 8);
  byte_set (Z.quot index 8) (set_bit b (Z.rem index 8) status).

(** [while (data & 1u) { data >>= 1; bit++; }] on a byte. *)
Fixpoint low_ones (fuel : nat) (data bit : Z) : M bitmap Z :=
  match fuel with
  | O => fail Fuel
  | S fuel =>
      if Z.land data 1 =? 0 then mret bit else low_ones fuel (Z.shiftr data 1) (bit + 1)
  end.

Definition SIZE_MAX : Z := 2 ^ 64 - 1.

Fixpoint alloc_one_loop (k : nat) (map_max i : Z) : M bitmap Z :=
  match k with
  | O => mret SIZE_MAX
  | S k =>
      data ← byte_get i;
      if negb (data =? 255) then
        bit ← low_ones 9 data 0;
        bitmap_set_status map_max (s32 (8 * i + bit)) true;;
        mret (8 * i + bit)
      else alloc_one_loop k map_max (i + 1)
  end.

Definition bitmap_alloc_one (map_max : Z) : M bitmap Z :=
  alloc_one_loop (Z.to_nat map_max) map_max 0.

(** The inner [for] on [j]: the length of the free run from [i], at most [cnt]. *)
Fixpoint free_run (k : nat) (map_max i j : Z) : M bitmap Z :=
  match k with
  | O => mret j
  | S k =>
      b ← bitmap_is_in_use map_max (s32 (i + j));
      if b : bool then mret j else free_run k map_max i (j + 1)
  end.

(** [for (k = lo; k < lo + n; k++) bitmap_set_status(..., k, 1)] *)
Fixpoint set_run (n : nat) (map_max lo : Z) : M bitmap unit :=
  match n with
  | O => mret tt
  | S n => bitmap_set_status map_max (s32 lo) true;; set_run n map_max (lo + 1)
  end.

Fixpoint alloc_loop (fuel : nat) (map_max cnt i : Z) : M bitmap Z :=
  match fuel with
  | O => fail Fuel
  | S fuel =>
      if i <? map_max then
        b ← bitmap_is_in_use map_max (s32 i);
        if negb b then
          j ← free_run (Z.to_nat cnt) map_max i 0;
          assert (j <=? cnt);;
          if cnt <=? j then set_run (Z.to_nat j) map_max i;; mret i
          else alloc_loop fuel map_max cnt (i + j + 1)
        else alloc_loop fuel map_max cnt (i + 1)
      else mret SIZE_MAX
  end.

Definition bitmap_alloc (map_max cnt : Z) : M bitmap Z :=
  alloc_loop (S (Z.to_nat map_max)) map_max cnt 0.

Fixpoint bitmap_free_loop (n : nat) (map_max index : Z) : M bitmap unit :=
  match n with
  | O => mret tt
  | S n =>
      b ← bitmap_is_in_use map_max (s32 index); assert b;;
      bitmap_set_status map_max (s32 index) false;; bitmap_free_loop n map_max (index + 1)
  end.

Definition bitmap_free (map_max index cnt : Z) : M bitmap unit :=
  bitmap_free_loop (Z.to_nat cnt) map_max index.

(** ** The bits of a word *)
Section words.
Lemma get_bit_testbit x l : 0 ≤ l → get_bit x l = Z.testbit x l.
Proof.
  intros Hl. unfold get_bit. change 1 with (Z.ones 1) at 1. rewrite Z.land_ones by lia.
  change (2 ^ 1) with 2. rewrite <- Z.bit0_mod, Z.shiftr_spec by lia.
  rewrite Z.add_0_l. by destruct (Z.testbit x l).
Qed.

Lemma shiftl1_u32 l : 0 ≤ l < 32 → u32 (Z.shiftl 1 l) = 2 ^ l.
Proof.
  intros. rewrite Z.shiftl_1_l. apply wrap_id. split; [lia|]. apply Z.pow_lt_mono_r; lia.
Qed.

Lemma testbit_ones i : 0 ≤ i → Z.testbit (2 ^ 32 - 1) i = (i <? 32).
Proof.
  intros. change (2 ^ 32 - 1) with (Z.ones 32). by rewrite Z.testbit_ones_nonneg by lia.
Qed.

(** The complement of [1u << l] has the other 31 low bits, and no bit above 31. *)
Lemma testbit_clear_mask l i : 0 ≤ l < 32 → 0 ≤ i →
  Z.testbit (2 ^ 32 - 1 - 2 ^ l) i = (i <? 32) && negb (l =? i).
Proof.
  intros Hl Hi. assert (2 ^ 32 - 1 - 2 ^ l = Z.ldiff (2 ^ 32 - 1) (2 ^ l)) as ->.
  { apply Z.sub_nocarry_ldiff. apply Z.bits_inj'. intros n Hn.
    rewrite Z.ldiff_spec, Z.pow2_bits_eqb, testbit_ones, Z.bits_0 by lia.
    destruct (Z.eqb_spec l n); [|done]. destruct (Z.ltb_spec n 32); [done|lia]. }
  rewrite Z.ldiff_spec, Z.pow2_bits_eqb, testbit_ones by lia. done.
Qed.

(** On a 64-bit word [set_bit] and [get_bit] at a position below 32 behave as an array
    of bits for the low word, but clearing a bit clears the whole high word: the mask
    [~(1u << l)] is 32 bits wide. *)
Theorem get_set_bit x l j s : 0 ≤ x < 2 ^ 64 → 0 ≤ l < 32 → 0 ≤ j →
  get_bit (set_bit x l s) j =
    if j =? l then s else if s || (j <? 32) then get_bit x j else false.
Proof.
  intros Hx Hl Hj. rewrite !get_bit_testbit by lia. unfold set_bit. rewrite shiftl1_u32 by lia.
  destruct s; simpl.
  - rewrite Z.lor_spec, Z.pow2_bits_eqb by lia. rewrite (Z.eqb_sym l).
    destruct (j =? l); by rewrite ?orb_true_r, ?orb_false_r.
  - rewrite Z.land_spec, testbit_clear_mask by lia. rewrite (Z.eqb_sym l).
    destruct (j =? l), (j <? 32); by rewrite ?andb_false_r, ?andb_true_r.
Qed.

Lemma get_set_bit_witness :
  get_bit (set_bit (2 ^ 40 + 5) 0 false) 40 = (if 40 =? 0 then false else
    if false || (40 <? 32) then get_bit (2 ^ 40 + 5) 40 else false)
  ∧ get_bit (2 ^ 40 + 5) 40 = true.
Proof. split; [apply get_set_bit; lia|reflexivity]. Defined.

Lemma get_bits_range_ok x s len : 0 ≤ s → 0 ≤ len < 64 →
  get_bits_range x s len = (x / 2 ^ s) mod 2 ^ len.
Proof.
  intros Hs Hl. unfold get_bits_range. rewrite Z.shiftl_1_l.
  assert (2 ^ len < 2 ^ 64) by (apply Z.pow_lt_mono_r; lia).
  assert (0 < 2 ^ len) by lia.
  rewrite (wrap_id 64 (2 ^ len)) by lia. rewrite wrap_id by lia.
  by rewrite land_low, Z.shiftr_div_pow2 by lia.
Qed.

Lemma byte_testbit_high b i : byte b → 8 ≤ i → Z.testbit b i = false.
Proof.
  intros Hb Hi. unfold byte in Hb. rewrite <- (Z.mod_small b (2 ^ 8)) by (simpl; lia).
  apply Z.mod_pow2_bits_high. lia.
Qed.

Lemma set_bit_byte b k s : byte b → 0 ≤ k < 8 → byte (u8 (set_bit b k s)).
Proof. intros. apply (wrap_bound 8). lia. Qed.

Lemma testbit_set_bit_byte b k s j : byte b → 0 ≤ k < 8 → 0 ≤ j < 8 →
  Z.testbit (u8 (set_bit b k s)) j = if j =? k then s else Z.testbit b j.
Proof.
  intros Hb Hk Hj. unfold wrap. rewrite Z.mod_pow2_bits_low by lia.
  rewrite <- !get_bit_testbit by lia. rewrite get_set_bit by (unfold byte in Hb; lia).
  replace (j <? 32) with true by lia. by rewrite orb_true_r.
Qed.
End words.

(** ** The bitmap as an array of bits *)
Definition bit_at (l : bitmap) (i : Z) : bool :=
  match l !! Z.to_nat (i / 8) with Some b => Z.testbit b (i mod 8) | None => false end.

(** The bits [i], ..., [i + n - 1] all have the value [v]. *)
Definition run_of (v : bool) (l : bitmap) (i n : Z) : Prop := ∀ k, i ≤ k < i + n → bit_at l k = v.

(** A bitmap whose first [map_max] bits are inside the array, and whose indices fit an [int]. *)
Record bitmap_ok (l : bitmap) (map_max : Z) : Prop := {
  bo_bytes : bytes l;
  bo_max : 0 ≤ map_max ≤ 8 * Z.of_nat (length l);
  bo_int : map_max ≤ 2 ^ 31
}.

Section arrays.
Definition write_bit (l : bitmap) (i : Z) (s : bool) : bitmap :=
  match l !! Z.to_nat (i / 8) with
  | Some b => <[Z.to_nat (i / 8) := u8 (set_bit b (i mod 8) s)]> l
  | None => l
  end.

(** [l'] is [l] with the bits of [lo, lo + n) set to [v]. *)
Definition filled (l l' : bitmap) (lo n : Z) (v : bool) : Prop :=
  length l' = length l ∧ bytes l' ∧
  ∀ j, 0 ≤ j → bit_at l' j = if (lo <=? j) && (j <? lo + n) then v else bit_at l j.

Lemma byte_lookup (l : bitmap) i : 0 ≤ i < 8 * Z.of_nat (length l) → is_Some (l !! Z.to_nat (i / 8)).
Proof.
  intros Hi. apply lookup_lt_is_Some_2.
  assert (i / 8 < Z.of_nat (length l)) by (apply Z.div_lt_upper_bound; lia). lia.
Qed.

Lemma byte_get_ok l i b : 0 ≤ i → l !! Z.to_nat (i / 8) = Some b →
  byte_get (Z.quot i 8) l = Ok (b, l).
Proof.
  intros Hi Hb. unfold byte_get. rewrite Z.quot_div_nonneg by lia.
  replace (0 <=? i / 8) with true by (pose proof (Z.div_pos i 8); lia). by rewrite Hb.
Qed.

Lemma in_use_ok l map_max i : bitmap_ok l map_max → 0 ≤ i < map_max →
  bitmap_is_in_use map_max (s32 i) l = Ok (bit_at l i, l).
Proof.
  intros [Hb Hm Hi] H. rewrite swrap_id by (simpl; lia). unfold bitmap_is_in_use.
  rewrite (wrap_id 64) by lia. replace (i <? map_max) with true by lia.
  destruct (byte_lookup l i) as [b E]; [lia|].
  rewrite (bind_ok _ _ _ tt l) by done. mstep_by byte_get_ok; [|lia|done].
  rewrite Z.rem_mod_nonneg by lia. unfold mret, M_ret. do 2 f_equal. unfold bit_at. rewrite E.
  apply get_bit_testbit. apply Z.mod_pos_bound. lia.
Qed.

Lemma in_use_out l map_max i : map_max ≤ i < 2 ^ 31 → 0 ≤ map_max →
  bitmap_is_in_use map_max (s32 i) l = Err Halt.
Proof.
  intros H ?. rewrite swrap_id by (simpl; lia). unfold bitmap_is_in_use.
  rewrite (wrap_id 64) by lia. by replace (i <? map_max) with false by lia.
Qed.

Lemma set_status_ok l map_max i s : bitmap_ok l map_max → 0 ≤ i < map_max →
  bitmap_set_status map_max (s32 i) s l = Ok (tt, write_bit l i s).
Proof.
  intros [Hb Hm Hi] H. rewrite swrap_id by (simpl; lia). unfold bitmap_set_status.
  rewrite (wrap_id 64) by lia. replace (i <? map_max) with true by lia.
  destruct (byte_lookup l i) as [b E]; [lia|].
  rewrite (bind_ok _ _ _ tt l) by done. mstep_by byte_get_ok; [|lia|done].
  unfold byte_set, write_bit. rewrite Z.quot_div_nonneg, Z.rem_mod_nonneg by lia.
  replace (0 <=? i / 8) with true by (pose proof (Z.div_pos i 8); lia). by rewrite E.
Qed.

Lemma set_status_out l map_max i s : map_max ≤ i < 2 ^ 31 → 0 ≤ map_max →
  bitmap_set_status map_max (s32 i) s l = Err Halt.
Proof.
  intros H ?. rewrite swrap_id by (simpl; lia). unfold bitmap_set_status.
  rewrite (wrap_id 64) by lia. by replace (i <? map_max) with false by lia.
Qed.

Lemma write_bit_filled l i s : bytes l → 0 ≤ i < 8 * Z.of_nat (length l) →
  filled l (write_bit l i s) i 1 s.
Proof.
  intros Hb Hi. destruct (byte_lookup l i Hi) as [b E]. unfold write_bit. rewrite E.
  pose proof (Z.mod_pos_bound i 8). assert (byte b) as Bb by (by eapply Forall_lookup_1 in E).
  split_and!.
  - apply length_insert.
  - apply Forall_insert; [done|]. apply set_bit_byte; [done|lia].
  - intros j Hj. unfold bit_at.
    destruct (decide (i / 8 = j / 8)) as [Hd|Hd].
    + rewrite <- Hd, list_lookup_insert_eq, E by (by eapply lookup_lt_Some).
      rewrite testbit_set_bit_byte; [|done|lia|apply Z.mod_pos_bound; lia].
      pose proof (Z.div_mod i 8). pose proof (Z.div_mod j 8).
      destruct (Z.eqb_spec (j mod 8) (i mod 8)).
      * replace j with i by lia. by replace ((i <=? i) && (i <? i + 1)) with true by lia.
      * by replace ((i <=? j) && (j <? i + 1)) with false by lia.
    + rewrite list_lookup_insert_ne.
      * replace ((i <=? j) && (j <? i + 1)) with false; [done|].
        symmetry. apply not_true_is_false. intros Ht.
        assert (i = j) as -> by lia. done.
      * pose proof (Z.div_pos i 8). pose proof (Z.div_pos j 8). lia.
Qed.

Lemma filled_ok l l' lo n v map_max : filled l l' lo n v → bitmap_ok l map_max → bitmap_ok l' map_max.
Proof. intros (L & B & _) [? ? ?]. constructor; [done| |done]. by rewrite L. Qed.

Lemma filled_app l1 l2 l3 lo n m v : 0 ≤ n → 0 ≤ m →
  filled l1 l2 lo n v → filled l2 l3 (lo + n) m v → filled l1 l3 lo (n + m) v.
Proof.
  intros Hn Hm (L1 & B1 & H1) (L2 & B2 & H2). split_and!; [congruence|done|].
  intros j Hj. rewrite H2, H1 by lia.
  destruct (Z.leb_spec lo j), (Z.leb_spec (lo + n) j), (Z.ltb_spec j (lo + n)),
    (Z.ltb_spec j (lo + n + m)), (Z.ltb_spec j (lo + (n + m))); simpl; lia || done.
Qed.

Lemma filled_0 l lo v : bytes l → filled l l lo 0 v.
Proof. intros. split_and!; [done|done|]. intros j Hj. by replace ((lo <=? j) && (j <? lo + 0)) with false by lia. Qed.

(** Two byte arrays with the same bits are equal. *)
Lemma bits_ext l l' : bytes l → bytes l' → length l = length l' →
  (∀ j, 0 ≤ j → bit_at l j = bit_at l' j) → l = l'.
Proof.
  intros B B' L H. apply list_eq_same_length with (length l); [done|done|].
  intros i x y Hi Hx Hy. apply Z.bits_inj'. intros n Hn.
  destruct (decide (n < 8)) as [Hn8|].
  - specialize (H (8 * Z.of_nat i + n) ltac:(lia)). unfold bit_at in H.
    rewrite (Z.mul_comm 8) in H.
    rewrite !Z.div_add_l, !(Z.div_small n), !Z.add_0_r, !Nat2Z.id, Hx, Hy in H by lia.
    rewrite (Z.add_comm (Z.of_nat i * 8)), Z.mod_add, Z.mod_small in H by lia. done.
  - pose proof (Forall_lookup_1 _ _ _ _ B Hx). pose proof (Forall_lookup_1 _ _ _ _ B' Hy).
    by rewrite (byte_testbit_high x), (byte_testbit_high y) by (done || lia).
Qed.

Lemma set_run_ok n map_max lo l : bitmap_ok l map_max → 0 ≤ lo → lo + Z.of_nat n ≤ map_max →
  ∃ l', set_run n map_max lo l = Ok (tt, l') ∧ filled l l' lo (Z.of_nat n) true.
Proof.
  revert lo l. induction n as [|n IH]; intros lo l Ho Hlo Hn.
  - exists l. split; [done|]. apply filled_0, Ho.
  - cbn [set_run]. mstep_by set_status_ok; [|done|lia].
    assert (filled l (write_bit l lo true) lo 1 true) as F.
    { destruct Ho. apply write_bit_filled; [done|lia]. }
    destruct (IH (lo + 1) (write_bit l lo true)) as (l' & E & F').
    + by eapply filled_ok.
    + lia.
    + lia.
    + exists l'. split; [done|]. replace (Z.of_nat (S n)) with (1 + Z.of_nat n) by lia.
      eapply filled_app; [lia|lia|done|done].
Qed.
End arrays.

(** ** The allocators *)
Section allocators.
Lemma low_ones_ok fuel data bit l : 0 ≤ data < 2 ^ Z.of_nat fuel - 1 → 
  ∃ k, low_ones fuel data bit l = Ok (bit + k, l) ∧ 0 ≤ k < Z.of_nat fuel ∧
    Z.testbit data k = false ∧ (∀ j, 0 ≤ j < k → Z.testbit data j = true).
Proof.
  revert data bit. induction fuel as [|fuel IH]; intros data bit H; [simpl in H; lia|].
  cbn [low_ones].
  assert (Z.land data 1 = Z.b2z (Z.testbit data 0)) as ->.
  { change 1 with (Z.ones 1) at 1. rewrite Z.land_ones by lia. by rewrite Z.bit0_mod. }
  destruct (Z.testbit data 0) eqn:E0; simpl.
  - destruct (IH (Z.shiftr data 1) (bit + 1)) as (k & Ek & Hk & Hf & Ht).
    { rewrite Z.shiftr_div_pow2 by lia. change (2 ^ 1) with 2.
      rewrite Nat2Z.inj_succ, Z.pow_succ_r in H by lia.
      split; [apply Z.div_pos; lia|].
      destruct (decide (data = 2 * 2 ^ Z.of_nat fuel - 2)) as [->|].
      - exfalso. rewrite Z.bit0_odd in E0.
        replace (2 * 2 ^ Z.of_nat fuel - 2) with (2 * (2 ^ Z.of_nat fuel - 1)) in E0 by lia.
        by rewrite Z.odd_mul in E0.
      - apply Z.div_lt_upper_bound; lia. }
    exists (k + 1). rewrite Z.shiftr_spec in Hf by lia. split_and!.
    + rewrite Ek. do 2 f_equal. lia.
    + lia.
    + lia.
    + done.
    + intros j Hj. destruct (decide (j = 0)) as [->|]; [done|].
      specialize (Ht (j - 1) ltac:(lia)). rewrite Z.shiftr_spec in Ht by lia.
      by replace (j - 1 + 1) with j in Ht by lia.
  - exists 0. split_and!; [|lia|lia|done|lia]. unfold mret, M_ret. do 2 f_equal. lia.
Qed.

Lemma byte_full_bits : ∀ j, 0 ≤ j < 8 → Z.testbit 255 j = true.
Proof. intros j Hj. change 255 with (Z.ones 8). by apply Z.ones_spec_low. Qed.

Lemma bit_at_byte (l : bitmap) i b k : 0 ≤ i → 0 ≤ k < 8 → l !! Z.to_nat i = Some b →
  bit_at l (8 * i + k) = Z.testbit b k.
Proof.
  intros Hi Hk E. unfold bit_at.
  replace ((8 * i + k) / 8) with i by (apply Z.div_unique with k; lia).
  replace ((8 * i + k) mod 8) with k by (apply Z.mod_unique with i; lia). by rewrite E.
Qed.

Lemma alloc_one_loop_ok k map_max i l : bitmap_ok l map_max → 8 * map_max ≤ 2 ^ 31 →
  map_max ≤ Z.of_nat (length l) → 0 ≤ i → i + Z.of_nat k = map_max → run_of true l 0 (8 * i) →
  (run_of true l 0 (8 * map_max) ∧ alloc_one_loop k map_max i l = Ok (SIZE_MAX, l))
  ∨ ∃ r, 0 ≤ r < 8 * map_max ∧ bit_at l r = false ∧ run_of true l 0 r ∧
      alloc_one_loop k map_max i l =
        if r <? map_max then Ok (r, write_bit l r true) else Err Halt.
Proof.
  intros Ho H8 Hlen. revert i. induction k as [|k IH]; intros i Hi Hk Hrun.
  - left. replace map_max with i by lia. done.
  - cbn [alloc_one_loop].
    destruct (lookup_lt_is_Some_2 l (Z.to_nat i)) as [b Hb]; [lia|].
    assert (byte b) as Bb by (exact (Forall_lookup_1 _ _ _ _ (bo_bytes _ _ Ho) Hb)).
    assert (byte_get i l = Ok (b, l)) as Eg.
    { unfold byte_get. replace (0 <=? i) with true by lia. by rewrite Hb. }
    rewrite (bind_ok _ _ _ _ _ Eg). destruct (Z.eqb_spec b 255) as [->|Hne]; cbn [negb].
    + apply IH; [lia|lia|]. intros j Hj.
      destruct (decide (j < 8 * i)); [apply Hrun; lia|].
      replace j with (8 * i + (j - 8 * i)) by lia.
      rewrite (bit_at_byte _ _ 255) by (done || lia). apply byte_full_bits. lia.
    + right. unfold byte in Bb.
      destruct (low_ones_ok 9 b 0 l) as (t & Et & Ht & Hf & Hones); [simpl; lia|].
      assert (t < 8).
      { destruct (decide (t = 8)) as [->|]; [|lia]. destruct Hne.
        apply Z.bits_inj'. intros n Hn. destruct (decide (n < 8)).
        - by rewrite Hones, byte_full_bits by lia.
        - rewrite !byte_testbit_high; [done|unfold byte; lia|lia|unfold byte; lia|lia]. }
      exists (8 * i + t). split_and!; [lia|lia| | |].
      * by rewrite (bit_at_byte _ _ b) by (done || lia).
      * intros j Hj. destruct (decide (j < 8 * i)); [apply Hrun; lia|].
        replace j with (8 * i + (j - 8 * i)) by lia.
        rewrite (bit_at_byte _ _ b) by (done || lia). apply Hones. lia.
      * rewrite (bind_ok _ _ _ _ _ Et). rewrite Z.add_0_l.
        destruct (Z.ltb_spec (8 * i + t) map_max).
        -- mstep_by set_status_ok; [done|done|lia].
        -- apply bind_err, set_status_out; lia.
Qed.

(** [bitmap_alloc_one] finds the first clear bit [r] and sets only that bit; it returns
    [SIZE_MAX] when the [map_max] bytes it scans are full.  Because [bitmap_set_status]
    takes [map_max] as a number of bits while the scan takes it as a number of bytes, a
    first clear bit at [map_max] or above ends in the failed assertion. *)
Theorem bitmap_alloc_one_correct l map_max : bitmap_ok l map_max → 8 * map_max ≤ 2 ^ 31 →
  map_max ≤ Z.of_nat (length l) →
  (run_of true l 0 (8 * map_max) ∧ bitmap_alloc_one map_max l = Ok (SIZE_MAX, l))
  ∨ ∃ r l', 0 ≤ r < 8 * map_max ∧ bit_at l r = false ∧ run_of true l 0 r ∧ filled l l' r 1 true ∧
      bitmap_alloc_one map_max l = if r <? map_max then Ok (r, l') else Err Halt.
Proof.
  intros Ho H8 Hl. unfold bitmap_alloc_one.
  destruct (alloc_one_loop_ok (Z.to_nat map_max) map_max 0 l) as [?|(r & Hr & Hb & Hrun & E)];
    [done..|lia|destruct Ho; lia|intros j Hj; lia|by left|right].
  exists r, (write_bit l r true). split_and!; try done; [lia|lia|].
  apply write_bit_filled; [apply Ho|lia].
Qed.

Lemma bitmap_alloc_one_correct_witness :
  (run_of true [255; 3] 0 (8 * 2) ∧ bitmap_alloc_one 2 [255; 3] = Ok (SIZE_MAX, [255; 3]))
  ∨ ∃ r l', 0 ≤ r < 8 * 2 ∧ bit_at [255; 3] r = false ∧ run_of true [255; 3] 0 r ∧
      filled [255; 3] l' r 1 true ∧
      bitmap_alloc_one 2 [255; 3] = if r <? 2 then Ok (r, l') else Err Halt.
Proof.
  apply (bitmap_alloc_one_correct [255; 3] 2).
  - constructor; [repeat constructor; done|simpl; lia|lia].
  - lia.
  - simpl. lia.
Defined.

(** The free run from [i]: how far it reaches, or the assertion past [map_max]. *)
Lemma free_run_ok k map_max i j l : bitmap_ok l map_max → 0 ≤ i → 0 ≤ j →
  i + j + Z.of_nat k < 2 ^ 31 →
  (∃ j', free_run k map_max i j l = Ok (j', l) ∧ j ≤ j' ≤ j + Z.of_nat k ∧
     i + j' ≤ Z.max map_max (i + j) ∧ run_of false l (i + j) (j' - j) ∧
     (j' < j + Z.of_nat k → bit_at l (i + j') = true))
  ∨ (free_run k map_max i j l = Err Halt ∧ ∃ e, j ≤ e < j + Z.of_nat k ∧ i + e = Z.max map_max (i + j) ∧
       run_of false l (i + j) (e - j)).
Proof.
  intros Ho Hi. revert j. induction k as [|k IH]; intros j Hj Hint.
  - left. exists j. split; [done|]. split; [lia|]. split; [lia|]. split; [|lia]. intros x Hx. lia.
  - cbn [free_run]. destruct (decide (i + j < map_max)) as [Hin|Hout].
    + mstep_by in_use_ok; [|done|lia]. destruct (bit_at l (i + j)) eqn:E.
      * left. exists j. split; [done|]. split; [lia|]. split; [lia|]. split; [intros x Hx; lia|done].
      * destruct (IH (j + 1)) as [(j' & E' & ? & ? & Hr & Hs)|(E' & e & ? & ? & Hr)]; [lia|lia|left|right].
        -- exists j'. split; [done|]. split; [lia|]. split; [lia|]. split; [|intros; apply Hs; lia].
           intros x Hx. destruct (decide (x = i + j)) as [->|]; [done|]. apply Hr. lia.
        -- split; [done|]. exists e. split; [lia|]. split; [lia|].
           intros x Hx. destruct (decide (x = i + j)) as [->|]; [done|]. apply Hr. lia.
    + right. split; [apply bind_err, in_use_out; [lia|destruct Ho; lia]|].
      exists j. split; [lia|]. split; [lia|]. intros x Hx. lia.
Qed.
End allocators.

(** ** Allocation of a run *)
Section runs.
(** No run of [cnt] clear bits starts below [i]. *)
Definition no_run_below (l : bitmap) (cnt i : Z) : Prop :=
  ∀ i', 0 ≤ i' < i → ¬ run_of false l i' cnt.

(** The outcomes of [bitmap_alloc]. *)
Definition alloc_outcome (l : bitmap) (map_max cnt : Z) (r : res (Z * bitmap)) : Prop :=
  (∃ i l', r = Ok (i, l') ∧ 0 ≤ i ∧ i + cnt ≤ map_max ∧ run_of false l i cnt ∧
     no_run_below l cnt i ∧ filled l l' i cnt true)
  ∨ (r = Ok (SIZE_MAX, l) ∧ no_run_below l cnt map_max)
  ∨ (r = Err Halt ∧ ∃ i, 0 ≤ i < map_max ∧ map_max < i + cnt ∧
       run_of false l i (map_max - i) ∧ no_run_below l cnt i).

Lemma no_run_used l cnt i j : 0 ≤ j < cnt → bit_at l (i + j) = true →
  no_run_below l cnt i → no_run_below l cnt (i + j + 1).
Proof.
  intros Hj Hb H i' Hi' Hrun. destruct (decide (i' < i)); [by apply (H i'); [lia|]|].
  specialize (Hrun (i + j)). rewrite Hb in Hrun. discriminate Hrun. lia.
Qed.

Lemma alloc_loop_ok fuel map_max cnt i l : bitmap_ok l map_max → 0 < cnt →
  map_max + cnt < 2 ^ 31 → 0 ≤ i → Z.max 0 (map_max - i) < Z.of_nat fuel → no_run_below l cnt i →
  alloc_outcome l map_max cnt (alloc_loop fuel map_max cnt i l).
Proof.
  intros Ho Hc Hint. revert i. induction fuel as [|fuel IH]; intros i Hi Hf Hno; cbn [alloc_loop];
    destruct (Z.ltb_spec i map_max) as [Hlt|Hge]; [lia| |..].
  - lia.
  - mstep_by in_use_ok; [|done|lia]. destruct (bit_at l i) eqn:E; cbn [negb].
    + apply IH; [lia|lia|]. replace (i + 1) with (i + 0 + 1) by lia.
      apply no_run_used; [lia|by rewrite Z.add_0_r|done].
    + destruct (free_run_ok (Z.to_nat cnt) map_max i 0 l) as
        [(j & Ej & Hj & Hm & Hr & Hs)|(Ej & e & He & Hm & Hr)]; [done|lia|lia|lia| |].
      * rewrite (bind_ok _ _ _ _ _ Ej). replace (j <=? cnt) with true by lia.
        rewrite (bind_ok _ _ _ tt l) by done. destruct (Z.leb_spec cnt j).
        -- replace j with cnt in * by lia.
           destruct (set_run_ok (Z.to_nat cnt) map_max i l) as (l' & E' & F); [done|lia|lia|].
           left. exists i, l'. rewrite (bind_ok _ _ _ _ _ E').
           rewrite Z.add_0_r, Z.sub_0_r in Hr. rewrite Z2Nat.id in F by lia.
           split_and!; [done|lia|lia|done|done|done].
        -- apply IH; [lia|lia|]. apply no_run_used; [lia|apply Hs; lia|done].
      * rewrite (bind_err _ _ _ _ Ej). right; right. split; [done|]. exists i.
        rewrite Z.add_0_r, Z.sub_0_r in *. replace (map_max - i) with e by lia.
        split_and!; [lia|lia|lia|done|done].
  - right; left. split; [done|]. intros i' Hi'. apply Hno. lia.
Qed.

(** C30: [bitmap_alloc] is a first-fit allocator: it returns the lowest index at which [cnt]
    clear bits start, sets exactly those bits and terminates for every bitmap.  When no run
    fits it returns [SIZE_MAX] and changes nothing, unless the bitmap ends in a clear run
    shorter than [cnt]: there the look-ahead passes [map_max] and the assertion halts. *)
Theorem bitmap_alloc_correct l map_max cnt : bitmap_ok l map_max → 0 < cnt →
  map_max + cnt < 2 ^ 31 → alloc_outcome l map_max cnt (bitmap_alloc map_max cnt l).
Proof.
  intros Ho Hc Hint. apply alloc_loop_ok; [done|done|done|lia|destruct Ho; lia|].
  intros i' Hi'. lia.
Qed.

Lemma bitmap_alloc_correct_witness :
  alloc_outcome [5; 0] 16 2 (bitmap_alloc 16 2 [5; 0]) ∧
  bitmap_alloc 16 2 [5; 0] = Ok (3, [29; 0]).
Proof.
  split; [|reflexivity]. apply bitmap_alloc_correct; [|lia|lia].
  constructor; [repeat constructor; done|simpl; lia|lia].
Defined.

Lemma bitmap_free_loop_ok n map_max i l : bitmap_ok l map_max → 0 ≤ i →
  i + Z.of_nat n ≤ map_max → run_of true l i (Z.of_nat n) →
  ∃ l', bitmap_free_loop n map_max i l = Ok (tt, l') ∧ filled l l' i (Z.of_nat n) false.
Proof.
  revert i l. induction n as [|n IH]; intros i l Ho Hi Hm Hr.
  - exists l. split; [done|]. apply filled_0, Ho.
  - cbn [bitmap_free_loop]. mstep_by in_use_ok; [|done|lia]. rewrite Hr by lia.
    rewrite (bind_ok _ _ _ tt l) by done. mstep_by set_status_ok; [|done|lia].
    assert (filled l (write_bit l i false) i 1 false) as F.
    { destruct Ho. apply write_bit_filled; [done|lia]. }
    destruct (IH (i + 1) (write_bit l i false)) as (l' & E & F').
    + by eapply filled_ok.
    + lia.
    + lia.
    + intros k Hk. destruct F as (_ & _ & F). rewrite F by lia.
      replace ((i <=? k) && (k <? i + 1)) with false by lia. apply Hr. lia.
    + exists l'. split; [done|]. replace (Z.of_nat (S n)) with (1 + Z.of_nat n) by lia.
      eapply filled_app; [lia|lia|done|done].
Qed.

(** C31: freeing what [bitmap_alloc] returned restores the bitmap, byte for byte. *)
Theorem bitmap_alloc_free l map_max cnt i l' : bitmap_ok l map_max → 0 < cnt →
  map_max + cnt < 2 ^ 31 → bitmap_alloc map_max cnt l = Ok (i, l') → i ≠ SIZE_MAX →
  bitmap_free map_max i cnt l' = Ok (tt, l).
Proof.
  intros Ho Hc Hint E Hne.
  destruct (alloc_loop_ok (S (Z.to_nat map_max)) map_max cnt 0 l) as
    [(i0 & l0 & E' & Hi & Hm & Hr & _ & F)|[[E' _]|[E' _]]];
    [done|done|done|lia|destruct Ho; lia|intros ? ?; lia| | |];
    fold (bitmap_alloc map_max cnt) in E'; rewrite E in E'; simplify_eq.
  destruct F as (L & B & F).
  destruct (bitmap_free_loop_ok (Z.to_nat cnt) map_max i0 l0) as (l2 & E2 & L2 & B2 & F2).
  - eapply filled_ok; [|done]. split_and!; done.
  - lia.
  - lia.
  - intros k Hk. rewrite F by lia. by replace ((i0 <=? k) && (k <? i0 + cnt)) with true by lia.
  - unfold bitmap_free. rewrite E2. do 2 f_equal. apply bits_ext; [done|apply Ho|congruence|].
    intros j Hj. rewrite F2, F by lia. rewrite Z2Nat.id by lia.
    destruct ((i0 <=? j) && (j <? i0 + cnt)) eqn:Ej; [|done]. symmetry. apply Hr. lia.
Qed.

Lemma bitmap_alloc_free_witness :
  bitmap_alloc 16 2 [5; 0] = Ok (3, [29; 0]) ∧ bitmap_free 16 3 2 [29; 0] = Ok (tt, [5; 0]).
Proof.
  split; [reflexivity|]. apply (bitmap_alloc_free [5; 0]).
  - constructor; [repeat constructor; done|simpl; lia|lia].
  - lia.
  - lia.
  - reflexivity.
  - vm_compute. discriminate.
Defined.
End runs.
