(* ===== verification/AssocMap.v ===== *)
(** * lolibc/struct/map.c: a fixed-size association array

    [struct map] is a [uint8_t] length and sixteen key/value slots.  [view] is
    the sequence of its live entries; [AssocSpec] is the behaviour of that
    sequence and [map_refines] relates every operation to it. *)

From S2P Require Import Prelude.

Definition MAP_ITEMS : nat := 16.
Definition MAP_NOT_FOUND : Z := 2 ^ 64 - 1.

Record map_t := { map_len : Z; map_item : list (Z * Z) }.

(** A write at an index past the array leaves [struct map]. *)
Definition map_add (key value : Z) : M map_t unit := λ m,
  if map_len m <? Z.of_nat (length (map_item m))
  then Ok (tt, {| map_len := u8 (map_len m + 1);
                  map_item := <[Z.to_nat (map_len m) := (key, value)]> (map_item m) |})
  else Err (Fault (map_len m)).

(** The loop of [map_find] from slot [i], [n] slots before [len]. *)
Fixpoint map_find_loop (n : nat) (i key : Z) (m : map_t) : res Z :=
  match n with
  | O => Ok MAP_NOT_FOUND
  | S n =>
      match map_item m !! Z.to_nat i with
      | None => Err (Fault i)
      | Some (k, v) => if k =? key then Ok v else map_find_loop n (i + 1) key m
      end
  end.

Definition map_find (key : Z) : M map_t Z := λ m,
  r ← map_find_loop (Z.to_nat (map_len m)) 0 key m; Ok (r, m).

(** [map_delete] is [assert(0)]. *)
Definition map_delete (key : Z) : M map_t unit := assert false.

(** The address of the popped slot, [None] for [(void* )-1]. *)
Definition map_pop : M map_t (option nat) := λ m,
  if map_len m =? 0 then Ok (None, m)
  else
    let len := u8 (map_len m - 1) in
    Ok (Some (Z.to_nat len), {| map_len := len; map_item := map_item m |}).

(** ** Specification: a sequence of entries *)
Fixpoint assoc_find (key : Z) (l : list (Z * Z)) : option Z :=
  match l with
  | [] => None
  | (k, v) :: l => if k =? key then Some v else assoc_find key l
  end.

Record map_ok (m : map_t) : Prop := {
  mo_items : length (map_item m) = MAP_ITEMS;
  mo_len : 0 ≤ map_len m ≤ 16
}.

Definition view (m : map_t) : list (Z * Z) := take (Z.to_nat (map_len m)) (map_item m).

Section refinement.
Lemma map_find_loop_ok n i key m : (Z.to_nat i + n ≤ length (map_item m))%nat → 0 ≤ i →
  map_find_loop n i key m =
    Ok (default MAP_NOT_FOUND (assoc_find key (take n (drop (Z.to_nat i) (map_item m))))).
Proof.
  revert i. induction n as [|n IH]; intros i Hn Hi; [done|]. cbn [map_find_loop].
  destruct (lookup_lt_is_Some_2 (map_item m) (Z.to_nat i)) as [[k v] E]; [lia|].
  rewrite E, (drop_S _ _ _ E). cbn [take assoc_find].
  destruct (k =? key); [done|]. rewrite IH by lia. by replace (Z.to_nat (i + 1)) with (S (Z.to_nat i)) by lia.
Qed.

(** C38: on the sequence of live entries, [map_add] appends while fewer than sixteen are
    live and writes past the structure otherwise; [map_find] returns the value of the oldest
    entry with that key, so adding a key again does not change what is found; [map_pop]
    drops the newest entry and returns its slot; every operation keeps the array well
    formed. *)
Theorem map_refines m key value : map_ok m →
  (if map_len m <? 16 then ∃ m', map_add key value m = Ok (tt, m') ∧ map_ok m' ∧
      view m' = view m ++ [(key, value)] ∧
      map_find key m' = Ok (default value (assoc_find key (view m)), m')
   else map_add key value m = Err (Fault 16)) ∧
  map_find key m = Ok (default MAP_NOT_FOUND (assoc_find key (view m)), m) ∧
  match map_pop m with
  | Ok (None, m') => view m = [] ∧ m' = m
  | Ok (Some i, m') => map_ok m' ∧ ∃ e, map_item m' !! i = Some e ∧ view m = view m' ++ [e]
  | Err _ => False
  end.
Proof.
  assert (∀ m key, map_ok m →
    map_find key m = Ok (default MAP_NOT_FOUND (assoc_find key (view m)), m)) as Hfind.
  { intros m0 k0 [Hi Hl]. unfold map_find.
    rewrite map_find_loop_ok by (rewrite ?Hi; unfold MAP_ITEMS; simpl; lia). done. }
  intros Ho. pose proof Ho as [Hi Hl]. unfold MAP_ITEMS in Hi. split_and!; [|by apply Hfind|].
  - destruct (Z.ltb_spec (map_len m) 16) as [Hlt|Hge].
    + unfold map_add. replace (map_len m <? Z.of_nat (length (map_item m))) with true by lia.
      rewrite (wrap_id 8) by lia. eexists. split; [done|].
      set (m' := Build_map_t _ _). assert (map_ok m') as Ho'.
      { constructor; simpl; [by rewrite length_insert|lia]. }
      assert (view m' = view m ++ [(key, value)]) as Hv.
      { unfold view, m'. simpl. replace (Z.to_nat (map_len m + 1)) with (S (Z.to_nat (map_len m))) by lia.
        rewrite (take_S_r _ _ (key, value)) by (apply list_lookup_insert_eq; lia).
        by rewrite take_insert_ge by lia. }
      split_and!; [done|done|]. rewrite (Hfind m' key Ho'), Hv. do 2 f_equal.
      clear. induction (view m) as [|[k v] l IH]; simpl; [by rewrite Z.eqb_refl|].
      by destruct (k =? key).
    + unfold map_add. replace (map_len m <? Z.of_nat (length (map_item m))) with false by lia.
      by replace (map_len m) with 16 by lia.
  - unfold map_pop. destruct (Z.eqb_spec (map_len m) 0) as [E|Hne].
    + split; [|done]. unfold view. by rewrite E.
    + rewrite (wrap_id 8) by lia. split; [constructor; [done|simpl; lia]|]. simpl.
      destruct (lookup_lt_is_Some_2 (map_item m) (Z.to_nat (map_len m - 1))) as [e He]; [lia|].
      exists e. split; [done|]. unfold view. simpl.
      replace (Z.to_nat (map_len m)) with (S (Z.to_nat (map_len m - 1))) by lia.
      by apply take_S_r.
Qed.

Definition ex_map : map_t := {| map_len := 1; map_item := (7, 70) :: replicate 15 (0, 0) |}.

Lemma map_refines_witness :
  (∃ m', map_add 7 71 ex_map = Ok (tt, m') ∧ map_ok m' ∧ view m' = view ex_map ++ [(7, 71)] ∧
     map_find 7 m' = Ok (70, m')).
Proof.
  destruct (map_refines ex_map 7 71) as [H _]; [constructor; [reflexivity|simpl; lia]|].
  exact H.
Defined.
End refinement.
