(* ===== verification/KList.v ===== *)
(** * lolibc/kstruct/list.h: circular doubly linked lists

    A [struct list_head] is a pair of links, a heap of them a finite map from
    node addresses; the type of addresses is a parameter, since the list code
    only compares and stores them.  Every inline function of [list.h] is a
    program on that heap.  [circ h head l] says that the heap holds a well
    formed list whose entries, in traversal order, are [l]; the theorems are
    the effect of every operation on that sequence. *)

From S2P Require Import Prelude.

Record list_head (K : Type) := { lh_next : K; lh_prev : K }.
Arguments lh_next {K} _.
Arguments lh_prev {K} _.
Arguments Build_list_head {K} _ _.

Section program.
Context {K : Type} `{Countable K}.
Abbreviation lheap := (gmap K (list_head K)).
Abbreviation L := (M lheap).

Definition bad (p : K) : err := Fault (Z.pos (encode p)).

Definition next (p : K) : L K := λ h,
  match h !! p with Some n => Ok (lh_next n, h) | None => Err (bad p) end.
Definition prev (p : K) : L K := λ h,
  match h !! p with Some n => Ok (lh_prev n, h) | None => Err (bad p) end.
Definition set_next (p q : K) : L unit := λ h,
  match h !! p with
  | Some n => Ok (tt, <[p := Build_list_head q (lh_prev n)]> h)
  | None => Err (bad p)
  end.
Definition set_prev (p q : K) : L unit := λ h,
  match h !! p with
  | Some n => Ok (tt, <[p := Build_list_head (lh_next n) q]> h)
  | None => Err (bad p)
  end.

Definition init_list_head (l : K) : L unit := set_next l l;; set_prev l l.

Definition _list_add (nxt prv new : K) : L unit :=
  set_prev nxt new;; set_next new nxt;; set_prev new prv;; set_next prv new.

Definition list_add (head new : K) : L unit := n ← next head; _list_add n head new.
Definition list_add_tail (head new : K) : L unit := p ← prev head; _list_add head p new.

Definition _list_del (prv nxt : K) : L unit := set_prev nxt prv;; set_next prv nxt.

Definition list_del (entry : K) : L unit :=
  p ← prev entry; n ← next entry; _list_del p n;;
  set_next entry entry;; set_prev entry entry.

Definition list_replace (old new : K) : L unit :=
  n ← next old; set_next new n;;
  n ← next new; set_prev n new;;
  p ← prev old; set_prev new p;;
  p ← prev new; set_next p new.

Definition list_replace_init (old new : K) : L unit :=
  list_replace old new;; init_list_head old.

Definition list_move (list head : K) : L unit :=
  p ← prev list; n ← next list; _list_del p n;; list_add head list.

Definition list_move_tail (list head : K) : L unit :=
  p ← prev list; n ← next list; _list_del p n;; list_add_tail head list.

Definition list_is_empty (head : K) : L bool := n ← next head; mret (bool_decide (n = head)).
Definition list_is_last (list head : K) : L bool := n ← next list; mret (bool_decide (n = head)).

Definition list_splice (list head : K) : L unit :=
  hp ← prev head; n ← next list; set_next hp n;;
  n ← next list; hp ← prev head; set_prev n hp;;
  p ← prev list; set_next p head;;
  p ← prev list; set_prev head p.

Definition list_splice_init (list head : K) : L unit :=
  list_splice list head;; init_list_head list.

(** NULL is [None]. *)
Definition list_pop (head : K) : L (option K) :=
  e ← list_is_empty head;
  if e : bool then mret None else r ← next head; list_del r;; mret (Some r).

Definition list_pop_tail (head : K) : L (option K) :=
  e ← list_is_empty head;
  if e : bool then mret None else r ← prev head; list_del r;; mret (Some r).

(** The entries [list_for_each_entry] visits, in order; the loop ends when it is back at
    [head], which takes at most one step per node of the heap. *)
Fixpoint walk (fuel : nat) (p head : K) : L (list K) :=
  match fuel with
  | O => fail Fuel
  | S fuel =>
      if decide (p = head) then mret []
      else q ← next p; l ← walk fuel q head; mret (p :: l)
  end.

Definition list_for_each (head : K) : L (list K) :=
  p ← next head; fuel ← gets (λ h, S (size h)); walk fuel p head.
End program.

(** ** Well-formed lists *)
Section repr.
Context {K : Type} `{Countable K}.
Implicit Types (h : gmap K (list_head K)) (l : list K).

Definition nextOf h (p : K) : option K := lh_next <$> h !! p.
Definition prevOf h (p : K) : option K := lh_prev <$> h !! p.

(** A path from [x] through the nodes of [l], linked both ways. *)
Fixpoint chain h (x : K) (l : list K) : Prop :=
  match l with
  | [] => True
  | y :: l => nextOf h x = Some y ∧ prevOf h y = Some x ∧ chain h y l
  end.

Definition circ h (head : K) (l : list K) : Prop := NoDup (head :: l) ∧ chain h head (l ++ [head]).

(** [h'] has the same links as [h] at the nodes outside [ns]. *)
Definition links_outside (ns : list K) h h' : Prop :=
  dom h' = dom h ∧ ∀ p, p ∉ ns → h' !! p = h !! p.

Lemma next_ok h p q : nextOf h p = Some q → next p h = Ok (q, h).
Proof. unfold nextOf, next. intros (n & -> & <-)%fmap_Some. done. Qed.

Lemma prev_ok h p q : prevOf h p = Some q → prev p h = Ok (q, h).
Proof. unfold prevOf, prev. intros (n & -> & <-)%fmap_Some. done. Qed.

Lemma set_next_ok h p q : p ∈ dom h → ∃ h', set_next p q h = Ok (tt, h') ∧ dom h' = dom h ∧
  (∀ x, nextOf h' x = if decide (x = p) then Some q else nextOf h x) ∧
  (∀ x, prevOf h' x = prevOf h x) ∧ (∀ x, x ≠ p → h' !! x = h !! x).
Proof.
  intros [n Hn]%elem_of_dom. unfold set_next, nextOf, prevOf. rewrite Hn. eexists. split; [done|].
  split_and!.
  - rewrite dom_insert_L. apply elem_of_dom_2 in Hn. set_solver.
  - intros x. destruct (decide (x = p)) as [->|]; simplify_map_eq; done.
  - intros x. destruct (decide (x = p)) as [->|]; simplify_map_eq; done.
  - intros x Hx. by rewrite lookup_insert_ne.
Qed.

Lemma set_prev_ok h p q : p ∈ dom h → ∃ h', set_prev p q h = Ok (tt, h') ∧ dom h' = dom h ∧
  (∀ x, nextOf h' x = nextOf h x) ∧
  (∀ x, prevOf h' x = if decide (x = p) then Some q else prevOf h x) ∧
  (∀ x, x ≠ p → h' !! x = h !! x).
Proof.
  intros [n Hn]%elem_of_dom. unfold set_prev, nextOf, prevOf. rewrite Hn. eexists. split; [done|].
  split_and!.
  - rewrite dom_insert_L. apply elem_of_dom_2 in Hn. set_solver.
  - intros x. destruct (decide (x = p)) as [->|]; simplify_map_eq; done.
  - intros x. destruct (decide (x = p)) as [->|]; simplify_map_eq; done.
  - intros x Hx. by rewrite lookup_insert_ne.
Qed.

Lemma nextOf_dom h p q : nextOf h p = Some q → p ∈ dom h.
Proof. unfold nextOf. intros (n & E & _)%fmap_Some. by apply elem_of_dom_2 in E. Qed.

Lemma prevOf_dom h p q : prevOf h p = Some q → p ∈ dom h.
Proof. unfold prevOf. intros (n & E & _)%fmap_Some. by apply elem_of_dom_2 in E. Qed.

Lemma chain_app h x l y k : chain h x (l ++ y :: k) ↔ chain h x (l ++ [y]) ∧ chain h y k.
Proof.
  revert x. induction l as [|z l IH]; intros x; simpl; [tauto|]. rewrite IH. tauto.
Qed.

Lemma chain_snoc h x l y z : chain h x ((l ++ [y]) ++ [z]) ↔
  chain h x (l ++ [y]) ∧ nextOf h y = Some z ∧ prevOf h z = Some y.
Proof. rewrite <- app_assoc. simpl. rewrite (chain_app h x l y [z]). simpl. tauto. Qed.

Lemma chain_snoc2 h x l y z : chain h x (l ++ [y; z]) ↔
  chain h x (l ++ [y]) ∧ nextOf h y = Some z ∧ prevOf h z = Some y.
Proof. rewrite (chain_app h x l y [z]). simpl. tauto. Qed.

Lemma chain_frame h h' x l z : chain h x (l ++ [z]) →
  (∀ a, a ∈ x :: l → nextOf h' a = nextOf h a) →
  (∀ b, b ∈ l ++ [z] → prevOf h' b = prevOf h b) → chain h' x (l ++ [z]).
Proof.
  revert x. induction l as [|y l IH]; intros x; simpl.
  - intros (? & ? & _) Hn Hp. rewrite Hn, Hp by set_solver. done.
  - intros (? & ? & ?) Hn Hp. rewrite Hn, Hp by set_solver. split_and!; [done..|].
    apply IH; [done| |]; set_solver.
Qed.

Lemma chain_dom h x l : chain h x l → ∀ y, y ∈ l → y ∈ dom h.
Proof.
  revert x. induction l as [|z l IH]; intros x; simpl; [set_solver|].
  intros (_ & ?%prevOf_dom & ?) y [->|?]%elem_of_cons; [done|eauto].
Qed.

Lemma circ_dom h head l : circ h head l → ∀ y, y ∈ head :: l → y ∈ dom h.
Proof. intros [_ Hc] y Hy. eapply chain_dom; [done|]. set_solver. Qed.

(** Neighbours in a well-formed list. *)
Lemma circ_next_head h head l : circ h head l → nextOf h head = Some (default head (list.head l)).
Proof. intros [_ Hc]. destruct l; simpl in *; tauto. Qed.

Lemma circ_prev_head h head l : circ h head l → prevOf h head = Some (default head (last l)).
Proof.
  intros [_ Hc]. destruct l as [|x l _] using rev_ind; [simpl in *; tauto|].
  rewrite last_snoc. apply chain_snoc in Hc. simpl. tauto.
Qed.

Lemma circ_next_last h head l : circ h head l → nextOf h (default head (last l)) = Some head.
Proof.
  intros [_ Hc]. destruct l as [|x l _] using rev_ind; [simpl in *; tauto|].
  rewrite last_snoc. apply chain_snoc in Hc. simpl. tauto.
Qed.
End repr.

(** Run the next assignment of a pointer program: [h] is the current heap. *)
Ltac lset lem h' E :=
  let D := fresh "D" in let N := fresh "N" in let P := fresh "P" in let F := fresh "F" in
  edestruct lem as (h' & E & D & N & P & F);
  [ | rewrite (bind_ok _ _ _ _ _ E) || rewrite E ].

(** ** Linking and unlinking one node *)
Section links.
Context {K : Type} `{Countable K}.
Implicit Types (h : gmap K (list_head K)) (l : list K).

(** The links of a heap after [new] was linked between [prv] and [nxt]. *)
Definition linked_in h h' (nxt prv new : K) : Prop :=
  dom h' = dom h ∧
  (∀ x, nextOf h' x = if decide (x = prv) then Some new
                      else if decide (x = new) then Some nxt else nextOf h x) ∧
  (∀ x, prevOf h' x = if decide (x = new) then Some prv
                      else if decide (x = nxt) then Some new else prevOf h x) ∧
  (∀ x, x ∉ [nxt; prv; new] → h' !! x = h !! x).

(** The links after the neighbours [prv] and [nxt] were joined; [e] is the unlinked node. *)
Definition joined h h' (e prv nxt : K) : Prop :=
  dom h' = dom h ∧
  (∀ x, x ≠ e → nextOf h' x = if decide (x = prv) then Some nxt else nextOf h x) ∧
  (∀ x, x ≠ e → prevOf h' x = if decide (x = nxt) then Some prv else prevOf h x) ∧
  (∀ x, x ∉ [nxt; prv; e] → h' !! x = h !! x).

Lemma _list_add_ok h nxt prv new : nxt ∈ dom h → prv ∈ dom h → new ∈ dom h →
  ∃ h', _list_add nxt prv new h = Ok (tt, h') ∧ linked_in h h' nxt prv new.
Proof.
  intros Hn Hp Hw. unfold _list_add.
  lset (set_prev_ok h nxt new) h1 E1; [done|].
  lset (set_next_ok h1 new nxt) h2 E2; [set_solver|].
  lset (set_prev_ok h2 new prv) h3 E3; [set_solver|].
  lset (set_next_ok h3 prv new) h4 E4; [set_solver|].
  exists h4. split; [done|]. split_and!.
  - congruence.
  - intros x. rewrite N2, N1, N0, N. done.
  - intros x. rewrite P2, P1, P0, P. done.
  - intros x Hx. rewrite F2, F1, F0, F by set_solver. done.
Qed.

Lemma _list_del_ok h e prv nxt : nxt ∈ dom h → prv ∈ dom h →
  ∃ h', _list_del prv nxt h = Ok (tt, h') ∧ joined h h' e prv nxt ∧
    (e ∉ [prv; nxt] → h' !! e = h !! e).
Proof.
  intros Hn Hp. unfold _list_del.
  lset (set_prev_ok h nxt prv) h1 E1; [done|].
  lset (set_next_ok h1 prv nxt) h2 E2; [set_solver|].
  exists h2. split; [done|]. split; [split_and!|].
  - congruence.
  - intros x _. by rewrite N0, N.
  - intros x _. by rewrite P0, P.
  - intros x Hx. rewrite F0, F by set_solver. done.
  - intros Hx. rewrite F0, F by set_solver. done.
Qed.

(** A list seen with its head at both ends, cut between two nodes. *)
Definition path h (ns : list K) : Prop := match ns with [] => True | x :: l => chain h x l end.

Lemma path_app h (A B : list K) p : path h (A ++ p :: B) ↔ path h (A ++ [p]) ∧ path h (p :: B).
Proof. destruct A as [|x A]; simpl; [tauto|]. apply chain_app. Qed.

Lemma path_frame h h' (ns A B : list K) x z : ns = A ++ [z] → ns = x :: B → path h ns →
  (∀ a, a ∈ A → nextOf h' a = nextOf h a) →
  (∀ b, b ∈ B → prevOf h' b = prevOf h b) → path h' ns.
Proof.
  intros -> HB Hp HN HP. destruct A as [|y A]; [done|]. injection HB as -> <-. simpl in *.
  by eapply chain_frame.
Qed.

Lemma cut_last (head : K) l : ∃ A, head :: l = A ++ [default head (last l)].
Proof.
  destruct l as [|x l _] using rev_ind; [by exists []|]. rewrite last_snoc. by exists (head :: l).
Qed.

Lemma cut_first (head : K) l : ∃ B, l ++ [head] = default head (list.head l) :: B.
Proof. destruct l as [|x l]; [by exists []|]. by exists (l ++ [head]). Qed.

Record cut (head : K) (l1 l2 A B : list K) (p n : K) : Prop := {
  cut_A : head :: l1 = A ++ [p];
  cut_B : l2 ++ [head] = n :: B;
  cut_p : p ∉ A;
  cut_n : n ∉ B;
  cut_l1 : ∀ x, x ∈ l1 → x ∉ n :: B;
  cut_l2 : ∀ x, x ∈ l2 → x ∉ A ++ [p]
}.

Lemma make_cut (head : K) l1 l2 : NoDup (head :: l1 ++ l2) → ∃ A B,
  cut head l1 l2 A B (default head (last l1)) (default head (list.head l2)).
Proof.
  intros Hnd. destruct (cut_last head l1) as [A HA], (cut_first head l2) as [B HB].
  apply NoDup_cons in Hnd as [Hh Hnd]. apply not_elem_of_app in Hh as [Hh1 Hh2].
  apply NoDup_app in Hnd as (H1 & Hd & H2).
  exists A, B. constructor; [done|done|..].
  - assert (NoDup (head :: l1)) as Hx by (by apply NoDup_cons). rewrite HA in Hx.
    apply NoDup_app in Hx as (_ & Hx & _). intros Hp. apply (Hx _ Hp). by apply list_elem_of_here.
  - assert (NoDup (l2 ++ [head])) as Hx.
    { apply NoDup_app. split_and!; [done| |apply NoDup_singleton].
      intros x Hx ->%list_elem_of_singleton. done. }
    rewrite HB in Hx. by apply NoDup_cons in Hx as [Hx _].
  - intros x Hx. rewrite <- HB. intros [?| ->%list_elem_of_singleton]%elem_of_app; [|done].
    by apply (Hd x).
  - intros x Hx. rewrite <- HA. intros [->|?]%elem_of_cons; [done|]. by apply (Hd x).
Qed.

Lemma circ_path h head l : circ h head l ↔ NoDup (head :: l) ∧ path h ((head :: l) ++ [head]).
Proof. done. Qed.

Lemma circ_insert h h' head l1 l2 new : circ h head (l1 ++ l2) → new ∉ head :: l1 ++ l2 →
  linked_in h h' (default head (list.head l2)) (default head (last l1)) new →
  circ h' head (l1 ++ new :: l2).
Proof.
  intros [Hnd Hc]%circ_path Hnew (_ & HN & HP & _). apply circ_path. split.
  { rewrite <- (Permutation_middle l1 l2 new). apply not_elem_of_cons in Hnew as [Hne Hnew].
    apply NoDup_cons in Hnd as [? ?]. apply NoDup_cons. split.
    - intros [->|?]%elem_of_cons; done.
    - by apply NoDup_cons. }
  destruct (make_cut head l1 l2 Hnd) as (A & B & [HA HB Hp Hn H1 H2]).
  set (p := default head (last l1)) in *. set (n := default head (list.head l2)) in *.
  assert (new ∉ A ++ [p] ∧ new ∉ n :: B) as [Hna Hnb].
  { rewrite <- HA, <- HB. set_solver. }
  change (path h ((head :: l1 ++ l2) ++ [head])) in Hc.
  replace ((head :: l1 ++ l2) ++ [head]) with (A ++ p :: n :: B) in Hc.
  2: { change (p :: n :: B) with ([p] ++ n :: B).
       rewrite <- HB, app_assoc, <- HA. simpl. by rewrite <- app_assoc. }
  replace ((head :: l1 ++ new :: l2) ++ [head]) with (A ++ p :: new :: n :: B).
  2: { change (p :: new :: n :: B) with ([p] ++ new :: (n :: B)).
       rewrite <- HB, app_assoc, <- HA. simpl. by rewrite <- app_assoc. }
  apply path_app in Hc as [HcA (_ & _ & HcB)]. apply path_app. split.
  - eapply (path_frame h); [done|symmetry; exact HA|done| |].
    + intros a Ha. rewrite HN, !decide_False; [done|set_solver..].
    + intros b Hb. rewrite HP, !decide_False; [done| |set_solver].
      intros ->. apply (H1 n Hb). set_solver.
  - simpl. split_and!.
    + by rewrite HN, decide_True.
    + by rewrite HP, decide_True.
    + rewrite HN, decide_False, decide_True by set_solver. done.
    + rewrite HP, decide_False, decide_True by set_solver. done.
    + change (path h' (n :: B)). eapply (path_frame h _ _ l2 B); [symmetry; exact HB|done|done| |].
      * intros a Ha. specialize (H2 a Ha). rewrite HN, !decide_False; [done|set_solver..].
      * intros b Hb. rewrite HP, !decide_False; [done|set_solver..].
Qed.

Lemma circ_remove h h' head l1 e l2 : circ h head (l1 ++ e :: l2) →
  joined h h' e (default head (last l1)) (default head (list.head l2)) →
  circ h' head (l1 ++ l2).
Proof.
  intros [Hnd Hc]%circ_path (_ & HN & HP & _). apply circ_path.
  assert (e ∉ head :: l1 ++ l2 ∧ NoDup (head :: l1 ++ l2)) as [He Hnd'].
  { rewrite <- (Permutation_middle l1 l2 e), Permutation_swap in Hnd. by apply NoDup_cons in Hnd. }
  split; [done|]. destruct (make_cut head l1 l2 Hnd') as (A & B & [HA HB Hp Hn H1 H2]).
  set (p := default head (last l1)) in *. set (n := default head (list.head l2)) in *.
  assert (e ∉ A ++ [p] ∧ e ∉ n :: B) as [Hna Hnb].
  { rewrite <- HA, <- HB. set_solver. }
  change (path h ((head :: l1 ++ e :: l2) ++ [head])) in Hc.
  replace ((head :: l1 ++ e :: l2) ++ [head]) with (A ++ p :: e :: n :: B) in Hc.
  2: { change (p :: e :: n :: B) with ([p] ++ e :: (n :: B)).
       rewrite <- HB, app_assoc, <- HA. simpl. by rewrite <- app_assoc. }
  replace ((head :: l1 ++ l2) ++ [head]) with (A ++ p :: n :: B).
  2: { change (p :: n :: B) with ([p] ++ n :: B).
       rewrite <- HB, app_assoc, <- HA. simpl. by rewrite <- app_assoc. }
  apply path_app in Hc as [HcA (_ & _ & _ & _ & HcB)]. apply path_app. split.
  - eapply (path_frame h); [done|symmetry; exact HA|done| |].
    + intros a Ha. rewrite HN, !decide_False; [done|set_solver..].
    + intros b Hb. specialize (H1 b Hb). rewrite HP, !decide_False; [done|set_solver|].
      intros ->. rewrite <- HA in Hna. set_solver.
  - simpl. split_and!.
    + rewrite HN, decide_True by set_solver. done.
    + rewrite HP, decide_True by set_solver. done.
    + change (path h' (n :: B)). eapply (path_frame h _ _ l2 B); [symmetry; exact HB|done|done| |].
      * intros a Ha. specialize (H2 a Ha). rewrite HN, !decide_False; [done|set_solver|].
        intros ->. apply Hnb. rewrite <- HB. set_solver.
      * intros b Hb. rewrite HP, !decide_False; [done|set_solver..].
Qed.
End links.

(** ** The operations on the sequence of entries *)
Section operations.
Context {K : Type} `{Countable K}.
Implicit Types (h : gmap K (list_head K)) (l : list K).

(** [h'] differs from [h] at the nodes of [ns] only. *)
Definition only_at (ns : list K) h h' : Prop := ∀ x, x ∉ ns → h' !! x = h !! x.

Lemma circ_same h h' head l : circ h head l →
  (∀ x, x ∈ head :: l → h' !! x = h !! x) → circ h' head l.
Proof.
  intros [Hnd Hc] Hs. split; [done|]. eapply chain_frame; [done|..].
  - intros a Ha. unfold nextOf. by rewrite Hs.
  - intros b Hb. unfold prevOf. rewrite Hs; [done|]. set_solver.
Qed.

Lemma last_in (head : K) l : default head (last l) ∈ head :: l.
Proof.
  destruct l as [|x l _] using rev_ind; [by left|]. rewrite last_snoc. simpl. set_solver.
Qed.

Lemma head_in (head : K) l : default head (list.head l) ∈ head :: l.
Proof. destruct l; simpl; set_solver. Qed.

Lemma init_ok h e : e ∈ dom h → ∃ h', init_list_head e h = Ok (tt, h') ∧ circ h' e [] ∧
  dom h' = dom h ∧ only_at [e] h h'.
Proof.
  intros He. unfold init_list_head.
  lset (set_next_ok h e e) h1 E1; [done|]. lset (set_prev_ok h1 e e) h2 E2; [set_solver|].
  exists h2. split; [done|]. split_and!.
  - split; [apply NoDup_singleton|]. simpl. rewrite N0, N, P0, !decide_True by done. done.
  - congruence.
  - intros x Hx. rewrite F0, F by set_solver. done.
Qed.

(** The link step of [list_add] and [list_add_tail]. *)
Lemma list_link h head l1 l2 new : circ h head (l1 ++ l2) → new ∈ dom h → new ∉ head :: l1 ++ l2 →
  ∃ h', _list_add (default head (list.head l2)) (default head (last l1)) new h = Ok (tt, h') ∧
    circ h' head (l1 ++ new :: l2) ∧ dom h' = dom h ∧ only_at (new :: head :: l1 ++ l2) h h'.
Proof.
  intros Hc Hn Hni. pose proof (circ_dom _ _ _ Hc) as Hdom.
  pose proof (last_in head l1) as Hl. pose proof (head_in head l2) as Hh.
  destruct (_list_add_ok h (default head (list.head l2)) (default head (last l1)) new)
    as (h' & E & Hlk); [apply Hdom; set_solver|apply Hdom; set_solver|done|].
  exists h'. split; [done|]. split; [by eapply circ_insert|].
  destruct Hlk as (? & _ & _ & Ho). split; [done|]. intros x Hx. apply Ho. set_solver.
Qed.

Lemma list_add_ok h head l new : circ h head l → new ∈ dom h → new ∉ head :: l →
  ∃ h', list_add head new h = Ok (tt, h') ∧ circ h' head (new :: l) ∧ dom h' = dom h ∧
    only_at (new :: head :: l) h h'.
Proof.
  intros Hc Hn Hni. unfold list_add. mstep_by @next_ok; [|by eapply circ_next_head].
  apply (list_link h head [] l new); done.
Qed.

Lemma list_add_tail_ok h head l new : circ h head l → new ∈ dom h → new ∉ head :: l →
  ∃ h', list_add_tail head new h = Ok (tt, h') ∧ circ h' head (l ++ [new]) ∧ dom h' = dom h ∧
    only_at (new :: head :: l) h h'.
Proof.
  intros Hc Hn Hni. unfold list_add_tail. mstep_by @prev_ok; [|by eapply circ_prev_head].
  pose proof (list_link h head l [] new) as L. rewrite app_nil_r in L. by apply L.
Qed.

(** The neighbours of an entry. *)
Lemma circ_neighbours h head l1 e l2 : circ h head (l1 ++ e :: l2) →
  prevOf h e = Some (default head (last l1)) ∧ nextOf h e = Some (default head (list.head l2)).
Proof.
  intros [_ Hc]. rewrite <- app_assoc in Hc. simpl in Hc. apply chain_app in Hc as [H1 H2]. split.
  - destruct l1 as [|p l1 _] using rev_ind; simpl in H1; [tauto|].
    rewrite last_snoc. apply chain_snoc in H1. simpl. tauto.
  - destruct l2; simpl in *; tauto.
Qed.

Lemma circ_mid h head l1 e l2 : circ h head (l1 ++ e :: l2) →
  e ∉ head :: l1 ++ l2 ∧ NoDup (head :: l1 ++ l2).
Proof.
  intros [Hnd _]. rewrite <- (Permutation_middle l1 l2 e), Permutation_swap in Hnd.
  by apply NoDup_cons in Hnd.
Qed.

(** Unlinking an entry; its own links are as before. *)
Lemma list_unlink h head l1 e l2 : circ h head (l1 ++ e :: l2) →
  ∃ h', _list_del (default head (last l1)) (default head (list.head l2)) h = Ok (tt, h') ∧
    circ h' head (l1 ++ l2) ∧ dom h' = dom h ∧ only_at (head :: l1 ++ l2) h h'.
Proof.
  intros Hc. pose proof (circ_dom _ _ _ Hc) as Hdom. destruct (circ_mid _ _ _ _ _ Hc) as [He _].
  pose proof (last_in head l1) as Hl. pose proof (head_in head l2) as Hh.
  destruct (_list_del_ok h e (default head (last l1)) (default head (list.head l2)))
    as (h' & E & Hj & Hsame); [apply Hdom; set_solver|apply Hdom; set_solver|].
  exists h'. split; [done|]. split; [by eapply circ_remove|].
  destruct Hj as (? & _ & _ & Ho). split; [done|]. intros x Hx.
  destruct (decide (x = e)) as [->|]; [apply Hsame|apply Ho]; set_solver.
Qed.

Lemma list_del_ok h head l1 e l2 : circ h head (l1 ++ e :: l2) →
  ∃ h', list_del e h = Ok (tt, h') ∧ circ h' head (l1 ++ l2) ∧ circ h' e [] ∧ dom h' = dom h ∧
    only_at (e :: head :: l1 ++ l2) h h'.
Proof.
  intros Hc. destruct (circ_neighbours _ _ _ _ _ Hc) as [Hp Hn].
  destruct (circ_mid _ _ _ _ _ Hc) as [He _]. pose proof (circ_dom _ _ _ Hc) as Hdom.
  unfold list_del. mstep_by @prev_ok; [|done]. mstep_by @next_ok; [|done].
  destruct (list_unlink _ _ _ _ _ Hc) as (h1 & E1 & Hc1 & Hd1 & Ho1).
  rewrite (bind_ok _ _ _ _ _ E1).
  destruct (init_ok h1 e) as (h2 & E2 & Hc2 & Hd2 & Ho2); [rewrite Hd1; apply Hdom; set_solver|].
  exists h2. split; [exact E2|]. split_and!; [|done|congruence|].
  - eapply circ_same; [done|]. intros x Hx. apply Ho2. set_solver.
  - intros x Hx. rewrite Ho2, Ho1 by set_solver. done.
Qed.
End operations.

(** ** Compound operations *)
Section compound.
Context {K : Type} `{Countable K}.
Implicit Types (h : gmap K (list_head K)) (l : list K).

Lemma is_empty_ok h head l : circ h head l →
  list_is_empty head h = Ok (bool_decide (l = []), h).
Proof.
  intros Hc. unfold list_is_empty. mstep_by @next_ok; [|by eapply circ_next_head].
  unfold mret, M_ret. do 2 f_equal. apply bool_decide_ext. destruct Hc as [Hnd _].
  destruct l as [|x l]; simpl; [done|]. split; [|done]. intros ->.
  apply NoDup_cons in Hnd as [Hx _]. set_solver.
Qed.

Lemma is_last_ok h head l1 e l2 : circ h head (l1 ++ e :: l2) →
  list_is_last e head h = Ok (bool_decide (l2 = []), h).
Proof.
  intros Hc. unfold list_is_last. mstep_by @next_ok; [|by eapply circ_neighbours].
  unfold mret, M_ret. do 2 f_equal. apply bool_decide_ext. destruct Hc as [Hnd _].
  destruct l2 as [|x l2]; simpl; [done|]. split; [|done]. intros ->.
  apply NoDup_cons in Hnd as [Hx _]. set_solver.
Qed.

Lemma list_pop_ok h head l : circ h head l →
  match l with
  | [] => list_pop head h = Ok (None, h)
  | e :: l => ∃ h', list_pop head h = Ok (Some e, h') ∧ circ h' head l ∧ circ h' e [] ∧
                only_at (e :: head :: l) h h'
  end.
Proof.
  intros Hc. unfold list_pop. destruct l as [|e l].
  - mstep_by @is_empty_ok; [|done]. done.
  - mstep_by @is_empty_ok; [|done]. rewrite bool_decide_eq_false_2 by done.
    mstep_by @next_ok; [|by eapply circ_next_head]. cbn [default list.head option_map from_option].
    destruct (list_del_ok h head [] e l Hc) as (h' & E & ? & ? & _ & ?).
    exists h'. rewrite (bind_ok _ _ _ _ _ E). done.
Qed.

Lemma list_pop_tail_ok h head l e : circ h head (l ++ [e]) →
  ∃ h', list_pop_tail head h = Ok (Some e, h') ∧ circ h' head l ∧ circ h' e [] ∧
    only_at (e :: head :: l) h h'.
Proof.
  intros Hc. unfold list_pop_tail. mstep_by @is_empty_ok; [|done].
  rewrite bool_decide_eq_false_2 by (intros ?; destruct l; done).
  mstep_by @prev_ok; [|by eapply circ_prev_head]. rewrite last_snoc. cbn [default from_option].
  destruct (list_del_ok h head l e [] Hc) as (h' & E & ? & ? & _ & ?). rewrite app_nil_r in *.
  exists h'. rewrite (bind_ok _ _ _ _ _ E). done.
Qed.

(** Moving an entry to the front (or the back) of the same list or of another one. *)
Lemma list_move_ok h head l1 e l2 : circ h head (l1 ++ e :: l2) →
  (∃ h', list_move e head h = Ok (tt, h') ∧ circ h' head (e :: l1 ++ l2)) ∧
  (∃ h', list_move_tail e head h = Ok (tt, h') ∧ circ h' head ((l1 ++ l2) ++ [e])).
Proof.
  intros Hc. destruct (circ_neighbours _ _ _ _ _ Hc) as [Hp Hn].
  destruct (circ_mid _ _ _ _ _ Hc) as [He _]. pose proof (circ_dom _ _ _ Hc) as Hdom.
  destruct (list_unlink _ _ _ _ _ Hc) as (h1 & E1 & Hc1 & Hd1 & _).
  assert (e ∈ dom h1) by (rewrite Hd1; apply Hdom; set_solver).
  split.
  - destruct (list_add_ok h1 head (l1 ++ l2) e) as (h2 & E2 & Hc2 & _); [done..|].
    exists h2. split; [|done]. unfold list_move.
    mstep_by @prev_ok; [|done]. mstep_by @next_ok; [|done]. by rewrite (bind_ok _ _ _ _ _ E1).
  - destruct (list_add_tail_ok h1 head (l1 ++ l2) e) as (h2 & E2 & Hc2 & _); [done..|].
    exists h2. split; [|done]. unfold list_move_tail.
    mstep_by @prev_ok; [|done]. mstep_by @next_ok; [|done]. by rewrite (bind_ok _ _ _ _ _ E1).
Qed.

Lemma list_move_other_ok h headA headB l1 e l2 k : circ h headA (l1 ++ e :: l2) → circ h headB k →
  (∀ x, x ∈ headB :: k → x ∉ headA :: l1 ++ e :: l2) →
  ∃ h', list_move e headB h = Ok (tt, h') ∧ circ h' headA (l1 ++ l2) ∧ circ h' headB (e :: k).
Proof.
  intros Hc HcB Hdis. destruct (circ_neighbours _ _ _ _ _ Hc) as [Hp Hn].
  destruct (circ_mid _ _ _ _ _ Hc) as [He _]. pose proof (circ_dom _ _ _ Hc) as Hdom.
  destruct (list_unlink _ _ _ _ _ Hc) as (h1 & E1 & Hc1 & Hd1 & Ho1).
  assert (e ∈ dom h1) by (rewrite Hd1; apply Hdom; set_solver).
  assert (circ h1 headB k) as HcB1.
  { eapply circ_same; [done|]. intros x Hx. apply Ho1. specialize (Hdis x Hx). set_solver. }
  destruct (list_add_ok h1 headB k e) as (h2 & E2 & Hc2 & _ & Ho2); [done|done| |].
  { intros Hin. apply (Hdis e Hin). set_solver. }
  exists h2. split_and!; [|eapply circ_same; [done|]|done].
  - unfold list_move. mstep_by @prev_ok; [|done]. mstep_by @next_ok; [|done].
    by rewrite (bind_ok _ _ _ _ _ E1).
  - intros x Hx. apply Ho2. intros [->|Hin]%elem_of_cons; [done|].
    apply (Hdis x Hin). set_solver.
Qed.

(** [list_replace] puts [new] at the place of [old]. *)
Lemma list_replace_ok h head l1 old l2 new : circ h head (l1 ++ old :: l2) → new ∈ dom h →
  new ∉ head :: l1 ++ old :: l2 →
  ∃ h', list_replace old new h = Ok (tt, h') ∧ circ h' head (l1 ++ new :: l2).
Proof.
  intros Hc Hw Hnew. destruct (circ_neighbours _ _ _ _ _ Hc) as [Hp Hn].
  destruct (circ_mid _ _ _ _ _ Hc) as [He Hnd]. pose proof (circ_dom _ _ _ Hc) as Hdom.
  destruct (list_unlink _ _ _ _ _ Hc) as (h0 & E0 & Hc0 & Hd0 & Ho0).
  pose proof (last_in head l1) as Hl. pose proof (head_in head l2) as Hh.
  set (p := default head (last l1)) in *. set (n := default head (list.head l2)) in *.
  assert (p ∈ dom h ∧ n ∈ dom h) as [Hpd Hnd'] by (split; apply Hdom; set_solver).
  assert (new ≠ old ∧ new ≠ p ∧ new ≠ n ∧ old ≠ p ∧ old ≠ n) as (Hne & Hnp & Hnn & Hop & Hon)
    by set_solver.
  unfold list_replace. mstep_by @next_ok; [|done].
  lset (set_next_ok h new n) h1 E1; [done|].
  rewrite (bind_ok _ _ _ n h1) by (apply next_ok; by rewrite N, decide_True).
  lset (set_prev_ok h1 n new) h2 E2; [set_solver|].
  rewrite (bind_ok _ _ _ p h2) by (apply prev_ok; by rewrite P0, decide_False, P).
  lset (set_prev_ok h2 new p) h3 E3; [set_solver|].
  rewrite (bind_ok _ _ _ p h3) by (apply prev_ok; by rewrite P1, decide_True).
  lset (set_next_ok h3 p new) h4 E4; [set_solver|].
  exists h4. split; [done|].
  destruct (_list_del_ok h old p n) as (h0' & E0' & (Hdj & HN & HP & Ho) & Hsame); [done|done|].
  rewrite E0 in E0'. injection E0' as <-.
  assert (nextOf h0 old = nextOf h old ∧ prevOf h0 old = prevOf h old) as [Ho1 Ho2].
  { unfold nextOf, prevOf. rewrite Hsame by set_solver. done. }
  apply (circ_insert h0 h4); [done|set_solver|]. split_and!.
  - congruence.
  - intros x. rewrite N2, N1, N0, N. repeat case_decide; try done.
    destruct (decide (x = old)) as [->|]; [done|]. rewrite HN, decide_False by done. done.
  - intros x. rewrite P2, P1, P0, P. repeat case_decide; try done.
    destruct (decide (x = old)) as [->|]; [done|]. rewrite HP, decide_False by done. done.
  - intros x Hx. fold p n in Hx. assert (x ≠ n ∧ x ≠ p ∧ x ≠ new) as (Hxn & Hxp & Hxw) by (clear -Hx; set_solver).
    rewrite F2, F1, F0, F by done. symmetry.
    destruct (decide (x = old)) as [->|Hxo]; [apply Hsame|apply Ho]; rewrite !not_elem_of_cons; split_and!; try done; apply not_elem_of_nil.
Qed.

(** The links after a non-empty list was put behind the last entry of another one. *)
Lemma circ_splice h h' src head k l : circ h src k → circ h head l → k ≠ [] →
  (∀ x, x ∈ src :: k → x ∉ head :: l) →
  let hp := default head (last l) in let fk := default src (list.head k) in
  let lk := default src (last k) in
  (∀ x, nextOf h' x = if decide (x = lk) then Some head else
          if decide (x = hp) then Some fk else nextOf h x) →
  (∀ x, prevOf h' x = if decide (x = head) then Some lk else
          if decide (x = fk) then Some hp else prevOf h x) →
  circ h' head (l ++ k).
Proof.
  intros [Hnds Hs]%circ_path [Hndh Hh]%circ_path Hk Hdis hp fk lk HN HP.
  apply NoDup_cons in Hnds as [Hsk Hndk].
  apply circ_path. split.
  { rewrite app_comm_cons. apply NoDup_app. split_and!; [done| |done].
    intros x Hx Hxk. apply (Hdis x); set_solver. }
  destruct (cut_last head l) as [A HA]. fold hp in HA.
  assert (∃ B, k = fk :: B) as [B HB] by (destruct k as [|f k]; [done|by exists k]).
  assert (∃ C, k = C ++ [lk]) as [C HC].
  { unfold lk. destruct k as [|z k _] using rev_ind; [done|]. rewrite last_snoc. by exists k. }
  assert (hp ∈ head :: l ∧ fk ∈ k ∧ lk ∈ k ∧ head ∈ head :: l) as (Hhp & Hfk & Hlk & Hhd).
  { split_and!; [apply last_in|rewrite HB; by left|rewrite HC; set_solver|by left]. }
  assert (∀ x, x ∈ k → x ∉ head :: l) as Hd by (intros x Hx; apply Hdis; by right).
  rewrite app_comm_cons, HA. rewrite HB at 1. rewrite <- !app_assoc. cbn [app].
  apply (path_app h' A (fk :: B ++ [head]) hp). split.
  - eapply (path_frame h); [done|symmetry; exact HA| | |].
    + change (path h ((head :: l) ++ [head])) in Hh. rewrite HA, <- app_assoc in Hh. by apply (path_app h A [head] hp) in Hh as [Hh _].
    + rewrite HA in Hndh. apply NoDup_app in Hndh as (_ & Hndh & _).
      intros a Ha. assert (a ∈ head :: l) by (rewrite HA; set_solver).
      rewrite HN, !decide_False; [done| |]; intros ->; [|by apply (Hd lk)].
      apply (Hndh _ Ha). by left.
    + apply NoDup_cons in Hndh as [Hhl _].
      intros b Hb. rewrite HP, !decide_False; [done| |]; intros ->; [|done].
      apply (Hd fk); [done|by right].
  - assert (hp ≠ lk ∧ fk ≠ head) as [Hn1 Hn2].
    { split; intros E; [apply (Hd lk); [done|by rewrite <- E]|apply (Hd fk); [done|by rewrite E]]. }
    simpl. split_and!.
    + rewrite HN, decide_False, decide_True; done.
    + rewrite HP, decide_False, decide_True; done.
    + change (path h' ((fk :: B) ++ [head])). rewrite <- HB, HC, <- app_assoc. cbn [app].
      apply (path_app h' C [head] lk). rewrite <- HC. split.
      * change (path h ([src] ++ k ++ [src])) in Hs. rewrite HB in Hs. cbn [app] in Hs.
        apply (path_app h [src] (B ++ [src]) fk) in Hs as [_ Hs].
        change (path h ((fk :: B) ++ [src])) in Hs. rewrite <- HB, HC, <- app_assoc in Hs.
        apply (path_app h C [src] lk) in Hs as [Hs _]. rewrite <- HC in Hs.
        apply (path_frame h h' k C B fk lk); [done|done|done| |].
        -- rewrite HC in Hndk. apply NoDup_app in Hndk as (_ & Hndk & _).
           intros a Ha. rewrite HN, !decide_False; [done| |]; intros ->.
           ++ apply (Hd hp); [rewrite HC; set_solver|done].
           ++ apply (Hndk _ Ha). by left.
        -- rewrite HB in Hndk. apply NoDup_cons in Hndk as [Hndk _].
           intros b Hb. assert (b ∈ k) by (rewrite HB; by right).
           rewrite HP, !decide_False; [done| |]; intros ->; [done|by apply (Hd head)].
      * simpl. rewrite HN, HP, !decide_True by done. done.
Qed.

(** [list_splice] appends the entries of the list at [src] to the list at [head]; an empty
    list at [src] changes nothing there. *)
Lemma list_splice_ok h src head k l : circ h src k → circ h head l →
  (∀ x, x ∈ src :: k → x ∉ head :: l) →
  ∃ h', list_splice src head h = Ok (tt, h') ∧ circ h' head (l ++ k) ∧ dom h' = dom h.
Proof.
  intros Hs Hc Hdis. pose proof (circ_dom _ _ _ Hs) as Hds. pose proof (circ_dom _ _ _ Hc) as Hdh.
  set (hp := default head (last l)). set (fk := default src (list.head k)).
  set (lk := default src (last k)).
  assert (hp ∈ head :: l) as Hhp by apply last_in.
  assert (fk ∈ src :: k) as Hfk by apply head_in.
  assert (lk ∈ src :: k) as Hlk by apply last_in.
  assert (src ∈ src :: k) as Hsrc by set_solver. assert (head ∈ head :: l) as Hhd by set_solver.
  assert (∀ x y, x ∈ src :: k → y ∈ head :: l → x ≠ y) as Hne.
  { intros x y Hx Hy ->. by apply (Hdis y). }
  assert (prevOf h head = Some hp) as Ep by (by apply circ_prev_head).
  assert (nextOf h src = Some fk) as En by (by apply circ_next_head).
  assert (prevOf h src = Some lk) as El by (by apply circ_prev_head).
  unfold list_splice. mstep_by @prev_ok; [|done]. mstep_by @next_ok; [|done].
  lset (set_next_ok h hp fk) h1 E1; [set_solver|].
  rewrite (bind_ok _ _ _ fk h1) by (apply next_ok; by rewrite N, decide_False by auto).
  rewrite (bind_ok _ _ _ hp h1) by (apply prev_ok; by rewrite P).
  lset (set_prev_ok h1 fk hp) h2 E2; [set_solver|].
  (* for an empty list [src]'s own [prev] was just redirected *)
  set (lk' := if decide (src = fk) then hp else lk).
  assert (prevOf h2 src = Some lk') as El2.
  { rewrite P0. unfold lk'. case_decide; [done|]. by rewrite P. }
  rewrite (bind_ok _ _ _ lk' h2) by (by apply prev_ok).
  assert (lk' ∈ dom h2) as Hlkd by (rewrite D0, D; unfold lk'; case_decide; auto).
  lset (set_next_ok h2 lk' head) h3 E3; [done|].
  rewrite (bind_ok _ _ _ lk' h3) by (apply prev_ok; by rewrite P1).
  lset (set_prev_ok h3 head lk') h4 E4; [rewrite D1, D0, D; apply Hdh; by left|].
  exists h4. split; [done|]. split; [|congruence].
  destruct (decide (k = [])) as [->|Hk].
  - rewrite app_nil_r. unfold fk, lk' in *. simpl in *. rewrite decide_True in * by done.
    assert (∀ x, x ∈ head :: l → nextOf h4 x = nextOf h x ∧ prevOf h4 x = prevOf h x) as Hsame.
    { intros x Hx. assert (src ≠ x) by auto.
      rewrite N2, N1, N0, N, P2, P1, P0, P. split.
      - case_decide as Hxp; [|done]. subst x. symmetry. by apply circ_next_last.
      - repeat case_decide; congruence. }
    destruct Hc as [Hnd Hc]. split; [done|]. eapply chain_frame; [exact Hc|..].
    + intros a Ha. by apply Hsame.
    + intros b Hb. apply Hsame. clear -Hb. set_solver.
  - assert (fk ∈ k ∧ lk ∈ k) as [Hfkk Hlkk].
    { unfold fk, lk. clear -Hk. split; [destruct k; simpl; [done|by left]|].
      destruct k as [|z k _] using rev_ind; [done|]. rewrite last_snoc. simpl. apply elem_of_app. right. by left. }
    assert (src ≠ fk) as Hsf.
    { destruct Hs as [[Hsk _]%NoDup_cons _]. intros HE. apply Hsk. by rewrite HE. }
    assert (lk' = lk) as Hlk' by (unfold lk'; by rewrite decide_False).
    rewrite Hlk' in *. clear Hlk' El2 Hlkd.
    eapply (circ_splice h h4 src); [done..| |]; fold hp fk lk.
    + intros x. by rewrite N2, N1, N0, N.
    + intros x. by rewrite P2, P1, P0, P.
Qed.

(** Traversal from the successor of [x]. *)
Lemma walk_ok h head l x fuel : head ∉ l → chain h x (l ++ [head]) → (length l < fuel)%nat →
  walk fuel (default head (list.head l)) head h = Ok (l, h).
Proof.
  revert x fuel. induction l as [|y l IH]; intros x fuel Hh Hc Hf;
    (destruct fuel as [|fuel]; [simpl in Hf; lia|]); simpl.
  - by rewrite decide_True.
  - destruct Hc as (_ & _ & Hc). apply not_elem_of_cons in Hh as [Hne Hh].
    rewrite decide_False by auto.
    assert (nextOf h y = Some (default head (list.head l))) as Hn.
    { destruct l; simpl in *; tauto. }
    rewrite (bind_ok _ _ _ _ _ (next_ok _ _ _ Hn)).
    rewrite (bind_ok _ _ _ l h); [done|]. eapply IH; [done|exact Hc|simpl in Hf; lia].
Qed.

Lemma circ_length h head l : circ h head l → (length l < S (size h))%nat.
Proof.
  intros Hc. pose proof (circ_dom _ _ _ Hc) as Hd. destruct Hc as [Hnd Hc].
  apply Nat.lt_succ_r. rewrite <- size_dom.
  apply NoDup_cons in Hnd as [_ Hnd]. rewrite <- (size_list_to_set (C:=gset K) l Hnd).
  apply subseteq_size. intros x Hx%elem_of_list_to_set. apply Hd. by right.
Qed.

Lemma for_each_ok h head l : circ h head l → list_for_each head h = Ok (l, h).
Proof.
  intros Hc. unfold list_for_each. mstep_by @next_ok; [|by eapply circ_next_head].
  rewrite (bind_ok _ _ _ (S (size h)) h) by done.
  pose proof (circ_length _ _ _ Hc). destruct Hc as [Hnd Hc].
  eapply walk_ok; [by apply NoDup_cons in Hnd as [? _]|done|done].
Qed.
End compound.

(** ** Properties *)
Section properties.
Context {K : Type} `{Countable K}.
Implicit Types (h : gmap K (list_head K)) (l : list K).

(** C29: insertion and deletion.  On a well-formed list with entries [l], [list_add] gives
    [new :: l] and [list_add_tail] gives [l ++ [new]], [list_del] of an entry gives the rest
    and leaves that entry as an empty list of its own; no other node of the heap changes.
    A [list_add] or [list_add_tail] followed by [list_del] of the same node gives the
    original sequence. *)
Theorem list_insert_delete h head l new : circ h head l → new ∈ dom h → new ∉ head :: l →
  (∃ h1, list_add head new h = Ok (tt, h1) ∧ circ h1 head (new :: l) ∧
     only_at (new :: head :: l) h h1 ∧
     ∃ h2, list_del new h1 = Ok (tt, h2) ∧ circ h2 head l ∧ circ h2 new [] ∧
       only_at (new :: head :: l) h h2) ∧
  (∃ h1, list_add_tail head new h = Ok (tt, h1) ∧ circ h1 head (l ++ [new]) ∧
     only_at (new :: head :: l) h h1 ∧
     ∃ h2, list_del new h1 = Ok (tt, h2) ∧ circ h2 head l ∧ circ h2 new [] ∧
       only_at (new :: head :: l) h h2) ∧
  (∀ l1 e l2, l = l1 ++ e :: l2 →
     ∃ h1, list_del e h = Ok (tt, h1) ∧ circ h1 head (l1 ++ l2) ∧ circ h1 e [] ∧
       only_at (head :: l) h h1).
Proof.
  intros Hc Hw Hni. split_and!.
  - destruct (list_add_ok _ _ _ _ Hc Hw Hni) as (h1 & E1 & Hc1 & _ & Ho1).
    destruct (list_del_ok h1 head [] new l Hc1) as (h2 & E2 & Hc2 & Hc2' & _ & Ho2).
    exists h1. split_and!; [done..|]. exists h2. split_and!; [done..|].
    intros x Hx. rewrite Ho2, Ho1 by set_solver. done.
  - destruct (list_add_tail_ok _ _ _ _ Hc Hw Hni) as (h1 & E1 & Hc1 & _ & Ho1).
    destruct (list_del_ok h1 head l new [] Hc1) as (h2 & E2 & Hc2 & Hc2' & _ & Ho2).
    rewrite app_nil_r in *.
    exists h1. split_and!; [done..|]. exists h2. split_and!; [done..|].
    intros x Hx. rewrite Ho2, Ho1 by set_solver. done.
  - intros l1 e l2 ->. destruct (list_del_ok _ _ _ _ _ Hc) as (h1 & E1 & Hc1 & Hc1' & _ & Ho).
    exists h1. split_and!; [done..|]. intros x Hx. apply Ho.
    rewrite <- (Permutation_middle l1 l2 e) in Hx. set_solver.
Qed.

(** The compound operations.  [list_replace] puts the new node at the old one's place,
    [list_move] and [list_move_tail] rotate an entry to the front or the back of its list,
    [list_move] transfers an entry between two lists, and [list_splice] appends a whole list
    to another one. *)
Theorem list_rearrange h head l1 e l2 : circ h head (l1 ++ e :: l2) →
  (∀ new, new ∈ dom h → new ∉ head :: l1 ++ e :: l2 →
     ∃ h', list_replace e new h = Ok (tt, h') ∧ circ h' head (l1 ++ new :: l2)) ∧
  (∃ h', list_move e head h = Ok (tt, h') ∧ circ h' head (e :: l1 ++ l2)) ∧
  (∃ h', list_move_tail e head h = Ok (tt, h') ∧ circ h' head ((l1 ++ l2) ++ [e])) ∧
  (∀ headB k, circ h headB k → (∀ x, x ∈ headB :: k → x ∉ head :: l1 ++ e :: l2) →
     (∃ h', list_move e headB h = Ok (tt, h') ∧ circ h' head (l1 ++ l2) ∧
        circ h' headB (e :: k)) ∧
     (∃ h', list_splice headB head h = Ok (tt, h') ∧ circ h' head ((l1 ++ e :: l2) ++ k))).
Proof.
  intros Hc. destruct (list_move_ok _ _ _ _ _ Hc) as [Hm Hmt]. split_and!; [|done..|].
  - intros new. by apply list_replace_ok.
  - intros headB k HB Hd. split; [by apply list_move_other_ok|].
    destruct (list_splice_ok h headB head k _ HB Hc Hd) as (h' & ? & ? & _). eauto.
Qed.

(** Traversal and queue use.  [list_for_each_entry] visits the entries in order and ends
    (the loop budget, one step per node, is enough); [list_is_empty] answers whether there is
    an entry, and [list_pop] returns the first entry and removes it, or NULL from an empty
    list, which it leaves alone. *)
Theorem list_traverse_pop h head l : circ h head l →
  list_for_each head h = Ok (l, h) ∧
  list_is_empty head h = Ok (bool_decide (l = []), h) ∧
  match l with
  | [] => list_pop head h = Ok (None, h) ∧ list_pop_tail head h = Ok (None, h)
  | e :: k => ∃ h', list_pop head h = Ok (Some e, h') ∧ circ h' head k ∧ circ h' e [] ∧
                list_for_each head h' = Ok (k, h')
  end.
Proof.
  intros Hc. split_and!; [by apply for_each_ok|by apply is_empty_ok|].
  pose proof (list_pop_ok _ _ _ Hc) as Hp. destruct l as [|e k].
  - split; [done|]. unfold list_pop_tail. mstep_by @is_empty_ok; [|done]. done.
  - destruct Hp as (h' & E & Hc' & He & _). exists h'. split_and!; [done..|by apply for_each_ok].
Qed.
End properties.

(** A heap with a list [1 -> 2 -> 3] at head [0], an empty list at [10] and a free node [4]. *)
Definition sample_heap : gmap Z (list_head Z) :=
  list_to_map [(0, Build_list_head 1 3); (1, Build_list_head 2 0); (2, Build_list_head 3 1);
               (3, Build_list_head 0 2); (10, Build_list_head 10 10); (4, Build_list_head 0 0)].

Lemma sample_circ : circ sample_heap 0 [1; 2; 3] ∧ circ sample_heap 10 [].
Proof. split; (split; [by_decide|by vm_compute]). Qed.

Lemma list_insert_delete_witness :
  ∃ h1, list_add_tail 0 4 sample_heap = Ok (tt, h1) ∧ circ h1 0 ([1; 2; 3] ++ [4]).
Proof.
  destruct (list_insert_delete sample_heap 0 [1; 2; 3] 4 (proj1 sample_circ))
    as (_ & (h1 & ? & ? & _) & _); [by_decide..|eauto].
Defined.

Lemma list_rearrange_witness :
  ∃ h1, list_move_tail 2 0 sample_heap = Ok (tt, h1) ∧ circ h1 0 [1; 3; 2].
Proof.
  destruct (list_rearrange sample_heap 0 [1] 2 [3] (proj1 sample_circ)) as (_ & _ & Hm & _).
  exact Hm.
Defined.

Lemma list_traverse_pop_witness :
  list_for_each 0 sample_heap = Ok ([1; 2; 3], sample_heap).
Proof. apply (list_traverse_pop sample_heap 0 [1; 2; 3] (proj1 sample_circ)). Defined.
