(* ===== verification/PageAlloc.v ===== *)
(** * mm/memblock.c, mm/mm.c: the page allocator

    Free 16K pages are linked through their first word, [kmem.freelist] is the
    head of the list.  The state of the allocator is that word; its functions
    run on the pair of the memory and it.  [PageAllocator] states what
    [kmalloc] and [kfree] promise to the page tables and to [malloc], which are
    proved against that class only; [memblock] is its instance. *)

From S2P Require Import Prelude Mem CString.

(** ** include/memlayout.h *)
Definition PGSHIFT := 14.
Definition PGSIZE := 16384.
Definition PG_SIZE := 0x4000.
Definition PGROUNDUP (sz : Z) := Z.land (u64 (sz + PGSIZE - 1)) (Z.lnot (PGSIZE - 1)).
Definition PGROUNDDOWN (a : Z) := Z.land a (Z.lnot (PGSIZE - 1)).
Definition MAIN_KERNEL_DMW := 0x9000000000000000.
Definition KERNBASE := 0x9000000090000000.
Definition KMEMSIZE := 128 * 1024 * 1024.
Definition PHYSTOP := KERNBASE + KMEMSIZE.

(** Run a program on the memory part of a state. *)
Definition in_mem {B A} : M mem A → M (mem * B) A := zoom fst (λ m s, (m, s.2)).

Section program.
Definition kfree_page_memblock (pa : Z) : M (mem * Z) unit :=
  in_mem (memset pa 1 PGSIZE);;
  f ← gets snd;
  in_mem (store64 pa f);;
  modify (λ s, (s.1, pa)).

Definition kalloc_page_memblock : M (mem * Z) Z :=
  r ← gets snd;
  if r =? 0 then panic
  else n ← in_mem (load64 r);
       modify (λ s, (s.1, n));;
       in_mem (memset r 5 PG_SIZE);;
       mret r.

(** At most one iteration per page of the range. *)
Fixpoint freerange_loop (fuel : nat) (p pa_end : Z) : M (mem * Z) unit :=
  if p + PGSIZE <=? pa_end
  then match fuel with
       | O => fail Fuel
       | S fuel => kfree_page_memblock p;; freerange_loop fuel (p + PGSIZE) pa_end
       end
  else mret tt.

Definition freerange (pa_start pa_end : Z) : M (mem * Z) unit :=
  let p := PGROUNDUP pa_start in
  freerange_loop (Z.to_nat ((pa_end - p) / PGSIZE)) p pa_end.

(** [kernel_end] is the linker's symbol. *)
Definition kinit_memblock (kernel_end : Z) : M (mem * Z) unit := freerange kernel_end PHYSTOP.
Definition pmm_init (kernel_end : Z) : M (mem * Z) unit := kinit_memblock kernel_end.

(** The parameter is an [int]. *)
Definition kmalloc (size : Z) : M (mem * Z) Z :=
  if PGSIZE <? s32 size then panic else kalloc_page_memblock.

Definition kfree (paddr : Z) : M (mem * Z) unit :=
  if u64 paddr mod PGSIZE =? 0 then kfree_page_memblock paddr else panic.
End program.

(** mm.c's direct-mapped windows: the word written to a DMW register. *)
Definition VALEN := 48.
Definition get_dmw_data (base mat plv : Z) : Z :=
  Z.lor (Z.lor (u64 (Z.shiftl (u32 base) VALEN)) (Z.shiftl (u8 mat) 4)) (u8 plv).

(** ** The interface *)

(** The address of a page the kernel allocator hands out. *)
Definition kpage (p : Z) : Prop :=
  p mod PGSIZE = 0 ∧ MAIN_KERNEL_DMW < p ∧ p + PGSIZE ≤ MAIN_KERNEL_DMW + 2 ^ 50.

Class PageAllocator (A : Type) := {
  page_alloc : Z → M (mem * A) Z;
  page_free : Z → M (mem * A) unit;
  (** the pages the allocator can hand out, in the order it will *)
  avail : mem → A → list Z → Prop;
  page_alloc_ok : ∀ m a p l size, avail m a (p :: l) → s32 size ≤ PGSIZE →
    ∃ m' a', page_alloc size (m, a) = Ok (p, (m', a')) ∧ avail m' a' l ∧
      only p PGSIZE m m' ∧ dom m' = dom m;
  page_alloc_empty : ∀ m a size, avail m a [] → page_alloc size (m, a) = Err Halt;
  page_free_ok : ∀ m a p l, avail m a l → kpage p → mapped m p PGSIZE → p ∉ l →
    ∃ m' a', page_free p (m, a) = Ok (tt, (m', a')) ∧ avail m' a' (p :: l) ∧
      only p PGSIZE m m' ∧ dom m' = dom m;
  avail_pages : ∀ m a l, avail m a l → NoDup l ∧ ∀ p, p ∈ l → kpage p ∧ mapped m p PGSIZE;
  avail_frame : ∀ m m' a l, avail m a l → dom m' = dom m →
    (∀ p x, p ∈ l → p ≤ x < p + PGSIZE → m' !! x = m !! x) → avail m' a l
}.

(** ** Lemmas *)
Lemma in_mem_ok {B A} (c : M mem A) m (b : B) r m' :
  c m = Ok (r, m') → in_mem c (m, b) = Ok (r, (m', b)).
Proof. intros H. unfold in_mem, zoom. simpl. by rewrite H. Qed.

Lemma PGROUNDDOWN_mod a : PGROUNDDOWN a = a - a mod PGSIZE.
Proof.
  unfold PGROUNDDOWN, PGSIZE. replace (Z.lnot (16384 - 1)) with (- 2 ^ 14) by done.
  by rewrite land_high.
Qed.

Lemma PGROUNDUP_spec a : 0 ≤ a → a + PGSIZE ≤ 2 ^ 64 →
  PGROUNDUP a mod PGSIZE = 0 ∧ a ≤ PGROUNDUP a < a + PGSIZE.
Proof.
  intros. unfold PGROUNDUP. rewrite wrap_id by (unfold PGSIZE in *; lia).
  fold (PGROUNDDOWN (a + PGSIZE - 1)). rewrite PGROUNDDOWN_mod. unfold PGSIZE in *. zmod.
Qed.

Lemma page_disjoint p q : p mod PGSIZE = 0 → q mod PGSIZE = 0 → p ≠ q →
  p + PGSIZE ≤ q ∨ q + PGSIZE ≤ p.
Proof. unfold PGSIZE. zmod. Qed.

Lemma kpage_disjoint p q x : kpage p → kpage q → p ≠ q → p ≤ x < p + PGSIZE →
  ¬ (q ≤ x < q + PGSIZE).
Proof. intros [Hp _] [Hq _] Hne. pose proof (page_disjoint _ _ Hp Hq Hne). lia. Qed.

Lemma kpage_bound p : kpage p → 0 < p ∧ p + PGSIZE < 2 ^ 64.
Proof. unfold kpage, MAIN_KERNEL_DMW, PGSIZE. lia. Qed.

(** ** memblock implements the interface *)
Section memblock.
Fixpoint free_list (m : mem) (f : Z) (l : list Z) : Prop :=
  match l with
  | [] => f = 0
  | p :: l => f = p ∧ kpage p ∧ mapped m p PGSIZE ∧ p ∉ l ∧ ∃ n, word64_at m p n ∧ free_list m n l
  end.

Lemma free_list_frame m m' f l : free_list m f l → dom m' = dom m →
  (∀ p x, p ∈ l → p ≤ x < p + PGSIZE → m' !! x = m !! x) → free_list m' f l.
Proof.
  revert f. induction l as [|p l IH]; intros f; simpl; [done|].
  intros (-> & Hk & Hm & Hni & n & Hw & Hl) Hd Hs. split_and!; [done|done| |done|].
  - by eapply mapped_dom.
  - exists n. split; [|apply IH; [done|done|]; set_solver].
    destruct Hw as (b & Hb & Hat & Hc). exists b. split_and!; [done| |done].
    intros i c Hi. rewrite (Hs p) by (try (by left); apply lookup_lt_Some in Hi; unfold PGSIZE; lia).
    by apply Hat.
Qed.

Lemma free_list_pages m f l : free_list m f l →
  NoDup l ∧ ∀ p, p ∈ l → kpage p ∧ mapped m p PGSIZE.
Proof.
  revert f. induction l as [|p l IH]; intros f; simpl.
  - split; [constructor|]. intros p Hp. by apply not_elem_of_nil in Hp.
  - intros (-> & ? & ? & ? & n & _ & Hl). destruct (IH n Hl) as [Hnd Hp].
    split; [by constructor|]. intros q [->|Hq]%elem_of_cons; [done|eauto].
Qed.

(** A change inside one page leaves a free list without that page alone. *)
Lemma free_list_only m m' f l p : free_list m f l → p ∉ l → p mod PGSIZE = 0 →
  only p PGSIZE m m' → dom m' = dom m → free_list m' f l.
Proof.
  intros Hl Hp Hk Ho Hd. destruct (free_list_pages _ _ _ Hl) as [_ Hpg].
  eapply free_list_frame; [done|done|]. intros q x Hq Hx. apply Ho.
  destruct (Hpg q Hq) as [[Hkq _] _]. assert (q ≠ p) as Hne by (by intros ->).
  pose proof (page_disjoint _ _ Hkq Hk Hne). lia.
Qed.

Lemma memset_page_ok p c m : mapped m p PGSIZE → ∃ m',
  memset p c PGSIZE m = Ok (p + PGSIZE, m') ∧ only p PGSIZE m m' ∧ dom m' = dom m ∧
  (∀ x, p ≤ x < p + PGSIZE → m' !! x = Some (u8 c)).
Proof.
  intros Hm. eexists. split; [by apply memset_ok|].
  assert (Z.of_nat (length (replicate (Z.to_nat PGSIZE) (u8 c))) = PGSIZE) as Hlen
    by (by rewrite length_replicate).
  split_and!.
  - intros x Hx. apply write_bytes_only. by rewrite Hlen.
  - apply write_bytes_dom. by rewrite Hlen.
  - intros x Hx. replace x with (p + Z.of_nat (Z.to_nat (x - p))) by lia.
    apply write_bytes_lookup. apply lookup_replicate_2. unfold PGSIZE in *. lia.
Qed.

Lemma kfree_page_ok m f p l : free_list m f l → kpage p → mapped m p PGSIZE → p ∉ l →
  ∃ m', kfree_page_memblock p (m, f) = Ok (tt, (m', p)) ∧ free_list m' p (p :: l) ∧
    only p PGSIZE m m' ∧ dom m' = dom m.
Proof.
  intros Hl Hk Hm Hni.
  destruct (memset_page_ok p 1 m Hm) as (m1 & E1 & Ho1 & Hd1 & _).
  assert (mapped m1 p PGSIZE) as Hm1 by (by eapply mapped_dom).
  set (m2 := write_bytes p (le_split 8 f) m1).
  assert (mapped m1 p (Z.of_nat 8)) as Hm8 by (eapply mapped_mem_at_part; [done|by unfold PGSIZE]).
  assert (only p PGSIZE m1 m2) as Ho2.
  { eapply only_weaken; [apply store_only|lia|unfold PGSIZE; lia]. }
  assert (dom m2 = dom m1) as Hd2 by (apply write_bytes_dom; by rewrite length_le_split).
  assert (only p PGSIZE m m2) as Ho by (by eapply only_trans).
  exists m2. split_and!; [| |done|congruence].
  - unfold kfree_page_memblock. rewrite (bind_ok _ _ _ _ _ (in_mem_ok _ _ _ _ _ E1)).
    rewrite (bind_ok _ _ _ f (m1, f)) by done.
    rewrite (bind_ok _ _ _ tt (m2, f)); [done|]. apply in_mem_ok. by apply store_ok.
  - split_and!; [done|done|by apply (mapped_dom m1)|done|]. exists f. split.
    + apply store64_at. destruct l as [|q l]; simpl in Hl; [subst; lia|].
      destruct Hl as (-> & Hq & _). apply kpage_bound in Hq. unfold PGSIZE in *. lia.
    + eapply free_list_only; [done|done|apply Hk|done|congruence].
Qed.

Lemma kalloc_page_ok m f p l : free_list m f (p :: l) →
  ∃ m' n, kalloc_page_memblock (m, f) = Ok (p, (m', n)) ∧ free_list m' n l ∧
    only p PGSIZE m m' ∧ dom m' = dom m ∧ (∀ x, p ≤ x < p + PGSIZE → m' !! x = Some 5).
Proof.
  intros (-> & Hk & Hm & Hni & n & Hw & Hl).
  destruct (memset_page_ok p 5 m Hm) as (m1 & E1 & Ho1 & Hd1 & Hj).
  exists m1, n. split_and!; [| |done|done|done].
  - unfold kalloc_page_memblock. rewrite (bind_ok _ _ _ p (m, p)) by done.
    apply kpage_bound in Hk as [Hk _]. destruct (Z.eqb_spec p 0); [lia|].
    rewrite (bind_ok _ _ _ n (m, p)) by (by apply in_mem_ok, load_ok).
    rewrite (bind_ok _ _ _ tt (m, n)) by done.
    by rewrite (bind_ok _ _ _ _ _ (in_mem_ok _ _ _ _ _ E1)).
  - eapply free_list_only; [done|done|apply Hk|done|congruence].
Qed.

#[export] Program Instance memblock : PageAllocator Z := {|
  page_alloc := kmalloc;
  page_free := kfree;
  avail := free_list
|}.
Next Obligation.
  intros m a p l size Hl Hs. destruct (kalloc_page_ok _ _ _ _ Hl) as (m' & n & E & ? & ? & ? & _).
  exists m', n. split_and!; [|done..]. unfold kmalloc. by destruct (Z.ltb_spec PGSIZE (s32 size)); [lia|].
Qed.
Next Obligation.
  intros m a size ->. unfold kmalloc. by destruct (PGSIZE <? s32 size).
Qed.
Next Obligation.
  intros m a p l Hl Hk Hm Hni. destruct (kfree_page_ok _ _ _ _ Hl Hk Hm Hni) as (m' & E & ? & ? & ?).
  exists m', p. split_and!; [|done..]. unfold kfree.
  pose proof (kpage_bound _ Hk). destruct Hk as [Hk _].
  rewrite wrap_id by (unfold PGSIZE in *; lia). by rewrite Hk.
Qed.
Next Obligation. intros. by eapply free_list_pages. Qed.
Next Obligation. intros. by eapply free_list_frame. Qed.
End memblock.

(** ** Properties *)
Section properties.
(** The [n] pages from [p] on, last one first: the order in which [freerange] leaves them. *)
Fixpoint pages_rev (n : nat) (p : Z) : list Z :=
  match n with O => [] | S n => pages_rev n (p + PGSIZE) ++ [p] end.

Lemma pages_rev_above n p q : q ∈ pages_rev n p → p ≤ q.
Proof.
  revert p. induction n as [|n IH]; intros p; simpl; [by intros ?%not_elem_of_nil|].
  intros [Hq| ->%list_elem_of_singleton]%elem_of_app; [|lia].
  apply IH in Hq. unfold PGSIZE in *. lia.
Qed.

Lemma freerange_loop_ok n : ∀ p e m f l, free_list m f l → p mod PGSIZE = 0 →
  MAIN_KERNEL_DMW < p → e ≤ MAIN_KERNEL_DMW + 2 ^ 50 → p ≤ e →
  n = Z.to_nat ((e - p) / PGSIZE) → mapped m p (e - p) → (∀ q, q ∈ l → q < p) →
  ∃ m' f', freerange_loop n p e (m, f) = Ok (tt, (m', f')) ∧
    free_list m' f' (pages_rev n p ++ l) ∧ only p (e - p) m m' ∧ dom m' = dom m.
Proof.
  induction n as [|n IH]; intros p e m f l Hl Hp Hlo Hhi Hpe Hn Hm Hb; simpl.
  - destruct (Z.leb_spec (p + PGSIZE) e); [unfold PGSIZE in *; zmod|].
    exists m, f. split_and!; [done|done|apply only_refl|done].
  - destruct (Z.leb_spec (p + PGSIZE) e) as [He|]; [|unfold PGSIZE in *; zmod].
    assert (p ∉ l) as Hni by (intros ?%Hb; lia).
    assert (kpage p) as Hk by (split_and!; [done|lia|lia]).
    destruct (kfree_page_ok m f p l Hl Hk) as (m1 & E1 & Hl1 & Ho1 & Hd1); [|done|].
    { eapply mapped_mem_at_part; [done|lia]. }
    destruct (IH (p + PGSIZE) e m1 p (p :: l)) as (m2 & f2 & E2 & Hl2 & Ho2 & Hd2);
      [done|unfold PGSIZE in *; zmod|unfold PGSIZE in *; lia|done|done|unfold PGSIZE in *; zmod
      | | |].
    { apply (mapped_dom m); [congruence|]. intros x Hx. apply Hm. unfold PGSIZE in *. lia. }
    { intros q [->|Hq%Hb]%elem_of_cons; unfold PGSIZE in *; lia. }
    exists m2, f2. split_and!; [by rewrite (bind_ok _ _ _ _ _ E1)| | |congruence].
    + by rewrite <- app_assoc.
    + intros x Hx. rewrite Ho2, Ho1; [done|unfold PGSIZE in *; lia..].
Qed.

(** C28: initialisation.  With the memory from [kernel_end] to [PHYSTOP] mapped,
    [kinit_memblock] ends with every whole page of that range on the free list, the highest
    one first, and changes nothing outside the range. *)
Theorem kinit_memblock_ok m kernel_end : MAIN_KERNEL_DMW < kernel_end ≤ PHYSTOP - PGSIZE →
  mapped m (PGROUNDUP kernel_end) (PHYSTOP - PGROUNDUP kernel_end) →
  let n := Z.to_nat ((PHYSTOP - PGROUNDUP kernel_end) / PGSIZE) in
  ∃ m' f, kinit_memblock kernel_end (m, 0) = Ok (tt, (m', f)) ∧
    free_list m' f (pages_rev n (PGROUNDUP kernel_end)) ∧
    only (PGROUNDUP kernel_end) (PHYSTOP - PGROUNDUP kernel_end) m m'.
Proof.
  intros [Hk He] Hm n. assert (PHYSTOP ≤ MAIN_KERNEL_DMW + 2 ^ 50 ∧ PHYSTOP < 2 ^ 64) by done.
  assert (0 < MAIN_KERNEL_DMW) by done.
  destruct (PGROUNDUP_spec kernel_end) as [Hr1 Hr2]; [lia..|].
  destruct (freerange_loop_ok n (PGROUNDUP kernel_end) PHYSTOP m 0 [])
    as (m' & f & E & Hl & Ho & _); [done|done|lia|lia|lia|done|done| |].
  - intros q ?%not_elem_of_nil. done.
  - rewrite app_nil_r in Hl. eauto 10.
Qed.

(** C27: [kmalloc] and [kfree].  A request whose size as an [int] is at most a page takes the
    first free page, fills it with 5s and changes nothing else; a larger request, an empty list
    and an unaligned [kfree] end in [panic]; freeing a page puts it first, so the next request
    returns it. *)
Theorem kmalloc_kfree m f p l size : free_list m f (p :: l) → s32 size ≤ PGSIZE →
  ∃ m1 f1, kmalloc size (m, f) = Ok (p, (m1, f1)) ∧ free_list m1 f1 l ∧ only p PGSIZE m m1 ∧
    (∀ x, p ≤ x < p + PGSIZE → m1 !! x = Some 5) ∧
    (∀ big, PGSIZE < s32 big → kmalloc big (m, f) = Err Halt) ∧
    (∀ q, q mod PGSIZE ≠ 0 → 0 ≤ q < 2 ^ 64 → kfree q (m, f) = Err Halt) ∧
    kmalloc size (m, 0) = Err Halt ∧
    ∃ m2, kfree p (m1, f1) = Ok (tt, (m2, p)) ∧ free_list m2 p (p :: l) ∧ only p PGSIZE m1 m2 ∧
      ∃ m3 f3, kmalloc size (m2, p) = Ok (p, (m3, f3)) ∧ free_list m3 f3 l.
Proof.
  intros Hl Hs. destruct (kalloc_page_ok _ _ _ _ Hl) as (m1 & f1 & E1 & Hl1 & Ho1 & Hd1 & H5).
  assert (∀ s, kmalloc size s = kalloc_page_memblock s) as Ek.
  { intros s. unfold kmalloc. by destruct (Z.ltb_spec PGSIZE (s32 size)); [lia|]. }
  destruct Hl as (_ & Hk & Hm & Hni & _).
  destruct (page_free_ok m1 f1 p l) as (m2 & f2 & E2 & Hl2 & Ho2 & _);
    [done|done|by eapply mapped_dom|done|].
  assert (f2 = p) as -> by apply Hl2.
  destruct (kalloc_page_ok _ _ _ _ Hl2) as (m3 & f3 & E3 & Hl3 & _).
  exists m1, f1. rewrite !Ek. split_and!; [done..| | |done|].
  - intros big Hb. unfold kmalloc. by destruct (Z.ltb_spec PGSIZE (s32 big)); [|lia].
  - intros q Hq Hb. unfold kfree. rewrite wrap_id by done. by destruct (Z.eqb_spec (q mod PGSIZE) 0).
  - exists m2. split_and!; [done..|]. exists m3, f3. by rewrite Ek.
Qed.
End properties.

(** One page of RAM below [PHYSTOP]. *)
Definition sample_ram : mem := write_bytes (PHYSTOP - PGSIZE) (replicate (Z.to_nat PGSIZE) 0) ∅.

Lemma sample_ram_mapped : mapped sample_ram (PHYSTOP - PGSIZE) PGSIZE.
Proof.
  pose proof (mem_at_mapped _ _ _ (write_bytes_at (PHYSTOP - PGSIZE) (replicate (Z.to_nat PGSIZE) 0) ∅)) as H.
  by rewrite length_replicate in H.
Qed.

Lemma kinit_memblock_ok_witness :
  ∃ m' f, kinit_memblock (PHYSTOP - PGSIZE - 5) (sample_ram, 0) = Ok (tt, (m', f)) ∧
    free_list m' f [PHYSTOP - PGSIZE].
Proof.
  destruct (kinit_memblock_ok sample_ram (PHYSTOP - PGSIZE - 5)) as (m' & f & E & Hl & _).
  - by split.
  - exact sample_ram_mapped.
  - exists m', f. split; [exact E|exact Hl].
Defined.

Lemma sample_free_list : ∃ m f, free_list m f [PHYSTOP - PGSIZE].
Proof.
  destruct (kfree_page_ok sample_ram 0 (PHYSTOP - PGSIZE) []) as (m & _ & H & _);
    [done|by split_and!|exact sample_ram_mapped|apply not_elem_of_nil|eauto].
Qed.

Lemma kmalloc_kfree_witness :
  ∃ m f m1 f1, kmalloc PG_SIZE (m, f) = Ok (PHYSTOP - PGSIZE, (m1, f1)) ∧ free_list m1 f1 [].
Proof.
  destruct sample_free_list as (m & f & H).
  destruct (kmalloc_kfree m f _ _ PG_SIZE H) as (m1 & f1 & ? & ? & _); [done|eauto 10].
Defined.
