(* ===== verification/Vm.v ===== *)
(** * mm/n_vm.c: page tables and copies between kernel and user memory

    A page table is three levels of 2048 eight-byte entries, indexed by 11-bit
    fields of the virtual address.  [__map_single_page] writes kernel pointers
    into the upper levels, [va_to_pte_pointer] reads physical addresses out of
    them.  [pt m root T] relates the memory to the tree [T] of table pages,
    [leaf] to the entries of the last level; the theorems are the effect of
    the operations on that view, for any allocator of class [PageAllocator]. *)

From S2P Require Import Prelude Mem CString PageAlloc.

(** ** include/memlayout.h, include/asm/mmu.h *)
Definition PXMASK := 0x7ff.
Definition PXSHIFT (level : Z) : Z := PGSHIFT + 11 * level.
Definition PX (level va : Z) : Z := Z.land (Z.shiftr va (PXSHIFT level)) PXMASK.
Definition MAXVA := Z.shiftl 1 47.
Definition PTWIDTH := 11.
Definition PTE_V := Z.shiftl 1 0.
Definition PTE_D := Z.shiftl 1 1.
Definition PTE_PLV := Z.shiftl 3 2.
Definition PTE_MATL := Z.shiftl 1 4.
Definition PTE_P := Z.shiftl 1 7.
Definition PTE_W := Z.shiftl 1 8.
Definition PTE_DEFAULT := Z.lor (Z.lor (Z.lor (Z.lor PTE_V PTE_MATL) PTE_P) PTE_W) PTE_D.
Definition PTE_FLAGS (pte : Z) : Z := Z.land pte 0xE0000000000001FF.
Definition PAMASK := Z.shiftl 0xFFFFFFFFF PGSHIFT.
Definition PTE2PA (pte : Z) : Z := Z.land pte PAMASK.
Definition PA2PTE (pa : Z) : Z := Z.land pa PAMASK.
Definition PA2VA (pa : Z) : Z := Z.lor pa MAIN_KERNEL_DMW.
Definition VA2PA (va : Z) : Z := if Z.land va MAIN_KERNEL_DMW =? 0 then va else Z.land va PAMASK.

(** The page-walk registers: [vm_init] writes the geometry the macros above use. *)
Definition DIR1BASE := 25.
Definition DIR1WIDTH := 11.
Definition DIR3BASE := 36.
Definition DIR3WIDTH := 11.
Definition PTBASE := 14.
Definition pwcl : Z :=
  Z.lor (Z.lor (Z.lor (Z.shiftl DIR1WIDTH 15) (Z.shiftl DIR1BASE 10)) (Z.shiftl PTWIDTH 5)) PTBASE.
Definition pwch : Z := Z.lor (Z.shiftl DIR3WIDTH 6) DIR3BASE.

Section program.
Context {A : Type} `{PageAllocator A}.
Abbreviation V := (M (mem * A)).

(** One level of [__map_single_page]: the entry at [slot], made if it is not there. *)
Definition map_step (slot : Z) : V Z :=
  pte ← in_mem (load64 slot);
  (if pte =? 0
   then new_pagetable ← page_alloc PGSIZE;
        in_mem (memset new_pagetable 0 PG_SIZE);;
        in_mem (store64 slot new_pagetable)
   else mret tt);;
  in_mem (load64 slot).

(** Its loop [for (level = 2; level >= 1; level--)]. *)
Fixpoint map_levels (level : nat) (iter_pagetable va : Z) : V Z :=
  match level with
  | O => mret iter_pagetable
  | S lower =>
      pte ← map_step (iter_pagetable + 8 * PX (Z.of_nat level) va);
      map_levels lower pte va
  end.

Definition __map_single_page (pagetable va pa perm : Z) : V Z :=
  iter_pagetable ← map_levels 2 pagetable va;
  let slot := iter_pagetable + 8 * PX 0 va in
  old ← in_mem (load64 slot);
  in_mem (store64 slot (Z.lor (Z.lor (PA2PTE pa) (PTE_FLAGS old)) perm));;
  mret 0.

(** The descent of [va_to_pte_pointer]; [None] is its [return 0]. *)
Fixpoint walk_levels (level : nat) (pagetable va : Z) (alloc : bool) : V (option Z) :=
  match level with
  | O => mret (Some pagetable)
  | S lower =>
      let pte := pagetable + 8 * PX (Z.of_nat level) va in
      v ← in_mem (load64 pte);
      if negb (v =? 0) then walk_levels lower (PA2VA (PTE2PA v)) va alloc
      else if negb alloc then mret None
      else new ← page_alloc PGSIZE;
           if new =? 0 then mret None
           else in_mem (memset new 0 PGSIZE);;
                in_mem (store64 pte (Z.lor (PA2PTE new) PTE_V));;
                walk_levels lower new va alloc
  end.

Definition va_to_pte_pointer (pagetable va : Z) (alloc : bool) : V Z :=
  if MAXVA <=? va then panic
  else p ← walk_levels 2 (PA2VA pagetable) va alloc;
       match p with
       | None => mret 0
       | Some p => mret (p + 8 * PX 0 va)
       end.

Definition va_to_pa (pagetable va : Z) : V Z :=
  let offset := va mod PGSIZE in
  let va := va - offset in
  if MAXVA <=? va then mret 0
  else pte ← va_to_pte_pointer pagetable va false;
       if pte =? 0 then mret 0
       else v ← in_mem (load64 pte);
            if Z.land v PTE_V =? 0 then mret 0
            else v ← in_mem (load64 pte);
                 mret (u64 (PTE2PA v + offset)).

(** One iteration per page; a range that ends in the last page of the 64-bit space makes
    [vac] wrap around and the C loop run forever, which is [Fuel] here. *)
Fixpoint map_pages_loop (fuel : nat) (pagetable vac va_end pa_map perm : Z) : V Z :=
  if vac <=? va_end
  then match fuel with
       | O => fail Fuel
       | S fuel =>
           __map_single_page pagetable vac pa_map perm;;
           map_pages_loop fuel pagetable (u64 (vac + PGSIZE)) va_end (u64 (pa_map + PGSIZE)) perm
       end
  else mret 0.

Definition __map_pages (pagetable va size pa perm : Z) : V Z :=
  let va_start := PGROUNDDOWN va in
  let va_end := PGROUNDDOWN (u64 (va + size - 1)) in
  map_pages_loop (Z.to_nat ((va_end - va_start) / PGSIZE + 1)) pagetable va_start va_end
    (PGROUNDDOWN pa) perm.

Definition pgtbl_create : V Z :=
  pgtbl ← page_alloc PGSIZE;
  if negb (pgtbl =? 0) then in_mem (memset pgtbl 0 PGSIZE);; mret pgtbl else mret 0.

(** The copy loops advance to the next page boundary each time. *)
Fixpoint copy_to_va_loop (fuel : nat) (pagetable dstva src len : Z) : V Z :=
  if 0 <? len
  then match fuel with
       | O => fail Fuel
       | S fuel =>
           let va0 := PGROUNDDOWN dstva in
           pa0 ← va_to_pa pagetable va0;
           if pa0 =? 0 then mret (-1)
           else
             let n := PGSIZE - (dstva - va0) in
             let n := if len <? n then len else n in
             in_mem (memmove (PA2VA (u64 (pa0 + (dstva - va0)))) src n);;
             copy_to_va_loop fuel pagetable (u64 (va0 + PGSIZE)) (src + n) (len - n)
       end
  else mret 0.

Definition copy_fuel (len : Z) : nat := Z.to_nat (len / PGSIZE + 2).

Definition copy_to_va (pagetable dstva src len : Z) : V Z :=
  copy_to_va_loop (copy_fuel len) pagetable dstva src len.

Fixpoint copy_from_va_loop (fuel : nat) (pagetable dst srcva len : Z) : V Z :=
  if 0 <? len
  then match fuel with
       | O => fail Fuel
       | S fuel =>
           let va0 := PGROUNDDOWN srcva in
           pa0 ← va_to_pa pagetable va0;
           if pa0 =? 0 then mret (-1)
           else
             let n := PGSIZE - (srcva - va0) in
             let n := if len <? n then len else n in
             in_mem (memmove dst (PA2VA (u64 (pa0 + (srcva - va0)))) n);;
             copy_from_va_loop fuel pagetable (dst + n) (u64 (va0 + PGSIZE)) (len - n)
       end
  else mret 0.

Definition copy_from_va (pagetable dst srcva len : Z) : V Z :=
  copy_from_va_loop (copy_fuel len) pagetable dst srcva len.

(** The byte loop inside [copy_from_va_str]: whether it met the NUL, and the new [dst], [max]. *)
Fixpoint copy_str_bytes (n : nat) (p dst max : Z) : M mem (bool * Z * Z) :=
  match n with
  | O => mret (false, dst, max)
  | S n =>
      c ← load8 p;
      if c =? 0 then store8 dst 0;; mret (true, dst, max)
      else c ← load8 p; store8 dst c;; copy_str_bytes n (p + 1) (dst + 1) (max - 1)
  end.

Fixpoint copy_from_va_str_loop (fuel : nat) (pagetable dst srcva max : Z) : V Z :=
  if 0 <? max
  then match fuel with
       | O => fail Fuel
       | S fuel =>
           let va0 := PGROUNDDOWN srcva in
           pa0 ← va_to_pa pagetable va0;
           if pa0 =? 0 then mret (-1)
           else
             let n := PGSIZE - (srcva - va0) in
             let n := if max <? n then max else n in
             let p := PA2VA (u64 (pa0 + (srcva - va0))) in
             r ← in_mem (copy_str_bytes (Z.to_nat n) p dst max);
             let '(got_null, dst, max) := r in
             if got_null : bool then mret 0
             else copy_from_va_str_loop fuel pagetable dst (u64 (va0 + PGSIZE)) max
       end
  else mret (-1).

Definition copy_from_va_str (pagetable dst srcva max : Z) : V Z :=
  copy_from_va_str_loop (copy_fuel max) pagetable dst srcva max.

(** [free_pagetable] frees a table after the tables its [1 << PTWIDTH] entries point to. *)
Fixpoint free_entries (n : nat) (slot : Z) (free : Z → V unit) : V unit :=
  match n with
  | O => mret tt
  | S n =>
      it_pgtb ← in_mem (load64 slot);
      (if negb (it_pgtb =? 0) then free it_pgtb else mret tt);;
      free_entries n (slot + 8) free
  end.

Definition free_table (free : Z → V unit) (pgtbl : Z) : V unit :=
  free_entries (Z.to_nat (Z.shiftl 1 PTWIDTH)) pgtbl free;;
  page_free pgtbl.

Fixpoint free_level (level : nat) : Z → V unit :=
  match level with O => page_free | S lower => free_table (free_level lower) end.

Definition free_pagetable (pgtbl : Z) (level : nat) : V unit := free_level level pgtbl.
End program.

(** ** Arithmetic of addresses and entries *)
Section bits.
Lemma PX_eq level va : 0 ≤ level → PX level va = va / 2 ^ (14 + 11 * level) mod 2048.
Proof.
  intros. unfold PX, PXSHIFT, PXMASK, PGSHIFT. change 0x7ff with (2 ^ 11 - 1).
  rewrite shiftr_land_field by lia. done.
Qed.

Lemma PX_bound level va : 0 ≤ level → 0 ≤ PX level va < 2048.
Proof. intros. rewrite PX_eq by done. apply Z.mod_pos_bound. lia. Qed.

(** The three indices determine the page of an address below [2 ^ 47]. *)
Lemma PX_page va : 0 ≤ va < 2 ^ 47 →
  va / PGSIZE = PX 0 va + 2048 * (PX 1 va + 2048 * PX 2 va).
Proof.
  intros. rewrite !PX_eq by lia. unfold PGSIZE.
  change (2 ^ (14 + 11 * 0)) with 16384. change (2 ^ (14 + 11 * 1)) with 33554432.
  change (2 ^ (14 + 11 * 2)) with 68719476736. zmod.
Qed.

Lemma PX_round level va : 0 ≤ level → PX level (va - va mod PGSIZE) = PX level va.
Proof.
  intros. rewrite !PX_eq by done. unfold PGSIZE. f_equal.
  rewrite Z.pow_add_r, <- !Z.div_div by lia. change (2 ^ 14) with 16384. f_equal. zmod.
Qed.

Lemma PTE2PA_eq x : PTE2PA x = x / 2 ^ 14 mod 2 ^ 36 * 2 ^ 14.
Proof. unfold PTE2PA, PAMASK, PGSHIFT. change 0xFFFFFFFFF with (Z.ones 36). by rewrite land_field. Qed.

Lemma PTE2PA_bound x : 0 ≤ PTE2PA x ≤ 2 ^ 50 - PGSIZE ∧ PTE2PA x mod PGSIZE = 0.
Proof. rewrite PTE2PA_eq. unfold PGSIZE. zmod. Qed.

Lemma PA2VA_eq x : 0 ≤ x < 2 ^ 60 → PA2VA x = MAIN_KERNEL_DMW + x.
Proof.
  intros. unfold PA2VA. rewrite Z.lor_comm, (lor_add x MAIN_KERNEL_DMW 60); [done|lia|done|done].
Qed.

(** Going through the physical address and back gives the same kernel pointer. *)
Lemma PA2VA_PTE2PA p : kpage p → PA2VA (PTE2PA p) = p.
Proof.
  intros (Hp & Hlo & Hhi). rewrite PA2VA_eq by (pose proof (PTE2PA_bound p); unfold PGSIZE in *; lia).
  rewrite PTE2PA_eq. unfold MAIN_KERNEL_DMW, PGSIZE in *. zmod.
Qed.

Lemma PA2VA_kpage p : kpage p → PA2VA p = p.
Proof.
  intros H. rewrite <- (PA2VA_PTE2PA p H) at 1. unfold PA2VA.
  rewrite <- Z.lor_assoc, Z.lor_diag. by apply PA2VA_PTE2PA.
Qed.

(** The frame address of a new entry, and its flags. *)
Lemma PTE2PA_entry pa old perm : Z.land perm PAMASK = 0 →
  PTE2PA (Z.lor (Z.lor (PA2PTE pa) (PTE_FLAGS old)) perm) = PA2PTE pa.
Proof.
  intros Hp. unfold PTE2PA, PA2PTE, PTE_FLAGS. rewrite !Z.land_lor_distr_l, Hp, Z.lor_0_r.
  rewrite <- !Z.land_assoc, Z.land_diag. change (Z.land 0xE0000000000001FF PAMASK) with 0.
  by rewrite Z.land_0_r, Z.lor_0_r.
Qed.

Lemma entry_valid pa old perm : Z.land perm PTE_V ≠ 0 →
  Z.land (Z.lor (Z.lor (PA2PTE pa) (PTE_FLAGS old)) perm) PTE_V ≠ 0.
Proof. rewrite Z.land_lor_distr_l. intros H [_ E]%Z.lor_eq_0_iff. done. Qed.

Lemma entry_bound pa old perm : 0 ≤ perm < 2 ^ 64 →
  0 ≤ Z.lor (Z.lor (PA2PTE pa) (PTE_FLAGS old)) perm < 2 ^ 64.
Proof.
  intros Hp. assert (∀ x m, 0 ≤ m < 2 ^ 64 → 0 ≤ Z.land x m < 2 ^ 64) as Hl.
  { intros x m Hm. split; [apply Z.land_nonneg; lia|].
    replace (Z.land x m) with (Z.land (Z.land x m) (2 ^ 64 - 1)).
    - rewrite land_low by lia. apply Z.mod_pos_bound. lia.
    - rewrite <- Z.land_assoc. f_equal. rewrite land_low by lia. by apply Z.mod_small. }
  assert (∀ x y, 0 ≤ x < 2 ^ 64 → 0 ≤ y < 2 ^ 64 → 0 ≤ Z.lor x y < 2 ^ 64) as Ho.
  { intros x y Hx Hy. split; [apply Z.lor_nonneg; lia|].
    destruct (Z.eq_dec (Z.lor x y) 0) as [->|Hne]; [lia|].
    apply Z.log2_lt_pow2; [pose proof (proj2 (Z.lor_nonneg x y)); lia|].
    rewrite Z.log2_lor by lia.
    assert (∀ z, 0 ≤ z < 2 ^ 64 → Z.log2 z < 64) as Hz.
    { intros z Hzb. destruct (Z.eq_dec z 0) as [->|]; [done|]. apply Z.log2_lt_pow2; lia. }
    pose proof (Hz x Hx). pose proof (Hz y Hy). lia. }
  apply Ho; [apply Ho|done]; apply Hl; done.
Qed.
End bits.

(** ** The tree of table pages *)

(** [T] maps a path of indices, innermost first, to the page of the table it leads to. *)
Record pt (m : mem) (root : Z) (T : gmap (list Z) Z) : Prop := {
  pt_root : T !! [] = Some root;
  pt_page : ∀ k p, T !! k = Some p → kpage p ∧ mapped m p PGSIZE ∧ (length k ≤ 2)%nat;
  pt_inj : ∀ k k' p, T !! k = Some p → T !! k' = Some p → k = k';
  pt_entry : ∀ k p i, T !! k = Some p → (length k < 2)%nat → 0 ≤ i < 2048 →
    word64_at m (p + 8 * i) (default 0 (T !! (i :: k)));
  pt_child : ∀ i k p, T !! (i :: k) = Some p → is_Some (T !! k) ∧ 0 ≤ i < 2048
}.

(** [v] is the last-level entry for [va]; a missing table is an entry [0]. *)
Definition leaf (m : mem) (T : gmap (list Z) Z) (va v : Z) : Prop :=
  match T !! [PX 1 va; PX 2 va] with
  | Some p => word64_at m (p + 8 * PX 0 va) v
  | None => v = 0
  end.

Definition tree_page (T : gmap (list Z) Z) (p : Z) : Prop := ∃ k, T !! k = Some p.
Definition in_page (p x : Z) : Prop := p ≤ x < p + PGSIZE.

(** The tables that have to be made to reach the entry of [va]. *)
Definition missing (T : gmap (list Z) Z) (va : Z) : nat :=
  match T !! [PX 2 va] with
  | None => 2
  | Some _ => match T !! [PX 1 va; PX 2 va] with None => 1 | Some _ => 0 end
  end.

(** A table tree and free pages grew from [T], [l] to [T'], [l']: nothing outside them changed,
    and every entry is what it was. *)
Record grow (m : mem) (T : gmap (list Z) Z) (l : list Z) (m' : mem) (T' : gmap (list Z) Z)
    (l' : list Z) : Prop := {
  g_sub : T ⊆ T';
  g_free : ∀ p, p ∈ l' → p ∈ l;
  g_pages : ∀ p, tree_page T' p → tree_page T p ∨ p ∈ l;
  g_dom : dom m' = dom m;
  g_leaf : ∀ va v, leaf m T va v → leaf m' T' va v;
  g_frame : ∀ x, (∀ p, tree_page T p ∨ p ∈ l → ¬ in_page p x) → m' !! x = m !! x
}.

Lemma grow_refl m T l : grow m T l m T l.
Proof. constructor; auto. Qed.

Lemma grow_trans m1 T1 l1 m2 T2 l2 m3 T3 l3 :
  grow m1 T1 l1 m2 T2 l2 → grow m2 T2 l2 m3 T3 l3 → grow m1 T1 l1 m3 T3 l3.
Proof.
  intros [A1 A2 A3 A4 A5 A6] [B1 B2 B3 B4 B5 B6]. constructor; [by etrans|auto| |congruence|auto|].
  - intros p [Hp|Hp]%B3; auto.
  - intros x Hx. rewrite B6; [by apply A6|]. intros p [Hp|Hp]; apply Hx; auto.
Qed.

Section tree.
Implicit Types (m : mem) (T : gmap (list Z) Z).

Lemma entry_in_page p i x : 0 ≤ i < 2048 → p + 8 * i ≤ x < p + 8 * i + 8 → in_page p x.
Proof. unfold in_page, PGSIZE. lia. Qed.

Lemma pt_frame m m' root T : pt m root T → dom m' = dom m →
  (∀ p x, tree_page T p → in_page p x → m' !! x = m !! x) → pt m' root T.
Proof.
  intros [P1 P2 P3 P4 P5] Hd Hs. constructor; [done| |done| |done].
  - intros k p Hk. destruct (P2 k p Hk) as (? & ? & ?). split_and!; [done| |done].
    by eapply mapped_dom.
  - intros k p i Hk Hl Hi. eapply word_at_same; [by apply P4|].
    intros x Hx. apply (Hs p); [by exists k|]. by eapply entry_in_page.
Qed.

Lemma leaf_frame m m' root T va v : pt m root T → leaf m T va v →
  (∀ k p x, T !! k = Some p → length k = 2%nat → in_page p x → m' !! x = m !! x) →
  leaf m' T va v.
Proof.
  unfold leaf. intros Hpt Hl Hs. destruct (T !! _) as [p|] eqn:E; [|done].
  eapply word_at_same; [done|]. intros x Hx. eapply Hs; [done|done|].
  eapply entry_in_page; [|done]. by apply PX_bound.
Qed.

Lemma pt_disjoint m root T k k' p p' x : pt m root T → T !! k = Some p → T !! k' = Some p' →
  in_page p x → in_page p' x → k = k' ∧ p = p'.
Proof.
  intros Hpt Hk Hk' Hx Hx'. destruct (decide (p = p')) as [->|Hne].
  - split; [by eapply pt_inj|done].
  - exfalso. eapply (kpage_disjoint p p'); [by eapply pt_page|by eapply pt_page|done|done|done].
Qed.

(** Hanging a cleared page [q] into the empty slot [i] of the table at path [k]. *)
Lemma pt_extend m m' root T k p i q : pt m root T → T !! k = Some p → (length k < 2)%nat →
  0 ≤ i < 2048 → T !! (i :: k) = None → kpage q → mapped m q PGSIZE → ¬ tree_page T q →
  dom m' = dom m → word64_at m' (p + 8 * i) q → (∀ x, in_page q x → m' !! x = Some 0) →
  (∀ x, ¬ in_page q x → ¬ (p + 8 * i ≤ x < p + 8 * i + 8) → m' !! x = m !! x) →
  pt m' root (<[i :: k := q]> T) ∧ (∀ va v, leaf m T va v → leaf m' (<[i :: k := q]> T) va v).
Proof.
  intros Hpt Hk Hlen Hi Hnone Hq Hqm Hqn Hd Hw Hz Ho.
  assert (∀ k' p', T !! k' = Some p' → p' ≠ q) as Hne.
  { intros k' p' Hk' ->. apply Hqn. by exists k'. }
  assert (∀ k' p' x, T !! k' = Some p' → in_page p' x → ¬ in_page q x) as Hdq.
  { intros k' p' x Hk' Hx. eapply kpage_disjoint; [by eapply pt_page|done|by eapply Hne|done]. }
  split.
  - constructor.
    + rewrite lookup_insert_ne by done. apply Hpt.
    + intros k' p' [[<- <-]|[Hkk Hk']]%lookup_insert_Some.
      * split_and!; [done|by eapply mapped_dom|simpl; lia].
      * destruct (pt_page _ _ _ Hpt k' p' Hk') as (? & ? & ?).
        split_and!; [done|by eapply mapped_dom|done].
    + intros k1 k2 p' [[<- <-]|[H1 H1']]%lookup_insert_Some [[<- E]|[H2 H2']]%lookup_insert_Some.
      * done.
      * by apply Hne in H2'.
      * subst p'. by apply Hne in H1'.
      * by eapply pt_inj.
    + intros k' p' j [[<- <-]|[Hkk Hk']]%lookup_insert_Some Hl' Hj.
      * rewrite lookup_insert_ne by (intros E; apply (f_equal length) in E; simpl in E; lia).
        destruct (T !! (j :: i :: k)) as [c|] eqn:E.
        { apply (pt_child _ _ _ Hpt) in E as [[? E] _]. by rewrite Hnone in E. }
        apply word64_zero. intros x Hx. apply Hz. by eapply entry_in_page.
      * destruct (decide ((j :: k') = (i :: k))) as [E|E].
        { injection E as -> ->. rewrite lookup_insert_eq. by replace p' with p by congruence. }
        rewrite lookup_insert_ne by done.
        eapply word_at_same; [by apply (pt_entry _ _ _ Hpt k')|]. intros x Hx.
        assert (in_page p' x) as Hpx by (by eapply entry_in_page).
        apply Ho; [by eapply Hdq|]. intros Hx'.
        destruct (pt_disjoint m root T k k' p p' x) as [<- <-]; [done..|exact (entry_in_page p i x Hi Hx')|done|].
        apply E. f_equal. lia.
    + intros j k' p' [[E <-]|[Hkk Hk']]%lookup_insert_Some.
      * injection E as <- <-. split; [|done]. destruct (decide ((i :: k) = k)) as [E|].
        { apply (f_equal length) in E. simpl in E. lia. }
        rewrite lookup_insert_ne by done. eauto.
      * destruct (pt_child _ _ _ Hpt j k' p' Hk') as [[? ?] ?]. split; [|done].
        rewrite lookup_insert. case_decide; eauto.
  - intros va v. unfold leaf. destruct (decide ((i :: k) = [PX 1 va; PX 2 va])) as [E|E].
    + rewrite E in Hnone |- *. rewrite Hnone, lookup_insert_eq. intros ->.
      apply word64_zero. intros x Hx. apply Hz. eapply entry_in_page; [|done]. by apply PX_bound.
    + rewrite lookup_insert_ne by done. destruct (T !! [PX 1 va; _]) as [p'|] eqn:E'; [|done].
      intros Hv. eapply word_at_same; [done|]. intros x Hx.
      assert (in_page p' x) as Hpx by (eapply entry_in_page; [by apply PX_bound|done]).
      apply Ho; [by eapply Hdq|]. intros Hx'.
      destruct (pt_disjoint m root T k [PX 1 va; PX 2 va] p p' x) as [-> _];
        [done..|exact (entry_in_page p i x Hi Hx')|done|]. simpl in Hlen. lia.
Qed.
End tree.

(** ** The operations, for any allocator *)
Section operations.
Context {A : Type} `{PageAllocator A}.
Implicit Types (m : mem) (a : A) (T : gmap (list Z) Z).

(** The free pages are no tables. *)
Definition separate T (l : list Z) : Prop := ∀ q, q ∈ l → ¬ tree_page T q.

Lemma tree_entry_nonzero m root T k p : pt m root T → T !! k = Some p → p ≠ 0.
Proof. intros Hpt Hk. destruct (pt_page _ _ _ Hpt k p Hk) as [Hp _]. apply kpage_bound in Hp. lia. Qed.

Lemma load_entry m root T k p i (a : A) : pt m root T → T !! k = Some p → (length k < 2)%nat →
  0 ≤ i < 2048 → in_mem (load64 (p + 8 * i)) (m, a) = Ok (default 0 (T !! (i :: k)), (m, a)).
Proof. intros. apply in_mem_ok, load_ok. by eapply pt_entry. Qed.

Lemma slot_mapped m p i : mapped m p PGSIZE → 0 ≤ i < 2048 → mapped m (p + 8 * i) (Z.of_nat 8).
Proof. intros Hm Hi x Hx. apply Hm. unfold PGSIZE. lia. Qed.

Lemma map_step_ok m a root T l k p i : pt m root T → avail m a l → separate T l →
  T !! k = Some p → (length k < 2)%nat → 0 ≤ i < 2048 →
  match T !! (i :: k), l with
  | Some q, _ => map_step (p + 8 * i) (m, a) = Ok (q, (m, a))
  | None, [] => map_step (p + 8 * i) (m, a) = Err Halt
  | None, q :: l' => ∃ m' a', map_step (p + 8 * i) (m, a) = Ok (q, (m', a')) ∧
      pt m' root (<[i :: k := q]> T) ∧ avail m' a' l' ∧
      separate (<[i :: k := q]> T) l' ∧ grow m T l m' (<[i :: k := q]> T) l'
  end.
Proof.
  intros Hpt Ha Hsep Hk Hlen Hi. pose proof (load_entry m root T k p i a Hpt Hk Hlen Hi) as Hld.
  unfold map_step. destruct (T !! (i :: k)) as [q|] eqn:E; simpl in Hld.
  { rewrite (bind_ok _ _ _ _ _ Hld).
    destruct (Z.eqb_spec q 0) as [->|]; [by eapply tree_entry_nonzero in E|].
    by rewrite (bind_ok _ _ _ tt (m, a)). }
  destruct l as [|q l'].
  { rewrite (bind_ok _ _ _ _ _ Hld). cbn [Z.eqb].
    apply bind_err, bind_err. by apply page_alloc_empty. }
  destruct (avail_pages _ _ _ Ha) as [[Hql Hnd]%NoDup_cons Hpg].
  destruct (Hpg q) as [Hqk Hqm]; [by left|].
  assert (¬ tree_page T q) as Hqt by (apply Hsep; by left).
  destruct (pt_page _ _ _ Hpt k p Hk) as (Hpk & Hpm & _).
  assert (p ≠ q) as Hpq by (intros ->; apply Hqt; by exists k).
  destruct (page_alloc_ok m a q l' PGSIZE Ha) as (m1 & a1 & E1 & Ha1 & Ho1 & Hd1); [done|].
  destruct (memset_page_ok q 0 m1) as (m2 & E2 & Ho2 & Hd2 & Hz2); [by eapply mapped_dom|].
  set (m3 := write_bytes (p + 8 * i) (le_split 8 q) m2).
  assert (mapped m2 (p + 8 * i) (Z.of_nat 8)) as Hm8.
  { apply slot_mapped; [|done]. eapply mapped_dom; [|done]. congruence. }
  assert (∀ x, in_page q x → ¬ (p + 8 * i ≤ x < p + 8 * i + 8)) as Hdis.
  { intros x Hx Hx'. eapply (kpage_disjoint q p); [done..|by eapply entry_in_page]. }
  assert (∀ x, ¬ (p + 8 * i ≤ x < p + 8 * i + 8) → m3 !! x = m2 !! x) as Ho3
    by (intros x Hx; by apply store_only).
  assert (dom m3 = dom m) as Hd3.
  { unfold m3. rewrite write_bytes_dom by (by rewrite length_le_split). congruence. }
  assert (word64_at m3 (p + 8 * i) q) as Hw3.
  { apply store64_at. apply kpage_bound in Hqk. unfold PGSIZE in *. lia. }
  assert (∀ x, ¬ in_page q x → ¬ (p + 8 * i ≤ x < p + 8 * i + 8) → m3 !! x = m !! x) as Ho.
  { intros x Hx Hx'. rewrite Ho3, Ho2, Ho1; done. }
  destruct (pt_extend m m3 root T k p i q) as [Hpt3 Hlf]; try done.
  { intros x Hx. rewrite Ho3 by (by apply Hdis). by apply Hz2. }
  exists m3, a1. split_and!.
  - rewrite (bind_ok _ _ _ _ _ Hld). cbn [Z.eqb].
    assert (in_mem (load64 (p + 8 * i)) (m3, a1) = Ok (q, (m3, a1))) as Hl3
      by (by apply in_mem_ok, load_ok).
    rewrite (bind_ok _ _ _ tt (m3, a1)); [exact Hl3|]. rewrite (bind_ok _ _ _ _ _ E1).
    rewrite (bind_ok _ _ _ _ _ (in_mem_ok _ _ _ _ _ E2)). by apply in_mem_ok, store_ok.
  - done.
  - eapply avail_frame; [exact Ha1|congruence|]. intros r x Hr Hx.
    destruct (Hpg r) as [Hrk _]; [by right|]. rewrite Ho3, Ho2; [done| |].
    + eapply (kpage_disjoint r q); [done|done| |done]. by intros ->.
    + intros Hx'. eapply (kpage_disjoint r p); [done|done| |exact Hx|by eapply entry_in_page].
      intros ->. apply (Hsep p); [by right|by exists k].
  - intros r Hr [k' [[_ <-]|[_ Hk']]%lookup_insert_Some]; [done|].
    apply (Hsep r); [by right|by exists k'].
  - constructor; [by apply insert_subseteq|by right| |done|done|].
    + intros r [k' [[_ <-]|[_ Hk']]%lookup_insert_Some]; [right; by left|left; by exists k'].
    + intros x Hx. apply Ho; [apply Hx; right; by left|].
      intros Hx'. apply (Hx p); [left; by exists k|by eapply entry_in_page].
Qed.

(** The descent makes the missing tables from the front of the free list, or ends in the
    allocator's panic when there are too few pages. *)
Lemma map_levels_ok m a root T l va : pt m root T → avail m a l → separate T l → (missing T va ≤ length l)%nat →
  ∃ m' a' T' q, map_levels 2 root va (m, a) = Ok (q, (m', a')) ∧
    T' !! [PX 1 va; PX 2 va] = Some q ∧ pt m' root T' ∧
    avail m' a' (drop (missing T va) l) ∧ separate T' (drop (missing T va) l) ∧
    grow m T l m' T' (drop (missing T va) l).
Proof.
  intros Hpt Ha Hs Hl. cbn [map_levels].
  change (Z.of_nat 2) with 2. change (Z.of_nat 1) with 1.
  pose proof (map_step_ok m a root T l [] root (PX 2 va) Hpt Ha Hs (pt_root _ _ _ Hpt)) as H2.
  specialize (H2 ltac:(simpl; lia) (PX_bound 2 va ltac:(lia))). unfold missing in *.
  assert (∃ m1 a1 T1 l1 q1, map_step (root + 8 * PX 2 va) (m, a) = Ok (q1, (m1, a1)) ∧
    T1 !! [PX 2 va] = Some q1 ∧ pt m1 root T1 ∧ avail m1 a1 l1 ∧ separate T1 l1 ∧
    grow m T l m1 T1 l1 ∧
    (T1 !! [PX 1 va; PX 2 va] = None → l1 ≠ []) ∧
    drop (missing T va) l = drop (match T1 !! [PX 1 va; PX 2 va] with None => 1 | _ => 0 end) l1)
    as (m1 & a1 & T1 & l1 & q1 & E1 & HT1 & Hpt1 & Ha1 & Hs1 & Hg1 & Hne & Hdrop).
  { unfold missing. destruct (T !! [PX 2 va]) as [q1|] eqn:E.
    - exists m, a, T, l, q1. split_and!; [done..|apply grow_refl| |done].
      intros E' ->. rewrite E' in Hl. simpl in Hl. lia.
    - destruct l as [|q l1]; [simpl in Hl; lia|].
      destruct H2 as (m1 & a1 & E1 & Hpt1 & Ha1 & Hs1 & Hg1).
      exists m1, a1, (<[[PX 2 va] := q]> T), l1, q. rewrite lookup_insert_eq.
      rewrite lookup_insert_ne by done.
      assert (T !! [PX 1 va; PX 2 va] = None) as En.
      { destruct (T !! [PX 1 va; PX 2 va]) as [r|] eqn:Er; [|done].
        apply (pt_child _ _ _ Hpt) in Er as [[? Er] _]. congruence. }
      rewrite En. split_and!; try done. intros _ ->. simpl in Hl. lia. }
  rewrite (bind_ok _ _ _ _ _ E1).
  fold (missing T va). rewrite Hdrop.
  pose proof (map_step_ok m1 a1 root T1 l1 [PX 2 va] q1 (PX 1 va) Hpt1 Ha1 Hs1 HT1) as H1.
  specialize (H1 ltac:(simpl; lia) (PX_bound 1 va ltac:(lia))).
  destruct (T1 !! [PX 1 va; PX 2 va]) as [q|] eqn:E.
  - exists m1, a1, T1, q. rewrite (bind_ok _ _ _ _ _ H1), drop_0. done.
  - destruct l1 as [|q l2]; [by destruct Hne|]. destruct H1 as (m2 & a2 & E2 & ? & ? & ? & ?).
    exists m2, a2, (<[[PX 1 va; PX 2 va] := q]> T1), q. rewrite (bind_ok _ _ _ _ _ E2).
    rewrite lookup_insert_eq. simpl. rewrite drop_0. split_and!; try done. by eapply grow_trans.
Qed.

Lemma map_levels_halt m a root T l va : pt m root T → avail m a l → separate T l →
  (length l < missing T va)%nat → map_levels 2 root va (m, a) = Err Halt.
Proof.
  intros Hpt Ha Hs Hl. cbn [map_levels].
  change (Z.of_nat 2) with 2. change (Z.of_nat 1) with 1.
  pose proof (map_step_ok m a root T l [] root (PX 2 va) Hpt Ha Hs (pt_root _ _ _ Hpt)) as H2.
  specialize (H2 ltac:(simpl; lia) (PX_bound 2 va ltac:(lia))). unfold missing in Hl.
  destruct (T !! [PX 2 va]) as [q1|] eqn:E.
  - destruct (T !! [PX 1 va; PX 2 va]) eqn:E'; [lia|]. destruct l; [|simpl in Hl; lia].
    rewrite (bind_ok _ _ _ _ _ H2). apply bind_err.
    pose proof (map_step_ok m a root T [] [PX 2 va] q1 (PX 1 va) Hpt Ha Hs E) as H1.
    specialize (H1 ltac:(simpl; lia) (PX_bound 1 va ltac:(lia))). by rewrite E' in H1.
  - destruct l as [|q l]; [by apply bind_err|]. destruct l; [|simpl in Hl; lia].
    destruct H2 as (m1 & a1 & E1 & Hpt1 & Ha1 & Hs1 & _). rewrite (bind_ok _ _ _ _ _ E1).
    apply bind_err.
    pose proof (map_step_ok m1 a1 root _ [] [PX 2 va] q (PX 1 va) Hpt1 Ha1 Hs1) as H1.
    rewrite lookup_insert_eq in H1.
    specialize (H1 eq_refl ltac:(simpl; lia) (PX_bound 1 va ltac:(lia))).
    rewrite lookup_insert_ne in H1 by done.
    destruct (T !! [PX 1 va; PX 2 va]) as [r|] eqn:Er; [|done].
    apply (pt_child _ _ _ Hpt) in Er as [[? Er] _]. congruence.
Qed.

Definition same_entry (va va' : Z) : Prop :=
  PX 0 va = PX 0 va' ∧ PX 1 va = PX 1 va' ∧ PX 2 va = PX 2 va'.

Lemma same_entry_page va va' : 0 ≤ va < 2 ^ 47 → 0 ≤ va' < 2 ^ 47 → same_entry va va' →
  va / PGSIZE = va' / PGSIZE.
Proof. intros H1 H2 (E0 & E1 & E2). rewrite !PX_page by done. congruence. Qed.

Lemma leaf_exists m root T va : pt m root T → ∃ v, leaf m T va v.
Proof.
  intros Hpt. unfold leaf. destruct (T !! [PX 1 va; PX 2 va]) as [p|] eqn:E; [|by exists 0].
  destruct (pt_page _ _ _ Hpt _ _ E) as (_ & Hm & _).
  pose proof (PX_bound 0 va ltac:(lia)) as Hi.
  destruct (mapped_mem_at m (p + 8 * PX 0 va) 8) as (b & Hb & Hat); [by apply slot_mapped|].
  eexists. by exists b.
Qed.

Lemma leaf_fun m T va v v' : leaf m T va v → leaf m T va v' → v = v'.
Proof. unfold leaf. destruct (T !! _); [apply word_at_fun|congruence]. Qed.

Lemma map_single_ok m a root T l va pa perm old : pt m root T → avail m a l → separate T l →
  (missing T va ≤ length l)%nat → 0 ≤ perm < 2 ^ 64 → leaf m T va old →
  ∃ m' a' T', __map_single_page root va pa perm (m, a) = Ok (0, (m', a')) ∧ pt m' root T' ∧
    avail m' a' (drop (missing T va) l) ∧ separate T' (drop (missing T va) l) ∧ T ⊆ T' ∧
    (∀ p, tree_page T' p → tree_page T p ∨ p ∈ l) ∧ dom m' = dom m ∧
    leaf m' T' va (Z.lor (Z.lor (PA2PTE pa) (PTE_FLAGS old)) perm) ∧
    (∀ va' v, ¬ same_entry va va' → leaf m T va' v → leaf m' T' va' v) ∧
    (∀ x, (∀ p, tree_page T p ∨ p ∈ l → ¬ in_page p x) → m' !! x = m !! x).
Proof.
  intros Hpt Ha Hs Hl Hperm Hold.
  destruct (map_levels_ok m a root T l va Hpt Ha Hs Hl)
    as (m1 & a1 & T1 & q & E1 & HT1 & Hpt1 & Ha1 & Hs1 & [G1 G2 G3 G4 G5 G6]).
  pose proof (PX_bound 0 va ltac:(lia)) as Hi.
  set (e := Z.lor (Z.lor (PA2PTE pa) (PTE_FLAGS old)) perm).
  set (slot := q + 8 * PX 0 va). set (m2 := write_bytes slot (le_split 8 e) m1).
  destruct (pt_page _ _ _ Hpt1 _ _ HT1) as (Hqk & Hqm & _).
  assert (mapped m1 slot (Z.of_nat 8)) as Hm8 by (by apply slot_mapped).
  assert (∀ x, ¬ (slot ≤ x < slot + 8) → m2 !! x = m1 !! x) as Ho by (intros x ?; by apply store_only).
  assert (∀ x, slot ≤ x < slot + 8 → in_page q x) as Hin by (intros x ?; by eapply entry_in_page).
  assert (dom m2 = dom m1) as Hd.
  { unfold m2. by rewrite write_bytes_dom by (by rewrite length_le_split). }
  assert (∀ p k x, T1 !! k = Some p → (length k < 2)%nat → in_page p x → m2 !! x = m1 !! x) as Hup.
  { intros p k x Hk Hlen Hx. apply Ho. intros Hx'.
    destruct (pt_disjoint m1 root T1 k [PX 1 va; PX 2 va] p q x) as [-> _]; auto. simpl in Hlen. lia. }
  exists m2, a1, T1. split_and!; [| | |done|done|done|congruence| | |].
  - unfold __map_single_page. rewrite (bind_ok _ _ _ _ _ E1).
    assert (in_mem (load64 slot) (m1, a1) = Ok (old, (m1, a1))) as El.
    { apply in_mem_ok, load_ok. specialize (G5 _ _ Hold). unfold leaf in G5. by rewrite HT1 in G5. }
    rewrite (bind_ok _ _ _ _ _ El).
    by rewrite (bind_ok _ _ _ tt (m2, a1)) by (by apply in_mem_ok, store_ok).
  - destruct Hpt1 as [P1 P2 P3 P4 P5]. constructor; [done| |done| |done].
    + intros k p Hk. destruct (P2 k p Hk) as (? & ? & ?). split_and!; [done| |done].
      by eapply mapped_dom.
    + intros k p i Hk Hlen Hi'. eapply word_at_same; [by apply P4|]. intros x Hx.
      eapply Hup; [done|done|by eapply entry_in_page].
  - eapply avail_frame; [done..|]. intros r x Hr Hx. apply Ho. intros Hx'.
    destruct (avail_pages _ _ _ Ha1) as [_ Hpg]. destruct (Hpg r Hr) as [Hrk _].
    eapply (kpage_disjoint r q); [done|done| |done|by apply Hin].
    intros ->. eapply Hs1; [done|]. by eexists.
  - unfold leaf. rewrite HT1. by apply store64_at, entry_bound.
  - intros va' v Hne Hv%G5. unfold leaf in *. destruct (T1 !! [PX 1 va'; _]) as [r|] eqn:E; [|done].
    eapply word_at_same; [done|]. intros x Hx. apply Ho. intros Hx'.
    pose proof (PX_bound 0 va' ltac:(lia)) as Hj.
    destruct (pt_disjoint m1 root T1 [PX 1 va'; PX 2 va'] [PX 1 va; PX 2 va] r q x) as [Ek ->];
      [done..|by eapply entry_in_page|by apply Hin|].
    apply Hne. injection Ek as ? ?. unfold same_entry. subst slot. split_and!; [lia|done|done].
  - intros x Hx. rewrite Ho; [by apply G6|]. intros Hx'%Hin.
    destruct (G3 q) as [Ht|Hf]; [by eexists|..]; by apply (Hx q); auto.
Qed.

Lemma walk_level n p va v m (a : A) :
  in_mem (load64 (p + 8 * PX (Z.of_nat (S n)) va)) (m, a) = Ok (v, (m, a)) →
  walk_levels (S n) p va false (m, a) =
    if v =? 0 then Ok (None, (m, a)) else walk_levels n (PA2VA (PTE2PA v)) va false (m, a).
Proof.
  intros E. cbn [walk_levels]. unfold mbind at 1, M_bind at 1. rewrite E. by destruct (v =? 0).
Qed.

(** The walk without allocation finds the last-level slot, or stops at a missing table. *)
Lemma table_walk_ok m (a : A) root T va : pt m root T → 0 ≤ va < MAXVA →
  va_to_pte_pointer root va false (m, a) =
    Ok (match T !! [PX 1 va; PX 2 va] with Some p => p + 8 * PX 0 va | None => 0 end, (m, a)).
Proof.
  intros Hpt Hva. unfold va_to_pte_pointer. destruct (Z.leb_spec MAXVA va); [lia|].
  pose proof (pt_root _ _ _ Hpt) as Hr.
  assert (∀ k p, T !! k = Some p → PA2VA p = p ∧ PA2VA (PTE2PA p) = p ∧ p ≠ 0) as Hpp.
  { intros k p Hk. destruct (pt_page _ _ _ Hpt k p Hk) as (Hp & _).
    split_and!; [by apply PA2VA_kpage|by apply PA2VA_PTE2PA|by eapply tree_entry_nonzero]. }
  destruct (Hpp [] root Hr) as [-> _].
  assert (in_mem (load64 (root + 8 * PX 2 va)) (m, a) = Ok (default 0 (T !! [PX 2 va]), (m, a))) as E2.
  { eapply load_entry; [done|done|simpl; lia|by apply PX_bound]. }
  pose proof (walk_level 1 root va _ m a E2) as W2.
  destruct (T !! [PX 2 va]) as [q|] eqn:Eq; cbn [default from_option id] in W2.
  2: { assert (T !! [PX 1 va; PX 2 va] = None) as ->.
       { destruct (T !! [PX 1 va; PX 2 va]) as [r|] eqn:Er; [|done].
         apply (pt_child _ _ _ Hpt) in Er as [[? Er] _]. congruence. }
       by rewrite (bind_ok _ _ _ _ _ W2). }
  destruct (Hpp _ _ Eq) as (_ & Eqv & Hq0). rewrite Eqv in W2.
  destruct (Z.eqb_spec q 0); [done|].
  assert (in_mem (load64 (q + 8 * PX 1 va)) (m, a) =
          Ok (default 0 (T !! [PX 1 va; PX 2 va]), (m, a))) as E1.
  { eapply load_entry; [done|done|simpl; lia|by apply PX_bound]. }
  rewrite (walk_level 0 q va _ m a E1) in W2.
  destruct (T !! [PX 1 va; PX 2 va]) as [r|] eqn:Er; cbn [default from_option id] in W2.
  - destruct (Hpp _ _ Er) as (_ & Erv & Hr0). rewrite Erv in W2.
    destruct (Z.eqb_spec r 0); [done|]. by rewrite (bind_ok _ _ _ _ _ W2).
  - by rewrite (bind_ok _ _ _ _ _ W2).
Qed.

(** [va_to_pa] is the frame of the entry plus the offset, and [0] for an invalid entry or an
    address outside the user's half. *)
Definition translate (v va : Z) : Z :=
  if Z.land v PTE_V =? 0 then 0 else PTE2PA v + va mod PGSIZE.

Lemma MAXVA_round va : 0 ≤ va → MAXVA ≤ va - va mod PGSIZE ↔ MAXVA ≤ va.
Proof. unfold MAXVA, PGSIZE. rewrite Z.shiftl_mul_pow2 by lia.
  change (1 * 2 ^ 47) with (2 ^ 33 * 16384). intros. split; intros; zmod. Qed.

Lemma va_to_pa_ok m (a : A) root T va v : pt m root T → 0 ≤ va → leaf m T va v →
  va_to_pa root va (m, a) = Ok (if MAXVA <=? va then 0 else translate v va, (m, a)).
Proof.
  intros Hpt Hva Hv. unfold va_to_pa. pose proof (MAXVA_round va Hva) as Hr.
  destruct (Z.leb_spec MAXVA (va - va mod PGSIZE)), (Z.leb_spec MAXVA va); try (exfalso; lia); [done|].
  assert (0 ≤ va - va mod PGSIZE) by (unfold PGSIZE; zmod).
  rewrite (bind_ok _ _ _ _ _ (table_walk_ok m a root T (va - va mod PGSIZE) Hpt ltac:(lia))). rewrite !PX_round by lia.
  unfold leaf in Hv. destruct (T !! [PX 1 va; PX 2 va]) as [p|] eqn:E; [|by subst v].
  assert (p + 8 * PX 0 va ≠ 0) as Hne.
  { destruct (pt_page _ _ _ Hpt _ _ E) as (Hk & _). apply kpage_bound in Hk.
    pose proof (PX_bound 0 va ltac:(lia)). lia. }
  destruct (Z.eqb_spec (p + 8 * PX 0 va) 0); [done|].
  pose proof (load_ok _ _ _ _ Hv) as El.
  rewrite (bind_ok _ _ _ _ _ (in_mem_ok _ _ a _ _ El)). unfold translate.
  destruct (Z.eqb_spec (Z.land v PTE_V) 0); [done|].
  rewrite (bind_ok _ _ _ _ _ (in_mem_ok _ _ a _ _ El)). rewrite wrap_id; [done|].
  pose proof (PTE2PA_bound v). unfold PGSIZE in *. zmod.
Qed.

(** An entry that maps its page to the frame of [pa] with at least the bits of [perm]. *)
Definition maps (m : mem) T (va pa perm : Z) : Prop :=
  ∃ e, leaf m T va e ∧ PTE2PA e = PA2PTE pa ∧ Z.land e perm = perm ∧ Z.land e PTE_V ≠ 0.

Lemma missing_le T va : (missing T va ≤ 2)%nat.
Proof. unfold missing. repeat case_match; lia. Qed.

Lemma page_entry va va' : va mod PGSIZE = 0 → 0 ≤ va < 2 ^ 47 → 0 ≤ va' < 2 ^ 47 →
  same_entry va va' → va ≤ va' < va + PGSIZE.
Proof.
  intros Hm H1 H2 Hs. apply same_entry_page in Hs; [|done..]. unfold PGSIZE in *. zmod.
Qed.

Lemma map_pages_loop_ok root perm n : 0 ≤ perm < 2 ^ 64 → Z.land perm PAMASK = 0 →
  Z.land perm PTE_V ≠ 0 → ∀ m a T l vac pa, pt m root T → avail m a l → separate T l →
  vac mod PGSIZE = 0 → 0 ≤ vac → vac + Z.of_nat n * PGSIZE ≤ 2 ^ 47 →
  0 ≤ pa → pa + Z.of_nat n * PGSIZE < 2 ^ 64 → (2 * n ≤ length l)%nat →
  ∃ m' a' T' l', map_pages_loop n root vac (vac + (Z.of_nat n - 1) * PGSIZE) pa perm (m, a)
      = Ok (0, (m', a')) ∧ pt m' root T' ∧ avail m' a' l' ∧ separate T' l' ∧
    (∀ i, 0 ≤ i < Z.of_nat n → maps m' T' (vac + i * PGSIZE) (pa + i * PGSIZE) perm) ∧
    (∀ va v, 0 ≤ va < 2 ^ 47 → ¬ (vac ≤ va < vac + Z.of_nat n * PGSIZE) →
       leaf m T va v → leaf m' T' va v) ∧
    (∀ x, (∀ p, tree_page T p ∨ p ∈ l → ¬ in_page p x) → m' !! x = m !! x).
Proof.
  intros Hperm Hpa HV. induction n as [|n IH]; intros m a T l vac pa Hpt Ha Hs Hal Hv Hhi Hp0 Hp Hl.
  - exists m, a, T, l. simpl. destruct (Z.leb_spec vac (vac + (Z.of_nat 0 - 1) * PGSIZE));
      [unfold PGSIZE in *; lia|]. split_and!; try done. intros i Hi. lia.
  - cbn [map_pages_loop]. set (e := vac + (Z.of_nat (S n) - 1) * PGSIZE) in *.
    destruct (Z.leb_spec vac e) as [_|]; [|unfold e, PGSIZE in *; lia].
    destruct (leaf_exists m root T vac Hpt) as [old Hold]. pose proof (missing_le T vac) as Hms.
    destruct (map_single_ok m a root T l vac pa perm old)
      as (m1 & a1 & T1 & E1 & Hpt1 & Ha1 & Hs1 & _ & Hpg & _ & Hlf & Hother & Hfr); try done; [lia|].
    set (l1 := drop (missing T vac) l) in *.
    assert (∀ p, p ∈ l1 → p ∈ l) as Hsub.
    { intros p Hin. rewrite <- (take_drop (missing T vac) l). set_solver. }
    rewrite (bind_ok _ _ _ _ _ E1).
    rewrite !wrap_id by (unfold PGSIZE in *; lia).
    replace e with (vac + PGSIZE + (Z.of_nat n - 1) * PGSIZE) by (unfold e, PGSIZE; lia).
    destruct (IH m1 a1 T1 l1 (vac + PGSIZE) (pa + PGSIZE))
      as (m2 & a2 & T2 & l2 & E2 & Hpt2 & Ha2 & Hs2 & Hnew & Hold2 & Hfr2); try done.
    { unfold PGSIZE in *. zmod. }
    { unfold PGSIZE in *. lia. }
    { unfold PGSIZE in *. lia. }
    { unfold PGSIZE in *. lia. }
    { unfold PGSIZE in *. lia. }
    { unfold l1. rewrite length_drop. lia. }
    exists m2, a2, T2, l2. split_and!; [done..| | |].
    + intros i Hi. destruct (decide (i = 0)) as [->|].
      * rewrite !Z.add_0_r. eexists. split.
        { apply Hold2; [unfold PGSIZE in *; lia| |exact Hlf]. unfold PGSIZE in *. lia. }
        split_and!; [by apply PTE2PA_entry| |by apply entry_valid].
        rewrite Z.land_comm, Z.lor_comm. apply Z.bits_inj'.
        intros j Hj; rewrite Z.land_spec, Z.lor_spec; by destruct (Z.testbit perm j).
      * specialize (Hnew (i - 1)). replace (vac + PGSIZE + (i - 1) * PGSIZE) with (vac + i * PGSIZE) in Hnew
          by lia. replace (pa + PGSIZE + (i - 1) * PGSIZE) with (pa + i * PGSIZE) in Hnew by lia.
        apply Hnew. lia.
    + intros va v Hva Hout Hlv. apply Hold2; [done|unfold PGSIZE in *; lia|].
      apply Hother; [|done]. intros Hsame. apply page_entry in Hsame; [|done|unfold PGSIZE in *; lia|done].
      unfold PGSIZE in *. lia.
    + intros x Hx. rewrite Hfr2; [by apply Hfr|]. intros p [Hp'%Hpg|Hp'%Hsub]; auto.
Qed.
End operations.

(** ** A fresh table *)
Section create.
Context {A : Type} `{PageAllocator A}.

(** [pgtbl_create] takes a page and makes the table that maps nothing. *)
Lemma pgtbl_create_ok m (a : A) q l : avail m a (q :: l) →
  ∃ m' a', pgtbl_create (m, a) = Ok (q, (m', a')) ∧ pt m' q {[ [] := q ]} ∧ avail m' a' l ∧
    separate {[ [] := q ]} l ∧ dom m' = dom m ∧ only q PGSIZE m m'.
Proof.
  intros Ha. destruct (avail_pages _ _ _ Ha) as [[Hql _]%NoDup_cons Hpg].
  destruct (Hpg q) as [Hqk Hqm]; [by left|]. pose proof (kpage_bound _ Hqk) as Hqb.
  destruct (page_alloc_ok m a q l PGSIZE Ha) as (m1 & a1 & E1 & Ha1 & Ho1 & Hd1); [done|].
  destruct (memset_page_ok q 0 m1) as (m2 & E2 & Ho2 & Hd2 & Hz2); [by eapply mapped_dom|].
  exists m2, a1. split_and!; [| | | |congruence|by eapply only_trans].
  - unfold pgtbl_create. rewrite (bind_ok _ _ _ _ _ E1).
    destruct (Z.eqb_spec q 0); [lia|]. cbn [negb].
    by rewrite (bind_ok _ _ _ _ _ (in_mem_ok _ _ _ _ _ E2)).
  - constructor.
    + by rewrite lookup_singleton_eq.
    + intros k p [<- <-]%lookup_singleton_Some. split_and!; [done| |simpl; lia].
      eapply mapped_dom; [|done]. congruence.
    + intros k k' p [<- _]%lookup_singleton_Some [<- _]%lookup_singleton_Some. done.
    + intros k p i [<- <-]%lookup_singleton_Some _ Hi. rewrite lookup_singleton_ne by done.
      apply word64_zero. intros x Hx. apply Hz2. by eapply entry_in_page.
    + intros i k p Hk%lookup_singleton_Some. by destruct Hk.
  - eapply avail_frame; [done|done|]. intros p x Hp Hx. apply Ho2.
    eapply (kpage_disjoint p q); [apply Hpg; by right|done| |done]. by intros ->.
  - intros p Hp [k Hk]. apply lookup_singleton_Some in Hk as [_ <-]. done.
Qed.
End create.

(** A machine with [n] free pages, and one with an empty table as well. *)
Lemma length_pages_rev n p : length (pages_rev n p) = n.
Proof. revert p. induction n as [|n IH]; intros p; [done|]. simpl. rewrite length_app, IH. simpl. lia. Qed.

Lemma sample_mapped p n : 0 ≤ n → ∃ m : mem, mapped m p n ∧ ∀ x, ¬ (p ≤ x < p + n) → m !! x = None.
Proof.
  intros Hn. exists (write_bytes p (replicate (Z.to_nat n) 0) ∅). split.
  2: { intros x Hx. rewrite write_bytes_only; [done|]. rewrite length_replicate. lia. }
  pose proof (mem_at_mapped _ _ _ (write_bytes_at p (replicate (Z.to_nat n) 0) ∅)) as Hm.
  by rewrite length_replicate, Z2Nat.id in Hm.
Qed.

(** Memory from [n] pages below its end on, all of it free. *)
Lemma sample_memory n : Z.of_nat n ≤ 1024 → ∃ (m : mem) (a : Z) l, (avail m a l ∧ length l = n) ∧
  ∀ x, PHYSTOP ≤ x → m !! x = None.
Proof.
  intros Hn. assert (PHYSTOP = MAIN_KERNEL_DMW + 1024 * PGSIZE + (PHYSTOP - MAIN_KERNEL_DMW - 1024 * PGSIZE)) as Hp by lia.
  assert (0 < PHYSTOP - MAIN_KERNEL_DMW - 1024 * PGSIZE < 2 ^ 40) as Hr by by vm_compute.
  assert (PHYSTOP mod PGSIZE = 0) as Ha by by vm_compute.
  set (p := PHYSTOP - Z.of_nat n * PGSIZE). generalize dependent PHYSTOP. intros e He Hr Ha p.
  destruct (sample_mapped p (e - p)) as [m0 [Hm0 Hout]]; [unfold p, PGSIZE; lia|].
  destruct (freerange_loop_ok n p e m0 0 []) as (m & f & _ & Hl & _ & Hd).
  - done.
  - unfold p, PGSIZE in *. zmod.
  - unfold p, PGSIZE in *. lia.
  - change (2 ^ 50) with (2 ^ 40 + (2 ^ 50 - 2 ^ 40)). unfold PGSIZE in *. lia.
  - unfold p, PGSIZE. lia.
  - unfold p, PGSIZE. zmod.
  - done.
  - intros q Hq. by apply not_elem_of_nil in Hq.
  - exists m, f, (pages_rev n p). rewrite app_nil_r in Hl. split; [split; [exact Hl|apply length_pages_rev]|].
    intros x Hx. apply not_elem_of_dom. rewrite Hd. apply not_elem_of_dom, Hout. lia.
Qed.

Lemma sample_pages n : Z.of_nat n ≤ 1024 → ∃ (m : mem) (a : Z) l, avail m a l ∧ length l = n.
Proof. intros (m & a & l & ? & _)%sample_memory. by exists m, a, l. Qed.

Lemma sample_table : ∃ m a root T l, pt m root T ∧ avail m a l ∧ separate T l ∧
  length l = 7%nat.
Proof.
  destruct (sample_pages 8) as (m & a & [|q l] & Ha & Hl); [done|done|].
  destruct (pgtbl_create_ok m a q l Ha) as (m' & a' & _ & Hpt & Ha' & Hs & _).
  exists m', a', q, {[ [] := q ]}, l. split_and!; [done..|]. simpl in Hl. lia.
Qed.

(** ** Properties of the mapping functions *)
Section properties.
Context {A : Type} `{PageAllocator A}.
Implicit Types (m : mem) (a : A) (T : gmap (list Z) Z).

(** C13: [__map_single_page] followed by [va_to_pa].  With enough free pages the call returns
    0, makes exactly the missing tables, and afterwards [va_to_pa] gives the frame of [pa] plus
    the offset; every address of another page keeps its translation, the page table stays well
    formed and the rest of memory unchanged.  The entry's permission bits are added to the old
    ones.  With too few free pages the call ends in the allocator's panic. *)
Theorem map_single_page_correct m a root T l va pa perm : pt m root T → avail m a l →
  separate T l → 0 ≤ va < MAXVA → 0 ≤ perm < 2 ^ 64 → Z.land perm PAMASK = 0 →
  Z.land perm PTE_V ≠ 0 →
  if decide (missing T va ≤ length l)%nat then
    ∃ m' a' T', __map_single_page root va pa perm (m, a) = Ok (0, (m', a')) ∧ pt m' root T' ∧
      avail m' a' (drop (missing T va) l) ∧ separate T' (drop (missing T va) l) ∧
      va_to_pa root va (m', a') = Ok (PA2PTE pa + va mod PGSIZE, (m', a')) ∧
      (∀ va' r, 0 ≤ va' → va' / PGSIZE ≠ va / PGSIZE →
         va_to_pa root va' (m, a) = Ok (r, (m, a)) → va_to_pa root va' (m', a') = Ok (r, (m', a'))) ∧
      (∀ old, leaf m T va old → leaf m' T' va (Z.lor (Z.lor (PA2PTE pa) (PTE_FLAGS old)) perm)) ∧
      (∀ x, (∀ p, tree_page T p ∨ p ∈ l → ¬ in_page p x) → m' !! x = m !! x)
  else __map_single_page root va pa perm (m, a) = Err Halt.
Proof.
  intros Hpt Ha Hs Hva Hperm Hpa HV. change MAXVA with (2 ^ 47) in Hva.
  destruct (decide _) as [Hl|Hl].
  - destruct (leaf_exists m root T va Hpt) as [old Hold].
    destruct (map_single_ok m a root T l va pa perm old)
      as (m1 & a1 & T1 & E1 & Hpt1 & Ha1 & Hs1 & _ & _ & _ & Hlf & Hother & Hfr); try done.
    exists m1, a1, T1. split_and!; try done.
    + rewrite (va_to_pa_ok m1 a1 root T1 va _ Hpt1 ltac:(lia) Hlf). change MAXVA with (2 ^ 47).
      destruct (Z.leb_spec (2 ^ 47) va); [lia|]. unfold translate.
      destruct (Z.eqb_spec (Z.land (Z.lor (Z.lor (PA2PTE pa) (PTE_FLAGS old)) perm) PTE_V) 0)
        as [E|_]; [by apply entry_valid in E|]. by rewrite PTE2PA_entry.
    + intros va' r Hva' Hne Hr. destruct (leaf_exists m root T va' Hpt) as [v Hv].
      rewrite (va_to_pa_ok m a root T va' v Hpt Hva' Hv) in Hr. injection Hr as <-.
      change MAXVA with (2 ^ 47) in *. destruct (Z.leb_spec (2 ^ 47) va') as [Hge|Hlt].
      * destruct (leaf_exists m1 root T1 va' Hpt1) as [v' Hv'].
        rewrite (va_to_pa_ok m1 a1 root T1 va' v' Hpt1 Hva' Hv'). change MAXVA with (2 ^ 47).
        by destruct (Z.leb_spec (2 ^ 47) va'); [|lia].
      * rewrite (va_to_pa_ok m1 a1 root T1 va' v Hpt1 Hva').
        { change MAXVA with (2 ^ 47). by destruct (Z.leb_spec (2 ^ 47) va'); [lia|]. }
        apply Hother; [|done]. intros Hsame. apply Hne. symmetry. by apply same_entry_page.
    + intros old' Hold'. by rewrite (leaf_fun _ _ _ _ _ Hold' Hold).
  - unfold __map_single_page. apply bind_err.
    apply (map_levels_halt m a root T l); [done..|lia].
Qed.

(** C14: [__map_pages].  Mapping [size] bytes from [va], neither of them need be aligned, makes
    every page that the range touches translate to the matching page after [pa], in order, and
    leaves the translation of every other page as it was. *)
Theorem map_pages_correct m a root T l va size pa perm : pt m root T → avail m a l →
  separate T l → 0 ≤ perm < 2 ^ 64 → Z.land perm PAMASK = 0 → Z.land perm PTE_V ≠ 0 →
  0 ≤ va → 0 < size → va + size ≤ MAXVA → 0 ≤ pa < 2 ^ 50 →
  2 * (size / PGSIZE + 2) ≤ Z.of_nat (length l) →
  ∃ m' a' T' l', __map_pages root va size pa perm (m, a) = Ok (0, (m', a')) ∧ pt m' root T' ∧
    avail m' a' l' ∧ separate T' l' ∧
    (∀ x, va - va mod PGSIZE ≤ x < va + size →
       va_to_pa root x (m', a') =
         Ok (PA2PTE (pa - pa mod PGSIZE + (x - x mod PGSIZE - (va - va mod PGSIZE))) + x mod PGSIZE,
             (m', a'))) ∧
    (∀ x v, 0 ≤ x < MAXVA → x < va - va mod PGSIZE ∨ va + size ≤ x - x mod PGSIZE →
       leaf m T x v → leaf m' T' x v).
Proof.
  intros Hpt Ha Hs Hperm Hpa HV Hva Hsize Hend Hp Hl. change MAXVA with (2 ^ 47) in *.
  unfold __map_pages. rewrite !PGROUNDDOWN_mod, wrap_id by lia.
  set (vs := va - va mod PGSIZE). set (last := va + size - 1).
  set (n := Z.to_nat ((last - last mod PGSIZE - vs) / PGSIZE + 1)).
  assert (Z.of_nat n = (last - last mod PGSIZE - vs) / PGSIZE + 1) as Hn
    by (unfold n, vs, last, PGSIZE in *; zmod).
  assert (last - last mod PGSIZE = vs + (Z.of_nat n - 1) * PGSIZE) as ->
    by (unfold vs, last, PGSIZE in *; zmod).
  destruct (map_pages_loop_ok root perm n Hperm Hpa HV m a T l vs (pa - pa mod PGSIZE))
    as (m' & a' & T' & l' & E & Hpt' & Ha' & Hs' & Hnew & Hold & _); try done.
  1-6: unfold vs, last, PGSIZE in *; zmod.
  exists m', a', T', l'. split_and!; [done..| |].
  - intros x Hx. assert (0 ≤ x) as Hx0 by (unfold vs, PGSIZE in *; zmod).
    set (i := (x - x mod PGSIZE - vs) / PGSIZE).
    assert (0 ≤ i < Z.of_nat n) as Hi by (unfold i, vs, last, PGSIZE in *; zmod).
    assert (vs + i * PGSIZE = x - x mod PGSIZE) as Ei by (unfold i, vs, last, PGSIZE in *; zmod).
    destruct (Hnew i Hi) as (e & Hlf & HPA & _ & HVe). rewrite Ei in Hlf.
    assert (leaf m' T' x e) as Hlf' by (unfold leaf in *; by rewrite !PX_round in Hlf by lia).
    rewrite (va_to_pa_ok m' a' root T' x e Hpt' Hx0 Hlf'). change MAXVA with (2 ^ 47).
    destruct (Z.leb_spec (2 ^ 47) x); [unfold vs in *; lia|]. unfold translate.
    destruct (Z.eqb_spec (Z.land e PTE_V) 0); [done|]. rewrite HPA. do 4 f_equal. lia.
  - intros x v Hx Hout. apply Hold; [done|]. unfold vs, last, PGSIZE in *. zmod.
Qed.
End properties.

Lemma map_single_page_correct_witness : ∃ m a root m' a',
  __map_single_page root 0x10123 0x90000000 PTE_DEFAULT (m, a) = Ok (0, (m', a')) ∧
  va_to_pa root 0x10123 (m', a') = Ok (0x90000123, (m', a')).
Proof.
  destruct sample_table as (m & a & root & T & l & Hpt & Ha & Hs & Hl).
  pose proof (map_single_page_correct m a root T l 0x10123 0x90000000 PTE_DEFAULT Hpt Ha Hs) as P.
  rewrite decide_True in P by (rewrite Hl; etrans; [apply missing_le|lia]).
  destruct P as (m' & a' & T' & E & _ & _ & _ & Hva & _); [by vm_compute..|].
  exists m, a, root, m', a'. split; [exact E|exact Hva].
Defined.

Lemma map_pages_correct_witness : ∃ m a root m' a',
  __map_pages root 0x10100 0x100 0x90000000 PTE_DEFAULT (m, a) = Ok (0, (m', a')) ∧
  va_to_pa root 0x10180 (m', a') = Ok (0x90000180, (m', a')).
Proof.
  destruct sample_table as (m & a & root & T & l & Hpt & Ha & Hs & Hl).
  destruct (map_pages_correct m a root T l 0x10100 0x100 0x90000000 PTE_DEFAULT Hpt Ha Hs)
    as (m' & a' & T' & l' & E & _ & _ & _ & Hva & _); [by vm_compute..|by rewrite Hl|].
  exists m, a, root, m', a'. split; [exact E|]. apply (Hva 0x10180). by vm_compute.
Defined.
