(* ===== verification/VmCopy.v ===== *)
(** * Copies between kernel buffers and user memory

    [umap m T F]: the valid pages of the table tree [T] lead to the kernel
    pages of [F] (page number to page), all different and none of them a
    table.  [ubytes] reads the memory of a process through that map.  The
    theorems state [copy_to_va] and [copy_from_va] on this view, page by page,
    with the [-1] of the first page that is not mapped. *)

From S2P Require Import Prelude Mem CString PageAlloc Vm.

Section copy.
Context {A : Type} `{PageAllocator A}.
Implicit Types (m : mem) (a : A) (T : gmap (list Z) Z) (F : gmap Z Z).

Record umap m T F : Prop := {
  um_range : ∀ n q, F !! n = Some q → 0 ≤ n < 2 ^ 33 ∧ kpage q ∧ mapped m q PGSIZE ∧ ¬ tree_page T q;
  um_leaf : ∀ n q, F !! n = Some q → ∃ e, leaf m T (n * PGSIZE) e ∧ PA2VA (PTE2PA e) = q ∧
    Z.land e PTE_V ≠ 0;
  um_inj : ∀ n n' q, F !! n = Some q → F !! n' = Some q → n = n'
}.

Definition in_user F (va : Z) : Prop := is_Some (F !! (va / PGSIZE)).

(** The process sees the bytes [l] from [va] on. *)
Definition ubytes m F (va : Z) (l : list Z) : Prop :=
  ∀ i b, l !! i = Some b → ∃ q, F !! ((va + Z.of_nat i) / PGSIZE) = Some q ∧
    m !! (q + (va + Z.of_nat i) mod PGSIZE) = Some b.

(** [x] is outside every page of the process. *)
Definition not_user F (x : Z) : Prop := ∀ n q, F !! n = Some q → ¬ in_page q x.

(** The entry of the page of [va] is not valid. *)
Definition unmapped m T (va : Z) : Prop := ∃ v, leaf m T va v ∧ Z.land v PTE_V = 0.

Lemma leaf_round m T va v : leaf m T (va - va mod PGSIZE) v ↔ leaf m T va v.
Proof. unfold leaf. by rewrite !PX_round by lia. Qed.

Lemma page_base va : va / PGSIZE * PGSIZE = va - va mod PGSIZE.
Proof. unfold PGSIZE. zmod. Qed.

(** One look-up of the copy loops, in a mapped page and in an unmapped one. *)
Lemma lookup_page m a root T F va q : pt m root T → umap m T F → 0 ≤ va < MAXVA →
  F !! (va / PGSIZE) = Some q →
  ∃ pa0, va_to_pa root (PGROUNDDOWN va) (m, a) = Ok (pa0, (m, a)) ∧ pa0 ≠ 0 ∧
    PA2VA (u64 (pa0 + (va - PGROUNDDOWN va))) = q + va mod PGSIZE.
Proof.
  intros Hpt Hu Hva HF. rewrite PGROUNDDOWN_mod.
  destruct (um_leaf _ _ _ Hu _ _ HF) as (e & Hlf & Hq & HV).
  destruct (um_range _ _ _ Hu _ _ HF) as (_ & Hk & _).
  rewrite page_base in Hlf. pose proof (PTE2PA_bound e) as [Hb Hm].
  assert (va - va mod PGSIZE < MAXVA ∧ 0 ≤ va - va mod PGSIZE) as [Hlt H0]
    by (unfold PGSIZE in *; zmod).
  assert ((va - va mod PGSIZE) mod PGSIZE = 0) as Hr by (unfold PGSIZE; zmod).
  assert (0 ≤ va mod PGSIZE < PGSIZE) as Ho by (unfold PGSIZE; zmod).
  rewrite PA2VA_eq in Hq by (unfold PGSIZE in *; lia).
  exists (PTE2PA e). split_and!.
  - rewrite (va_to_pa_ok m a root T _ e Hpt H0 Hlf).
    destruct (Z.leb_spec MAXVA (va - va mod PGSIZE)); [lia|]. unfold translate.
    destruct (Z.eqb_spec (Z.land e PTE_V) 0); [done|]. by rewrite Hr, Z.add_0_r.
  - destruct Hk as (_ & Hk & _). lia.
  - replace (va - (va - va mod PGSIZE)) with (va mod PGSIZE) by lia.
    unfold PGSIZE in *. rewrite wrap_id, PA2VA_eq by lia. lia.
Qed.

Lemma lookup_unmapped m a root T va : pt m root T → 0 ≤ va < MAXVA → unmapped m T va →
  va_to_pa root (PGROUNDDOWN va) (m, a) = Ok (0, (m, a)).
Proof.
  intros Hpt Hva (v & Hv & HV). rewrite PGROUNDDOWN_mod. apply (proj2 (leaf_round _ _ _ _)) in Hv.
  rewrite (va_to_pa_ok m a root T _ v Hpt); [|unfold PGSIZE; zmod|done].
  destruct (MAXVA <=? va - va mod PGSIZE); [done|]. unfold translate. by rewrite HV.
Qed.

Lemma umap_valid m T F va : umap m T F → 0 ≤ va → in_user F va → unmapped m T va → False.
Proof.
  intros Hu Hva [q HF] (v & Hv & HV). destruct (um_leaf _ _ _ Hu _ _ HF) as (e & Hlf & _ & HV').
  rewrite page_base in Hlf. apply (proj1 (leaf_round _ _ _ _)) in Hlf. by rewrite (leaf_fun _ _ _ _ _ Hlf Hv) in HV'.
Qed.

(** The bytes up to the first unmapped page reach at least to the end of the first page. *)
Lemma chunk_fits m T F va (l1 l2 : list Z) : umap m T F → 0 ≤ va → l1 ≠ [] →
  (∀ i, 0 ≤ i < Z.of_nat (length l1) → in_user F (va + i)) →
  (l2 = [] ∨ unmapped m T (va + Z.of_nat (length l1))) →
  let n := PGSIZE - va mod PGSIZE in let len := Z.of_nat (length (l1 ++ l2)) in
  let n := if len <? n then len else n in
  0 < n ≤ Z.of_nat (length l1) ∧ n ≤ PGSIZE - va mod PGSIZE ∧
  (n = len ∧ l2 = [] ∨ n = PGSIZE - va mod PGSIZE).
Proof.
  intros Hu Hva Hne Hin Hl2 n len.
  assert (0 < Z.of_nat (length l1)) as Hpos by (destruct l1; [done|simpl; lia]).
  assert (0 ≤ va mod PGSIZE < PGSIZE) as Hoff by (unfold PGSIZE; zmod).
  assert (len = Z.of_nat (length l1) + Z.of_nat (length l2)) as Hlen
    by (unfold len; rewrite length_app; lia).
  destruct Hl2 as [->|Hun].
  { simpl in Hlen. destruct (Z.ltb_spec len n); subst n; split_and!; try lia; auto. }
  assert (n ≤ Z.of_nat (length l1)) as Hfit.
  { destruct (decide (n ≤ Z.of_nat (length l1))) as [|Hlt]; [done|]. exfalso.
    eapply umap_valid; [done| | |exact Hun]; [lia|].
    unfold in_user. replace ((va + Z.of_nat (length l1)) / PGSIZE) with ((va + 0) / PGSIZE).
    - apply Hin. lia.
    - unfold n, PGSIZE in *. zmod. }
  destruct (Z.ltb_spec len n); subst n; split_and!; try lia.
Qed.

(** A user byte has one address. *)
Lemma user_addr_inj m T F u w q q' : umap m T F → F !! (u / PGSIZE) = Some q →
  F !! (w / PGSIZE) = Some q' → q + u mod PGSIZE = q' + w mod PGSIZE → u = w.
Proof.
  intros Hu Hq Hq' E.
  destruct (um_range _ _ _ Hu _ _ Hq) as (_ & Hk & _), (um_range _ _ _ Hu _ _ Hq') as (_ & Hk' & _).
  destruct (decide (q = q')) as [->|Hne].
  - pose proof (um_inj _ _ _ Hu _ _ _ Hq Hq'). unfold PGSIZE in *. zmod.
  - exfalso. eapply (kpage_disjoint q q' (q + u mod PGSIZE)); [done..| |]; unfold PGSIZE in *; zmod.
Qed.

(** A write inside a page of the process leaves the tables and the map alone. *)
Lemma user_write m m' root T F n q b k : pt m root T → umap m T F → F !! n = Some q →
  only b k m m' → q ≤ b → b + k ≤ q + PGSIZE → dom m' = dom m →
  pt m' root T ∧ umap m' T F ∧ (∀ va v, leaf m T va v → leaf m' T va v).
Proof.
  intros Hpt Hu HF Ho Hb Hk Hd. destruct (um_range _ _ _ Hu _ _ HF) as (_ & Hq & _ & Hqt).
  assert (∀ p x, tree_page T p → in_page p x → m' !! x = m !! x) as Hs.
  { intros p x [key Hp] Hx. apply Ho. intros Hx'.
    eapply (kpage_disjoint p q); [by eapply pt_page|done| |done|lia].
    intros ->. apply Hqt. by exists key. }
  assert (∀ va v, leaf m T va v → leaf m' T va v) as Hl.
  { intros va v Hv. eapply leaf_frame; [done..|]. intros key p x Hp _ Hx. apply (Hs p); [by exists key|done]. }
  split_and!; [by eapply pt_frame| |done]. destruct Hu as [U1 U2 U3]. constructor; [|..].
  - intros n' q' Hn'. destruct (U1 n' q' Hn') as (? & ? & ? & ?). split_and!; [lia|lia|done| |done].
    by eapply mapped_dom.
  - intros n' q' Hn'. destruct (U2 n' q' Hn') as (e & ? & ? & ?). eauto.
  - done.
Qed.

Lemma unmapped_frame m m' T va : (∀ va v, leaf m T va v → leaf m' T va v) →
  unmapped m T va → unmapped m' T va.
Proof. intros Hl (v & Hv & ?). exists v. eauto. Qed.

Lemma page_step va : 0 ≤ va → va < MAXVA → u64 (PGROUNDDOWN va + PGSIZE) = va + (PGSIZE - va mod PGSIZE).
Proof. intros. rewrite PGROUNDDOWN_mod. change MAXVA with (2 ^ 47) in *. rewrite wrap_id; unfold PGSIZE; zmod. Qed.

Lemma bytes_cut (l1 l2 : list Z) n : 0 ≤ n ≤ Z.of_nat (length l1) → ∃ c r, l1 = c ++ r ∧
  Z.of_nat (length c) = n ∧ Z.of_nat (length r) = Z.of_nat (length l1) - n.
Proof.
  intros Hn. exists (take (Z.to_nat n) l1), (drop (Z.to_nat n) l1).
  rewrite take_drop, length_take, length_drop. split_and!; [done|lia|lia].
Qed.

(** The bytes [l1] are on mapped pages, the rest [l2], if any, starts on an unmapped one. *)
Definition mapped_part m T F va (l1 l2 : list Z) : Prop :=
  (∀ i, 0 ≤ i < Z.of_nat (length l1) → in_user F (va + i)) ∧
  (l2 = [] ∨ unmapped m T (va + Z.of_nat (length l1))).

(** The first chunk [c] of a copy at [va], and what is left of it. *)
Record chunk m T F va (l1 l2 c r : list Z) (q : Z) : Prop := {
  ck_eq : l1 = c ++ r;
  ck_pos : 0 < Z.of_nat (length c);
  ck_page : F !! (va / PGSIZE) = Some q;
  ck_fit : va mod PGSIZE + Z.of_nat (length c) ≤ PGSIZE;
  ck_next : r ++ l2 = [] ∨ PGSIZE - va mod PGSIZE = Z.of_nat (length c);
  ck_n : let n := PGSIZE - va mod PGSIZE in let len := Z.of_nat (length (l1 ++ l2)) in
    (if len <? n then len else n) = Z.of_nat (length c);
  ck_rest : mapped_part m T F (va + Z.of_nat (length c)) r l2
}.

Lemma first_chunk m T F va l1 l2 : umap m T F → 0 ≤ va → l1 ≠ [] → mapped_part m T F va l1 l2 →
  ∃ c r q, chunk m T F va l1 l2 c r q.
Proof.
  intros Hu Hva Hne [Hin Hl2].
  destruct (chunk_fits m T F va l1 l2 Hu Hva Hne Hin Hl2) as (Hn & Hpage & Hlast).
  set (n := if _ <? _ then _ else _) in *. assert (0 < Z.of_nat (length l1)) by lia.
  destruct (Hin 0) as [q HF]; [lia|]. rewrite Z.add_0_r in HF.
  destruct (bytes_cut l1 l2 n) as (c & r & -> & Hc & Hr); [lia|]. exists c, r, q.
  rewrite length_app in Hin. constructor; [done|lia|done|lia| |by rewrite Hc|].
  - rewrite !length_app in Hlast. destruct Hlast as [[? ->]|]; [|lia]. left.
    apply app_nil, conj; [|done]. apply length_zero_iff_nil. simpl in *. lia.
  - split.
    + intros i Hi. rewrite <- Z.add_assoc. apply Hin. lia.
    + destruct Hl2 as [|Hl2]; [by left|right]. rewrite length_app, Nat2Z.inj_add, Z.add_assoc in Hl2. done.
Qed.

Lemma mapped_part_frame m m' T F va l1 l2 : (∀ va v, leaf m T va v → leaf m' T va v) →
  mapped_part m T F va l1 l2 → mapped_part m' T F va l1 l2.
Proof. intros Hl [? [|]]; split; auto. right. by eapply unmapped_frame. Qed.

(** One iteration of [copy_to_va]. *)
Lemma copy_to_step m a root T F fuel va src l1 l2 c r q : pt m root T → umap m T F →
  0 ≤ va < MAXVA → chunk m T F va l1 l2 c r q → mem_at m src c → bytes c →
  let len := Z.of_nat (length (l1 ++ l2)) in let n := Z.of_nat (length c) in
  let m1 := write_bytes (q + va mod PGSIZE) c m in
  copy_to_va_loop (S fuel) root va src len (m, a) =
    copy_to_va_loop fuel root (va + (PGSIZE - va mod PGSIZE)) (src + n) (len - n) (m1, a) ∧
  pt m1 root T ∧ umap m1 T F ∧ (∀ va v, leaf m T va v → leaf m1 T va v) ∧ dom m1 = dom m.
Proof.
  intros Hpt Hu Hva [-> Hpos HF Hfit _ Hn _] Hat Hby len n m1. cbv zeta in Hn. fold len in Hn.
  assert (0 ≤ va mod PGSIZE) as Hoff by (unfold PGSIZE; zmod).
  destruct (um_range _ _ _ Hu _ _ HF) as (_ & Hq & Hqm & _).
  assert (mapped m (q + va mod PGSIZE) n) as Hm by (intros x Hx; apply Hqm; lia).
  assert (dom m1 = dom m) as Hd by (by apply write_bytes_dom).
  split.
  - cbn [copy_to_va_loop].
    destruct (Z.ltb_spec 0 len) as [_|]; [|unfold len in *; rewrite !length_app in *; lia].
    destruct (lookup_page m a root T F va q Hpt Hu Hva HF) as (pa0 & Epa & Hpa0 & Eaddr).
    rewrite (bind_ok _ _ _ _ _ Epa). destruct (Z.eqb_spec pa0 0) as [|_]; [done|].
    rewrite Eaddr. replace (PGSIZE - (va - PGROUNDDOWN va)) with (PGSIZE - va mod PGSIZE)
      by (rewrite PGROUNDDOWN_mod; lia).
    rewrite Hn. fold n. pose proof (memmove_ok c (q + va mod PGSIZE) src n m eq_refl Hat Hby Hm) as E.
    rewrite (bind_ok _ _ _ _ _ (in_mem_ok _ _ _ _ _ E)). by rewrite page_step by lia.
  - destruct (user_write m m1 root T F (va / PGSIZE) q (q + va mod PGSIZE) n) as (? & ? & ?);
      try done; [apply write_bytes_only|lia|lia].
Qed.

Lemma copy_zero fuel root va src s :
  copy_to_va_loop fuel root va src 0 s = Ok (0, s : mem * A).
Proof. by destruct fuel. Qed.

(** The copied chunk and the bytes copied after it. *)
Lemma ubytes_chunk m m1 m' T F va (c r : list Z) q : umap m T F → 0 ≤ va →
  F !! (va / PGSIZE) = Some q → va mod PGSIZE + Z.of_nat (length c) ≤ PGSIZE →
  m1 = write_bytes (q + va mod PGSIZE) c m → ubytes m' F (va + Z.of_nat (length c)) r →
  (∀ x, (∀ i p, 0 ≤ i < Z.of_nat (length r) →
     F !! ((va + Z.of_nat (length c) + i) / PGSIZE) = Some p →
     x ≠ p + (va + Z.of_nat (length c) + i) mod PGSIZE) → m' !! x = m1 !! x) →
  ubytes m' F va (c ++ r) ∧
  (∀ x, (∀ i p, 0 ≤ i < Z.of_nat (length (c ++ r)) → F !! ((va + i) / PGSIZE) = Some p →
     x ≠ p + (va + i) mod PGSIZE) → m' !! x = m !! x).
Proof.
  intros Hu Hva HF Hfit -> Hr Ho.
  assert (∀ i, 0 ≤ i < Z.of_nat (length c) → (va + i) / PGSIZE = va / PGSIZE ∧
            (va + i) mod PGSIZE = va mod PGSIZE + i) as Hpg by (intros i Hi; unfold PGSIZE in *; zmod).
  split.
  - intros i b [Hi|[Hi Hib]]%lookup_app_Some.
    + pose proof (lookup_lt_Some _ _ _ Hi) as Hlt. destruct (Hpg (Z.of_nat i)) as [E1 E2]; [lia|].
      exists q. rewrite E1, E2. split; [done|]. rewrite Z.add_assoc, Ho; [by apply write_bytes_lookup|].
      intros j p Hj Hp E. rewrite <- Z.add_assoc, <- E2 in E.
      eapply (user_addr_inj m T F (va + Z.of_nat i)) in E; [lia|done|by rewrite E1|done].
    + destruct (Hr _ _ Hib) as (p & Hp & Hb). exists p.
      replace (va + Z.of_nat i) with (va + Z.of_nat (length c) + Z.of_nat (i - length c)) by lia. done.
  - intros x Hx. rewrite length_app in Hx. rewrite Ho, write_bytes_only; [done| |].
    + intros Hin. destruct (Hpg (x - (q + va mod PGSIZE))) as [E1 E2]; [lia|].
      apply (Hx (x - (q + va mod PGSIZE)) q); [lia|by rewrite E1|rewrite E2; lia].
    + intros i p Hi Hp. specialize (Hx (Z.of_nat (length c) + i) p).
      rewrite Z.add_assoc in Hx. apply Hx; [lia|done].
Qed.

Lemma copy_to_va_loop_ok root T F fuel : ∀ m a va src l1 l2, pt m root T → umap m T F → 0 ≤ va →
  va + Z.of_nat (length (l1 ++ l2)) ≤ MAXVA → mem_at m src (l1 ++ l2) → bytes (l1 ++ l2) →
  mapped_part m T F va l1 l2 →
  (∀ i, 0 ≤ i < Z.of_nat (length (l1 ++ l2)) → not_user F (src + i)) →
  Z.of_nat (length (l1 ++ l2)) ≤ Z.max 0 (Z.of_nat fuel * PGSIZE - va mod PGSIZE) →
  ∃ m', copy_to_va_loop fuel root va src (Z.of_nat (length (l1 ++ l2))) (m, a) =
      Ok (if decide (l2 = []) then 0 else -1, (m', a)) ∧
    pt m' root T ∧ umap m' T F ∧ ubytes m' F va l1 ∧ dom m' = dom m ∧
    (∀ x, (∀ i q, 0 ≤ i < Z.of_nat (length l1) → F !! ((va + i) / PGSIZE) = Some q →
       x ≠ q + (va + i) mod PGSIZE) → m' !! x = m !! x).
Proof.
  induction fuel as [|fuel IH]; intros m a va src l1 l2 Hpt Hu Hva Hhi Hat Hby Hpart Hsrc Hfuel;
    (destruct (decide (l1 = [])) as [->|Hne];
     [destruct (decide (l2 = [])) as [->|Hne2]|]).
  1,4: exists m; cbn [app length Z.of_nat]; rewrite copy_zero; split_and!; [done..| |done|done];
       intros i b Hi; by rewrite lookup_nil in Hi.
  1: destruct l2; [done|simpl in Hfuel; unfold PGSIZE in Hfuel; zmod].
  1: destruct l1; [done|simpl in Hfuel; unfold PGSIZE in Hfuel; zmod].
  - destruct Hpart as [_ [->|Hun]]; [done|]. simpl in Hun. rewrite Z.add_0_r in Hun. simpl app in *.
    assert (0 < Z.of_nat (length l2)) by (destruct l2; simpl in *; [done|lia]).
    exists m. split_and!; [|done..| |done|done].
    + cbn [copy_to_va_loop]. destruct (Z.ltb_spec 0 (Z.of_nat (length l2))); [|lia].
      by rewrite (bind_ok _ _ _ _ _ (lookup_unmapped m a root T va Hpt ltac:(lia) Hun)).
    + intros i b Hi. by rewrite lookup_nil in Hi.
  - destruct (first_chunk m T F va l1 l2 Hu Hva Hne Hpart) as (c & r & q & Hck).
    pose proof Hck as [-> Hpos HF Hfit Hnext _ Hrest].
    rewrite <- app_assoc in Hat, Hby, Hhi, Hsrc, Hfuel. apply mem_at_app in Hat as [Hatc Hat].
    apply Forall_app in Hby as [Hbc Hby]. rewrite length_app in Hhi, Hsrc, Hfuel.
    destruct (copy_to_step m a root T F fuel va src (c ++ r) l2 c r q) as (E & Hpt1 & Hu1 & Hlf & Hd1);
      [done|done|lia|done..|]. rewrite E. rewrite <- app_assoc, length_app, Nat2Z.inj_add, Z.add_simpl_l.
    set (m1 := write_bytes _ _ _) in *. set (n := Z.of_nat (length c)) in *.
    assert (∃ m', copy_to_va_loop fuel root (va + (PGSIZE - va mod PGSIZE)) (src + n)
        (Z.of_nat (length (r ++ l2))) (m1, a) = Ok (if decide (l2 = []) then 0 else -1, (m', a)) ∧
      pt m' root T ∧ umap m' T F ∧ ubytes m' F (va + n) r ∧ dom m' = dom m1 ∧
      (∀ x, (∀ i q, 0 ≤ i < Z.of_nat (length r) → F !! ((va + n + i) / PGSIZE) = Some q →
         x ≠ q + (va + n + i) mod PGSIZE) → m' !! x = m1 !! x))
      as (m' & E' & ? & ? & Hub & ? & Ho).
    { destruct Hnext as [Hnil|Hnext].
      - rewrite Hnil. apply app_nil in Hnil as [-> ->]. exists m1. rewrite copy_zero.
        split_and!; done.
      - rewrite Hnext. apply IH; try done; [lia|lia| | | |].
        + intros i x Hi. unfold m1. rewrite write_bytes_only; [by apply Hat|]. intros Hx.
          pose proof (lookup_lt_Some _ _ _ Hi). apply (Hsrc (n + Z.of_nat i) ltac:(lia) _ _ HF).
          unfold in_page. assert (0 ≤ va mod PGSIZE) by (unfold PGSIZE; zmod). lia.
        + by eapply mapped_part_frame.
        + intros i Hi. rewrite <- Z.add_assoc. apply Hsrc. lia.
        + unfold PGSIZE in *. zmod. }
    exists m'. destruct (ubytes_chunk m m1 m' T F va c r q) as [Hub' Ho']; try done.
    split_and!; [done..|congruence|done].
Qed.

(** A kernel buffer: outside the tables and the pages of the process. *)
Definition kbuffer m T F (a n : Z) : Prop :=
  mapped m a n ∧ ∀ x, a ≤ x < a + n → not_user F x ∧ ∀ p, tree_page T p → ¬ in_page p x.

Lemma kbuffer_write m m' root T F b n : pt m root T → umap m T F → kbuffer m T F b n →
  only b n m m' → dom m' = dom m →
  pt m' root T ∧ umap m' T F ∧ (∀ va v, leaf m T va v → leaf m' T va v) ∧
  (∀ va l, ubytes m F va l → ubytes m' F va l).
Proof.
  intros Hpt Hu [_ Hb] Ho Hd.
  assert (∀ p x, tree_page T p → in_page p x → m' !! x = m !! x) as Hs.
  { intros p x Hp Hx. apply Ho. intros Hx'. by eapply Hb. }
  assert (∀ va v, leaf m T va v → leaf m' T va v) as Hl.
  { intros va v Hv. eapply leaf_frame; [done..|]. intros key p x Hp _ Hx. apply (Hs p); [by exists key|done]. }
  split_and!; [by eapply pt_frame| |done|].
  - destruct Hu as [U1 U2 U3]. constructor; [|..].
    + intros n' q' Hn'. destruct (U1 n' q' Hn') as (? & ? & ? & ?). split_and!; [lia|lia|done| |done].
      by eapply mapped_dom.
    + intros n' q' Hn'. destruct (U2 n' q' Hn') as (e & ? & ? & ?). eauto.
    + done.
  - intros va l Hub i x Hi. destruct (Hub i x Hi) as (q & Hq & Hx). exists q. split; [done|].
    rewrite Ho; [done|]. intros Hin. destruct (Hb _ Hin) as [Hn _]. apply (Hn _ _ Hq).
    unfold in_page, PGSIZE. zmod.
Qed.

Lemma ubytes_app m F va c r : ubytes m F va (c ++ r) →
  ubytes m F va c ∧ ubytes m F (va + Z.of_nat (length c)) r.
Proof.
  intros H'. split; intros i b Hi.
  - apply H'. by apply lookup_app_l_Some.
  - specialize (H' (length c + i)%nat b). rewrite Nat2Z.inj_add, Z.add_assoc in H'.
    apply H'. rewrite lookup_app_r by lia. by replace (length c + i - length c)%nat with i by lia.
Qed.

Lemma ubytes_mem m F va c q : 0 ≤ va → F !! (va / PGSIZE) = Some q →
  va mod PGSIZE + Z.of_nat (length c) ≤ PGSIZE → ubytes m F va c → mem_at m (q + va mod PGSIZE) c.
Proof.
  intros Hva HF Hfit Hub i b Hi. destruct (Hub i b Hi) as (p & Hp & Hb).
  apply lookup_lt_Some in Hi.
  assert ((va + Z.of_nat i) / PGSIZE = va / PGSIZE) as E1 by (unfold PGSIZE in *; zmod).
  assert ((va + Z.of_nat i) mod PGSIZE = va mod PGSIZE + Z.of_nat i) as E2 by (unfold PGSIZE in *; zmod).
  rewrite E1 in Hp. rewrite E2 in Hb. rewrite <- Hb. f_equal. assert (p = q) by congruence. lia.
Qed.

(** One iteration of [copy_from_va]. *)
Lemma copy_from_step m a root T F fuel va dst l1 l2 c r q : pt m root T → umap m T F →
  0 ≤ va < MAXVA → chunk m T F va l1 l2 c r q → ubytes m F va c → bytes c →
  mapped m dst (Z.of_nat (length c)) →
  let len := Z.of_nat (length (l1 ++ l2)) in let n := Z.of_nat (length c) in
  copy_from_va_loop (S fuel) root dst va len (m, a) =
    copy_from_va_loop fuel root (dst + n) (va + (PGSIZE - va mod PGSIZE)) (len - n)
      (write_bytes dst c m, a).
Proof.
  intros Hpt Hu Hva [-> Hpos HF Hfit _ Hn _] Hub Hby Hm len n. cbv zeta in Hn. fold len in Hn.
  cbn [copy_from_va_loop].
  destruct (Z.ltb_spec 0 len) as [_|]; [|unfold len in *; rewrite !length_app in *; lia].
  destruct (lookup_page m a root T F va q Hpt Hu Hva HF) as (pa0 & Epa & Hpa0 & Eaddr).
  rewrite (bind_ok _ _ _ _ _ Epa). destruct (Z.eqb_spec pa0 0) as [|_]; [done|].
  rewrite Eaddr. replace (PGSIZE - (va - PGROUNDDOWN va)) with (PGSIZE - va mod PGSIZE)
    by (rewrite PGROUNDDOWN_mod; lia).
  rewrite Hn. fold n.
  pose proof (memmove_ok c dst _ n m eq_refl (ubytes_mem m F va c q ltac:(lia) HF Hfit Hub) Hby Hm) as E.
  rewrite (bind_ok _ _ _ _ _ (in_mem_ok _ _ _ _ _ E)). by rewrite page_step by lia.
Qed.

Lemma copy_from_zero fuel root va dst s :
  copy_from_va_loop fuel root dst va 0 s = Ok (0, s : mem * A).
Proof. by destruct fuel. Qed.

Lemma kbuffer_app m T F b n k : 0 ≤ n → 0 ≤ k → kbuffer m T F b (n + k) →
  kbuffer m T F b n ∧ kbuffer m T F (b + n) k.
Proof.
  intros Hn Hk [Hm Hb]. split; (split; [intros x Hx; apply Hm; lia|intros x Hx; apply Hb; lia]).
Qed.

Lemma copy_from_va_loop_ok root T F fuel : ∀ m a va dst l1 l2, pt m root T → umap m T F → 0 ≤ va →
  va + Z.of_nat (length (l1 ++ l2)) ≤ MAXVA → ubytes m F va l1 → bytes l1 →
  mapped_part m T F va l1 l2 → kbuffer m T F dst (Z.of_nat (length l1)) →
  Z.of_nat (length (l1 ++ l2)) ≤ Z.max 0 (Z.of_nat fuel * PGSIZE - va mod PGSIZE) →
  copy_from_va_loop fuel root dst va (Z.of_nat (length (l1 ++ l2))) (m, a) =
    Ok (if decide (l2 = []) then 0 else -1, (write_bytes dst l1 m, a)).
Proof.
  induction fuel as [|fuel IH]; intros m a va dst l1 l2 Hpt Hu Hva Hhi Hub Hby Hpart Hdst Hfuel;
    (destruct (decide (l1 = [])) as [->|Hne];
     [destruct (decide (l2 = [])) as [->|Hne2]|]).
  1,4: cbn [app length Z.of_nat]; by rewrite copy_from_zero.
  1: destruct l2; [done|simpl in Hfuel; unfold PGSIZE in Hfuel; zmod].
  1: destruct l1; [done|simpl in Hfuel; unfold PGSIZE in Hfuel; zmod].
  - destruct Hpart as [_ [->|Hun]]; [done|]. simpl in Hun. rewrite Z.add_0_r in Hun. simpl app in *.
    assert (0 < Z.of_nat (length l2)) by (destruct l2; simpl in *; [done|lia]).
    cbn [copy_from_va_loop]. destruct (Z.ltb_spec 0 (Z.of_nat (length l2))); [|lia].
    by rewrite (bind_ok _ _ _ _ _ (lookup_unmapped m a root T va Hpt ltac:(lia) Hun)).
  - destruct (first_chunk m T F va l1 l2 Hu Hva Hne Hpart) as (c & r & q & Hck).
    pose proof Hck as [-> Hpos HF Hfit Hnext _ Hrest].
    apply ubytes_app in Hub as [Hubc Hubr]. apply Forall_app in Hby as [Hbc Hbr].
    rewrite length_app, Nat2Z.inj_add in Hdst. apply kbuffer_app in Hdst as [Hdc Hdr]; [|lia..].
    rewrite <- app_assoc in Hhi, Hfuel. rewrite length_app in Hhi, Hfuel.
    rewrite (copy_from_step m a root T F fuel va dst (c ++ r) l2 c r q);
      [|done|done|lia|done|done|done|apply Hdc].
    rewrite <- app_assoc, length_app, Nat2Z.inj_add, Z.add_simpl_l, write_bytes_app.
    set (m1 := write_bytes dst c m). set (n := Z.of_nat (length c)) in *.
    destruct (kbuffer_write m m1 root T F dst n) as (Hpt1 & Hu1 & Hlf1 & Hub1); [done|done|done| | |].
    { apply write_bytes_only. }
    { apply write_bytes_dom, Hdc. }
    assert (dom m1 = dom m) as Hd1 by (apply write_bytes_dom, Hdc).
    destruct Hnext as [Hnil|Hnext].
    + rewrite Hnil. apply app_nil in Hnil as [-> ->]. by rewrite copy_from_zero.
    + rewrite Hnext. apply IH; try done; [lia|lia| | | |].
      * by apply Hub1.
      * by eapply mapped_part_frame.
      * destruct Hdr as [Hm Hb]. split; [by eapply mapped_dom|done].
      * unfold PGSIZE in *. zmod.
Qed.
End copy.

(** ** Properties of the copies *)
Section properties.
Context {A : Type} `{PageAllocator A}.
Implicit Types (m : mem) (a : A) (T : gmap (list Z) Z) (F : gmap Z Z).

Lemma copy_fuel_enough len va : 0 ≤ len →
  len ≤ Z.max 0 (Z.of_nat (copy_fuel len) * PGSIZE - va mod PGSIZE).
Proof. intros. unfold copy_fuel, PGSIZE. zmod. Qed.

(** C15: [copy_to_va].  The bytes [l1] go to mapped pages and the rest [l2], if any, would go to
    an unmapped one: the call writes exactly [l1] at [dstva] as the process sees it, across
    page boundaries, changes no other byte of memory and no translation, and returns 0, or -1
    when [l2] is not empty.  The page loop ends by itself. *)
Theorem copy_to_va_correct m a root T F dstva src l1 l2 : pt m root T → umap m T F →
  0 ≤ dstva → dstva + Z.of_nat (length (l1 ++ l2)) ≤ MAXVA → mem_at m src (l1 ++ l2) →
  bytes (l1 ++ l2) → mapped_part m T F dstva l1 l2 →
  (∀ i, 0 ≤ i < Z.of_nat (length (l1 ++ l2)) → not_user F (src + i)) →
  ∃ m', copy_to_va root dstva src (Z.of_nat (length (l1 ++ l2))) (m, a) =
      Ok (if decide (l2 = []) then 0 else -1, (m', a)) ∧
    pt m' root T ∧ umap m' T F ∧ ubytes m' F dstva l1 ∧
    (∀ x, (∀ i q, 0 ≤ i < Z.of_nat (length l1) → F !! ((dstva + i) / PGSIZE) = Some q →
       x ≠ q + (dstva + i) mod PGSIZE) → m' !! x = m !! x).
Proof.
  intros Hpt Hu Hva Hhi Hat Hby Hpart Hsrc. unfold copy_to_va.
  destruct (copy_to_va_loop_ok root T F (copy_fuel (Z.of_nat (length (l1 ++ l2)))) m a dstva src l1 l2)
    as (m' & E & ? & ? & ? & _ & ?); try done; [apply copy_fuel_enough; lia|]. eauto 10.
Qed.

(** C16: [copy_from_va] is the inverse.  It writes the bytes the process sees at [srcva] into
    the kernel buffer, nothing else, and returns 0, or -1 after the mapped part; after a
    successful [copy_to_va] it gives back the bytes that were written. *)
Theorem copy_from_va_correct m a root T F srcva dst l1 l2 : pt m root T → umap m T F →
  0 ≤ srcva → srcva + Z.of_nat (length (l1 ++ l2)) ≤ MAXVA → bytes (l1 ++ l2) →
  mapped_part m T F srcva l1 l2 → kbuffer m T F dst (Z.of_nat (length l1)) →
  (ubytes m F srcva l1 →
     copy_from_va root dst srcva (Z.of_nat (length (l1 ++ l2))) (m, a) =
       Ok (if decide (l2 = []) then 0 else -1, (write_bytes dst l1 m, a))) ∧
  (∀ src, l2 = [] → mem_at m src l1 →
     (∀ i, 0 ≤ i < Z.of_nat (length l1) → not_user F (src + i)) →
     ∃ m', copy_to_va root srcva src (Z.of_nat (length l1)) (m, a) = Ok (0, (m', a)) ∧
       copy_from_va root dst srcva (Z.of_nat (length l1)) (m', a) =
         Ok (0, (write_bytes dst l1 m', a))).
Proof.
  intros Hpt Hu Hva Hhi Hby Hpart Hdst. pose proof Hby as [Hby1 _]%Forall_app. split.
  - intros Hub. apply (copy_from_va_loop_ok root T F); try done. apply copy_fuel_enough. lia.
  - intros src -> Hat Hsrc. rewrite app_nil_r in *.
    destruct (copy_to_va_loop_ok root T F (copy_fuel (Z.of_nat (length l1))) m a srcva src l1 [])
      as (m' & E & Hpt' & Hu' & Hub & Hd & Ho); rewrite ?app_nil_r; try done.
    { apply copy_fuel_enough. lia. }
    rewrite app_nil_r in E. exists m'. split; [exact E|].
    pose proof (copy_from_va_loop_ok root T F (copy_fuel (Z.of_nat (length l1))) m' a srcva dst l1 [])
      as E'. rewrite app_nil_r in E'. apply E'; try done.
    + split; [apply Hpart|by left].
    + destruct Hdst as [Hm Hb]. split; [by eapply mapped_dom|done].
    + apply copy_fuel_enough. lia.
Qed.
End properties.

(** A process with one page, number 4, and a kernel page [r] that holds the bytes "Hi!". *)
Lemma sample_process : ∃ m (a : Z) root T q r, pt m root T ∧ umap m T {[4 := q]} ∧
  kbuffer m T {[4 := q]} r PGSIZE ∧ mem_at m r [72; 105; 33].
Proof.
  destruct sample_table as (m & a & root & T & [|q [|r l]] & Hpt & Ha & Hs & Hl); [done..|].
  destruct (avail_pages _ _ _ Ha) as [[Hq [Hr _]%NoDup_cons]%NoDup_cons Hpg].
  destruct (Hpg q) as [Hqk Hqm]; [set_solver|]. destruct (Hpg r) as [Hrk Hrm]; [set_solver|].
  destruct (page_alloc_ok m a q (r :: l) PGSIZE Ha) as (m1 & a1 & _ & Ha1 & Ho1 & Hd1); [done|].
  destruct (page_alloc_ok m1 a1 r l PGSIZE Ha1) as (m2 & a2 & _ & Ha2 & Ho2 & Hd2); [done|].
  assert (pt m2 root T) as Hpt2.
  { eapply pt_frame; [done|congruence|]. intros p x [k Hk] Hx.
    destruct (pt_page _ _ _ Hpt k p Hk) as (Hpk & _).
    rewrite Ho2, Ho1; [done|..]; eapply kpage_disjoint; try done; intros ->;
      eapply Hs; try (by exists k); set_solver. }
  assert (separate T l) as Hs2 by (intros p Hp; apply Hs; set_solver).
  destruct (leaf_exists m2 root T 0x10000 Hpt2) as [old Hold].
  destruct (map_single_ok m2 a2 root T l 0x10000 q PTE_DEFAULT old)
    as (m3 & a3 & T3 & _ & Hpt3 & _ & _ & _ & Htp & Hd3 & Hlf & _ & _); try done.
  { etrans; [apply missing_le|]. simpl in Hl. lia. }
  assert (∀ p, p = q ∨ p = r → ¬ tree_page T3 p) as Hnt.
  { intros p Hp [Ht|Hin]%Htp; [apply (Hs p); [set_solver|done]|set_solver]. }
  assert (kbuffer m3 T3 {[4 := q]} r PGSIZE) as Hkb.
  { split; [eapply mapped_dom; [|done]; congruence|]. intros x Hx. split.
    - intros n q' [_ <-]%lookup_singleton_Some. eapply (kpage_disjoint r q); try done. set_solver.
    - intros p [k Hk]. eapply (kpage_disjoint r p); [done|by eapply pt_page| |done].
      intros ->. apply (Hnt p); [by right|by exists k]. }
  assert (umap m3 T3 {[4 := q]}) as Hu3.
  { constructor.
    - intros n q' [<- <-]%lookup_singleton_Some. split_and!; try done; [|apply Hnt; by left].
      eapply mapped_dom; [|done]. congruence.
    - intros n q' [<- <-]%lookup_singleton_Some. eexists. split; [exact Hlf|]. split.
      + rewrite PTE2PA_entry by done. by apply PA2VA_PTE2PA.
      + by apply entry_valid.
    - intros n n' q' [<- _]%lookup_singleton_Some [<- _]%lookup_singleton_Some. done. }
  destruct (kbuffer_write m3 (write_bytes r [72; 105; 33] m3) root T3 {[4 := q]} r 3)
    as (Hpt4 & Hu4 & _); try done.
  { split; [eapply mapped_mem_at_part; [apply Hkb|done]|].
    intros x Hx. apply Hkb. unfold PGSIZE. lia. }
  { apply (write_bytes_only r [72; 105; 33]). }
  { apply write_bytes_dom. eapply mapped_mem_at_part; [apply Hkb|done]. }
  exists (write_bytes r [72; 105; 33] m3), a3, root, T3, q, r. split_and!; try done; [|apply write_bytes_at].
  split; [|apply Hkb]. apply write_bytes_mapped; [|apply Hkb].
  eapply mapped_mem_at_part; [apply Hkb|done].
Qed.

Lemma copy_to_va_correct_witness : ∃ m (a : Z) root r m' q,
  copy_to_va root 0x10005 r 3 (m, a) = Ok (0, (m', a)) ∧ ubytes m' {[4 := q]} 0x10005 [72; 105; 33].
Proof.
  destruct sample_process as (m & a & root & T & q & r & Hpt & Hu & Hkb & Hat).
  destruct (copy_to_va_correct m a root T {[4 := q]} 0x10005 r [72; 105; 33] []) as (m' & E & _ & _ & Hub & _).
  - exact Hpt.
  - exact Hu.
  - done.
  - by vm_compute.
  - exact Hat.
  - repeat constructor; done.
  - split; [|by left]. intros i Hi. exists q. apply lookup_singleton_Some. split; [|done].
    simpl in Hi. unfold PGSIZE. zmod.
  - intros i Hi. apply Hkb. simpl in Hi. unfold PGSIZE. lia.
  - exists m, a, root, r, m', q. split; [exact E|exact Hub].
Defined.

Lemma copy_from_va_correct_witness : ∃ m (a : Z) root r m',
  copy_to_va root 0x10005 r 3 (m, a) = Ok (0, (m', a)) ∧
  copy_from_va root (r + 100) 0x10005 3 (m', a) = Ok (0, (write_bytes (r + 100) [72; 105; 33] m', a)).
Proof.
  destruct sample_process as (m & a & root & T & q & r & Hpt & Hu & Hkb & Hat).
  destruct (copy_from_va_correct m a root T {[4 := q]} 0x10005 (r + 100) [72; 105; 33] [])
    as [_ Hrt].
  - exact Hpt.
  - exact Hu.
  - done.
  - by vm_compute.
  - repeat constructor; done.
  - split; [|by left]. intros i Hi. exists q. apply lookup_singleton_Some. split; [|done].
    simpl in Hi. unfold PGSIZE. zmod.
  - destruct Hkb as [Hm Hb]. simpl. unfold PGSIZE in *.
    split; [intros x Hx; apply Hm; lia|intros x Hx; apply Hb; lia].
  - destruct (Hrt r) as (m' & E & E'); [done|exact Hat| |].
    + intros i Hi. apply Hkb. simpl in Hi. unfold PGSIZE. lia.
    + exists m, a, root, r, m'. split; [exact E|exact E'].
Defined.
