(* ===== verification/Malloc.v ===== *)
(** * lolibc/stdlib.c: the kernel heap and small numeric functions

    [malloc] cuts chunks off the current page ([apply_alloc]) and recycles
    freed ones from eleven size classes ([fastbin]) and one list of larger
    chunks ([unsorted_bin]).  A chunk is a 16-byte header (link and size) and
    its data.  The statics of the file are the record [mheap]; the functions
    run on memory, page allocator and that record. *)

From S2P Require Import Prelude Mem CString PageAlloc.

(** ** rand, abs, atoi, min, max *)
Definition rand : M Z Z :=
  next ← gets (λ next, u64 (next * 1103515245 + 12345));
  put next;;
  mret (u32 (next / 65536) mod 32768).
Definition srand (seed : Z) : M Z unit := put (u32 seed).

Definition abs (x : Z) : Z := if x <? 0 then s32 (- x) else x.
Definition min (a b : Z) : Z := if a <? b then a else b.
Definition max (a b : Z) : Z := if b <? a then a else b.

Fixpoint atoi_digits (fuel : nat) (nptr x : Z) : M mem Z :=
  match fuel with
  | O => fail Fuel
  | S fuel =>
      c ← load8 nptr;
      if (48 <=? s8 c) && (s8 c <=? 57) then atoi_digits fuel (nptr + 1) (s32 (x * 10 + s8 c - 48))
      else mret x
  end.

Fixpoint atoi_blanks (fuel : nat) (nptr : Z) : M mem Z :=
  match fuel with
  | O => fail Fuel
  | S fuel => c ← load8 nptr; if c =? 32 then atoi_blanks fuel (nptr + 1) else mret nptr
  end.

Definition atoi (nptr : Z) : M mem Z :=
  fuel ← gets fuel_of; p ← atoi_blanks fuel nptr; atoi_digits fuel p 0.

(** ** The heap *)
Record mheap := { fastbin : list Z; unsorted_bin : Z; p_start : Z; p_end : Z }.

Definition mheap_init : mheap :=
  {| fastbin := replicate 11 0; unsorted_bin := 0; p_start := 0; p_end := 0 |}.

Definition set_fastbin (i : nat) (c : Z) (s : mheap) : mheap :=
  {| fastbin := <[i := c]> (fastbin s); unsorted_bin := unsorted_bin s;
     p_start := p_start s; p_end := p_end s |}.
Definition set_unsorted (c : Z) (s : mheap) : mheap :=
  {| fastbin := fastbin s; unsorted_bin := c; p_start := p_start s; p_end := p_end s |}.
Definition set_page (st en : Z) (s : mheap) : mheap :=
  {| fastbin := fastbin s; unsorted_bin := unsorted_bin s; p_start := st; p_end := en |}.

Definition chunk_info_size := 16.
(** [&chunk->next] and [&chunk->size] *)
Definition chunk_next (c : Z) : Z := c.
Definition chunk_size (c : Z) : Z := c + 8.
Definition chunk_data (c : Z) : Z := c + 16.

Section program.
Context {A : Type} `{PageAllocator A}.
Abbreviation HM := (M (mem * A * mheap)).

Definition on_pages {B} (c : M (mem * A) B) : HM B := zoom fst (λ t s, (t, s.2)) c.
Definition on_memory {B} (c : M mem B) : HM B := on_pages (in_mem c).
Definition heap : HM mheap := gets snd.
Definition set_heap (f : mheap → mheap) : HM unit := modify (λ s, (s.1, f s.2)).

Definition apply_alloc (size : Z) : HM Z :=
  if PG_SIZE <? size then panic
  else
    h ← heap;
    (if p_end h <=? p_start h + size
     then p ← on_pages (page_alloc PG_SIZE); set_heap (set_page p (p + PG_SIZE))
     else mret tt);;
    h ← heap;
    let victim := p_start h in
    set_heap (set_page (p_start h + size) (p_end h));;
    mret victim.

(** [chunk->size >= size && chunk->size < size + 128] *)
Definition chunk_fits (c size : Z) : HM bool :=
  s ← on_memory (load64 (chunk_size c));
  if size <=? s then s ← on_memory (load64 (chunk_size c)); mret (s <? u64 (size + 128))
  else mret false.

(** The search of the unsorted bin: at most 100 chunks; on a hit the bin loses its first
    element. *)
Fixpoint unsorted_search (n : nat) (chunk size : Z) : HM Z :=
  match n with
  | O => mret chunk
  | S n =>
      if chunk =? 0 then mret chunk
      else
        b ← chunk_fits chunk size;
        if b : bool then
          h ← heap;
          nx ← on_memory (load64 (chunk_next (unsorted_bin h)));
          set_heap (set_unsorted nx);;
          mret chunk
        else
          nx ← on_memory (load64 (chunk_next chunk));
          unsorted_search n nx size
  end.

Definition malloc_large (size : Z) : HM Z :=
  h ← heap;
  chunk ← unsorted_search 100 (unsorted_bin h) size;
  b ← (if chunk =? 0 then mret false else chunk_fits chunk size);
  if b : bool then mret chunk else apply_alloc (u64 (size + chunk_info_size)).

Definition malloc_small (size : Z) : HM Z :=
  let index := Z.to_nat (size / 0xF) in
  h ← heap;
  let chunk := fastbin h !!! index in
  if negb (chunk =? 0)
  then nx ← on_memory (load64 (chunk_next chunk));
       set_heap (set_fastbin index nx);;
       mret chunk
  else let fix_size := Z.land (size + 0xF) (Z.lnot 0xF) in
       apply_alloc (fix_size + chunk_info_size).

Definition malloc (size : Z) : HM Z :=
  chunk ← (if 0xa0 <=? size then malloc_large size else malloc_small size);
  if chunk =? 0 then mret 0
  else on_memory (store64 (chunk_size chunk) size);; mret (chunk_data chunk).

Definition free (ptr : Z) : HM unit :=
  let chunk := u64 (ptr - chunk_info_size) in
  size ← on_memory (load64 (chunk_size chunk));
  if 0xa0 <=? size
  then h ← heap;
       on_memory (store64 (chunk_next chunk) (unsorted_bin h));;
       set_heap (set_unsorted chunk)
  else size ← on_memory (load64 (chunk_size chunk));
       let index := Z.to_nat (size / 0xF) in
       h ← heap;
       on_memory (store64 (chunk_next chunk) (fastbin h !!! index));;
       set_heap (set_fastbin index chunk).

Definition calloc (nitems size : Z) : HM Z :=
  victim ← malloc (u64 (nitems * size));
  (if negb (victim =? 0) then on_memory (memset victim 0 (u64 (nitems * size)));; mret tt
   else mret tt);;
  mret victim.
End program.

(** ** The heap invariant *)

(** A set of request sizes that the size classes keep apart: a chunk made for one of them is
    large enough for every other one of the same class. *)
Definition align16 (s : Z) : Z := Z.land (s + 0xF) (Z.lnot 0xF).

Class GoodSizes (good : Z → Prop) := {
  good_range : ∀ s, good s → 0 ≤ s < 0xa0;
  good_class : ∀ s s', good s → good s' → s / 15 = s' / 15 → s ≤ align16 s'
}.

Section invariant.
Context {A : Type} `{PageAllocator A} (good : Z → Prop) `{!GoodSizes good}.
Implicit Types (m : mem) (a : A) (C : gmap Z Z) (L : gset Z).

(** A chain of free chunks. *)
Fixpoint bin_list m (h : Z) (b : list Z) : Prop :=
  match b with
  | [] => h = 0
  | c :: b => h = c ∧ ∃ n, word64_at m (chunk_next c) n ∧ bin_list m n b
  end.

(** A chunk of capacity [cap] serves every request of class [i]. *)
Definition serves (cap : Z) (i : nat) : Prop := ∀ s, good s → s / 15 = Z.of_nat i → s ≤ cap.

(** A small request that every chunk of its class serves: a good size, or one the code never
    frees. *)
Definition fits (size : Z) : Prop :=
  0 ≤ size < 0xa0 ∧ ∀ cap, serves cap (Z.to_nat (size / 15)) → size ≤ cap.

Definition chunk_end (c cap : Z) : Z := c + 16 + cap.

(** [C]: every chunk with its capacity; [L]: the chunks in use; [B]: the free ones by class. *)
Record chunks m (fb : list Z) C L (B : list (list Z)) : Prop := {
  ch_cap : ∀ c cap, C !! c = Some cap →
    0 ≤ cap ∧ 0 < c ∧ chunk_end c cap < 2 ^ 64 ∧ mapped m c (16 + cap);
  ch_disj : ∀ c c' cap cap', C !! c = Some cap → C !! c' = Some cap' → c ≠ c' →
    chunk_end c cap ≤ c' ∨ chunk_end c' cap' ≤ c;
  ch_live : ∀ c, c ∈ L → ∃ cap s, C !! c = Some cap ∧ word64_at m (chunk_size c) s ∧ good s ∧
    s ≤ cap ∧ serves cap (Z.to_nat (s / 15));
  ch_len : length fb = 11%nat ∧ length B = 11%nat;
  ch_bins : ∀ i h b, fb !! i = Some h → B !! i = Some b → bin_list m h b;
  ch_free : ∀ i b c, B !! i = Some b → c ∈ b → c ∉ L ∧ ∃ cap, C !! c = Some cap ∧ serves cap i;
  ch_nodup : NoDup (concat B)
}.

(** The rest of the current page and the pages [l] left, apart from every chunk. *)
Record space m a (st : mheap) C (l : list Z) : Prop := {
  sp_rest : 0 ≤ p_start st ≤ p_end st ∧ p_end st < 2 ^ 64 ∧
    (p_start st < p_end st → 0 < p_start st) ∧ mapped m (p_start st) (p_end st - p_start st);
  sp_rest_disj : ∀ c cap, C !! c = Some cap → chunk_end c cap ≤ p_start st ∨ p_end st ≤ c;
  sp_avail : avail m a l;
  sp_avail_disj : ∀ p, p ∈ l →
    (∀ c cap, C !! c = Some cap → chunk_end c cap ≤ p ∨ p + PGSIZE ≤ c) ∧
    (p_end st ≤ p ∨ p + PGSIZE ≤ p_start st)
}.

Lemma align16_eq s : align16 s = (s + 15) - (s + 15) mod 16.
Proof. unfold align16. replace (Z.lnot 0xF) with (- 2 ^ 4) by done. by rewrite land_high. Qed.

Lemma align16_bound s : 0 ≤ s < 0xa0 → s ≤ align16 s < s + 16 ∧ align16 s ≤ 160.
Proof. intros. rewrite align16_eq. zmod. Qed.

Lemma bin_list_frame m m' h b : bin_list m h b →
  (∀ c, c ∈ b → ∀ x, c ≤ x < c + 8 → m' !! x = m !! x) → bin_list m' h b.
Proof.
  revert h. induction b as [|c b IH]; intros h; simpl; [done|].
  intros (-> & n & Hn & Hb) Hs. split; [done|]. exists n. split.
  - eapply word_at_same; [done|]. apply Hs. by left.
  - apply IH; [done|]. intros c' Hc'. apply Hs. by right.
Qed.

(** Memory may change outside the headers of the chunks: in the data of a live chunk, or where
    the heap has no chunk. *)
Lemma chunks_frame m m' fb C L B : chunks m fb C L B → dom m' = dom m →
  (∀ c cap x, C !! c = Some cap → c ≤ x < c + 16 → m' !! x = m !! x) →
  chunks m' fb C L B.
Proof.
  intros [I1 I2 I7 I8 I9 I10 I11] Hd Hs. constructor; try done.
  - intros c cap Hc. destruct (I1 c cap Hc) as (? & ? & ? & ?). split_and!; [done..|].
    by eapply mapped_dom.
  - intros c Hc. destruct (I7 c Hc) as (cap & s & HC & Hw & Hg & Hsc & Hsv).
    exists cap, s. split_and!; [done| |done..]. eapply word_at_same; [done|].
    intros x Hx. eapply Hs; [done|]. unfold chunk_size in Hx. lia.
  - intros i h b Hh Hb. eapply bin_list_frame; [by eapply I9|]. intros c Hc x Hx.
    destruct (I10 i b c Hb Hc) as (_ & cap & HC & _). eapply Hs; [done|]. lia.
Qed.

Lemma on_memory_ok {B} (c : M mem B) m a (st : mheap) r m' :
  c m = Ok (r, m') → on_memory c (m, a, st) = Ok (r, (m', a, st)).
Proof. intros E. unfold on_memory, on_pages, in_mem, zoom. simpl. by rewrite E. Qed.

(** A region of [n] bytes at [c] that no chunk, no free page and no rest of a page overlaps. *)
Record carved m (st : mheap) C (l : list Z) (c n : Z) : Prop := {
  cv_bound : 0 < c ∧ c + n < 2 ^ 64;
  cv_mapped : mapped m c n;
  cv_chunks : ∀ c' cap', C !! c' = Some cap' → chunk_end c' cap' ≤ c ∨ c + n ≤ c';
  cv_rest : c + n ≤ p_start st ∨ p_end st ≤ c;
  cv_avail : ∀ p, p ∈ l → c + n ≤ p ∨ p + PGSIZE ≤ c
}.

(** The [size] bytes at [c] come from the current page, or from the first free one. *)
Definition cut (st : mheap) (l : list Z) (c size : Z) (st' : mheap) (l' : list Z) : Prop :=
  (c = p_start st ∧ c + size < p_end st ∧ p_start st' = c + size ∧ p_end st' = p_end st ∧ l' = l) ∨
  (l = c :: l' ∧ p_start st' = c + size ∧ p_end st' = c + PGSIZE).

(** Cutting [size] bytes off: from the current page, or from a new one. *)
Lemma apply_alloc_ok m a st C l size : space m a st C l → 0 < size ≤ PG_SIZE →
  (∀ c cap, C !! c = Some cap → 0 ≤ cap) →
  (p_start st + size < p_end st ∨ l ≠ []) →
  ∃ c m' a' st' l', apply_alloc size (m, a, st) = Ok (c, (m', a', st')) ∧
    space m' a' st' C l' ∧ carved m' st' C l' c size ∧ dom m' = dom m ∧
    fastbin st' = fastbin st ∧ unsorted_bin st' = unsorted_bin st ∧ cut st l c size st' l' ∧
    (∀ x, (∀ p, p ∈ l → p ∉ l' → ¬ (p ≤ x < p + PGSIZE)) → m' !! x = m !! x).
Proof.
  intros [(R1 & R2 & R3 & R4) I4 I5 I6] Hsz Hcap Henough.
  unfold apply_alloc. destruct (Z.ltb_spec PG_SIZE size); [lia|].
  rewrite (bind_ok _ _ _ st (m, a, st)) by done.
  destruct (Z.leb_spec (p_end st) (p_start st + size)) as [Hfull|Hroom].
  - destruct l as [|p l']; [destruct Henough; [lia|done]|].
    destruct (avail_pages _ _ _ I5) as [[Hpl _]%NoDup_cons Hpg].
    destruct (Hpg p) as [Hpk Hpm]; [by left|]. pose proof (kpage_bound _ Hpk) as Hpb.
    destruct (page_alloc_ok m a p l' PG_SIZE I5) as (m1 & a1 & E1 & Ha1 & Ho1 & Hd1); [done|].
    set (st1 := set_page p (p + PG_SIZE) st). set (st2 := set_page (p + size) (p + PG_SIZE) st1).
    change PG_SIZE with PGSIZE in *.
    assert (mapped m1 p PGSIZE) as Hm1 by (by eapply mapped_dom).
    assert (∀ c cap, C !! c = Some cap → chunk_end c cap ≤ p ∨ p + PGSIZE ≤ c) as Hpc.
    { intros c cap Hc. eapply (I6 p); [by left|done]. }
    assert (∀ q, q ∈ l' → q + PGSIZE ≤ p ∨ p + PGSIZE ≤ q) as Hpq.
    { intros q Hq. destruct (Hpg q) as [[Hqk _] _]; [by right|].
      apply page_disjoint; [done|apply Hpk|]. by intros ->. }
    exists p, m1, a1, st2, l'. split_and!; [|constructor|constructor|done..| |].
    + rewrite (bind_ok _ _ _ tt (m1, a1, st1)).
      { by rewrite (bind_ok _ _ _ st1 (m1, a1, st1)) by done. }
      assert (on_pages (page_alloc PGSIZE) (m, a, st) = Ok (p, (m1, a1, st))) as E1'.
      { unfold on_pages, zoom. simpl. by rewrite E1. }
      by rewrite (bind_ok _ _ _ _ _ E1').
    + simpl. split_and!; [lia|lia|lia|lia|]. intros x Hx. apply Hm1. lia.
    + intros c cap Hc. simpl. specialize (Hpc c cap Hc). lia.
    + done.
    + intros q Hq. split; [|simpl; specialize (Hpq q Hq); lia].
      intros c cap Hc. eapply (I6 q); [by right|done].
    + lia.
    + eapply mapped_mem_at_part; [done|lia].
    + intros c' cap' Hc. specialize (Hpc c' cap' Hc). lia.
    + simpl. lia.
    + intros q Hq. specialize (Hpq q Hq). lia.
    + right. by simpl.
    + intros x Hx. apply Ho1, Hx; [by left|done].
  - set (st2 := set_page (p_start st + size) (p_end st) st).
    exists (p_start st), m, a, st2, l. split_and!; [|constructor|constructor|done..|by left|done].
    + rewrite (bind_ok _ _ _ tt (m, a, st)) by done. by rewrite (bind_ok _ _ _ st (m, a, st)) by done.
    + simpl. split_and!; [lia|lia|lia|lia|]. intros x Hx. apply R4. lia.
    + intros c cap Hc. simpl. specialize (I4 c cap Hc). lia.
    + done.
    + intros p Hp. split; [by apply I6|]. destruct (I6 p Hp) as [_ ?]. simpl. lia.
    + lia.
    + intros x Hx. apply R4. lia.
    + intros c' cap' Hc. specialize (I4 c' cap' Hc). lia.
    + simpl. lia.
    + intros p Hp. destruct (I6 p Hp) as [_ ?]. lia.
Qed.

Lemma concat_pop (B : list (list Z)) i c b : B !! i = Some (c :: b) →
  concat B ≡ₚ c :: concat (<[i := b]> B).
Proof.
  intros Hi. rewrite insert_take_drop by (by eapply lookup_lt_Some).
  rewrite <- (take_drop_middle _ _ _ Hi) at 1. rewrite !concat_app. simpl.
  by rewrite <- Permutation_middle.
Qed.

Lemma in_concat (B : list (list Z)) c : c ∈ concat B → ∃ i b, B !! i = Some b ∧ c ∈ b.
Proof.
  rewrite list_elem_of_In, in_concat. intros (b & [i Hi]%list_elem_of_In%list_elem_of_lookup & Hc).
  exists i, b. split; [done|]. by apply list_elem_of_In.
Qed.

Lemma concat_in (B : list (list Z)) i b c : B !! i = Some b → c ∈ b → c ∈ concat B.
Proof.
  intros Hi Hc. apply list_elem_of_In, List.in_concat. exists b.
  split; apply list_elem_of_In; [by eapply list_elem_of_lookup_2|done].
Qed.

(** Taking the chunk [c], old or new, into use. *)
Lemma chunks_take m m' fb fb' C L L' B B' c cap size : chunks m fb C L B → dom m' = dom m →
  0 ≤ cap → 0 < c → chunk_end c cap < 2 ^ 64 → mapped m c (16 + cap) →
  (∀ c' cap', C !! c' = Some cap' → c' ≠ c → chunk_end c' cap' ≤ c ∨ chunk_end c cap ≤ c') →
  (∀ c' cap' x, C !! c' = Some cap' → c' ≠ c → c' ≤ x < c' + 16 → m' !! x = m !! x) →
  word64_at m' (chunk_size c) size → size ≤ cap → c ∉ L →
  (∀ x, x ∈ L' → x ∈ L ∨ x = c ∧ good size ∧ serves cap (Z.to_nat (size / 15))) →
  length fb' = 11%nat → length B' = 11%nat →
  (∀ i h b, fb' !! i = Some h → B' !! i = Some b → bin_list m h b) →
  (∀ i b c', B' !! i = Some b → c' ∈ b → ∃ b0, B !! i = Some b0 ∧ c' ∈ b0) →
  c ∉ concat B' → NoDup (concat B') →
  chunks m' fb' (<[c := cap]> C) L' B'.
Proof.
  intros [I1 I2 I7 I8 I9 I10 I11] Hd Hcap Hc Hend Hm Hdis Hs Hw Hsc HcL HL Hfb' HB' Hbins Hsub Hnc Hnd.
  assert (∀ i b c', B' !! i = Some b → c' ∈ b → c' ≠ c) as Hne.
  { intros i b c' Hi Hc' ->. by apply Hnc, (concat_in B' i b). }
  constructor; try done.
  - intros c' cap' [[<- <-]|[? Hc']]%lookup_insert_Some.
    + split_and!; [done..|by eapply mapped_dom].
    + destruct (I1 c' cap' Hc') as (? & ? & ? & ?). split_and!; [done..|by eapply mapped_dom].
  - intros c1 c2 cap1 cap2 [[<- <-]|[? H1]]%lookup_insert_Some [[<- <-]|[? H2]]%lookup_insert_Some Hn.
    + done.
    + destruct (Hdis c2 cap2 H2); auto.
    + destruct (Hdis c1 cap1 H1); auto.
    + by eapply I2.
  - intros c' Hc'. destruct (decide (c' = c)) as [->|Hn].
    + destruct (HL c Hc') as [|(_ & Hg & Hsv)]; [done|]. exists cap, size. by rewrite lookup_insert_eq.
    + destruct (HL c' Hc') as [Hl|[? _]]; [|done]. destruct (I7 c' Hl) as (cap' & s & HC & Hw' & ? & ? & ?).
      exists cap', s. rewrite lookup_insert_ne by auto. split_and!; try done.
      eapply word_at_same; [done|]. intros x Hx. eapply Hs; [done|done|]. unfold chunk_size in Hx. lia.
  - intros i h b Hh Hb. eapply bin_list_frame; [by eapply Hbins|]. intros c' Hc' x Hx.
    destruct (Hsub i b c' Hb Hc') as (b0 & Hb0 & Hc0).
    destruct (I10 i b0 c' Hb0 Hc0) as (_ & cap' & HC & _). eapply Hs; [done|by eapply Hne|lia].
  - intros i b c' Hb Hc'. destruct (Hsub i b c' Hb Hc') as (b0 & Hb0 & Hc0).
    destruct (I10 i b0 c' Hb0 Hc0) as (Hnl & cap' & HC & Hsv'). pose proof (Hne i b c' Hb Hc').
    split; [by intros [|[]]%HL|]. exists cap'. by rewrite lookup_insert_ne by auto.
Qed.

Lemma good_index size : good size → (Z.to_nat (size / 15) < 11)%nat ∧
  Z.of_nat (Z.to_nat (size / 15)) = size / 15.
Proof. intros Hg. pose proof (good_range size Hg). zmod. Qed.

Lemma fits_index size : fits size → (Z.to_nat (size / 15) < 11)%nat ∧
  Z.of_nat (Z.to_nat (size / 15)) = size / 15.
Proof. intros [? _]. zmod. Qed.

Lemma good_fits size : good size → fits size.
Proof.
  intros Hg. split; [by apply good_range|]. intros cap Hs. apply Hs; [done|]. by destruct (good_index size Hg).
Qed.

(** Space is not affected by a header that is written. *)
Lemma space_write m m' a st C l c cap k : space m a st C l → C !! c = Some cap → 0 ≤ cap →
  c ≤ k → k + 8 ≤ c + 16 → only k 8 m m' → dom m' = dom m → space m' a st C l.
Proof.
  intros [(R1 & R2 & R3 & R4) I4 I5 I6] HC Hcap Hk1 Hk2 Ho Hd. constructor; [|done| |done].
  - split_and!; [lia|lia|done|done|]. by eapply mapped_dom.
  - eapply avail_frame; [done|done|]. intros p x Hp Hx. apply Ho.
    destruct (I6 p Hp) as [Hpc _]. specialize (Hpc c cap HC). unfold chunk_end in Hpc. lia.
Qed.

Lemma space_statics m a st st' C l : space m a st C l → p_start st' = p_start st →
  p_end st' = p_end st → space m a st' C l.
Proof. intros [? ? ? ?] E1 E2. constructor; by rewrite ?E1, ?E2. Qed.

Lemma chunk_data_nonzero c : 0 < c → (c =? 0) = false.
Proof. intros. by destruct (Z.eqb_spec c 0); [lia|]. Qed.

(** The last step of [malloc]: the size goes into the header. *)
Lemma malloc_finish size m a st m1 a1 st1 c : size < 0xa0 →
  malloc_small size (m, a, st) = Ok (c, (m1, a1, st1)) → 0 < c →
  mapped m1 (chunk_size c) (Z.of_nat 8) →
  malloc size (m, a, st) =
    Ok (chunk_data c, (write_bytes (chunk_size c) (le_split 8 size) m1, a1, st1)).
Proof.
  intros Hs E Hc Hm. unfold malloc. destruct (Z.leb_spec 0xa0 size); [lia|].
  rewrite (bind_ok _ _ _ _ _ E), chunk_data_nonzero by done.
  by rewrite (bind_ok _ _ _ _ _ (on_memory_ok _ _ a1 st1 _ _ (store_ok 8 _ _ _ Hm))).
Qed.

(** What a successful [malloc] leaves.  The chunk [c] is large enough and was not in use: it is
    a free one, or a new one.  Memory changes in its header and in the page the heap took, if
    any; a chunk of a good size is in use now, and one of another size can never be freed. *)
Definition taken m st C L B (l : list Z) size c m' a' st' cap C' B' l' : Prop :=
  chunks m' (fastbin st') C' L B' ∧ (good size → chunks m' (fastbin st') C' ({[c]} ∪ L) B') ∧
    space m' a' st' C' l' ∧ C' !! c = Some cap ∧ size ≤ cap ∧ c ∉ L ∧ word64_at m' (chunk_size c) size ∧
    dom m' = dom m ∧ c ∉ concat B' ∧ (∀ x, x ∈ concat B' → x ∈ concat B) ∧
    (C' = C ∧ c ∈ concat B ∧ p_start st' = p_start st ∧ p_end st' = p_end st ∧ l' = l ∨
     C !! c = None ∧ C' = <[c := cap]> C ∧ cut st l c (cap + 16) st' l') ∧
    (∀ x, ¬ (c + 8 ≤ x < c + 16) → (∀ p, p ∈ l → p ∉ l' → ¬ (p ≤ x < p + PGSIZE)) → m' !! x = m !! x).

Definition allocated m st C L B (l : list Z) size c m' a' st' : Prop :=
  ∃ cap C' B' l', taken m st C L B l size c m' a' st' cap C' B' l'.

(** Reusing a freed chunk. *)
Lemma malloc_reuse m a st C L B l size c b : chunks m (fastbin st) C L B → space m a st C l →
  fits size → B !! Z.to_nat (size / 15) = Some (c :: b) →
  ∃ m' st' cap, malloc size (m, a, st) = Ok (chunk_data c, (m', a, st')) ∧
    taken m st C L B l size c m' a st' cap C (<[Z.to_nat (size / 15) := b]> B) l.
Proof.
  intros Hch Hsp Hfit Hb. pose proof Hch as [I1 I2 I7 [I8 I8'] I9 I10 I11].
  destruct (fits_index size Hfit) as [Hidx Hidx']. set (i := Z.to_nat (size / 15)) in *.
  destruct (lookup_lt_is_Some_2 (fastbin st) i) as [h Hh]; [lia|].
  destruct (I9 i h _ Hh Hb) as (-> & n & Hn & Hbl).
  destruct (I10 i _ c Hb) as (Hnl & cap & HC & Hsv); [by left|].
  destruct (I1 c cap HC) as (Hcap & Hc & Hend & Hm).
  pose proof (concat_pop B i c b Hb) as Hperm. rewrite Hperm in I11.
  apply NoDup_cons in I11 as [Hcn Hnd].
  assert (mapped m (chunk_size c) (Z.of_nat 8)) as Hm8.
  { intros x Hx. apply Hm. unfold chunk_size in Hx. lia. }
  set (m' := write_bytes (chunk_size c) (le_split 8 size) m).
  assert (dom m' = dom m) as Hd by (apply write_bytes_dom; by rewrite length_le_split).
  assert (only (chunk_size c) 8 m m') as Ho by exact (store_only 8 _ _ _).
  pose proof Hfit as [Hrange Hcapfit].
  assert (malloc_small size (m, a, st) = Ok (c, (m, a, set_fastbin i n st))) as E.
  { unfold malloc_small. change 0xF with 15. fold i. rewrite (bind_ok _ _ _ st (m, a, st)) by done.
    rewrite (list_lookup_total_correct _ _ _ Hh), chunk_data_nonzero by done. cbn [negb].
    by rewrite (bind_ok _ _ _ _ _ (on_memory_ok _ _ a st _ _ (load_ok _ _ _ _ Hn))). }
  assert (word64_at m' (chunk_size c) size) as Hw by (apply store64_at; lia).
  exists m', (set_fastbin i n st), cap. split; [apply (malloc_finish size m a st); [lia|done..]|].
  assert (∀ L', (∀ x, x ∈ L' → x ∈ L ∨ x = c ∧ good size ∧ serves cap i) →
    chunks m' (fastbin (set_fastbin i n st)) (<[c := cap]> C) L' (<[i := b]> B)) as Htake.
  { intros L' HL'. eapply chunks_take; try done; cbn [fastbin set_fastbin].
    - intros c' cap' HC' Hn'. destruct (I2 c' c cap' cap HC' HC Hn'); auto.
    - intros c' cap' x HC' Hn' Hx. apply Ho. pose proof (I2 c' c cap' cap HC' HC Hn').
      specialize (I1 c' cap' HC'). unfold chunk_end, chunk_size in *. lia.
    - by apply Hcapfit.
    - by rewrite length_insert.
    - by rewrite length_insert.
    - intros j h' b' Hj Hbj. destruct (decide (i = j)) as [<-|Hij].
      + rewrite list_lookup_insert_eq in Hj by lia.
        rewrite list_lookup_insert_eq in Hbj by lia. injection Hj as <-. injection Hbj as <-. exact Hbl.
      + rewrite list_lookup_insert_ne in Hj by done.
        rewrite list_lookup_insert_ne in Hbj by done. by eapply I9.
    - intros j b' c' Hbj Hc'. destruct (decide (i = j)) as [<-|Hij].
      + rewrite list_lookup_insert_eq in Hbj by lia. injection Hbj as <-.
        exists (c :: b). split; [done|by right].
      + rewrite list_lookup_insert_ne in Hbj by done. eauto. }
  rewrite insert_id in Htake by done.
  unfold taken. split_and!; [by apply Htake; auto| | |done|by apply Hcapfit|done|done|done|done| | |].
  - intros Hg. apply Htake. set_solver.
  - apply (space_statics m' a st); [|done..].
    apply (space_write m m' a st C l c cap (chunk_size c)); try done; unfold chunk_size; lia.
  - intros x Hx. rewrite Hperm. by right.
  - left. split_and!; [done| |done..]. rewrite Hperm. by left.
  - intros x Hx _. apply Ho. unfold chunk_size. lia.
Qed.

(** Cutting a new chunk. *)
Lemma malloc_fresh m a st C L B l size : chunks m (fastbin st) C L B → space m a st C l →
  fits size → B !! Z.to_nat (size / 15) = Some [] →
  (p_start st + (align16 size + 16) < p_end st ∨ l ≠ []) →
  ∃ c m' a' st', malloc size (m, a, st) = Ok (chunk_data c, (m', a', st')) ∧
    allocated m st C L B l size c m' a' st'.
Proof.
  intros Hch Hsp Hfit Hb Henough. pose proof Hch as [I1 I2 I7 [I8 I8'] I9 I10 I11].
  destruct (fits_index size Hfit) as [Hidx Hidx']. set (i := Z.to_nat (size / 15)) in *.
  destruct (lookup_lt_is_Some_2 (fastbin st) i) as [h Hh]; [lia|].
  pose proof (I9 i h _ Hh Hb) as Hh0. simpl in Hh0. subst h.
  pose proof Hfit as [Hrange _]. pose proof (align16_bound size Hrange) as [Hal Hal'].
  destruct (apply_alloc_ok m a st C l (align16 size + 16) Hsp)
    as (c & m1 & a1 & st1 & l1 & E1 & Hsp1 & [[Hc Hcend] Hcm Hcc Hcr Hca] & Hd1 & Hf1 & _ & Hcut & Ho1);
    [unfold PG_SIZE; lia|intros c cap Hc; apply (I1 c cap Hc)|done|].
  assert (∀ c' cap' x, C !! c' = Some cap' → c' ≤ x < chunk_end c' cap' → m1 !! x = m !! x) as Hs1.
  { intros c' cap' x HC' Hx. apply Ho1. intros p Hp _ Hxp.
    destruct (sp_avail_disj _ _ _ _ _ Hsp p Hp) as [Hpc _]. specialize (Hpc c' cap' HC'). lia. }
  assert (chunks m1 (fastbin st) C L B) as Hch1.
  { eapply chunks_frame; [done|done|]. intros c' cap' x HC' Hx. eapply Hs1; [done|].
    destruct (I1 c' cap' HC'). unfold chunk_end. lia. }
  assert (mapped m1 (chunk_size c) (Z.of_nat 8)) as Hm8.
  { intros x Hx. apply Hcm. unfold chunk_size in Hx. lia. }
  set (m' := write_bytes (chunk_size c) (le_split 8 size) m1).
  assert (dom m' = dom m1) as Hd by (apply write_bytes_dom; by rewrite length_le_split).
  assert (only (chunk_size c) 8 m1 m') as Ho by exact (store_only 8 _ _ _).
  assert (malloc_small size (m, a, st) = Ok (c, (m1, a1, st1))) as E.
  { unfold malloc_small. change (Z.to_nat (size / 0xF)) with i.
    rewrite (bind_ok _ _ _ st (m, a, st)) by done. by rewrite (list_lookup_total_correct _ _ _ Hh). }
  assert (word64_at m' (chunk_size c) size) as Hw by (apply store64_at; lia).
  assert (C !! c = None) as HCn.
  { destruct (C !! c) as [cap'|] eqn:HC'; [|done]. specialize (Hcc c cap' HC').
    destruct (I1 c cap' HC'). unfold chunk_end in Hcc. lia. }
  assert (c ∉ L) as HcL by (intros HL; destruct (I7 c HL) as (cap & s & HC & _); congruence).
  assert (c ∉ concat B) as HcB.
  { intros (j & b & Hj & Hcb)%in_concat. destruct (I10 j b c Hj Hcb) as (_ & cap' & HC' & _). congruence. }
  assert (∀ c' cap' x, C !! c' = Some cap' → c' ≤ x < chunk_end c' cap' → m' !! x = m1 !! x) as Hs.
  { intros c' cap' x HC' Hx. apply Ho. specialize (Hcc c' cap' HC'). unfold chunk_size. lia. }
  exists c, m', a1, st1. split; [apply (malloc_finish size m a st m1); [lia|done..]|].
  assert (∀ L', (∀ x, x ∈ L' → x ∈ L ∨ x = c ∧ good size ∧ serves (align16 size) i) →
    chunks m' (fastbin st1) (<[c := align16 size]> C) L' B) as Htake.
  { intros L' HL'. rewrite Hf1. eapply chunks_take; try done; [lia|unfold chunk_end; lia|..].
    - eapply mapped_mem_at_part; [done|lia].
    - intros c' cap' HC' _. specialize (Hcc c' cap' HC'). unfold chunk_end in *. lia.
    - intros c' cap' x HC' _ Hx. eapply Hs; [done|]. destruct (I1 c' cap' HC').
      unfold chunk_end. lia.
    - lia.
    - apply (ch_bins _ _ _ _ _ Hch1).
    - eauto. }
  exists (align16 size), (<[c := align16 size]> C), B, l1.
  unfold taken. split_and!; [by apply Htake; auto| | |apply lookup_insert_eq|lia|done|done|congruence|done|done|by right|].
  - intros Hg. apply Htake. intros x [->%elem_of_singleton|]%elem_of_union; [right|by left].
    split_and!; [done|done|]. intros s Hs' Hi. apply good_class; [done..|]. rewrite Hi. exact Hidx'.
  - constructor.
    + destruct (sp_rest _ _ _ _ _ Hsp1) as (? & ? & ? & ?). split_and!; [lia|lia|done|done|].
      by eapply mapped_dom.
    + intros c' cap' [[<- <-]|[_ HC']]%lookup_insert_Some; [unfold chunk_end; lia|].
      by apply (sp_rest_disj _ _ _ _ _ Hsp1).
    + eapply avail_frame; [apply (sp_avail _ _ _ _ _ Hsp1)|done|]. intros p x Hp Hx. apply Ho.
      specialize (Hca p Hp). unfold chunk_size. lia.
    + intros p Hp. destruct (sp_avail_disj _ _ _ _ _ Hsp1 p Hp) as [Hpc Hpr]. split; [|done].
      intros c' cap' [[<- <-]|[_ HC']]%lookup_insert_Some; [|by apply Hpc].
      specialize (Hca p Hp). unfold chunk_end. lia.
  - intros x Hx Hp. rewrite Ho; [by apply Ho1|]. unfold chunk_size. lia.
Qed.

(** Both cases: a request that fits is served from its class or from new space. *)
Lemma malloc_ok m a st C L B l size : chunks m (fastbin st) C L B → space m a st C l → fits size →
  (p_start st + (align16 size + 16) < p_end st ∨ l ≠ []) →
  ∃ c m' a' st', malloc size (m, a, st) = Ok (chunk_data c, (m', a', st')) ∧
    allocated m st C L B l size c m' a' st'.
Proof.
  intros Hch Hsp Hfit Henough. pose proof (ch_len _ _ _ _ _ Hch) as [_ HB].
  destruct (fits_index size Hfit) as [Hidx _].
  destruct (lookup_lt_is_Some_2 B (Z.to_nat (size / 15))) as [[|c b] Hb]; [lia|..].
  - by apply malloc_fresh.
  - destruct (malloc_reuse m a st C L B l size c b) as (m' & st' & cap & ? & ?); [done..|].
    exists c, m', a, st'. split; [done|]. by eexists _, _, _, _.
Qed.

Lemma free_ok m a st C L B l c : chunks m (fastbin st) C L B → space m a st C l → c ∈ L →
  ∃ m' st' B' i, free (chunk_data c) (m, a, st) = Ok (tt, (m', a, st')) ∧
    chunks m' (fastbin st') C (L ∖ {[c]}) B' ∧ space m' a st' C l ∧ dom m' = dom m ∧
    only c 8 m m' ∧ word64_at m (chunk_size c) i ∧ (∀ x, x ∈ concat B' → x = c ∨ x ∈ concat B) ∧
    p_start st' = p_start st ∧ p_end st' = p_end st ∧
    (∃ b, B' !! Z.to_nat (i / 15) = Some (c :: b) ∧ B !! Z.to_nat (i / 15) = Some b ∧
      B' = <[Z.to_nat (i / 15) := c :: b]> B).
Proof.
  intros Hch Hsp HL. pose proof Hch as [I1 I2 I7 [I8 I8'] I9 I10 I11].
  destruct (I7 c HL) as (cap & s & HC & Hw & Hg & Hsc & Hsv).
  destruct (good_index s Hg) as [Hidx Hidx']. pose proof (good_range s Hg) as Hrange.
  set (i := Z.to_nat (s / 15)) in *. destruct (I1 c cap HC) as (Hcap & Hc & Hend & Hm).
  destruct (lookup_lt_is_Some_2 (fastbin st) i) as [h Hh]; [lia|].
  destruct (lookup_lt_is_Some_2 B i) as [b Hb]; [lia|].
  assert (mapped m (chunk_next c) (Z.of_nat 8)) as Hm8.
  { intros x Hx. apply Hm. unfold chunk_next in Hx. lia. }
  set (m' := write_bytes (chunk_next c) (le_split 8 h) m).
  assert (dom m' = dom m) as Hd by (apply write_bytes_dom; by rewrite length_le_split).
  assert (only c 8 m m') as Ho by exact (store_only 8 _ _ _).
  assert (0 ≤ h < 2 ^ 64) as Hhb.
  { pose proof (I9 i h b Hh Hb) as Hbl. destruct b as [|c' b]; simpl in Hbl; [lia|].
    destruct Hbl as [-> _]. destruct (I10 i _ c' Hb) as (_ & cap' & HC' & _); [by left|].
    destruct (I1 c' cap' HC') as (? & ? & ? & _). unfold chunk_end in *. lia. }
  assert (c ∉ concat B) as Hnc.
  { intros (j & b' & Hj & Hcb)%in_concat. by destruct (I10 j b' c Hj Hcb). }
  assert (∀ c' cap' x, C !! c' = Some cap' → c' ≠ c → c' ≤ x < c' + 16 → m' !! x = m !! x) as Hs.
  { intros c' cap' x HC' Hn Hx. apply Ho. pose proof (I2 c' c cap' cap HC' HC Hn).
    destruct (I1 c' cap' HC'). unfold chunk_end in *. lia. }
  exists m', (set_fastbin i c st), (<[i := c :: b]> B), s.
  assert (concat (<[i := c :: b]> B) ≡ₚ c :: concat B) as Hperm.
  { pose proof (concat_pop (<[i := c :: b]> B) i c b) as Hp.
    rewrite list_lookup_insert_eq in Hp by lia. rewrite (Hp eq_refl).
    by rewrite list_insert_insert_eq, list_insert_id by done. }
  split_and!; [| | |done|done|done| |done|done|].
  - unfold free. unfold chunk_data, chunk_info_size.
    rewrite wrap_id by (unfold chunk_end in *; lia). replace (c + 16 - 16) with c by lia.
    rewrite (bind_ok _ _ _ _ _ (on_memory_ok _ _ a st _ _ (load_ok _ _ _ _ Hw))).
    destruct (Z.leb_spec 0xa0 s); [lia|].
    rewrite (bind_ok _ _ _ _ _ (on_memory_ok _ _ a st _ _ (load_ok _ _ _ _ Hw))).
    rewrite (bind_ok _ _ _ st (m, a, st)) by done. change (Z.to_nat (s / 0xF)) with i.
    rewrite (list_lookup_total_correct _ _ _ Hh).
    by rewrite (bind_ok _ _ _ _ _ (on_memory_ok _ _ a st _ _ (store_ok 8 _ _ _ Hm8))).
  - constructor; cbn [fastbin set_fastbin].
    + intros c' cap' HC'. destruct (I1 c' cap' HC') as (? & ? & ? & ?). split_and!; [done..|].
      by eapply mapped_dom.
    + done.
    + intros c' [HL' Hn]%elem_of_difference. destruct (I7 c' HL') as (cap' & s' & HC' & Hw' & Hr).
      exists cap', s'. split; [done|]. split; [|exact Hr]. eapply word_at_same; [done|].
      intros x Hx. eapply Hs; [done|set_solver|]. unfold chunk_size in Hx. lia.
    + by rewrite !length_insert.
    + assert (∀ j h' b', fastbin st !! j = Some h' → B !! j = Some b' → bin_list m' h' b') as Hold.
      { intros j h' b' Hj Hbj. eapply bin_list_frame; [by eapply I9|]. intros c' Hc' x Hx.
        destruct (I10 j b' c' Hbj Hc') as (Hnl & cap' & HC' & _). eapply Hs; [done| |lia]. by intros ->. }
      intros j h' b' Hj Hbj. destruct (decide (i = j)) as [<-|Hij].
      * rewrite list_lookup_insert_eq in Hj by lia. rewrite list_lookup_insert_eq in Hbj by lia.
        injection Hj as <-. injection Hbj as <-. split; [done|]. exists h. split; [|by eapply Hold].
        by apply store64_at.
      * rewrite list_lookup_insert_ne in Hj by done. rewrite list_lookup_insert_ne in Hbj by done.
        by eapply Hold.
    + intros j b' c' Hbj Hc'. destruct (decide (i = j)) as [<-|Hij].
      * rewrite list_lookup_insert_eq in Hbj by lia. injection Hbj as <-.
        apply elem_of_cons in Hc' as [->|Hc']; [split; [set_solver|by exists cap]|].
        destruct (I10 i b c' Hb Hc') as (? & ?). split; [set_solver|done].
      * rewrite list_lookup_insert_ne in Hbj by done. destruct (I10 j b' c' Hbj Hc').
        split; [set_solver|done].
    + rewrite Hperm. by constructor.
  - apply (space_statics m' a st); [|done..].
    apply (space_write m m' a st C l c cap c); try done; lia.
  - intros x Hx. rewrite Hperm in Hx. by apply elem_of_cons in Hx.
  - exists b. fold i. by rewrite list_lookup_insert_eq by lia.
Qed.
End invariant.

(** ** Properties of the heap *)
Definition good16 (s : Z) : Prop := 0 ≤ s < 0xa0 ∧ s mod 16 = 0.

#[export] Instance good16_sizes : GoodSizes good16.
Proof.
  constructor; unfold good16; [tauto|]. intros s s' H1 H2 H3. rewrite align16_eq. zmod.
Qed.

Section properties.
Context {A : Type} `{PageAllocator A} (good : Z → Prop) `{!GoodSizes good}.
Implicit Types (m : mem) (a : A) (C : gmap Z Z) (L : gset Z).

(** C4: the small-block heap is safe for every set of sizes that its classes keep apart.  A
    request of such a size gives a chunk [c] that was not in use, lies apart from every chunk in
    use and is large enough; the heap is well formed with [c] in use.  [free] writes the link of
    [c] and nothing else, and the heap is well formed again: the chunks in use are those before
    the request, and [c] stands in front of the free chunks of its class, which are all still
    there, as are those of every other class.  The next request of the same size returns [c],
    and leaves the heap well formed. *)
Theorem malloc_free_safe m a st C L B l size : chunks good m (fastbin st) C L B →
  space m a st C l → good size →
  (p_start st + (align16 size + 16) < p_end st ∨ l ≠ []) →
  ∃ c m' a' st' cap C' B' l', malloc size (m, a, st) = Ok (chunk_data c, (m', a', st')) ∧
    taken good m st C L B l size c m' a' st' cap C' B' l' ∧
    ∃ m2 st2 b, free (chunk_data c) (m', a', st') = Ok (tt, (m2, a', st2)) ∧ only c 8 m' m2 ∧
      dom m2 = dom m' ∧ B' !! Z.to_nat (size / 15) = Some b ∧
      chunks good m2 (fastbin st2) C' L (<[Z.to_nat (size / 15) := c :: b]> B') ∧
      space m2 a' st2 C' l' ∧
      ∃ m3 st3, malloc size (m2, a', st2) = Ok (chunk_data c, (m3, a', st3)) ∧
        taken good m2 st2 C' L (<[Z.to_nat (size / 15) := c :: b]> B') l' size c m3 a' st3
          cap C' B' l'.
Proof.
  intros Hch Hsp Hg Henough. pose proof (good_fits good size Hg) as Hfit.
  destruct (malloc_ok good m a st C L B l size) as (c & m' & a' & st' & E & Hal); try done.
  destruct Hal as (cap & C' & B' & l' & Hal). exists c, m', a', st', cap, C', B', l'.
  split_and!; [done..|].
  destruct Hal as (_ & Hch' & Hsp' & HC' & Hsz & HL & Hw & _). specialize (Hch' Hg).
  destruct (free_ok good m' a' st' C' _ B' l' c Hch' Hsp') as
    (m2 & st2 & B2 & i & E2 & Hch2 & Hsp2 & Hd2 & Ho2 & Hw' & _ & _ & _ & b & Hb2 & Hb & ->); [set_solver|].
  assert (i = size) as -> by (by eapply word_at_fun).
  replace (({[c]} ∪ L) ∖ {[c]}) with L in Hch2 by set_solver.
  exists m2, st2, b. split_and!; [done..|].
  destruct (malloc_reuse good m2 a' st2 C' L _ l' size c b Hch2 Hsp2 Hfit Hb2) as (m3 & st3 & cap' & E3 & Hal).
  rewrite list_insert_insert_eq, (list_insert_id B' _ b) in Hal by exact Hb.
  exists m3, st3. split; [done|]. assert (cap' = cap) as -> by (destruct Hal as (_ & _ & _ & ? & _); congruence).
  exact Hal.
Qed.

(** The search of the unsorted bin steps over a chunk that does not fit. *)
Lemma chunk_fits_ok c size s m a st : word64_at m (chunk_size c) s → 0 ≤ size → size + 128 < 2 ^ 64 →
  chunk_fits c size (m, a, st) = Ok ((size <=? s) && (s <? size + 128), (m, a, st)).
Proof.
  intros Hw H1 H2. unfold chunk_fits. pose proof (on_memory_ok (load64 (chunk_size c)) m a st s m) as E.
  specialize (E (load_ok _ _ _ _ Hw)). rewrite (bind_ok _ _ _ _ _ E).
  destruct (size <=? s); [|done]. rewrite (bind_ok _ _ _ _ _ E), wrap_id by lia. done.
Qed.

Lemma malloc_large_hit m a st size chunk s st1 : 0xa0 ≤ size → size + 128 < 2 ^ 64 → 0 < chunk →
  unsorted_search 100 (unsorted_bin st) size (m, a, st) = Ok (chunk, (m, a, st1)) →
  word64_at m (chunk_size chunk) s → size ≤ s < size + 128 →
  malloc size (m, a, st) =
    Ok (chunk_data chunk, (write_bytes (chunk_size chunk) (le_split 8 size) m, a, st1)).
Proof.
  intros Hs Hs' Hc E Hw Hfit. unfold malloc. destruct (Z.leb_spec 0xa0 size); [|lia].
  assert (malloc_large size (m, a, st) = Ok (chunk, (m, a, st1))) as El.
  { unfold malloc_large. rewrite (bind_ok _ _ _ st (m, a, st)) by done.
    rewrite (bind_ok _ _ _ _ _ E), (chunk_data_nonzero chunk Hc).
    rewrite (bind_ok _ _ _ _ _ (chunk_fits_ok chunk size s m a st1 Hw ltac:(lia) Hs')).
    destruct (Z.leb_spec size s), (Z.ltb_spec s (size + 128)); simpl; done || lia. }
  rewrite (bind_ok _ _ _ _ _ El), (chunk_data_nonzero chunk Hc).
  rewrite (bind_ok _ _ _ tt (write_bytes (chunk_size chunk) (le_split 8 size) m, a, st1)); [done|].
  apply on_memory_ok, store_ok. apply word_at_mapped in Hw. done.
Qed.

(** Large blocks are handed out twice.  When the first free large chunk [c1] does not fit a
    request but the second one [c2] does, [malloc] returns [c2] and takes [c1] off the list
    instead: [c1] is lost, [c2] is still free for the heap, and the next request of that size
    returns [c2] again. *)
Theorem malloc_large_twice m a st c1 c2 s1 s2 size : unsorted_bin st = c1 → 0 < c1 → 0 < c2 →
  (c1 + 16 ≤ c2 ∨ c2 + 16 ≤ c1) →
  word64_at m (chunk_next c1) c2 → word64_at m (chunk_size c1) s1 →
  word64_at m (chunk_size c2) s2 → (∃ n, word64_at m (chunk_next c2) n) →
  0xa0 ≤ size → size + 128 < 2 ^ 64 → s1 < size ∨ size + 128 ≤ s1 → size ≤ s2 < size + 128 →
  ∃ m1 st1 m2 st2,
    malloc size (m, a, st) = Ok (chunk_data c2, (m1, a, st1)) ∧ unsorted_bin st1 = c2 ∧
    malloc size (m1, a, st1) = Ok (chunk_data c2, (m2, a, st2)).
Proof.
  intros Hu H1 H2 Hdis Hn1 Hs1 Hs2 [n2 Hn2] Hsize Hsize' Hno Hfit.
  set (st1 := set_unsorted c2 st). set (m1 := write_bytes (chunk_size c2) (le_split 8 size) m).
  assert (∀ m' st' (C : Z) v, word64_at m' C v →
    on_memory (load64 C) (m', a, st') = Ok (v, (m', a, st'))) as Hld.
  { intros. by apply on_memory_ok, load_ok. }
  assert (word64_at m1 (chunk_size c2) size) as Hs2' by (apply store64_at; lia).
  assert (word64_at m1 (chunk_next c2) n2) as Hn2'.
  { eapply word_at_only; [done|apply store_only|]. unfold chunk_next, chunk_size. lia. }
  exists m1, st1, (write_bytes (chunk_size c2) (le_split 8 size) m1), (set_unsorted n2 st1).
  split_and!; [|done|]; (eapply malloc_large_hit; [done|done|done| |done|lia]).
  - rewrite Hu. cbn [unsorted_search]. rewrite (chunk_data_nonzero c1 H1).
    rewrite (bind_ok _ _ _ _ _ (chunk_fits_ok c1 size s1 m a st Hs1 ltac:(lia) Hsize')).
    destruct ((size <=? s1) && (s1 <? size + 128)) eqn:Eb; [lia|].
    rewrite (bind_ok _ _ _ _ _ (Hld m st _ _ Hn1)).
    rewrite (chunk_data_nonzero c2 H2).
    rewrite (bind_ok _ _ _ _ _ (chunk_fits_ok c2 size s2 m a st Hs2 ltac:(lia) Hsize')).
    destruct ((size <=? s2) && (s2 <? size + 128)) eqn:Eb2; [|lia].
    rewrite (bind_ok _ _ _ st (m, a, st)) by done. rewrite Hu.
    by rewrite (bind_ok _ _ _ _ _ (Hld m st _ _ Hn1)).
  - cbn [unsorted_search unsorted_bin set_unsorted st1]. rewrite (chunk_data_nonzero c2 H2).
    rewrite (bind_ok _ _ _ _ _ (chunk_fits_ok c2 size size m1 a st1 Hs2' ltac:(lia) Hsize')).
    destruct ((size <=? size) && (size <? size + 128)) eqn:Eb2; [|lia].
    rewrite (bind_ok _ _ _ st1 (m1, a, st1)) by done.
    by rewrite (bind_ok _ _ _ _ _ (Hld m1 st1 _ _ Hn2')).
Qed.
End properties.

Lemma init_chunks m : chunks good16 m (fastbin mheap_init) ∅ ∅ (replicate 11 []).
Proof.
  constructor; try done.
  - intros i h b [-> _]%lookup_replicate [-> _]%lookup_replicate. done.
  - intros i b c [-> _]%lookup_replicate Hc. by apply not_elem_of_nil in Hc.
  - by apply NoDup_nil.
Qed.

Lemma init_space {A} `{PageAllocator A} m a l : avail m a l → space m a mheap_init ∅ l.
Proof.
  intros Ha. constructor; [|done|done|].
  - simpl. split_and!; try done. intros x Hx. lia.
  - intros p Hp. split; [done|]. left. simpl. destruct (avail_pages _ _ _ Ha) as [_ Hpg].
    destruct (Hpg p Hp) as [Hk _]. apply kpage_bound in Hk. lia.
Qed.

Lemma malloc_free_safe_witness : ∃ m f c m' a' st' m2 st2 C' B,
  malloc 32 (m, f, mheap_init) = Ok (chunk_data c, (m', a', st')) ∧
  free (chunk_data c) (m', a' : Z, st') = Ok (tt, (m2, a', st2)) ∧
  chunks good16 m2 (fastbin st2) C' ∅ (<[2%nat := [c]]> B).
Proof.
  destruct sample_free_list as (m & f & Hl). change (avail m f [PHYSTOP - PGSIZE]) in Hl.
  destruct (malloc_free_safe good16 m f mheap_init ∅ ∅ (replicate 11 []) [PHYSTOP - PGSIZE] 32)
    as (c & m' & a' & st' & cap & C' & B' & l' & E & Ht & m2 & st2 & b & E2 & _ & _ & Hb & Hch & _).
  - apply init_chunks.
  - by apply init_space.
  - done.
  - by right.
  - exists m, f, c, m', a', st', m2, st2, C', B'. split; [exact E|]. split; [exact E2|].
    assert (b = []) as ->.
    { destruct Ht as (_ & _ & _ & _ & _ & _ & _ & _ & _ & Hsub & _).
      destruct b as [|x b]; [done|]. exfalso. cut (x ∈ @nil Z); [apply not_elem_of_nil|].
      apply (Hsub x). eapply concat_in; [exact Hb|by left]. }
    exact Hch.
Defined.

(** Two free chunks of 400 and 200 bytes, in this order. *)
Definition sample_bin : mem :=
  write_bytes 1000 (le_split 8 2000 ++ le_split 8 400)
    (write_bytes 2000 (le_split 8 0 ++ le_split 8 200) ∅).

Lemma malloc_large_twice_witness : ∃ m1 st1 m2 st2,
  malloc 200 (sample_bin, 0, set_unsorted 1000 mheap_init) = Ok (2016, (m1, 0, st1)) ∧
  unsorted_bin st1 = 2000 ∧ malloc 200 (m1, 0, st1) = Ok (2016, (m2, 0, st2)).
Proof.
  apply (malloc_large_twice sample_bin 0 (set_unsorted 1000 mheap_init) 1000 2000 400 200 200);
    try done; try lia; try by_word.
  exists 0. by_word.
Defined.
