(* ===== verification/Heap.v ===== *)
(** * The kernel heap as its clients see it

    [heap_ok m a st G U l]: the heap of [Malloc] owns the pages [G], hands out
    the blocks [U] (pointer to size), and [l] are the free pages.  Blocks of a
    [kernel_size] may be freed: the sizes below 160 that the size classes keep
    apart, 24 and 32 among them; blocks of 16 bytes are never freed.  The
    lemmas are the contract of [malloc] and [free]: what is handed out, that
    nothing changes but the private part of the heap's pages, and that a freed
    block serves the next request of its class. *)

From S2P Require Import Prelude Mem CString PageAlloc Vm Malloc.

(** The sizes of blocks that may be freed: those below 160 that the classes keep apart.  The
    class of 16 also holds [struct mlist_element] (24), so a block of 16 is none of them. *)
Definition kernel_size (s : Z) : Prop := 1 ≤ s < 15 ∨ 17 ≤ s < 30 ∨ 32 ≤ s < 0xa0 ∧ s mod 16 = 0.

#[export] Instance kernel_size_dec s : Decision (kernel_size s).
Proof. unfold kernel_size. apply _. Defined.

#[export] Instance kernel_sizes : GoodSizes kernel_size.
Proof.
  constructor; unfold kernel_size; [lia|]. intros s s' Hs Hs'. rewrite align16_eq. zmod.
Qed.

Lemma kernel_24 : kernel_size 24.
Proof. by vm_compute; naive_solver lia. Qed.
Lemma kernel_32 : kernel_size 32.
Proof. by vm_compute; naive_solver lia. Qed.
#[export] Hint Resolve kernel_24 kernel_32 : loos.

(** [struct mlist] is in the class of [struct mlist_element], which is larger. *)
Lemma fits_16 : fits kernel_size 16.
Proof. split; [lia|]. intros cap Hs. specialize (Hs 24 kernel_24 eq_refl). lia. Qed.
Lemma fits_24 : fits kernel_size 24.
Proof. apply good_fits; [exact _|apply kernel_24]. Qed.
Lemma fits_32 : fits kernel_size 32.
Proof. apply good_fits; [exact _|apply kernel_32]. Qed.
#[export] Hint Resolve fits_16 fits_24 fits_32 : loos.

(** [x] is in a block of [U]; in one whose pointer is in [S]; in a page of [G]. *)
Definition in_block (U : gmap Z Z) (x : Z) : Prop := ∃ p n, U !! p = Some n ∧ p ≤ x < p + n.
Definition in_blocks (U : gmap Z Z) (S : gset Z) (x : Z) : Prop :=
  ∃ p n, p ∈ S ∧ U !! p = Some n ∧ p ≤ x < p + n.
Definition in_arena (G : list Z) (x : Z) : Prop := ∃ p, p ∈ G ∧ in_page p x.

(** The class of [n] has a free block. *)
Definition cached (st : mheap) (n : Z) : Prop := ∃ c, c ≠ 0 ∧ fastbin st !! Z.to_nat (n / 15) = Some c.

Lemma heap_cached_dec st n : cached st n ∨ ¬ cached st n.
Proof.
  unfold cached. destruct (fastbin st !! Z.to_nat (n / 15)) as [c|]; [|right; by intros (c & _ & ?)].
  destruct (decide (c = 0)) as [->|]; [right; intros (c & ? & [= <-]); done|left; by exists c].
Qed.

(** What the heap may change: its pages, but for the blocks in use. *)
Definition private (G : list Z) (U : gmap Z Z) (x : Z) : Prop := in_arena G x ∧ ¬ in_block U x.

Lemma block_dec U x : in_block U x ∨ ¬ in_block U x.
Proof.
  destruct (decide (map_Exists (λ p n, p ≤ x < p + n) U)) as [(p & n & ?)|Hn]; [left; by exists p, n|].
  right. intros (p & n & ?). apply Hn. by exists p, n.
Qed.

(** The heap took at most one of the free pages. *)
Definition took (G l G' l' : list Z) : Prop := G' = G ∧ l' = l ∨ ∃ q, l = q :: l' ∧ G' = q :: G.

Section heap.
Context {A : Type} `{PageAllocator A}.
Implicit Types (m : mem) (a : A) (st : mheap) (C U : gmap Z Z) (L : gset Z) (G l : list Z).

Record heap_parts m a st G U l C L (B : list (list Z)) : Prop := {
  hp_chunks : chunks kernel_size m (fastbin st) C L B;
  hp_space : space m a st C l;
  hp_used : ∀ p n, U !! p = Some n → 0 < n ∧ p - 16 ∉ concat B ∧ (kernel_size n → p - 16 ∈ L) ∧
    ∃ cap, C !! (p - 16) = Some cap ∧ n ≤ cap;
  hp_head : ∀ p n, U !! p = Some n → word64_at m (chunk_size (p - 16)) n;
  hp_arena : ∀ c cap, C !! c = Some cap → ∃ p, p ∈ G ∧ p ≤ c ∧ chunk_end c cap ≤ p + PGSIZE;
  hp_page : p_end st = 0 ∨ ∃ p, p ∈ G ∧ p ≤ p_start st ∧ p_end st ≤ p + PGSIZE;
  hp_pages : ∀ p, p ∈ G → p ∉ l ∧ kpage p
}.
Definition heap_ok m a st G U l : Prop := ∃ C L B, heap_parts m a st G U l C L B.

Lemma heap_avail m a st G U l : heap_ok m a st G U l → avail m a l.
Proof. intros (C & L & B & Hp). apply (hp_space _ _ _ _ _ _ _ _ _ Hp). Qed.

Lemma heap_page m a st G U l p : heap_ok m a st G U l → p ∈ G → p ∉ l ∧ kpage p.
Proof. intros (C & L & B & Hp). apply (hp_pages _ _ _ _ _ _ _ _ _ Hp). Qed.

(** A block in use. *)
Lemma heap_block m a st G U l p n : heap_ok m a st G U l → U !! p = Some n →
  0 < n ∧ 0 < p ∧ p + n < 2 ^ 64 ∧ mapped m p n ∧ ∃ q, q ∈ G ∧ q ≤ p ∧ p + n ≤ q + PGSIZE.
Proof.
  intros (C & L & B & Hp) HU. destruct (hp_used _ _ _ _ _ _ _ _ _ Hp p n HU) as (Hn & _ & _ & cap & HC & Hcap).
  destruct (ch_cap _ _ _ _ _ _ (hp_chunks _ _ _ _ _ _ _ _ _ Hp) _ _ HC) as (? & ? & He & Hm).
  destruct (hp_arena _ _ _ _ _ _ _ _ _ Hp _ _ HC) as (q & Hq & ? & ?). unfold chunk_end in *.
  split_and!; [lia|lia|lia| |exists q; split_and!; [done|lia|lia]]. intros x Hx. apply Hm. lia.
Qed.

Lemma heap_disjoint m a st G U l p n p' n' : heap_ok m a st G U l → U !! p = Some n →
  U !! p' = Some n' → p ≠ p' → p + n ≤ p' ∨ p' + n' ≤ p.
Proof.
  intros (C & L & B & Hp) HU HU' Hne.
  destruct (hp_used _ _ _ _ _ _ _ _ _ Hp p n HU) as (Hn & _ & _ & cap & HC & Hcap).
  destruct (hp_used _ _ _ _ _ _ _ _ _ Hp p' n' HU') as (Hn' & _ & _ & cap' & HC' & Hcap').
  pose proof (ch_disj _ _ _ _ _ _ (hp_chunks _ _ _ _ _ _ _ _ _ Hp) _ _ _ _ HC HC' ltac:(lia)).
  unfold chunk_end in *. lia.
Qed.

Lemma block_arena m a st G U l x : heap_ok m a st G U l → in_block U x → in_arena G x.
Proof.
  intros Hh (p & n & HU & Hx). destruct (heap_block _ _ _ _ _ _ _ _ Hh HU) as (_ & _ & _ & _ & q & Hq & ? & ?).
  exists q. split; [done|]. unfold in_page. lia.
Qed.

(** Header cells belong to no block. *)
Lemma header_free m a st G U l C L B c cap x : heap_parts m a st G U l C L B → C !! c = Some cap →
  c ≤ x < c + 16 → ¬ in_block U x.
Proof.
  intros Hp HC Hx (p & n & HU & Hpx).
  destruct (hp_used _ _ _ _ _ _ _ _ _ Hp p n HU) as (Hn & _ & _ & cap' & HC' & Hcap').
  pose proof (hp_chunks _ _ _ _ _ _ _ _ _ Hp) as Hch.
  destruct (decide (p - 16 = c)) as [|Hne]; [lia|].
  pose proof (ch_disj _ _ _ _ _ _ Hch _ _ _ _ HC' HC Hne).
  destruct (ch_cap _ _ _ _ _ _ Hch _ _ HC). unfold chunk_end in *. lia.
Qed.

(** Memory may change in blocks and outside the heap's pages, and the free pages may be others. *)
Lemma heap_update P m m' a a' st G U l l' : heap_ok m a st G U l → changes P m m' →
  (∀ x, P x → in_block U x ∨ ¬ in_arena G x) → avail m' a' l' → (∀ p, p ∈ G → p ∉ l') →
  heap_ok m' a' st G U l'.
Proof.
  intros (C & L & B & Hp) [Hd HP] Hx Ha Hl. exists C, L, B. pose proof Hp as [Hch [R1 R2 _ _] Hu Hhd Har Hpg HG].
  destruct (avail_pages _ _ _ Ha) as [_ Hk].
  assert (∀ p q x, q ∈ l' → p ∈ G → ¬ (in_page p x ∧ in_page q x)) as Hdis.
  { intros p q x Hq Hp' [H1 H2]. eapply (kpage_disjoint p q); [by apply HG|by apply Hk| |done|done].
    intros ->. by eapply Hl. }
  assert (∀ c cap x, C !! c = Some cap → c ≤ x < c + 16 → m' !! x = m !! x) as Hheaders.
  { intros c cap x HC Hcx. apply HP. intros Hpx.
    destruct (Hx x Hpx) as [Hb|Hn]; [by eapply header_free|].
    destruct (Har c cap HC) as (p & Hp' & ? & ?). apply Hn. exists p. split; [done|].
    destruct (ch_cap _ _ _ _ _ _ Hch _ _ HC). unfold in_page, chunk_end in *. lia. }
  constructor; [| |done| |done..|].
  - by eapply chunks_frame.
  - constructor; [|done|done|].
    + destruct R1 as (? & ? & ? & ?). split_and!; [lia|lia|done|done|]. by eapply mapped_dom.
    + intros q Hq. destruct (Hk q Hq) as [Hqk _]. pose proof (kpage_bound _ Hqk). split.
      * intros c cap HC. destruct (Har c cap HC) as (p & Hp' & ? & ?).
        destruct (HG p Hp') as [_ [Hpm _]]. destruct Hqk as [Hqm _].
        destruct (page_disjoint p q Hpm Hqm) as [?|?]; [|unfold chunk_end in *; lia..].
        intros ->. by eapply Hl.
      * destruct Hpg as [->|(p & Hp' & ? & ?)]; [lia|].
        destruct (HG p Hp') as [_ [Hpm _]]. destruct Hqk as [Hqm _].
        destruct (page_disjoint p q Hpm Hqm) as [?|?]; [|lia..]. intros ->. by eapply Hl.
  - intros p n HU. eapply word_at_same; [by apply Hhd|]. destruct (Hu p n HU) as (_ & _ & _ & cap & HC & _).
    intros x Hx'. eapply Hheaders; [done|]. unfold chunk_size in Hx'. lia.
  - intros p Hp'. split; [by apply Hl|by apply HG].
Qed.
(** The arena after an allocation. *)
Lemma cut_arena m a st G U l C L B c cap m' a' st' l' : heap_parts m a st G U l C L B →
  cut st l c (cap + 16) st' l' → 0 ≤ cap → space m' a' st' (<[c := cap]> C) l' →
  ∃ G', took G l G' l' ∧ (∀ p, p ∈ G' → p ∉ l' ∧ kpage p) ∧
    (∃ p, p ∈ G' ∧ p ≤ c ∧ chunk_end c cap ≤ p + PGSIZE) ∧
    (p_end st' = 0 ∨ ∃ p, p ∈ G' ∧ p ≤ p_start st' ∧ p_end st' ≤ p + PGSIZE) ∧
    (∀ p, p ∈ l → p ∉ l' → p ∈ G').
Proof.
  intros Hp Hcut Hcap Hsp'. pose proof Hp as [_ Hsp _ _ _ Hpg HG].
  destruct (avail_pages _ _ _ (sp_avail _ _ _ _ _ Hsp)) as [Hnd Hk].
  destruct (sp_rest _ _ _ _ _ Hsp) as ([? ?] & _).
  destruct Hcut as [(-> & Hroom & Hs & He & ->)|(-> & Hs & He)].
  - exists G. split; [by left|]. split; [done|].
    destruct Hpg as [|(p & Hin & ? & ?)]; [lia|].
    split_and!; [exists p; unfold chunk_end; split_and!; [done|lia|lia]| |done].
    right. exists p. rewrite Hs, He. split_and!; [done|lia|lia].
  - apply NoDup_cons in Hnd as [Hc _].
    exists (c :: G). split; [right; eauto|].
    destruct (sp_rest _ _ _ _ _ Hsp') as ([? ?] & _).
    split_and!.
    + intros p [->|Hin]%elem_of_cons; [split; [done|apply Hk; by left]|].
      destruct (HG p Hin) as [Hn ?]. split; [|done]. intros Hp'. apply Hn. by right.
    + exists c. unfold chunk_end. split_and!; [by left|lia|lia].
    + right. exists c. rewrite Hs, He. split_and!; [by left|lia|lia].
    + intros p [->|Hin]%elem_of_cons; [by left|done].
Qed.

(** What an allocation means for the view.  A chunk that was there before costs no page. *)
Lemma heap_allocated m a st G U l C L B n c m' a' st' : heap_parts m a st G U l C L B →
  allocated kernel_size m st C L B l n c m' a' st' → 0 < n →
  ∃ G' l', heap_ok m' a' st' G' (<[chunk_data c := n]> U) l' ∧ U !! chunk_data c = None ∧ took G l G' l' ∧
    changes (private G' U) m m' ∧ (is_Some (C !! c) → G' = G ∧ l' = l).
Proof.
  intros Hp (cap & C' & B' & l' & Hch' & Hgood & Hsp' & HC' & Hcap & HcL & Hw & Hd & HcB & HB & Hcase & Hfr) Hn.
  pose proof Hp as [Hch Hsp Hu Hhd Har Hpg HG].
  assert (c + 16 - 16 = c) as E16 by lia.
  assert (U !! chunk_data c = None) as Hfresh.
  { destruct (U !! chunk_data c) as [k|] eqn:HU; [|done].
    destruct (Hu _ _ HU) as (_ & HnB & _ & cap0 & HC0 & _). unfold chunk_data in *. rewrite E16 in *.
    destruct Hcase as [(_ & ? & _)|(? & _)]; congruence. }
  assert (∃ G', took G l G' l' ∧ (∀ p, p ∈ G' → p ∉ l' ∧ kpage p) ∧
    (∀ c0 cap0, C' !! c0 = Some cap0 → ∃ p, p ∈ G' ∧ p ≤ c0 ∧ chunk_end c0 cap0 ≤ p + PGSIZE) ∧
    (p_end st' = 0 ∨ ∃ p, p ∈ G' ∧ p ≤ p_start st' ∧ p_end st' ≤ p + PGSIZE) ∧
    (∀ p, p ∈ l → p ∉ l' → p ∈ G') ∧ (∀ c0 cap0, C !! c0 = Some cap0 → C' !! c0 = Some cap0) ∧
    (is_Some (C !! c) → G' = G ∧ l' = l))
    as (G' & Htook & HG' & Har' & Hpg' & Hnew & Hsub & Hsame).
  { destruct Hcase as [(-> & _ & Es & Ee & ->)|(HCn & -> & Hcut)].
    - exists G. rewrite Es, Ee. split_and!; [by left|done..].
    - destruct (ch_cap _ _ _ _ _ _ Hch' _ _ HC') as (? & _).
      destruct (cut_arena m a st G U l C L B c cap m' a' st' l') as (G' & Ht & Hk & Hcin & Hp' & Hl); [done..|].
      exists G'. split_and!; [done|done| |done|done| |by intros [? ?]; congruence].
      + intros c0 cap0 [[<- <-]|[_ HC0]]%lookup_insert_Some; [done|].
        destruct (Har c0 cap0 HC0) as (p & Hin & ?). exists p. split; [|done].
        destruct Ht as [[-> _]|(q & _ & ->)]; [done|by right].
      + intros c0 cap0 HC0. rewrite lookup_insert_ne; [done|]. congruence. }
  assert (∀ x, ¬ private G' U x → m' !! x = m !! x) as Hkeep.
  { intros x Hx. apply Hfr.
    + intros Hcx. apply Hx. split.
      * destruct (Har' c cap HC') as (p & Hin & ? & ?). exists p. split; [done|].
        destruct (ch_cap _ _ _ _ _ _ Hch' _ _ HC'). unfold in_page, chunk_end in *. lia.
      * intros (p & k & HU & Hpx). destruct (Hu p k HU) as (_ & _ & _ & cap0 & HC0 & ?).
        pose proof (Hsub _ _ HC0) as HC0'. destruct (decide (p - 16 = c)) as [Ec|Hnc].
        { unfold chunk_data in Hfresh. rewrite <- Ec in Hfresh. replace (p - 16 + 16) with p in Hfresh by lia. congruence. }
        pose proof (ch_disj _ _ _ _ _ _ Hch' _ _ _ _ HC0' HC' Hnc).
        destruct (ch_cap _ _ _ _ _ _ Hch' _ _ HC'). unfold chunk_end in *. lia.
    + intros p Hpl Hpl' Hpx. apply Hx. split; [exists p; split; [by apply Hnew|done]|].
      intros (q & k & HU & Hqx). destruct (Hu q k HU) as (_ & _ & _ & cap0 & HC0 & ?).
      destruct (sp_avail_disj _ _ _ _ _ Hsp p Hpl) as [Hdis _]. specialize (Hdis _ _ HC0).
      destruct (ch_cap _ _ _ _ _ _ Hch _ _ HC0). unfold chunk_end in *. lia. }
  assert (∀ p k, <[chunk_data c := n]> U !! p = Some k → word64_at m' (chunk_size (p - 16)) k) as Hheads.
  { intros p k [[<- <-]|[Hpne HU]]%lookup_insert_Some; [unfold chunk_data; by rewrite E16|].
    destruct (Hu p k HU) as (_ & _ & _ & cap0 & HC0 & _).
    eapply word_at_same; [by apply Hhd|]. intros x Hx. unfold chunk_size, chunk_data in *.
    destruct (ch_cap _ _ _ _ _ _ Hch _ _ HC0) as (? & _). apply Hfr.
    - pose proof (ch_disj _ _ _ _ _ _ Hch' _ _ _ _ (Hsub _ _ HC0) HC' ltac:(lia)).
      destruct (ch_cap _ _ _ _ _ _ Hch' _ _ HC'). unfold chunk_end in *. lia.
    - intros q Hq _ Hqx. destruct (sp_avail_disj _ _ _ _ _ Hsp q Hq) as [Hdis _]. specialize (Hdis _ _ HC0).
      unfold chunk_end in *. lia. }
  exists G', l'. split_and!; [|done|done|by split|done].
  exists C'. destruct (decide (kernel_size n)) as [Hk|Hk]; [exists ({[c]} ∪ L)|exists L]; exists B'.
  all: constructor; [by auto|done| |done|done..].
  all: intros p k [[<- <-]|[Hpne HU]]%lookup_insert_Some;
    [split_and!; [done|by unfold chunk_data; rewrite E16| |exists cap; unfold chunk_data; by rewrite E16]|].
  all: try (destruct (Hu p k HU) as (? & HpB & HpL & cap0 & HC0 & ?); split_and!;
    [done|by intros ?%HB| |by eauto]; intros Hk'; specialize (HpL Hk'); set_solver).
  all: unfold chunk_data; rewrite E16; intros Hk'; first [by destruct Hk|set_solver].
Qed.

Lemma heap_malloc m a st G U l n : heap_ok m a st G U l → fits kernel_size n → 0 < n → l ≠ [] →
  ∃ p m' a' st' G' l', malloc n (m, a, st) = Ok (p, (m', a', st')) ∧
    heap_ok m' a' st' G' (<[p := n]> U) l' ∧ U !! p = None ∧ took G l G' l' ∧
    changes (private G' U) m m'.
Proof.
  intros (C & L & B & Hp) Hfit Hn Hne. pose proof Hp as [Hch Hsp _ _ _ _ _].
  destruct (malloc_ok kernel_size m a st C L B l n) as (c & m' & a' & st' & E & Hall); [done|done|done|by right|].
  destruct (heap_allocated m a st G U l C L B n c m' a' st' Hp Hall Hn) as (G' & l' & ? & ? & ? & ? & _).
  by exists (chunk_data c), m', a', st', G', l'.
Qed.

(** A request that a free block serves takes no page. *)
Lemma heap_malloc_cached m a st G U l n : heap_ok m a st G U l → fits kernel_size n → 0 < n → cached st n →
  ∃ p m' a' st', malloc n (m, a, st) = Ok (p, (m', a', st')) ∧
    heap_ok m' a' st' G (<[p := n]> U) l ∧ U !! p = None ∧ changes (private G U) m m'.
Proof.
  intros (C & L & B & Hp) Hfit Hn (h & Hh0 & Hh). pose proof Hp as [Hch Hsp _ _ _ _ _].
  destruct (fits_index kernel_size n Hfit) as [Hidx _]. destruct (ch_len _ _ _ _ _ _ Hch) as [_ HB].
  destruct (lookup_lt_is_Some_2 B (Z.to_nat (n / 15))) as [b Hb]; [lia|].
  pose proof (ch_bins _ _ _ _ _ _ Hch _ _ _ Hh Hb) as Hbin. destruct b as [|c b]; [done|].
  destruct (malloc_reuse kernel_size m a st C L B l n c b) as (m' & st' & cap0 & E & Hall); [done..|].
  destruct (heap_allocated m a st G U l C L B n c m' a st' Hp ltac:(by eexists _, _, _, _) Hn) as (G' & l' & Hh' & Hf & _ & HC & Hsame).
  destruct Hsame as [-> ->].
  { destruct (ch_free _ _ _ _ _ _ Hch _ _ c Hb) as (_ & cap & ? & _); [by left|]. by exists cap. }
  by exists (chunk_data c), m', a, st'.
Qed.

(** [free] of any block in use runs; whether the heap survives depends on the size of the block. *)
Lemma heap_free_runs m a st G U l p n : heap_ok m a st G U l → U !! p = Some n →
  ∃ m' st', free p (m, a, st) = Ok (tt, (m', a, st')) ∧ dom m' = dom m.
Proof.
  intros (C & L & B & Hp) HU. destruct (hp_used _ _ _ _ _ _ _ _ _ Hp p n HU) as (_ & _ & _ & cap & HC & _).
  destruct (ch_cap _ _ _ _ _ _ (hp_chunks _ _ _ _ _ _ _ _ _ Hp) _ _ HC) as (Hcap & Hc & He & Hm). unfold chunk_end in He.
  pose proof (hp_head _ _ _ _ _ _ _ _ _ Hp p n HU) as Hw.
  assert (mapped m (p - 16) (Z.of_nat 8)) as Hm8 by (eapply mapped_sub; [exact Hm|lia|lia]).
  unfold free, chunk_info_size. rewrite wrap_id by lia.
  rewrite (bind_ok _ _ _ n (m, a, st)) by (by apply on_memory_ok, load_ok). destruct (Z.leb_spec 0xa0 n).
  - rewrite (bind_ok _ _ _ st (m, a, st)) by done. eexists _, _. rewrite (bind_ok _ _ _ tt (write_bytes (p - 16) (le_split 8 (unsorted_bin st)) m, a, st)).
    + split; [done|]. apply write_bytes_dom. by rewrite length_le_split.
    + apply on_memory_ok. by apply store_ok.
  - rewrite (bind_ok _ _ _ n (m, a, st)) by (by apply on_memory_ok, load_ok). rewrite (bind_ok _ _ _ st (m, a, st)) by done.
    eexists _, _. rewrite (bind_ok _ _ _ tt (write_bytes (p - 16) (le_split 8 (fastbin st !!! Z.to_nat (n / 0xF))) m, a, st)).
    + split; [done|]. apply write_bytes_dom. by rewrite length_le_split.
    + apply on_memory_ok. by apply store_ok.
Qed.

(** A freed block is there for the next request of its class. *)
Lemma heap_free_cached m a st G U l p n : heap_ok m a st G U l → U !! p = Some n → kernel_size n →
  ∃ m' st', free p (m, a, st) = Ok (tt, (m', a, st')) ∧ heap_ok m' a st' G (delete p U) l ∧
    changes (private G U) m m' ∧ cached st' n.
Proof.
  intros (C & L & B & Hp) HU Hk. pose proof Hp as [Hch Hsp Hu Hhd Har Hpg HG].
  destruct (Hu p n HU) as (Hn & HpB & HpL & cap & HC & Hcap). specialize (HpL Hk).
  destruct (free_ok kernel_size m a st C L B l (p - 16)) as
    (m' & st' & B' & i & E & Hch' & Hsp' & Hd & Ho & Hi & HB & Es & Ee & b & Hb & _); [done..|].
  pose proof (word_at_fun _ _ _ _ _ Hi (Hhd p n HU)) as ->.
  unfold chunk_data in E. replace (p - 16 + 16) with p in E by lia.
  exists m', st'. split; [done|]. split_and!.
  - exists C, (L ∖ {[p - 16]}), B'. constructor; [done|done| | |done| |done].
    + intros q k [Hne HU']%lookup_delete_Some. destruct (Hu q k HU') as (? & HqB & HqL & ?).
      split_and!; [done| |intros Hk'; specialize (HqL Hk'); apply elem_of_difference; split; [done|];
        rewrite elem_of_singleton; lia|done].
      intros [?|?]%HB; [lia|done].
    + intros q k [Hne HU']%lookup_delete_Some. destruct (Hu q k HU') as (_ & _ & _ & cap' & HC' & _).
      eapply word_at_same; [by apply Hhd|]. intros x Hx. apply Ho. unfold chunk_size in Hx.
      pose proof (ch_disj _ _ _ _ _ _ Hch _ _ _ _ HC' HC ltac:(lia)).
      destruct (ch_cap _ _ _ _ _ _ Hch _ _ HC'), (ch_cap _ _ _ _ _ _ Hch _ _ HC). unfold chunk_end in *. lia.
    + by rewrite Es, Ee.
  - split; [done|]. intros x Hx. apply Ho. intros Hpx. apply Hx. split.
    + destruct (Har _ _ HC) as (q & Hq & ? & ?). exists q. split; [done|]. unfold in_page, chunk_end in *. lia.
    + eapply header_free; [done|done|lia].
  - destruct (ch_len _ _ _ _ _ _ Hch') as [Hl _]. destruct (good_index kernel_size n Hk) as [Hidx _].
    destruct (lookup_lt_is_Some_2 (fastbin st') (Z.to_nat (n / 15))) as [h Hh]; [lia|].
    destruct (ch_bins _ _ _ _ _ _ Hch' _ _ _ Hh Hb) as [-> _]. exists (p - 16). split; [|done].
    destruct (ch_cap _ _ _ _ _ _ Hch _ _ HC) as (_ & ? & _). lia.
Qed.

Lemma heap_free m a st G U l p n : heap_ok m a st G U l → U !! p = Some n → kernel_size n →
  ∃ m' st', free p (m, a, st) = Ok (tt, (m', a, st')) ∧ heap_ok m' a st' G (delete p U) l ∧
    changes (private G U) m m'.
Proof. intros Hh HU Hk. destruct (heap_free_cached m a st G U l p n Hh HU Hk) as (m' & st' & ? & ? & ? & _). eauto. Qed.

(** A new block lies in what was the private part. *)
Lemma fresh_private m a st G U l p n x : heap_ok m a st G (<[p := n]> U) l → U !! p = None →
  p ≤ x < p + n → private G U x.
Proof.
  intros Hh Hp Hx. pose proof (lookup_insert_eq U p n) as Hpn.
  split; [eapply block_arena; [done|by exists p, n]|].
  intros (q & k & Hq & Hqx). assert (p ≠ q) as Hne by congruence.
  pose proof (heap_disjoint _ _ _ _ _ _ p n q k Hh Hpn ltac:(by rewrite lookup_insert_ne) Hne). lia.
Qed.

Lemma private_blocks G U S x : private G U x → ¬ in_blocks U S x.
Proof. intros [_ Hn] (p & n & _ & ? & ?). apply Hn. by exists p, n. Qed.

(** The private part shrinks with more blocks and grows with the pages. *)
Lemma private_mono G G' U U' x : G ⊆ G' → (∀ x, in_block U x → in_block U' x) → private G U' x → private G' U x.
Proof. intros HG HU [(p & Hp & Hx) Hn]. split; [exists p; split; [by apply HG|done]|auto]. Qed.

Lemma insert_block U p n x : U !! p = None → in_block U x → in_block (<[p := n]> U) x.
Proof. intros Hp (q & k & Hq & Hx). exists q, k. split; [|done]. rewrite lookup_insert_ne; [done|congruence]. Qed.

Lemma took_sub G l G' l' : took G l G' l' → G ⊆ G'.
Proof. intros [[-> _]|(q & _ & ->)]; set_solver. Qed.

(** A store of a word in a block. *)
Lemma heap_store m a st G U l q n p v : heap_ok m a st G U l → U !! q = Some n → q ≤ p → p + 8 ≤ q + n →
  0 ≤ v < 2 ^ 64 →
  ∃ m', on_memory (store64 p v) (m, a, st) = Ok (tt, (m', a, st)) ∧ word64_at m' p v ∧
    heap_ok m' a st G U l ∧ changes (λ x, p ≤ x < p + 8) m m'.
Proof.
  intros Hh HU H1 H2 Hv. destruct (heap_block _ _ _ _ _ _ _ _ Hh HU) as (_ & _ & _ & Hm & _).
  destruct (store_word 8 p v m) as (m' & E & Hw & Hc); [by eapply mapped_sub|done|].
  exists m'. split_and!; [by apply on_memory_ok|done| |done].
  eapply heap_update; [done|done| | |by intros r Hr; apply (heap_page _ _ _ _ _ _ _ Hh Hr)].
  - intros x Hx. left. exists q, n. split; [done|]. simpl in Hx. lia.
  - eapply avail_frame; [by eapply heap_avail|apply Hc|]. intros r x Hr Hx. apply Hc. simpl. intros Hpx.
    destruct (heap_block _ _ _ _ _ _ _ _ Hh HU) as (_ & _ & _ & _ & g & Hg & ? & ?).
    destruct (heap_page _ _ _ _ _ _ _ Hh Hg) as [Hgl Hgk].
    destruct (avail_pages _ _ _ (heap_avail _ _ _ _ _ _ Hh)) as [_ Hk].
    eapply (kpage_disjoint r g); [by apply Hk|done| |done|lia]. by intros ->.
Qed.
(** The heap before the first request. *)
Lemma heap_init m a l : avail m a l → heap_ok m a mheap_init [] ∅ l.
Proof.
  intros Ha. exists ∅, ∅, (replicate 11 []). constructor; try done.
  - constructor; try done.
    + by intros i h b [-> _]%lookup_replicate [-> _]%lookup_replicate.
    + intros i b c [-> _]%lookup_replicate Hc. by apply not_elem_of_nil in Hc.
    + by apply NoDup_nil.
  - by apply init_space.
  - by left.
  - by intros p Hp%not_elem_of_nil.
Qed.
End heap.
