(* ===== verification/Qsort.v ===== *)
(** * lolibc/string.c: qsort

    [qsort] sorts an array in memory with a comparison function of the caller
    and a temporary from the heap for every exchange.  [compar] is a parameter,
    as it is a function pointer in the code.  [qsort_correct]: with a comparison
    that decides a total preorder of the elements, the array is sorted and holds
    the elements it held. *)

From stdpp Require Import sorting.
From S2P Require Import Prelude Mem CString PageAlloc Vm Malloc Heap.

Section program.
Context {A : Type} `{PageAllocator A} (compar : Z → Z → M (mem * A * mheap) Z).
Abbreviation HM := (M (mem * A * mheap)).

(** The exchange of two elements through [temp], as the code does it twice. *)
Definition exchange (left right size : Z) : HM unit :=
  temp ← malloc size;
  on_memory (memcpy temp left size);;
  on_memory (memcpy left right size);;
  on_memory (memcpy right temp size);;
  free temp.

Fixpoint scan_up (fuel : nat) (left right pivot size : Z) : HM Z :=
  if left <=? right
  then match fuel with
       | O => fail Fuel
       | S fuel => c ← compar left pivot;
                   if c <=? 0 then scan_up fuel (u64 (left + size)) right pivot size else mret left
       end
  else mret left.

Fixpoint scan_down (fuel : nat) (left right pivot size : Z) : HM Z :=
  if left <=? right
  then match fuel with
       | O => fail Fuel
       | S fuel => c ← compar right pivot;
                   if 0 <? c then scan_down fuel left (u64 (right - size)) pivot size else mret right
       end
  else mret right.

(** The loop [while (left <= right)]; its result is [right]. *)
Fixpoint partition (fuel : nat) (left right pivot size : Z) : HM Z :=
  if left <=? right
  then match fuel with
       | O => fail Fuel
       | S lower =>
           left ← scan_up fuel left right pivot size;
           right ← scan_down fuel left right pivot size;
           if left <? right
           then exchange left right size;;
                partition lower (u64 (left + size)) (u64 (right - size)) pivot size
           else partition lower left right pivot size
       end
  else mret right.

Fixpoint qsort_rec (fuel : nat) (base num size : Z) : HM unit :=
  if num <=? 1 then mret tt
  else match fuel with
       | O => fail Fuel
       | S fuel =>
           let pivot := base in
           right ← partition (Z.to_nat num) (u64 (base + size)) (u64 (base + u64 (u64 (num - 1) * size))) pivot size;
           exchange pivot right size;;
           let left_size := u64 (right - base) / size in
           let right_size := u64 (num - left_size - 1) in
           qsort_rec fuel base left_size size;;
           qsort_rec fuel (u64 (right + size)) right_size size
       end.

Definition qsort (base num size : Z) : HM unit := qsort_rec (Z.to_nat num) base num size.
End program.

(** ** The heap between two exchanges *)
Section exchange.
Context {A : Type} `{PageAllocator A} (size : Z) (Hsize : kernel_size size).
Implicit Types (m : mem) (a : A) (h : mheap) (U : gmap Z Z) (G l : list Z).

(** A temporary can be had; what an exchange does to the free pages: the first one may take a
    page, and leaves a block for all later ones. *)
Definition enough h l : Prop := cached h size ∨ l ≠ [].
Definition spends h G l h' G' l' : Prop := took G l G' l' ∧
  (cached h size → cached h' size ∧ G' = G ∧ l' = l) ∧ (cached h' size ∨ h' = h ∧ G' = G ∧ l' = l).

Lemma spends_refl h G l : spends h G l h G l.
Proof. split_and!; [by left|done|by right]. Qed.

Lemma spends_trans h G l h1 G1 l1 h2 G2 l2 : spends h G l h1 G1 l1 → spends h1 G1 l1 h2 G2 l2 →
  spends h G l h2 G2 l2.
Proof.
  intros (T1 & C1 & [D1|(-> & -> & ->)]) H2; [|done]. destruct H2 as (_ & C2 & _). destruct (C2 D1) as (D2 & -> & ->).
  split_and!; [done| |by left]. intros Hc. by destruct (C1 Hc) as (_ & -> & ->).
Qed.

Lemma spends_enough h G l h' G' l' : enough h l → spends h G l h' G' l' → enough h' l'.
Proof. intros He (_ & _ & [?|(-> & -> & ->)]); [by left|done]. Qed.

(** Addresses the heap does not use, and what an exchange writes outside its elements. *)
Definition scratch G U l (x : Z) : Prop := private G U x ∨ in_arena l x.

Lemma scratch_spends h G U l h' G' l' x : spends h G l h' G' l' → scratch G' U l' x → scratch G U l x.
Proof.
  intros ([[-> ->]|(q & -> & ->)] & _ & _); [done|].
  intros [[(g & Hg & Hgx) Hnb]|(g & Hg & Hgx)]; [|right; exists g; split; [by right|done]].
  apply elem_of_cons in Hg as [->|Hg]; [right; exists q; split; [by left|done]|left; split; [by exists g|done]].
Qed.

(** [malloc] of a temporary. *)
Lemma temp_ok m a h G U l : heap_ok m a h G U l → enough h l →
  ∃ t m' a' h' G' l', malloc size (m, a, h) = Ok (t, (m', a', h')) ∧ heap_ok m' a' h' G' (<[t := size]> U) l' ∧
    U !! t = None ∧ took G l G' l' ∧ (cached h size → G' = G ∧ l' = l) ∧ changes (scratch G U l) m m'.
Proof.
  intros Hh He. assert (fits kernel_size size) as Hf by by apply good_fits; [apply _|].
  assert (0 < size) as H0' by (unfold kernel_size in Hsize; lia).
  assert (∀ G' l' m', took G l G' l' → changes (private G' U) m m' → changes (scratch G U l) m m') as Hc.
  { intros G' l' m' Ht C. eapply changes_weaken; [|done]. intros x [(g & Hg & Hgx) Hnb].
    destruct Ht as [[-> _]|(q & -> & ->)]; [left; split; [by exists g|done]|].
    apply elem_of_cons in Hg as [->|Hg]; [right; exists q; split; [by left|done]|left; split; [by exists g|done]]. }
  destruct (decide (l = [])) as [->|Hl].
  - destruct He as [Hca|]; [|done].
    destruct (heap_malloc_cached m a h G U [] size Hh Hf H0' Hca) as (t & m' & a' & h' & E & Hh' & Ht & C).
    exists t, m', a', h', G, []. split_and!; [done|done|done|by left|done|]. eapply Hc; [by left|done].
  - destruct (heap_cached_dec h size) as [Hca|Hca].
    + destruct (heap_malloc_cached m a h G U l size Hh Hf H0' Hca) as (t & m' & a' & h' & E & Hh' & Ht & C).
      exists t, m', a', h', G, l. split_and!; [done|done|done|by left|done|]. eapply Hc; [by left|done].
    + destruct (heap_malloc m a h G U l size Hh Hf H0' Hl) as (t & m' & a' & h' & G' & l' & E & Hh' & Ht & Htk & C).
      exists t, m', a', h', G', l'. split_and!; [done..|by eapply Hc].
Qed.

Definition item (x : list Z) : Prop := Z.of_nat (length x) = size ∧ bytes x.
Definition cells (p z : Z) : Prop := p ≤ z < p + size.

Lemma size_pos : 0 < size.
Proof. unfold kernel_size in Hsize. lia. Qed.

Lemma cells_apart p q : (∀ z, cells p z → ¬ cells q z) → p + size ≤ q ∨ q + size ≤ p.
Proof.
  intros Hz. pose proof size_pos. specialize (Hz (Z.max p q)). unfold cells in Hz. lia.
Qed.

(** The copies of an exchange, in a heap that has given the block [t]. *)
Lemma copies_ok m a h G U l t p q x y : heap_ok m a h G (<[t := size]> U) l → U !! t = None →
  mem_at m p x → mem_at m q y → item x → item y → p = q ∨ p + size ≤ q →
  (∀ z, cells p z ∨ cells q z → ¬ scratch G U l z) →
  ∃ m2 m3 m4, memcpy t p size m = Ok (t + size, m2) ∧ memcpy p q size m2 = Ok (p + size, m3) ∧
    memcpy q t size m3 = Ok (q + size, m4) ∧ heap_ok m4 a h G (<[t := size]> U) l ∧
    mem_at m4 p y ∧ mem_at m4 q x ∧ changes (λ z, cells t z ∨ cells p z ∨ cells q z) m m4.
Proof.
  intros Hh Ht Hp Hq [Lx Bx] [Ly By] Hpq Hout. pose proof (lookup_insert_eq U t size) as HU.
  destruct (heap_block _ _ _ _ _ _ _ _ Hh HU) as (_ & _ & _ & Hm & g & Hg & Hg1 & Hg2).
  assert (∀ z, cells t z → private G U z) as Htp by (intros z Hz; eapply (fresh_private m a h G U l t size z Hh Ht); exact Hz).
  assert (p + size ≤ t ∨ t + size ≤ p) as Dp.
  { apply cells_apart. intros z Hz Hz'. apply (Hout z); [by left|]. left. by apply Htp. }
  assert (q + size ≤ t ∨ t + size ≤ q) as Dq.
  { apply cells_apart. intros z Hz Hz'. apply (Hout z); [by right|]. left. by apply Htp. }
  set (m2 := write_bytes t x m). set (m3 := write_bytes p y m2). set (m4 := write_bytes q x m3).
  assert (mem_at m2 t x) as Ht2 by apply write_bytes_at.
  assert (mem_at m2 p x) as Hp2 by (apply write_bytes_mem_at_ne; [done|lia]).
  assert (mem_at m2 q y) as Hq2 by (apply write_bytes_mem_at_ne; [done|lia]).
  assert (mem_at m3 t x) as Ht3 by (apply write_bytes_mem_at_ne; [done|lia]).
  assert (mem_at m3 p y) as Hp3 by apply write_bytes_at.
  assert (mapped m3 q size) as Mq3.
  { rewrite <- Ly. apply mem_at_mapped. destruct Hpq as [->|]; [done|]. apply write_bytes_mem_at_ne; [done|lia]. }
  assert (changes (cells t) m m2) as C2 by (apply changes_write; rewrite Lx; done).
  assert (changes (cells p) m2 m3) as C3.
  { apply changes_write; rewrite Ly; [|done]. rewrite <- Lx. by apply mem_at_mapped. }
  assert (changes (cells q) m3 m4) as C4 by (apply changes_write; rewrite Lx; done).
  assert (changes (λ z, cells t z ∨ cells p z ∨ cells q z) m m4) as C.
  { eapply changes_trans; [eapply changes_trans|]; (eapply changes_weaken; [|done]); tauto. }
  exists m2, m3, m4. split_and!; [apply memcpy_ok|apply memcpy_ok|apply memcpy_ok| | | |done]; try done; try (unfold ascending; lia).
  - rewrite <- Lx. by apply mem_at_mapped.
  - eapply heap_update; [exact Hh|exact C| | |by intros r Hr; apply (heap_page _ _ _ _ _ _ _ Hh Hr)].
    + intros z [Hz|Hz]; [left; exists t, size; split; [done|exact Hz]|].
      destruct (block_dec U z) as [Hb|Hb]; [left; by apply insert_block|right]. intros Ha. apply (Hout z Hz). left. by split.
    + eapply avail_frame; [by eapply heap_avail|apply C|]. intros r z Hr Hz. apply C.
      intros [Hz'|Hz']; [|apply (Hout z Hz'); right; by exists r].
      destruct (heap_page _ _ _ _ _ _ _ Hh Hg) as [Hgl Hgk].
      destruct (avail_pages _ _ _ (heap_avail _ _ _ _ _ _ Hh)) as [_ Hk].
      eapply (kpage_disjoint r g); [by apply Hk|done| |done|unfold cells in Hz'; lia]. by intros ->.
  - destruct Hpq as [->|]; [|apply write_bytes_mem_at_ne; [done|lia]].
    rewrite (mem_at_fun _ _ _ _ Hq Hp) by lia. apply write_bytes_at.
  - apply write_bytes_at.
Qed.

Lemma exchange_ok m a h G U l p q x y : heap_ok m a h G U l → enough h l → mem_at m p x → mem_at m q y →
  item x → item y → p = q ∨ p + size ≤ q → (∀ z, cells p z ∨ cells q z → ¬ scratch G U l z) →
  ∃ m' a' h' G' l', exchange p q size (m, a, h) = Ok (tt, (m', a', h')) ∧ heap_ok m' a' h' G' U l' ∧
    spends h G l h' G' l' ∧ mem_at m' p y ∧ mem_at m' q x ∧
    changes (λ z, scratch G U l z ∨ cells p z ∨ cells q z) m m'.
Proof.
  intros Hh He Hp Hq Hx Hy Hpq Hout. pose proof Hx as [Lx _]. pose proof Hy as [Ly _].
  destruct (temp_ok m a h G U l Hh He) as (t & m1 & a1 & h1 & G1 & l1 & E1 & Hh1 & Ht & Htk & Hsame & C1).
  assert (∀ z, scratch G1 U l1 z → scratch G U l z) as Hsub.
  { intros z Hz. destruct Htk as [[-> ->]|(r & -> & ->)]; [done|].
    destruct Hz as [[(g & Hg & Hgx) Hnb]|(g & Hg & Hgx)]; [|right; exists g; split; [by right|done]].
    apply elem_of_cons in Hg as [->|Hg]; [right; exists r; split; [by left|done]|left; split; [by exists g|done]]. }
  assert (∀ b l0, mem_at m b l0 → (∀ z, b ≤ z < b + Z.of_nat (length l0) → ¬ scratch G U l z) → mem_at m1 b l0) as Hkeep.
  { intros b l0 Hb Hz. eapply changes_bytes; [done..|]. intros z Hs Hz'. by apply (Hz z). }
  destruct (copies_ok m1 a1 h1 G1 U l1 t p q x y Hh1 Ht) as (m2 & m3 & m4 & E2 & E3 & E4 & Hh4 & Hp4 & Hq4 & C4); try done.
  { apply Hkeep; [done|]. rewrite Lx. intros z Hz. apply Hout. by left. }
  { apply Hkeep; [done|]. rewrite Ly. intros z Hz. apply Hout. by right. }
  { intros z Hz Hs. apply (Hout z Hz). by apply Hsub. }
  destruct (heap_free_cached m4 a1 h1 G1 (<[t := size]> U) l1 t size Hh4) as (m5 & h5 & E5 & Hh5 & C5 & Hca);
    [by rewrite lookup_insert_eq|done|].
  rewrite delete_insert_id in Hh5 by done.
  assert (∀ z, private G1 (<[t := size]> U) z → scratch G U l z) as Hpriv.
  { intros z Hz. apply Hsub. left. eapply private_mono; [reflexivity| |exact Hz]. intros w. by apply insert_block. }
  exists m5, a1, h5, G1, l1. split_and!; [|done| | | |].
  - unfold exchange. rewrite (bind_ok _ _ _ _ _ E1), (bind_ok _ _ _ _ _ (on_memory_ok _ _ _ _ _ _ E2)).
    by rewrite (bind_ok _ _ _ _ _ (on_memory_ok _ _ _ _ _ _ E3)), (bind_ok _ _ _ _ _ (on_memory_ok _ _ _ _ _ _ E4)).
  - split_and!; [done| |by left]. intros Hc. split; [done|]. by apply Hsame.
  - eapply changes_bytes; [done..|]. rewrite Ly. intros z Hz Hz'. apply (Hout z); [by left|by apply Hpriv].
  - eapply changes_bytes; [done..|]. rewrite Lx. intros z Hz Hz'. apply (Hout z); [by right|by apply Hpriv].
  - eapply changes_trans; [|eapply changes_trans].
    + eapply changes_weaken; [|exact C1]. tauto.
    + eapply changes_weaken; [|exact C4]. intros z [Hz|Hz]; [left|tauto]. apply Hsub. left.
      by eapply (fresh_private m1 a1 h1 G1 U l1 t size z Hh1 Ht).
    + eapply changes_weaken; [|exact C5]. intros z Hz. left. by apply Hpriv.
Qed.
End exchange.

(** ** Arrays and the partition *)
Section sort.
Context {A : Type} `{PageAllocator A} (size : Z) (Hsize : kernel_size size).
Context (compar : Z → Z → M (mem * A * mheap) Z) (cmp : list Z → list Z → Z).
Context (Hcompar : ∀ m a h p q x y, mem_at m p x → mem_at m q y → item size x → item size y →
  compar p q (m, a, h) = Ok (cmp x y, (m, a, h))).
Implicit Types (m : mem) (a : A) (h : mheap) (U : gmap Z Z) (G l : list Z) (xs ys lo mid hi : list (list Z)).

Record array m (base : Z) xs : Prop := { ar_items : Forall (item size) xs; ar_cells : mem_at m base (concat xs) }.
Definition extent (base : Z) xs (z : Z) : Prop := base ≤ z < base + Z.of_nat (length xs) * size.
Definition at_index (base : Z) xs : Z := base + Z.of_nat (length xs) * size.

Lemma concat_length xs : Forall (item size) xs → Z.of_nat (length (concat xs)) = Z.of_nat (length xs) * size.
Proof. induction 1 as [|x xs [Hx _] _ IH]; [done|]. cbn [concat length]. rewrite length_app. lia. Qed.

Lemma width_pos n : 0 ≤ Z.of_nat n * size.
Proof. pose proof (size_pos size Hsize). lia. Qed.

Lemma array_at_app m base xs ys : array m base (xs ++ ys) ↔ array m base xs ∧ array m (at_index base xs) ys.
Proof.
  split.
  - intros [[Hx Hy]%Forall_app Hm]. rewrite concat_app, mem_at_app, concat_length in Hm by done. by destruct Hm.
  - intros [[Hx Mx] [Hy My]]. split; [by apply Forall_app|]. by rewrite concat_app, mem_at_app, concat_length.
Qed.

Lemma array_one m base x : array m base [x] ↔ item size x ∧ mem_at m base x.
Proof.
  split; [intros [[Hx _]%Forall_cons Hm]; simpl in Hm; by rewrite app_nil_r in Hm|].
  intros [Hx Hm]. split; [by constructor|]. simpl. by rewrite app_nil_r.
Qed.

Lemma array_cons m base x xs : array m base (x :: xs) ↔ (item size x ∧ mem_at m base x) ∧ array m (base + size) xs.
Proof.
  change (x :: xs) with ([x] ++ xs). rewrite array_at_app, array_one. unfold at_index.
  by replace (base + Z.of_nat (length [x]) * size) with (base + size) by (simpl; lia).
Qed.

Lemma array_frame P m m' base xs : array m base xs → changes P m m' → (∀ z, P z → ¬ extent base xs z) → array m' base xs.
Proof.
  intros [Hi Hm] HC HP. split; [done|]. eapply changes_bytes; [done..|]. intros z Hz. rewrite concat_length by done. by apply HP.
Qed.

(** The loops over the elements. *)
Lemma scan_up_ok m a h pivot x0 (right : Z) : mem_at m pivot x0 → item size x0 →
  ∀ mid fuel left, array m left mid → (length mid ≤ fuel)%nat → right = at_index left mid - size → 0 ≤ left →
  at_index left mid < 2 ^ 64 →
  ∃ lo ys, mid = lo ++ ys ∧ Forall (λ x, cmp x x0 ≤ 0) lo ∧ (∀ y zs, ys = y :: zs → 0 < cmp y x0) ∧
    scan_up compar fuel left right pivot size (m, a, h) = Ok (at_index left lo, (m, a, h)).
Proof.
  intros Hp Hx0. pose proof (size_pos size Hsize) as Hs. unfold at_index.
  induction mid as [|x mid IH]; intros fuel left Har Hf Hr Hl Hb.
  - exists [], []. split_and!; [done|done|done|]. simpl in *.
    destruct fuel; simpl; (destruct (Z.leb_spec left right); [lia|]); by rewrite Z.add_0_r.
  - apply array_cons in Har as [[Hx Hxm] Har]. destruct fuel as [|fuel]; [simpl in Hf; lia|]. cbn [length] in *.
    pose proof (width_pos (length mid)).
    destruct (Z.leb_spec (cmp x x0) 0) as [Hc|Hc].
    + destruct (IH fuel (left + size)) as (lo & ys & -> & Hlo & Hys & E); [done|lia|lia|lia|lia|].
      exists (x :: lo), ys. split_and!; [done|by constructor|done|]. cbn [scan_up length].
      destruct (Z.leb_spec left right); [|lia]. rewrite (bind_ok _ _ _ _ _ (Hcompar m a h left pivot x x0 Hxm Hp Hx Hx0)).
      destruct (Z.leb_spec (cmp x x0) 0); [|lia]. rewrite wrap_id by lia. rewrite E. do 2 f_equal. lia.
    + exists [], (x :: mid). split_and!; [done|done|by intros y zs [= <- _]|]. cbn [scan_up length].
      destruct (Z.leb_spec left right); [|lia]. rewrite (bind_ok _ _ _ _ _ (Hcompar m a h left pivot x x0 Hxm Hp Hx Hx0)).
      destruct (Z.leb_spec (cmp x x0) 0); [lia|]. by replace (left + Z.of_nat 0 * size) with left by lia.
Qed.

Lemma scan_down_ok m a h pivot x0 left : mem_at m pivot x0 → item size x0 → size ≤ left →
  ∀ mid fuel, array m left mid → (length mid ≤ fuel)%nat → at_index left mid < 2 ^ 64 →
  ∃ ys hi, mid = ys ++ hi ∧ Forall (λ x, 0 < cmp x x0) hi ∧ (∀ y zs, ys = zs ++ [y] → cmp y x0 ≤ 0) ∧
    scan_down compar fuel left (at_index left mid - size) pivot size (m, a, h) =
      Ok (at_index left ys - size, (m, a, h)).
Proof.
  intros Hp Hx0 Hl. pose proof (size_pos size Hsize) as Hs. unfold at_index.
  induction mid as [|x mid IH] using rev_ind; intros fuel Har Hf Hb.
  - exists [], []. split_and!; [done|done|by intros y [|]|]. simpl in *.
    destruct fuel; simpl; by destruct (Z.leb_spec left (left + Z.of_nat 0 * size - size)); [lia|].
  - apply array_at_app in Har as [Har [Hx Hxm]%array_one]. rewrite length_app in *. cbn [length] in *.
    destruct fuel as [|fuel]; [lia|]. pose proof (width_pos (length mid)).
    assert (mem_at m (left + Z.of_nat (length mid + 1) * size - size) x) as Hxm'.
    { unfold at_index in Hxm. by replace (left + Z.of_nat (length mid + 1) * size - size) with (left + Z.of_nat (length mid) * size) by lia. }
    destruct (Z.ltb_spec 0 (cmp x x0)) as [Hc|Hc].
    + destruct (IH fuel) as (ys & hi & -> & Hhi & Hys & E); [done|lia|lia|].
      exists ys, (hi ++ [x]). split_and!; [by rewrite app_assoc|apply Forall_app; split; [done|by constructor]|done|].
      cbn [scan_down]. destruct (Z.leb_spec left (left + Z.of_nat (length (ys ++ hi) + 1) * size - size)); [|lia].
      rewrite (bind_ok _ _ _ _ _ (Hcompar m a h _ pivot x x0 Hxm' Hp Hx Hx0)).
      destruct (Z.ltb_spec 0 (cmp x x0)); [|lia]. rewrite wrap_id by lia. rewrite <- E. f_equal. lia.
    + exists (mid ++ [x]), []. split_and!; [by rewrite app_nil_r|done|by intros y zs [_ [= ->]]%app_inj_2|].
      cbn [scan_down]. destruct (Z.leb_spec left (left + Z.of_nat (length mid + 1) * size - size)); [|lia].
      rewrite (bind_ok _ _ _ _ _ (Hcompar m a h _ pivot x x0 Hxm' Hp Hx Hx0)).
      destruct (Z.ltb_spec 0 (cmp x x0)); [lia|]. rewrite length_app. cbn [length]. done.
Qed.

(** Two elements exchanged. *)
Lemma array_swap (P : Z → Prop) m m' base (l1 : list (list Z)) y (l2 : list (list Z)) z (l3 : list (list Z)) p q : array m base (l1 ++ y :: l2 ++ z :: l3) →
  p = at_index base l1 → q = at_index base (l1 ++ y :: l2) → mem_at m' p z → mem_at m' q y →
  changes (λ w, P w ∨ cells size p w ∨ cells size q w) m m' →
  (∀ w, P w → ¬ extent base (l1 ++ y :: l2 ++ z :: l3) w) → array m' base (l1 ++ z :: l2 ++ y :: l3).
Proof.
  intros Har -> Hq Hz Hy HC HP. pose proof (size_pos size Hsize) as Hs.
  assert (∀ ks ls, l1 ++ y :: l2 ++ z :: l3 = ks ++ ls → ∀ w, P w → ¬ extent base ks w ∧ ¬ extent (at_index base ks) ls w) as HP'.
  { intros ks ls E w Hw. specialize (HP w Hw). rewrite E in HP. unfold extent, at_index in *. rewrite length_app in HP.
    pose proof (width_pos (length ks)). pose proof (width_pos (length ls)). lia. }
  apply array_at_app in Har as [A1 Har]. apply array_cons in Har as [[Iy _] Har].
  apply array_at_app in Har as [A2 Har]. apply array_cons in Har as [[Iz _] A3].
  pose proof (width_pos (length l1)). pose proof (width_pos (length l2)). pose proof (width_pos (length l3)).
  unfold at_index in *. rewrite !length_app in *. cbn [length] in *.
  apply array_at_app. split; [|apply array_cons; split; [split; [done|exact Hz]|apply array_at_app; split; [|apply array_cons; split; [split; [done|]|]]]].
  - eapply array_frame; [exact A1|exact HC|]. unfold cells, extent in *. intros w [Hw|Hw]; [|lia].
    apply (HP' l1 (y :: l2 ++ z :: l3) eq_refl w Hw).
  - eapply array_frame; [exact A2|exact HC|]. unfold at_index, cells, extent in *. intros w [Hw|Hw]; [|lia].
    destruct (HP' l1 (y :: l2 ++ z :: l3) eq_refl w Hw) as [_ Hn]. cbn [length] in Hn. rewrite length_app in Hn. cbn [length] in Hn. lia.
  - unfold at_index. replace (base + Z.of_nat (length l1) * size + size + Z.of_nat (length l2) * size) with
      q by lia. done.
  - eapply array_frame; [exact A3|exact HC|]. unfold at_index, cells, extent in *. intros w [Hw|Hw]; [|lia].
    destruct (HP' l1 (y :: l2 ++ z :: l3) eq_refl w Hw) as [_ Hn]. cbn [length] in Hn. rewrite length_app in Hn. cbn [length] in Hn. lia.
Qed.

Definition outside G U l base xs : Prop := ∀ z, extent base xs z → ¬ scratch G U l z.

Lemma outside_spends h G U l h' G' l' base xs ys : spends size h G l h' G' l' → outside G U l base xs →
  ys ≡ₚ xs → outside G' U l' base ys.
Proof.
  intros Hsp Ho Hp z Hz Hs. apply (Ho z); [|by eapply scratch_spends]. unfold extent in *. by rewrite <- Hp.
Qed.

(** One turn of the loop that exchanges. *)
Lemma turn_ok m a h G U l base pre y mid z post : heap_ok m a h G U l → enough size h l →
  array m base (pre ++ y :: mid ++ z :: post) → outside G U l base (pre ++ y :: mid ++ z :: post) →
  ∃ m' a' h' G' l', exchange (at_index base pre) (at_index base (pre ++ y :: mid)) size (m, a, h) = Ok (tt, (m', a', h')) ∧
    heap_ok m' a' h' G' U l' ∧ spends size h G l h' G' l' ∧ array m' base (pre ++ z :: mid ++ y :: post) ∧
    changes (λ w, scratch G U l w ∨ extent base (pre ++ y :: mid ++ z :: post) w) m m'.
Proof.
  intros Hh He Har Ho. pose proof (size_pos size Hsize) as Hs. pose proof Har as Har'.
  apply array_at_app in Har as [_ Har]. apply array_cons in Har as [[Iy My] Har].
  apply array_at_app in Har as [_ Har]. apply array_cons in Har as [[Iz Mz] _].
  pose proof (width_pos (length pre)). pose proof (width_pos (length mid)). pose proof (width_pos (length post)).
  assert (at_index (at_index base pre + size) mid = at_index base (pre ++ y :: mid)) as E.
  { unfold at_index. rewrite length_app. cbn [length]. lia. }
  rewrite E in Mz.
  assert (∀ w, cells size (at_index base pre) w ∨ cells size (at_index base (pre ++ y :: mid)) w →
    extent base (pre ++ y :: mid ++ z :: post) w) as Hin.
  { intros w. unfold cells, at_index, extent. rewrite !length_app. cbn [length]. rewrite length_app. cbn [length]. lia. }
  destruct (exchange_ok size Hsize m a h G U l (at_index base pre) (at_index base (pre ++ y :: mid)) y z Hh He My Mz Iy Iz) as
    (m' & a' & h' & G' & l' & E1 & Hh' & Hsp & Mz' & My' & C).
  { right. rewrite <- E. unfold at_index. lia. }
  { intros w Hw. by apply Ho, Hin. }
  exists m', a', h', G', l'. split_and!; [done|done|done| |].
  - eapply array_swap; [exact Har'|reflexivity|reflexivity|done|done|exact C|]. intros w Hw Hx. by apply (Ho w).
  - eapply changes_weaken; [|exact C]. intros w [?|Hw]; [by left|right; by apply Hin].
Qed.

(** The partition: afterwards come the elements not above the pivot, then those above. *)
Lemma partition_ok base x0 : 0 ≤ base → ∀ fuel mid lo hi m a h G U l, heap_ok m a h G U l → enough size h l →
  array m base (x0 :: lo ++ mid ++ hi) → outside G U l base (x0 :: lo ++ mid ++ hi) →
  at_index base (x0 :: lo ++ mid ++ hi) < 2 ^ 64 → (length mid ≤ fuel)%nat →
  Forall (λ x, cmp x x0 ≤ 0) lo → Forall (λ x, 0 < cmp x x0) hi →
  ∃ m' a' h' G' l' lo' hi', partition compar fuel (at_index base (x0 :: lo)) (at_index base (x0 :: lo ++ mid) - size) base size (m, a, h) =
      Ok (at_index base (x0 :: lo') - size, (m', a', h')) ∧ heap_ok m' a' h' G' U l' ∧ spends size h G l h' G' l' ∧
    array m' base (x0 :: lo' ++ hi') ∧ lo' ++ hi' ≡ₚ lo ++ mid ++ hi ∧ Forall (λ x, cmp x x0 ≤ 0) lo' ∧
    Forall (λ x, 0 < cmp x x0) hi' ∧ changes (λ z, scratch G U l z ∨ extent base (x0 :: lo ++ mid ++ hi) z) m m'.
Proof.
  intros Hbase. pose proof (size_pos size Hsize) as Hs. induction fuel as [|fuel IH]; intros mid lo hi m a h G U l Hh He Har Ho Hb Hf Hlo Hhi.
  all: destruct mid as [|e mid].
  1,3: exists m, a, h, G, l, lo, hi; split_and!; [|done|apply spends_refl|done|done|done|done|apply changes_refl].
  1,2: rewrite app_nil_r; cbn [partition]; unfold at_index; by destruct (Z.leb_spec (base + Z.of_nat (length (x0 :: lo)) * size)
    (base + Z.of_nat (length (x0 :: lo)) * size - size)); [lia|].
  - simpl in Hf. lia.
  - set (left := at_index base (x0 :: lo)) in *.
    assert (∀ us, at_index base (x0 :: lo ++ us) = at_index left us) as Hix.
    { intros us. unfold left, at_index. cbn [length]. rewrite length_app. lia. }
    assert (∀ us vs, at_index left (us ++ vs) = at_index (at_index left us) vs) as Hix'.
    { intros us vs. unfold at_index. rewrite length_app. lia. }
    pose proof (width_pos (length lo)) as Wlo. pose proof (width_pos (length mid)) as Wmid. pose proof (width_pos (length hi)) as Whi.
    assert (0 ≤ left) as Hl0 by (unfold left, at_index; cbn [length]; lia).
    pose proof Har as Har0. apply array_cons in Har0 as [[Ix0 Mx0] Har0].
    apply array_at_app in Har0 as [_ Har0]. apply array_at_app in Har0 as [Amid _].
    replace (at_index (base + size) lo) with left in Amid by (unfold left, at_index; cbn [length]; lia).
    assert (at_index left (e :: mid) < 2 ^ 64) as Hb'.
    { rewrite Hix, Hix' in Hb. unfold at_index at 1 in Hb. lia. }
    rewrite Hix.
    destruct (scan_up_ok m a h base x0 (at_index left (e :: mid) - size) Mx0 Ix0 (e :: mid) (S fuel) left Amid Hf eq_refl Hl0 Hb') as
      (lo1 & ys & Emid & Hlo1 & Hys & E1).
    rewrite Emid in Amid, Hb'. pose proof Amid as [Alo1 Ays]%array_at_app. rewrite Hix' in Hb'.
    pose proof (width_pos (length lo1)) as Wlo1.
    assert (length (e :: mid) = length lo1 + length ys)%nat as Elen by (rewrite Emid, length_app; done).
    destruct (scan_down_ok m a h base x0 (at_index left lo1) Mx0 Ix0) with (mid := ys) (fuel := S fuel) as
      (zs & hi1 & -> & Hhi1 & Hzs & E2); [unfold left, at_index; cbn [length]; lia|done|lia|done|].
    rewrite <- Hix', <- Emid in E2.
    cbn [partition]. destruct (Z.leb_spec left (at_index left (e :: mid) - size)) as [_|Hle]; [|unfold at_index in Hle; cbn [length] in Hle; lia].
    rewrite (bind_ok _ _ _ _ _ E1), (bind_ok _ _ _ _ _ E2).
    assert (lo ++ (e :: mid) ++ hi = (lo ++ lo1) ++ zs ++ (hi1 ++ hi)) as Eall by by rewrite Emid, <- !app_assoc.
    assert (Forall (λ x, cmp x x0 ≤ 0) (lo ++ lo1)) as Hlo' by (apply Forall_app; done).
    assert (Forall (λ x, 0 < cmp x x0) (hi1 ++ hi)) as Hhi' by (apply Forall_app; done).
    rewrite Eall in *.
    destruct zs as [|y zs].
    + destruct (Z.ltb_spec (at_index left lo1) (at_index (at_index left lo1) [] - size)) as [Hlt|_]; [unfold at_index in Hlt; simpl in Hlt; lia|].
      destruct (IH [] (lo ++ lo1) (hi1 ++ hi) m a h G U l Hh He Har Ho) as
        (m' & a' & h' & G' & l' & lo' & hi' & E & Hres); [done|simpl; lia|done|done|].
      exists m', a', h', G', l', lo', hi'. split; [|exact Hres]. rewrite <- E. cbn [app]. rewrite app_nil_r.
      rewrite Hix. f_equal. unfold at_index. simpl. lia.
    + destruct zs as [|z zs _] using rev_ind.
      { pose proof (Hys y hi1 eq_refl). pose proof (Hzs y [] eq_refl). lia. }
      specialize (Hys y ((zs ++ [z]) ++ hi1) eq_refl). specialize (Hzs z (y :: zs) eq_refl).
      destruct (Z.ltb_spec (at_index left lo1) (at_index (at_index left lo1) (y :: zs ++ [z]) - size)) as [_|Hlt];
        [|unfold at_index in Hlt; cbn [length] in Hlt; rewrite length_app in Hlt; cbn [length] in Hlt; pose proof (width_pos (length zs)); lia].
      assert (x0 :: (lo ++ lo1) ++ (y :: zs ++ [z]) ++ hi1 ++ hi = (x0 :: lo ++ lo1) ++ y :: zs ++ z :: hi1 ++ hi) as Eturn
        by (simpl; by rewrite <- !app_assoc).
      rewrite Eturn in Har, Ho.
      destruct (turn_ok m a h G U l base (x0 :: lo ++ lo1) y zs z (hi1 ++ hi) Hh He Har Ho) as
        (m1 & a1 & h1 & G1 & l1 & E3 & Hh1 & Hsp1 & Har1 & C1).
      assert ((x0 :: lo ++ lo1) ++ z :: zs ++ y :: hi1 ++ hi = x0 :: ((lo ++ lo1) ++ [z]) ++ zs ++ (y :: hi1 ++ hi)) as Eturn'
        by (simpl; by rewrite <- !app_assoc).
      assert (x0 :: ((lo ++ lo1) ++ [z]) ++ zs ++ (y :: hi1 ++ hi) ≡ₚ (x0 :: lo ++ lo1) ++ y :: zs ++ z :: hi1 ++ hi) as Hperm by solve_Permutation.
      rewrite Eturn' in Har1.
      destruct (IH zs ((lo ++ lo1) ++ [z]) (y :: hi1 ++ hi) m1 a1 h1 G1 U l1 Hh1) as
        (m2 & a2 & h2 & G2 & l2 & lo2 & hi2 & E4 & Hh2 & Hsp2 & Har2 & Hp2 & Hlo2 & Hhi2 & C2).
      * by eapply spends_enough.
      * done.
      * by eapply outside_spends.
      * unfold at_index in *. rewrite Hperm. by rewrite Eturn in Hb.
      * rewrite Elen in Hf. cbn [app length] in Hf. rewrite !length_app in Hf. cbn [length] in Hf. lia.
      * apply Forall_app. split; [done|by constructor].
      * by constructor.
      * exists m2, a2, h2, G2, l2, lo2, hi2. split_and!; [|done|by eapply spends_trans|done| |done|done|].
        -- assert (at_index left lo1 = at_index base (x0 :: lo ++ lo1)) as X1 by by rewrite Hix.
           assert (at_index (at_index left lo1) (y :: zs ++ [z]) - size = at_index base ((x0 :: lo ++ lo1) ++ y :: zs)) as X2.
           { rewrite X1. unfold at_index. rewrite length_app. cbn [length]. rewrite !length_app. cbn [length]. lia. }
           rewrite X2, X1, (bind_ok _ _ _ _ _ E3), <- E4.
           assert (at_index base ((x0 :: lo ++ lo1) ++ y :: zs) < 2 ^ 64) as X3.
           { rewrite <- X2. unfold at_index in *. rewrite length_app in Hb'. lia. }
           unfold at_index in *. cbn [app length] in *. rewrite !length_app in *. cbn [length] in *. rewrite !length_app in *.
           pose proof (width_pos (length zs)). rewrite !wrap_id by lia. f_equal; lia.
        -- rewrite Hp2. solve_Permutation.
        -- rewrite Eturn. eapply changes_trans; [exact C1|]. eapply changes_weaken; [|exact C2].
           intros w [Hw|Hw]; [left; by eapply scratch_spends|right]. unfold extent in *. by rewrite Hperm in Hw.
Qed.

(** The pivot goes to its place. *)
Lemma place_ok m a h G U l base x0 lo hi : heap_ok m a h G U l → enough size h l → array m base (x0 :: lo ++ hi) →
  outside G U l base (x0 :: lo ++ hi) →
  ∃ m' a' h' G' l' lo', exchange base (at_index base (x0 :: lo) - size) size (m, a, h) = Ok (tt, (m', a', h')) ∧
    heap_ok m' a' h' G' U l' ∧ spends size h G l h' G' l' ∧ array m' base (lo' ++ x0 :: hi) ∧ lo' ≡ₚ lo ∧
    changes (λ w, scratch G U l w ∨ extent base (x0 :: lo ++ hi) w) m m'.
Proof.
  intros Hh He Har Ho. pose proof (size_pos size Hsize) as Hs. destruct lo as [|z lo _] using rev_ind.
  - replace (at_index base [x0] - size) with base by (unfold at_index; simpl; lia).
    pose proof Har as [[I0 M0] Ahi]%array_cons. cbn [app] in *. pose proof (width_pos (length hi)).
    assert (∀ w, cells size base w → extent base (x0 :: hi) w) as Hin by (unfold cells, extent; cbn [length]; lia).
    destruct (exchange_ok size Hsize m a h G U l base base x0 x0 Hh He M0 M0 I0 I0) as
      (m' & a' & h' & G' & l' & E & Hh' & Hsp & M0' & _ & C); [by left|intros w Hw; apply Ho, Hin; tauto|].
    exists m', a', h', G', l', []. split_and!; [done|done|done| |done|].
    + cbn [app]. apply array_cons. split; [done|]. eapply array_frame; [exact Ahi|exact C|].
      intros w [Hw|Hw] Hx; unfold cells, extent in *; [|lia]. apply (Ho w); [|done]. unfold extent. cbn [length]. lia.
    + eapply changes_weaken; [|exact C]. intros w [?|Hw]; [by left|right; apply Hin; tauto].
  - assert (x0 :: (lo ++ [z]) ++ hi = [] ++ x0 :: lo ++ z :: hi) as E by (simpl; by rewrite <- app_assoc).
    rewrite E in Har, Ho. destruct (turn_ok m a h G U l base [] x0 lo z hi Hh He Har Ho) as
      (m' & a' & h' & G' & l' & E1 & Hh' & Hsp & Har' & C).
    exists m', a', h', G', l', (z :: lo). split_and!; [|done|done|exact Har'|solve_Permutation|by rewrite E].
    rewrite <- E1. f_equal; unfold at_index; cbn [app length]; rewrite ?length_app; cbn [length]; lia.
Qed.

(** The order of the elements. *)
Definition below_eq (x y : list Z) : Prop := cmp x y ≤ 0.
Definition preorder : Prop := (∀ x y, below_eq x y ∨ below_eq y x) ∧ (∀ x y z, below_eq x y → below_eq y z → below_eq x z).

Lemma sorted_place x0 lo hi ls hs : preorder → ls ≡ₚ lo → hs ≡ₚ hi → Forall (λ x, cmp x x0 ≤ 0) lo →
  Forall (λ x, 0 < cmp x x0) hi → StronglySorted below_eq ls → StronglySorted below_eq hs →
  StronglySorted below_eq (ls ++ x0 :: hs).
Proof.
  intros [Htot Htr] Hls Hhs Hlo Hhi Sl Sh. rewrite <- Hls in Hlo. rewrite <- Hhs in Hhi.
  rewrite Forall_forall in Hlo, Hhi.
  assert (∀ y, y ∈ hs → below_eq x0 y) as Hx.
  { intros y Hy. destruct (Htot x0 y) as [|Hyx]; [done|]. specialize (Hhi y Hy). unfold below_eq in Hyx. lia. }
  apply StronglySorted_app. split_and!; [|done|].
  - intros x y Hxl [->|Hy]%elem_of_cons; [by apply Hlo|]. eapply Htr; [by apply Hlo|by apply Hx].
  - constructor; [done|]. by apply Forall_forall.
Qed.

(** Two sorting steps on disjoint parts of an array. *)
Lemma array_left P m m' base xs ys zs : array m base (xs ++ ys) → changes P m m' → array m' base zs → zs ≡ₚ xs →
  (∀ w, P w → ¬ extent (at_index base xs) ys w) → array m' base (zs ++ ys).
Proof.
  intros [_ Hy]%array_at_app C Hz Hp HP. apply array_at_app. split; [done|].
  assert (at_index base zs = at_index base xs) as -> by (unfold at_index; by rewrite Hp). by eapply array_frame.
Qed.

Lemma array_right P m m' base xs ys zs : array m base (xs ++ ys) → changes P m m' → array m' (at_index base xs) zs →
  (∀ w, P w → ¬ extent base xs w) → array m' base (xs ++ zs).
Proof. intros [Hx _]%array_at_app C Hz HP. apply array_at_app. split; [|done]. by eapply array_frame. Qed.

(** One call, from what its parts do. *)
Lemma qsort_step fuel base x0 x1 mid lo hi s s1 s2 s3 s4 : 0 ≤ base → at_index base (x0 :: x1 :: mid) < 2 ^ 64 →
  (length lo + length hi = S (length mid))%nat →
  partition compar (length (x0 :: x1 :: mid)) (at_index base [x0]) (at_index base (x0 :: x1 :: mid) - size) base size s =
    Ok (at_index base (x0 :: lo) - size, s1) →
  exchange base (at_index base (x0 :: lo) - size) size s1 = Ok (tt, s2) →
  qsort_rec compar fuel base (Z.of_nat (length lo)) size s2 = Ok (tt, s3) →
  qsort_rec compar fuel (at_index base lo + size) (Z.of_nat (length hi)) size s3 = Ok (tt, s4) →
  qsort_rec compar (S fuel) base (Z.of_nat (length (x0 :: x1 :: mid))) size s = Ok (tt, s4).
Proof.
  intros H0 Hb Elen E1 E2 E3 E4. pose proof (size_pos size Hsize) as Hs.
  pose proof (width_pos (length lo)). pose proof (width_pos (length hi)).
  rewrite <- (Nat2Z.id (length (x0 :: x1 :: mid))) in E1. unfold at_index in E1, E2, E4, Hb.
  set (num := Z.of_nat (length (x0 :: x1 :: mid))) in *.
  assert (num = Z.of_nat (length lo) + Z.of_nat (length hi) + 1) as En by (unfold num; cbn [length]; lia).
  assert (num * size = Z.of_nat (length lo) * size + Z.of_nat (length hi) * size + size) as Ens by (rewrite En; lia).
  assert (0 < num ≤ num * size) as Hn by (split; [lia|nia]).
  cbn [length] in E1, E2.
  replace (base + Z.of_nat (S (length lo)) * size - size) with (base + Z.of_nat (length lo) * size) in * by lia.
  replace (base + Z.of_nat 1 * size) with (base + size) in E1 by lia.
  cbn [qsort_rec]. destruct (Z.leb_spec num 1); [unfold num in *; cbn [length] in *; lia|].
  assert (u64 (u64 (num - 1) * size) = num * size - size) as -> by (rewrite !wrap_id by (rewrite ?wrap_id by lia; lia); lia).
  rewrite !(wrap_id 64 (base + _)) by lia.
  replace (base + (num * size - size)) with (base + num * size - size) by lia.
  rewrite (bind_ok _ _ _ _ _ E1), (bind_ok _ _ _ _ _ E2).
  replace (base + Z.of_nat (length lo) * size - base) with (Z.of_nat (length lo) * size) by lia.
  rewrite (wrap_id 64 (Z.of_nat (length lo) * size)), Z.div_mul by lia. rewrite (bind_ok _ _ _ _ _ E3), <- E4.
  rewrite !wrap_id by lia. f_equal. lia.
Qed.

Lemma qsort_rec_ok : preorder → ∀ fuel xs base m a h G U l, heap_ok m a h G U l → enough size h l → array m base xs →
  outside G U l base xs → 0 ≤ base → at_index base xs < 2 ^ 64 → (length xs ≤ fuel)%nat →
  ∃ m' a' h' G' l' ys, qsort_rec compar fuel base (Z.of_nat (length xs)) size (m, a, h) = Ok (tt, (m', a', h')) ∧
    heap_ok m' a' h' G' U l' ∧ spends size h G l h' G' l' ∧ array m' base ys ∧ ys ≡ₚ xs ∧ StronglySorted below_eq ys ∧
    changes (λ z, scratch G U l z ∨ extent base xs z) m m'.
Proof.
  intros Hpre. pose proof (size_pos size Hsize) as Hs. induction fuel as [|fuel IH]; intros xs base m a h G U l Hh He Har Ho H0 Hb Hf.
  - destruct xs; [|simpl in Hf; lia]. exists m, a, h, G, l, []. split_and!; [done|done|apply spends_refl|done|done|constructor|apply changes_refl].
  - destruct xs as [|x0 [|x1 mid]].
    1,2: eexists m, a, h, G, l, _; split_and!; [done|done|apply spends_refl|done|done|repeat constructor|apply changes_refl].
    set (num := Z.of_nat (length (x0 :: x1 :: mid))).
    pose proof (width_pos (length mid)) as Wmid.
    destruct (partition_ok base x0 H0 (Z.to_nat num) (x1 :: mid) [] [] m a h G U l Hh He) as
      (m1 & a1 & h1 & G1 & l1 & lo & hi & E1 & Hh1 & Hsp1 & Har1 & Hp1 & Hlo & Hhi & C1);
      [by rewrite app_nil_r|by rewrite app_nil_r|by rewrite app_nil_r|unfold num; simpl; lia|done|done|].
    cbn [app] in Hp1, E1, C1. rewrite app_nil_r in *.
    assert (x0 :: lo ++ hi ≡ₚ x0 :: x1 :: mid) as Hp1' by by rewrite Hp1.
    destruct (place_ok m1 a1 h1 G1 U l1 base x0 lo hi Hh1) as
      (m2 & a2 & h2 & G2 & l2 & lo' & E2 & Hh2 & Hsp2 & Har2 & Hp2 & C2); [by eapply spends_enough|done|by eapply outside_spends|].
    assert (lo' ++ x0 :: hi ≡ₚ x0 :: x1 :: mid) as Hp2' by (rewrite Hp2, <- Hp1'; solve_Permutation).
    assert (length lo' = length lo) as Elo by by rewrite Hp2.
    assert (length lo + length hi = S (length mid))%nat as Elen by (apply Permutation_length in Hp1; rewrite length_app in Hp1; done).
    pose proof (width_pos (length lo)). pose proof (width_pos (length hi)).
    pose proof (spends_trans _ _ _ _ _ _ _ _ _ _ Hsp1 Hsp2) as Hsp12.
    assert (outside G2 U l2 base (lo' ++ x0 :: hi)) as Ho2 by (eapply outside_spends; [exact Hsp12|done|done]).
    pose proof Har2 as [Alo [_ Ahi]%array_cons]%array_at_app.
    destruct (IH lo' base m2 a2 h2 G2 U l2 Hh2) as
      (m3 & a3 & h3 & G3 & l3 & ls & E3 & Hh3 & Hsp3 & Als & Hls & Sls & C3).
    + by eapply spends_enough; [|exact Hsp12].
    + done.
    + intros w Hw. apply Ho2. unfold extent in *. rewrite length_app. cbn [length]. lia.
    + done.
    + unfold at_index in *. cbn [length] in Hb. lia.
    + simpl in Hf. lia.
    + pose proof (spends_trans _ _ _ _ _ _ _ _ _ _ Hsp12 Hsp3) as Hsp13.
      assert (Permutation (ls ++ x0 :: hi) (lo' ++ x0 :: hi)) as Hls' by by rewrite Hls.
      assert (at_index base ls = at_index base lo') as Els by (unfold at_index; by rewrite Hls).
      assert (array m3 base (ls ++ x0 :: hi)) as Har3.
      { eapply array_left; [exact Har2|exact C3|done|done|]. intros w [Hw|Hw] Hx.
        - apply (Ho2 w); [|done]. unfold extent, at_index in *. rewrite length_app. cbn [length] in *. lia.
        - unfold extent, at_index in *. cbn [length] in *. lia. }
      assert (outside G3 U l3 base (ls ++ x0 :: hi)) as Ho3 by (eapply outside_spends; [exact Hsp3|exact Ho2|done]).
      assert (∀ w, extent (at_index base lo' + size) hi w → extent base (ls ++ x0 :: hi) w) as Hin.
      { intros w. rewrite <- Els. unfold extent, at_index. rewrite length_app. cbn [length]. pose proof (width_pos (length ls)). lia. }
      pose proof Har3 as [_ [_ Ahi3]%array_cons]%array_at_app. rewrite Els in Ahi3.
      destruct (IH hi (at_index base lo' + size) m3 a3 h3 G3 U l3 Hh3) as
        (m4 & a4 & h4 & G4 & l4 & hs & E4 & Hh4 & Hsp4 & Ahs & Hhs & Shs & C4).
      * by eapply spends_enough; [|exact Hsp13].
      * done.
      * intros w Hw. by apply Ho3, Hin.
      * unfold at_index. rewrite Elo. lia.
      * unfold at_index in *. rewrite Elo. cbn [length] in Hb. lia.
      * simpl in Hf. lia.
      * exists m4, a4, h4, G4, l4, (ls ++ x0 :: hs). split_and!; [|done|by eapply spends_trans| | | |].
        -- rewrite Elo in E3. unfold num in *. rewrite Nat2Z.id in E1.
           eapply (qsort_step fuel base x0 x1 mid lo hi); [done|done|done|exact E1|exact E2|exact E3|].
           rewrite <- E4. f_equal. unfold at_index. by rewrite Elo.
        -- assert (at_index base lo' + size = at_index base (ls ++ [x0])) as Elx.
           { rewrite <- Els. unfold at_index. rewrite length_app. cbn [length]. lia. }
           rewrite Elx in C4, Ahs.
           assert (∀ ks, ls ++ x0 :: ks = (ls ++ [x0]) ++ ks) as Eks by (intros ks; by rewrite <- app_assoc).
           rewrite Eks in Har3, Ho3 |- *. eapply array_right; [exact Har3|exact C4|done|]. intros w [Hw|Hw] Hx.
           ++ apply (Ho3 w); [|done]. unfold extent in *. rewrite length_app. lia.
           ++ unfold extent, at_index in *. lia.
        -- by rewrite Hhs, Hls.
        -- apply (sorted_place x0 lo hi ls hs Hpre); [by rewrite Hls|done..].
        -- assert (∀ w, extent base (lo' ++ x0 :: hi) w → extent base (x0 :: x1 :: mid) w) as Hext.
           { intros w. unfold extent. by rewrite Hp2'. }
           eapply changes_trans; [exact C1|eapply changes_trans; [|eapply changes_trans]].
           ++ eapply changes_weaken; [|exact C2]. intros w [Hw|Hw]; [left; by apply (scratch_spends _ _ _ _ _ _ _ _ _ Hsp1)|right].
              unfold extent in *. by rewrite Hp1' in Hw.
           ++ eapply changes_weaken; [|exact C3]. intros w [Hw|Hw]; [left; by apply (scratch_spends _ _ _ _ _ _ _ _ _ Hsp12)|right].
              apply Hext. unfold extent in *. rewrite length_app. cbn [length]. lia.
           ++ eapply changes_weaken; [|exact C4]. intros w [Hw|Hw]; [left; by apply (scratch_spends _ _ _ _ _ _ _ _ _ Hsp13)|right].
              apply Hext. apply Hin in Hw. unfold extent in *. by rewrite Hls' in Hw.
Qed.
End sort.

(** ** Properties *)
Section properties.
Context {A : Type} `{PageAllocator A}.

(** The comparison function looks only at its two elements. *)
Definition decides (compar : Z → Z → M (mem * A * mheap) Z) (size : Z) (cmp : list Z → list Z → Z) : Prop :=
  ∀ m a h p q x y, mem_at m p x → mem_at m q y → item size x → item size y →
    compar p q (m, a, h) = Ok (cmp x y, (m, a, h)).

(** C34: [qsort].  For elements of a size the heap can give and take back, an array of them that the
    heap and the free pages do not overlap, a comparison that decides a total preorder, and a
    free block or a free page for the temporary, the call returns: the array holds the elements
    it held, in ascending order, the heap has the blocks it had and at most one more page, and
    nothing is written but the array and the private part of the heap. *)
Theorem qsort_correct compar cmp size base xs (m : mem) (a : A) h G U l :
  kernel_size size → decides compar size cmp → preorder cmp → heap_ok m a h G U l → enough size h l →
  array size m base xs → outside size G U l base xs → 0 ≤ base → base + Z.of_nat (length xs) * size < 2 ^ 64 →
  ∃ m' a' h' G' l' ys, qsort compar base (Z.of_nat (length xs)) size (m, a, h) = Ok (tt, (m', a', h')) ∧
    heap_ok m' a' h' G' U l' ∧ took G l G' l' ∧ array size m' base ys ∧ ys ≡ₚ xs ∧
    StronglySorted (λ x y, cmp x y ≤ 0) ys ∧ changes (λ z, scratch G U l z ∨ extent size base xs z) m m'.
Proof.
  intros Hsize Hdec Hpre Hh He Har Ho H0' Hb.
  destruct (qsort_rec_ok size Hsize compar cmp Hdec Hpre (length xs) xs base m a h G U l Hh He Har Ho H0' Hb) as
    (m' & a' & h' & G' & l' & ys & E & Hh' & (Ht & _) & Har' & Hp & Hs & C); [done|].
  exists m', a', h', G', l', ys. split_and!; try done. unfold qsort. by rewrite Nat2Z.id.
Qed.
End properties.

(** Three words on the heap, in descending order of the first two. *)
Definition sample_compar {A} (p q : Z) : M (mem * A * mheap) Z :=
  x ← on_memory (load64 p); y ← on_memory (load64 q); mret (if x <? y then -1 else if y <? x then 1 else 0).
Definition sample_cmp (x y : list Z) : Z :=
  if le_combine x <? le_combine y then -1 else if le_combine y <? le_combine x then 1 else 0.
Definition sample_items : list (list Z) := le_split 8 <$> [3; 1; 2].

Lemma sample_decides {A} `{PageAllocator A} : @decides A sample_compar 8 sample_cmp.
Proof.
  intros m a h p q x y Hp Hq [Lx _] [Ly _]. unfold sample_compar.
  rewrite (bind_ok _ _ _ _ _ (on_memory_ok (load64 p) m a h (le_combine x) m ltac:(apply load_ok; exists x; split_and!; [lia|done|done]))).
  by rewrite (bind_ok _ _ _ _ _ (on_memory_ok (load64 q) m a h (le_combine y) m ltac:(apply load_ok; exists y; split_and!; [lia|done|done]))).
Qed.

Lemma sample_preorder : preorder sample_cmp.
Proof.
  unfold preorder, below_eq, sample_cmp. split.
  - intros x y. destruct (Z.ltb_spec (le_combine x) (le_combine y)), (Z.ltb_spec (le_combine y) (le_combine x)); lia.
  - intros x y z. destruct (Z.ltb_spec (le_combine x) (le_combine y)), (Z.ltb_spec (le_combine y) (le_combine x)),
      (Z.ltb_spec (le_combine y) (le_combine z)), (Z.ltb_spec (le_combine z) (le_combine y)),
      (Z.ltb_spec (le_combine x) (le_combine z)), (Z.ltb_spec (le_combine z) (le_combine x)); lia.
Qed.

Lemma sample_array : ∃ (m : mem) (a : Z) h G U l p, heap_ok m a h G U l ∧ l ≠ [] ∧ array 8 m p sample_items ∧
  outside 8 G U l p sample_items ∧ 0 ≤ p ∧ p + 24 < 2 ^ 64.
Proof.
  destruct (sample_pages 2) as (m0 & a0 & l0 & Ha0 & Hl0); [done|].
  pose proof (heap_init m0 a0 l0 Ha0) as Hh0.
  destruct (heap_malloc m0 a0 mheap_init [] ∅ l0 24 Hh0) as (p & m & a & h & G & l & _ & Hh & _ & Ht & _); [auto with loos|done|by intros ->|].
  destruct (heap_block _ _ _ _ _ _ p 24 Hh) as (_ & Hp & Hb & Hm & g & Hg & Hg1 & Hg2); [by rewrite lookup_insert_eq|].
  destruct (heap_page _ _ _ _ _ _ _ Hh Hg) as [Hgl Hgk].
  destruct (avail_pages _ _ _ (heap_avail _ _ _ _ _ _ Hh)) as [_ Hk].
  assert (∀ z, p ≤ z < p + 24 → ¬ in_arena l z) as Hout.
  { intros z Hz (r & Hr & Hrz). eapply (kpage_disjoint r g); [by apply Hk|done| |done|lia]. by intros ->. }
  set (m' := write_bytes p (concat sample_items) m).
  assert (changes (λ z, p ≤ z < p + 24) m m') as C by by apply changes_write.
  exists m', a, h, G, (<[p := 24]> ∅), l, p. split_and!; [| | | |lia|done].
  - eapply heap_update; [exact Hh|exact C| | |by intros r Hr; apply (heap_page _ _ _ _ _ _ _ Hh Hr)].
    + intros z Hz. left. exists p, 24. by rewrite lookup_insert_eq.
    + eapply avail_frame; [by eapply heap_avail|apply C|]. intros r z Hr Hz. apply C. intros Hpz. apply (Hout z Hpz). by exists r.
  - intros ->. destruct Ht as [[_ <-]|(q & -> & _)]; simpl in Hl0; lia.
  - split; [repeat constructor; by vm_compute|apply write_bytes_at].
  - intros z Hz [[_ Hn]|Hn]; unfold extent in Hz; simpl in Hz; [|by apply (Hout z); [lia|]].
    apply Hn. exists p, 24. split; [by rewrite lookup_insert_eq|lia].
Qed.

Lemma qsort_correct_witness : ∃ (m : mem) (a : Z) h p m' a' h' ys,
  qsort sample_compar p 3 8 (m, a, h) = Ok (tt, (m', a', h')) ∧ array 8 m' p ys ∧ ys ≡ₚ sample_items ∧
  StronglySorted (λ x y, sample_cmp x y ≤ 0) ys.
Proof.
  destruct sample_array as (m & a & h & G & U & l & p & Hh & Hl & Har & Ho & Hp & Hb).
  destruct (qsort_correct sample_compar sample_cmp 8 p sample_items m a h G U l) as
    (m' & a' & h' & _ & _ & ys & E & _ & _ & Har' & Hperm & Hs & _);
    [left; lia|apply sample_decides|apply sample_preorder|done|by right|done|done|done|exact Hb|].
  exists m, a, h, p, m', a', h', ys. split_and!; [exact E|exact Har'|exact Hperm|exact Hs].
Defined.
