(* ===== verification/MList.v ===== *)
(** * lolibc/struct/mlist.c: a list of pointers on the kernel heap

    A [struct mlist] is two words (head, tail), an element three (prev, next,
    data), all in raw memory; elements come from [malloc] and go back to
    [free].  The theorem at the end is about [mlist_remove], which forgets to
    relink the neighbours. *)

From S2P Require Import Prelude Mem CString PageAlloc Vm Malloc Heap.

Definition ml_head (list : Z) : Z := list.
Definition ml_tail (list : Z) : Z := list + 8.
Definition el_prev (elem : Z) : Z := elem.
Definition el_next (elem : Z) : Z := elem + 8.
Definition el_data (elem : Z) : Z := elem + 16.

Section program.
Context {A : Type} `{PageAllocator A}.
Abbreviation HM := (M (mem * A * mheap)).

Definition ld (p : Z) : HM Z := on_memory (load64 p).
Definition st (p v : Z) : HM unit := on_memory (store64 p v).

Definition mlist_init : HM Z :=
  list ← malloc 16; st (ml_head list) 0;; st (ml_tail list) 0;; mret list.

Definition new_mlist_elem (data : Z) : HM Z :=
  elem ← malloc 24;
  st (el_prev elem) 0;; st (el_next elem) 0;; st (el_data elem) data;; mret elem.

Definition mlist_is_empty (list : Z) : HM bool :=
  if list =? 0 then fail Halt else h ← ld (ml_head list); mret (h =? 0).

Definition mlist_push (list data : Z) : HM unit :=
  elem ← new_mlist_elem data;
  e ← mlist_is_empty list;
  if e : bool then st (ml_tail list) elem;; st (ml_head list) elem
  else h ← ld (ml_head list); st (el_next elem) h;;
       n ← ld (el_next elem); st (el_prev n) elem;;
       st (ml_head list) elem.

Definition mlist_pop (list : Z) : HM Z :=
  e ← mlist_is_empty list;
  if e : bool then mret 0
  else elem ← ld (ml_head list);
       data ← ld (el_data elem);
       h ← ld (ml_head list); t ← ld (ml_tail list);
       (if h =? t then st (ml_tail list) 0;; st (ml_head list) 0
        else h ← ld (ml_head list); n ← ld (el_next h); st (ml_head list) n);;
       free elem;;
       mret data.

Definition mlist_append (list data : Z) : HM unit :=
  elem ← new_mlist_elem data;
  e ← mlist_is_empty list;
  if e : bool then st (ml_tail list) elem;; st (ml_head list) elem
  else t ← ld (ml_tail list); st (el_prev elem) t;;
       p ← ld (el_prev elem); st (el_next p) elem;;
       st (ml_tail list) elem.

(** The [while (elem)] loops; each budget is one step per mapped address. *)
Fixpoint mlist_remove_loop (fuel : nat) (list elem data : Z) : HM unit :=
  match fuel with
  | O => fail Fuel
  | S fuel =>
      if elem =? 0 then fail Halt
      else
        d ← ld (el_data elem);
        if d =? data then
          h ← ld (ml_head list);
          (if elem =? h then n ← ld (el_next elem); st (ml_head list) n else mret tt);;
          t ← ld (ml_tail list);
          (if elem =? t then p ← ld (el_prev elem); st (ml_tail list) p else mret tt);;
          free elem
        else n ← ld (el_next elem); mlist_remove_loop fuel list n data
  end.

Definition mlist_remove (list data : Z) : HM unit :=
  e ← mlist_is_empty list;
  if e : bool then fail Halt
  else elem ← ld (ml_head list);
       fuel ← gets (λ s, fuel_of s.1.1); mlist_remove_loop fuel list elem data.

Fixpoint mlist_find_loop (fuel : nat) (elem : Z) (func : Z → bool) : HM Z :=
  match fuel with
  | O => fail Fuel
  | S fuel =>
      if elem =? 0 then mret 0
      else d ← ld (el_data elem);
           if func d then ld (el_data elem)
           else n ← ld (el_next elem); mlist_find_loop fuel n func
  end.

Definition mlist_find (list : Z) (func : Z → bool) : HM Z :=
  e ← mlist_is_empty list;
  if e : bool then mret 0
  else elem ← ld (ml_head list);
       fuel ← gets (λ s, fuel_of s.1.1); mlist_find_loop fuel elem func.
End program.

Section properties.
Context {A : Type} `{PageAllocator A}.
Implicit Types (m : mem) (a : A) (h : mheap).

(** The elements reached from [e], with their data. *)
Fixpoint elems m (e : Z) (l : list (Z * Z)) : Prop :=
  match l with
  | [] => e = 0
  | (p, d) :: l => e = p ∧ 0 < p ∧ word64_at m (el_data p) d ∧
      ∃ n, word64_at m (el_next p) n ∧ elems m n l
  end.

Lemma ld_ok m a h p v : word64_at m p v → ld p (m, a, h) = Ok (v, (m, a, h)).
Proof. intros Hw. by apply on_memory_ok, load_ok. Qed.

Lemma elems_frame m m' e l c : elems m e l → only c 8 m m' →
  (∀ p d, (p, d) ∈ l → c + 8 ≤ p ∨ p + 24 ≤ c) → elems m' e l.
Proof.
  revert e. induction l as [|[p d] l IH]; intros e; simpl; [done|].
  intros (-> & Hp & Hd & n & Hn & Hl) Ho Hdis. pose proof (Hdis p d ltac:(by left)).
  split_and!; [done|done| |exists n; split].
  - eapply word_at_only; [done..|]. unfold el_data. lia.
  - eapply word_at_only; [done..|]. unfold el_next. lia.
  - apply IH; [done|done|]. intros p' d' Hp'. apply (Hdis p' d'). by right.
Qed.

(** The traversal steps over the elements with other data. *)
Lemma remove_loop_skip m a h lst p1 l1 q d l2 k : elems m p1 (l1 ++ (q, d) :: l2) →
  (∀ p d', (p, d') ∈ l1 → d' ≠ d) →
  mlist_remove_loop (length l1 + k) lst p1 d (m, a, h) = mlist_remove_loop k lst q d (m, a, h).
Proof.
  revert p1. induction l1 as [|[p d'] l1 IH]; intros p1; simpl.
  - by intros (-> & _) _.
  - intros (-> & Hp & Hd & n & Hn & Hl) Hne.
    destruct (Z.eqb_spec p 0); [lia|]. rewrite (bind_ok _ _ _ _ _ (ld_ok m a h _ _ Hd)).
    destruct (Z.eqb_spec d' d) as [E|_]; [by destruct (Hne p d' ltac:(by left))|].
    rewrite (bind_ok _ _ _ _ _ (ld_ok m a h _ _ Hn)). apply IH; [done|].
    intros p' d'' Hin. apply (Hne p'). by right.
Qed.

(** [mlist_remove] of an element that is neither first nor last frees it and leaves the
    list as it was: head, tail and every link are unchanged, so a traversal still visits the
    freed element, whose memory the heap may hand out again. *)
Theorem mlist_remove_middle m a h lst l1 q d l2 hd tl : 0 < lst → l1 ≠ [] →
  word64_at m (ml_head lst) hd → word64_at m (ml_tail lst) tl →
  elems m hd (l1 ++ (q, d) :: l2) → hd ≠ q → tl ≠ q →
  (∀ p d', (p, d') ∈ l1 → d' ≠ d) → (length l1 < fuel_of m)%nat →
  (∀ p d', (p, d') ∈ l1 ++ (q, d) :: l2 → q - 8 ≤ p ∨ p + 24 ≤ q - 16) →
  (q - 8 ≤ lst ∨ lst + 16 ≤ q - 16) → 16 < q < 2 ^ 64 →
  mapped m (q - 16) 8 → word64_at m (q - 8) 24 →
  ∃ m' h', mlist_remove lst d (m, a, h) = Ok (tt, (m', a, h')) ∧
    fastbin h' !! 1%nat = (if decide (1 < length (fastbin h))%nat then Some (q - 16) else None) ∧
    word64_at m' (ml_head lst) hd ∧ word64_at m' (ml_tail lst) tl ∧
    elems m' hd (l1 ++ (q, d) :: l2).
Proof.
  intros Hlst Hne Hhd Htl Hel Hhq Htq Hd Hfuel Hdis Hlq Hq Hqm Hsz.
  assert (0 < hd) as Hhd0.
  { destruct l1 as [|[p d'] l1]; [done|]. simpl in Hel. destruct Hel as (-> & ? & _). done. }
  set (m' := write_bytes (q - 16) (le_split 8 (fastbin h !!! 1%nat)) m).
  assert (only (q - 16) 8 m m') as Ho by exact (store_only 8 _ _ _).
  exists m', (set_fastbin 1 (q - 16) h). split_and!.
  - unfold mlist_remove, mlist_is_empty. destruct (Z.eqb_spec lst 0); [lia|].
    rewrite (bind_ok _ _ _ false (m, a, h)).
    2: { rewrite (bind_ok _ _ _ _ _ (ld_ok m a h _ _ Hhd)). by destruct (Z.eqb_spec hd 0); [lia|]. }
    rewrite (bind_ok _ _ _ _ _ (ld_ok m a h _ _ Hhd)).
    rewrite (bind_ok _ _ _ (fuel_of m) (m, a, h)) by done.
    replace (fuel_of m) with (length l1 + S (fuel_of m - length l1 - 1))%nat by lia.
    rewrite (remove_loop_skip m a h lst hd l1 q d l2) by done.
    assert (word64_at m (el_data q) d) as Hqd.
    { clear -Hel. revert hd Hel. induction l1 as [|[p d'] l1 IH]; intros hd; simpl.
      - by intros (_ & _ & ? & _).
      - intros (_ & _ & _ & n & _ & Hl). eauto. }
    cbn [mlist_remove_loop]. destruct (Z.eqb_spec q 0); [lia|].
    rewrite (bind_ok _ _ _ _ _ (ld_ok m a h _ _ Hqd)), Z.eqb_refl.
    rewrite (bind_ok _ _ _ _ _ (ld_ok m a h _ _ Hhd)).
    destruct (Z.eqb_spec q hd); [by subst|]. rewrite (bind_ok _ _ _ tt (m, a, h)) by done.
    rewrite (bind_ok _ _ _ _ _ (ld_ok m a h _ _ Htl)).
    destruct (Z.eqb_spec q tl); [by subst|]. rewrite (bind_ok _ _ _ tt (m, a, h)) by done.
    unfold free, chunk_info_size, chunk_size. rewrite wrap_id by lia.
    replace (q - 16 + 8) with (q - 8) by lia.
    assert (on_memory (load64 (q - 8)) (m, a, h) = Ok (24, (m, a, h))) as E by (by apply ld_ok).
    rewrite (bind_ok _ _ _ _ _ E). cbn [Z.leb Z.compare Pos.compare Pos.compare_cont].
    rewrite (bind_ok _ _ _ _ _ E). change (Z.to_nat (24 / 15)) with 1%nat.
    rewrite (bind_ok _ _ _ h (m, a, h)) by done.
    by rewrite (bind_ok _ _ _ _ _ (on_memory_ok _ _ a h _ _ (store_ok 8 _ _ _ Hqm))).
  - cbn [fastbin set_fastbin]. case_decide.
    + by rewrite list_lookup_insert_eq by lia.
    + apply lookup_ge_None. rewrite length_insert. lia.
  - eapply word_at_only; [done..|]. unfold ml_head. lia.
  - eapply word_at_only; [done..|]. unfold ml_tail. lia.
  - eapply elems_frame; [done|done|]. intros p d' Hp. specialize (Hdis p d' Hp). lia.
Qed.
End properties.

(** ** The list as a sequence of pointers

    [mlist m U S lst es]: the list at [lst] has the elements [es] (pointer and data) in order;
    [S] are its blocks of the heap [U].  The [prev] links are not part of it: [mlist_pop] does
    not maintain them. *)
Section sequence.
Context {A : Type} `{PageAllocator A}.
Implicit Types (m : mem) (a : A) (h : mheap) (U : gmap Z Z) (S : gset Z) (G l : list Z).
Implicit Types (es : list (Z * Z)).

Definition first es : Z := default 0 (fst <$> head es).
Definition final es : Z := default 0 (fst <$> last es).

Record mlist m U S lst es : Prop := {
  mls_blocks : S = {[lst]} ∪ list_to_set es.*1;
  mls_list : U !! lst = Some 16;
  mls_elems : ∀ p d, (p, d) ∈ es → U !! p = Some 24;
  mls_nodup : NoDup es.*1;
  mls_head : word64_at m (ml_head lst) (first es);
  mls_tail : word64_at m (ml_tail lst) (final es);
  mls_chain : elems m (first es) es
}.

(** The chain depends on the words [next] and [data] of its elements. *)
Lemma elems_changes P m m' e es : elems m e es → changes P m m' →
  (∀ x p d, P x → (p, d) ∈ es → ¬ (p + 8 ≤ x < p + 24)) → elems m' e es.
Proof.
  revert e. induction es as [|[p d] es IH]; intros e; simpl; [done|].
  intros (-> & Hp & Hd & n & Hn & Hl) HC Hdis.
  split_and!; [done|done| |exists n; split].
  - eapply changes_word; [done..|]. intros x Hx. specialize (Hdis x p d Hx ltac:(by left)).
    unfold el_data. lia.
  - eapply changes_word; [done..|]. intros x Hx. specialize (Hdis x p d Hx ltac:(by left)).
    unfold el_next. lia.
  - apply IH; [done|done|]. intros x p' d' Hx Hp'. apply (Hdis x p' d' Hx). by right.
Qed.

Lemma elem_blocks es p d : (p, d) ∈ es → p ∈ (list_to_set es.*1 : gset Z).
Proof. intros Hp. apply elem_of_list_to_set, list_elem_of_fmap. by exists (p, d). Qed.

(** A change outside the blocks of a list leaves it alone. *)
Lemma mlist_frame P m m' U U' S lst es : mlist m U S lst es → changes P m m' →
  (∀ x, P x → ¬ in_blocks U S x) → (∀ p, p ∈ S → U' !! p = U !! p) → mlist m' U' S lst es.
Proof.
  intros [-> HL HE Hnd Hh Ht Hc] HC HP HU.
  assert (∀ x, P x → ¬ (lst ≤ x < lst + 16)) as Hlst.
  { intros x Hx Hr. apply (HP x Hx). exists lst, 16. split_and!; [set_solver|done|lia|lia]. }
  constructor; [done|rewrite HU; [done|set_solver]| |done| | |].
  - intros p d Hp. rewrite HU; [by eapply HE|]. apply elem_blocks in Hp. set_solver.
  - eapply changes_word; [done..|]. intros x Hx. specialize (Hlst x Hx). unfold ml_head. lia.
  - eapply changes_word; [done..|]. intros x Hx. specialize (Hlst x Hx). unfold ml_tail. lia.
  - eapply elems_changes; [done..|]. intros x p d Hx Hp Hr. apply (HP x Hx). exists p, 24.
    split_and!; [|by eapply HE|lia|lia]. apply elem_blocks in Hp. set_solver.
Qed.

Lemma mlist_dom m U S lst es p : mlist m U S lst es → p ∈ S → is_Some (U !! p).
Proof.
  intros [-> HL HE _ _ _ _] [->%elem_of_singleton|Hp]%elem_of_union; [by eexists|].
  apply elem_of_list_to_set, list_elem_of_fmap in Hp as ([q d] & -> & Hp). simpl; rewrite (HE q d Hp). by eexists.
Qed.

(** What a call that adds the block [p] of [n] bytes leaves of the rest. *)
Definition extends m G U S l p n m' a' h' G' l' : Prop :=
  heap_ok m' a' h' G' (<[p := n]> U) l' ∧ U !! p = None ∧ took G l G' l' ∧
  changes (λ x, private G' U x ∨ in_blocks U S x) m m'.

Lemma new_mlist_elem_ok m a h G U l d : heap_ok m a h G U l → l ≠ [] → 0 ≤ d < 2 ^ 64 →
  ∃ p m' a' h' G' l', new_mlist_elem d (m, a, h) = Ok (p, (m', a', h')) ∧
    extends m G U ∅ l p 24 m' a' h' G' l' ∧ word64_at m' (el_next p) 0 ∧ word64_at m' (el_data p) d.
Proof.
  intros Hh Hl Hd.
  destruct (heap_malloc m a h G U l 24 Hh) as (p & m0 & a0 & h0 & G' & l' & E0 & Hh0 & Hp & Ht & C0);
    [auto with loos|done|done|].
  pose proof (lookup_insert_eq U p 24) as HU.
  destruct (heap_store m0 a0 h0 G' _ l' p 24 (el_prev p) 0 Hh0 HU) as (m1 & E1 & _ & Hh1 & C1);
    [unfold el_prev; lia..|].
  destruct (heap_store m1 a0 h0 G' _ l' p 24 (el_next p) 0 Hh1 HU) as (m2 & E2 & W2 & Hh2 & C2);
    [unfold el_next; lia..|].
  destruct (heap_store m2 a0 h0 G' _ l' p 24 (el_data p) d Hh2 HU) as (m3 & E3 & W3 & Hh3 & C3);
    [unfold el_data; lia..|].
  exists p, m3, a0, h0, G', l'. split_and!; [|split_and!; [done..|]| |done].
  - unfold new_mlist_elem. rewrite (bind_ok _ _ _ _ _ E0). unfold st.
    rewrite (bind_ok _ _ _ _ _ E1), (bind_ok _ _ _ _ _ E2). by rewrite (bind_ok _ _ _ _ _ E3).
  - assert (∀ x, p ≤ x < p + 24 → private G' U x) as Hpr by (intros x ?; by eapply fresh_private).
    eapply changes_trans; [eapply changes_weaken; [|exact C0]; auto|].
    eapply changes_trans; [eapply changes_weaken; [|exact C1]|].
    { intros x Hx. left. apply Hpr. unfold el_prev in Hx. lia. }
    eapply changes_trans; (eapply changes_weaken; [|done]); intros x Hx; left; apply Hpr;
      unfold el_next, el_data in Hx; lia.
  - eapply changes_word; [done..|]. intros x Hx. unfold el_data, el_next in *. lia.
Qed.
Lemma mlist_ld m a h U S lst es : mlist m U S lst es →
  ld (ml_head lst) (m, a, h) = Ok (first es, (m, a, h)) ∧ ld (ml_tail lst) (m, a, h) = Ok (final es, (m, a, h)).
Proof. intros Hm. split; apply ld_ok, Hm. Qed.

Lemma mlist_empty m a h G U S l lst es : heap_ok m a h G U l → mlist m U S lst es →
  mlist_is_empty lst (m, a, h) = Ok (bool_decide (es = []), (m, a, h)).
Proof.
  intros Hh Hm. destruct (heap_block _ _ _ _ _ _ _ _ Hh (mls_list _ _ _ _ _ Hm)) as (_ & ? & _).
  unfold mlist_is_empty. destruct (Z.eqb_spec lst 0); [lia|].
  destruct (mlist_ld m a h _ _ _ _ Hm) as [E _]. rewrite (bind_ok _ _ _ _ _ E). unfold mret, M_ret.
  do 2 f_equal. pose proof (mls_chain _ _ _ _ _ Hm) as Hc. destruct es as [|[p d] es]; [done|].
  destruct Hc as (_ & Hp & _). cbn. by destruct (Z.eqb_spec p 0); [lia|].
Qed.

(** The cells of a list apart from those of another block. *)
Lemma mlist_apart m m1 a h G U U1 S l lst es q n : heap_ok m1 a h G U1 l → mlist m U S lst es → U ⊆ U1 →
  U1 !! q = Some n → q ∉ S →
  (lst + 16 ≤ q ∨ q + n ≤ lst) ∧ (∀ p d, (p, d) ∈ es → p + 24 ≤ q ∨ q + n ≤ p).
Proof.
  intros Hh Hm HU Hq HqS. pose proof Hm as [-> HL HE _ _ _ _]. split.
  - eapply (heap_disjoint _ _ _ _ _ _ lst 16 q n Hh); [by eapply lookup_weaken|done|set_solver].
  - intros p d Hp. eapply (heap_disjoint _ _ _ _ _ _ p 24 q n Hh); [|done|].
    + eapply lookup_weaken; [by eapply HE|done].
    + apply elem_blocks in Hp. set_solver.
Qed.

(** ... and from each other. *)
Lemma mlist_inner m a h G U S l lst es : heap_ok m a h G U l → mlist m U S lst es →
  (∀ p d, (p, d) ∈ es → lst + 16 ≤ p ∨ p + 24 ≤ lst) ∧
  (∀ p d p' d', (p, d) ∈ es → (p', d') ∈ es → p ≠ p' → p + 24 ≤ p' ∨ p' + 24 ≤ p).
Proof.
  intros Hh [_ HL HE _ _ _ _]. split.
  - intros p d Hp. eapply (heap_disjoint _ _ _ _ _ _ lst 16 p 24 Hh); [done|by eapply HE|].
    intros <-. specialize (HE _ _ Hp). congruence.
  - intros p d p' d' Hp Hp' Hne. eapply heap_disjoint; [done|by eapply HE..|done].
Qed.

Lemma own_blocks m U S lst es x : mlist m U S lst es →
  (lst ≤ x < lst + 16 → in_blocks U S x) ∧ (∀ p d, (p, d) ∈ es → p ≤ x < p + 24 → in_blocks U S x).
Proof.
  intros [-> HL HE _ _ _ _]. split.
  - intros Hx. exists lst, 16. split_and!; [set_solver|done|lia|lia].
  - intros p d Hp Hx. exists p, 24. split_and!; [|by eapply HE|lia|lia]. apply elem_blocks in Hp. set_solver.
Qed.

Lemma insert_sub U p n : U !! p = None → U ⊆ <[p := n]> U.
Proof. apply insert_subseteq. Qed.

(** A list whose words were rewritten for one more element. *)
Lemma mlist_add m m' U S lst es es' p d : mlist m U S lst es → U !! p = None → es' ≡ₚ (p, d) :: es →
  word64_at m' (ml_head lst) (first es') → word64_at m' (ml_tail lst) (final es') →
  elems m' (first es') es' → mlist m' (<[p := 24]> U) ({[p]} ∪ S) lst es'.
Proof.
  intros Hm Hp Hes Hhd Htl Hch. pose proof Hm as [HS HL HE Hnd _ _ _].
  assert (∀ q, q ∈ S → q ≠ p) as Hne by (intros q Hq ->; destruct (mlist_dom _ _ _ _ _ _ Hm Hq); congruence).
  assert (es'.*1 ≡ₚ p :: es.*1) as Hes1 by by rewrite Hes.
  constructor; [| | | |done..].
  - subst S. apply leibniz_equiv. intros x. rewrite !elem_of_union, !elem_of_list_to_set, Hes1, elem_of_cons, !elem_of_singleton. tauto.
  - rewrite lookup_insert_ne; [done|]. intros ->. apply (Hne lst); [|done]. set_solver.
  - intros q dq Hq. rewrite Hes in Hq. apply elem_of_cons in Hq as [[= -> ->]|Hq]; [apply lookup_insert_eq|].
    rewrite lookup_insert_ne; [by eapply HE|]. intros ->. apply (Hne q); [|done].
    apply elem_blocks in Hq. set_solver.
  - rewrite Hes1. constructor; [|done]. intros Hin. apply (Hne p); [|done]. subst S.
    apply elem_of_union. right. by apply elem_of_list_to_set.
Qed.

Lemma extends_store P m m1 m' a a' h h' G G' U S l l' p n : extends m G U S l p n m1 a h G' l' →
  heap_ok m' a' h' G' (<[p := n]> U) l' → changes P m1 m' →
  (∀ x, P x → p ≤ x < p + n ∨ in_blocks U S x) → extends m G U S l p n m' a' h' G' l'.
Proof.
  intros (Hh & Hp & Ht & C) Hh' C' HP. split_and!; [done..|]. eapply changes_trans; [done|].
  eapply changes_weaken; [|done]. intros x Hx. destruct (HP x Hx); [|by right]. left. by eapply fresh_private.
Qed.

Lemma extends_more m m' a' h' G G' U S S' l l' p n : S ⊆ S' → extends m G U S l p n m' a' h' G' l' →
  extends m G U S' l p n m' a' h' G' l'.
Proof.
  intros HS (? & ? & ? & C). split_and!; [done..|]. eapply changes_weaken; [|done].
  intros x [?|(q & k & ? & ?)]; [by left|right]. exists q, k. split; [by apply HS|done].
Qed.
(** The element [new_mlist_elem] makes for a list. *)
Lemma mlist_new m a h G U S l lst es d : heap_ok m a h G U l → mlist m U S lst es → l ≠ [] → 0 ≤ d < 2 ^ 64 →
  ∃ p m' a' h' G' l', new_mlist_elem d (m, a, h) = Ok (p, (m', a', h')) ∧ 0 < p ∧ p ∉ S ∧
    extends m G U S l p 24 m' a' h' G' l' ∧ mlist m' (<[p := 24]> U) S lst es ∧
    word64_at m' (el_next p) 0 ∧ word64_at m' (el_data p) d.
Proof.
  intros Hh Hm Hl Hd. destruct (new_mlist_elem_ok m a h G U l d Hh Hl Hd)
    as (p & m1 & a1 & h1 & G1 & l1 & E & Hex & W1 & W2).
  pose proof Hex as (Hh1 & Hp & _ & C1).
  destruct (heap_block _ _ _ _ _ _ _ _ Hh1 (lookup_insert_eq U p 24)) as (_ & ? & _).
  assert (p ∉ S) as HpS by (intros Hin; destruct (mlist_dom _ _ _ _ _ _ Hm Hin); congruence).
  exists p, m1, a1, h1, G1, l1. split_and!; [done|done|done|eapply extends_more; [|done]; set_solver| |done|done].
  eapply mlist_frame; [done|done| |].
  - intros x [Hx|(q & k & Hq & _)]; [by eapply private_blocks|set_solver].
  - intros q Hq. rewrite lookup_insert_ne; [done|]. by intros ->.
Qed.

(** The new element becomes the only one: the branch both insertions share. *)
Lemma mlist_single m a h G U S l lst p d : heap_ok m a h G (<[p := 24]> U) l → mlist m (<[p := 24]> U) S lst [] →
  U !! p = None → p ∉ S → 0 < p → word64_at m (el_next p) 0 → word64_at m (el_data p) d →
  ∃ m', (st (ml_tail lst) p;; st (ml_head lst) p) (m, a, h) = Ok (tt, (m', a, h)) ∧
    heap_ok m' a h G (<[p := 24]> U) l ∧ changes (in_blocks U S) m m' ∧
    mlist m' (<[p := 24]> U) ({[p]} ∪ S) lst [(p, d)].
Proof.
  intros Hh Hm Hp HpS H0 Wn Wd. pose proof (lookup_insert_eq U p 24) as HUp.
  pose proof (mls_list _ _ _ _ _ Hm) as HUl.
  destruct (heap_block _ _ _ _ _ _ _ _ Hh HUp) as (_ & _ & Hpb & _).
  destruct (mlist_apart m m a h G _ _ S l lst [] p 24 Hh Hm) as [Hap _]; [done..|].
  destruct (heap_store m a h G _ l lst 16 (ml_tail lst) p Hh HUl) as (m1 & E1 & W1 & Hh1 & C1);
    [unfold ml_tail; lia..|].
  destruct (heap_store m1 a h G _ l lst 16 (ml_head lst) p Hh1 HUl) as (m2 & E2 & W2 & Hh2 & C2);
    [unfold ml_head; lia..|].
  assert (lst ≠ p) as Hlp by (intros ->; lia).
  assert (U !! lst = Some 16) as HUl' by by rewrite lookup_insert_ne in HUl.
  assert (mlist m U S lst []) as HmU.
  { pose proof Hm as [-> ? _ ? ? ? ?]. constructor; try done. by intros ? ? ?%not_elem_of_nil. }
  assert (changes (λ x, lst ≤ x < lst + 16) m m2) as C.
  { unfold ml_tail, ml_head in *. eapply changes_trans; (eapply changes_weaken; [|done]); simpl; intros x Hx; lia. }
  exists m2. split_and!; [unfold st; by rewrite (bind_ok _ _ _ _ _ E1)|done| |].
  - eapply changes_weaken; [|done]. intros x Hx. destruct (own_blocks m U S lst [] x HmU) as [Hown _]. by apply Hown.
  - eapply mlist_add; [done|done|done|done| |].
    + eapply changes_word; [done..|]. intros x Hx. unfold ml_tail, ml_head in *. lia.
    + simpl. split_and!; [done|done| |exists 0; split; [|done]];
        (eapply changes_word; [done..|]; intros x Hx; unfold el_data, el_next; simpl in Hx; lia).
Qed.

Lemma mlist_push_ok m a h G U S l lst es d : heap_ok m a h G U l → mlist m U S lst es → l ≠ [] → 0 ≤ d < 2 ^ 64 →
  ∃ p m' a' h' G' l', mlist_push lst d (m, a, h) = Ok (tt, (m', a', h')) ∧
    extends m G U S l p 24 m' a' h' G' l' ∧ mlist m' (<[p := 24]> U) ({[p]} ∪ S) lst ((p, d) :: es).
Proof.
  intros Hh Hm Hl Hd. destruct (mlist_new m a h G U S l lst es d Hh Hm Hl Hd)
    as (p & m1 & a1 & h1 & G1 & l1 & E & Hp0 & HpS & Hex & Hm1 & Wn & Wd).
  pose proof Hex as (Hh1 & Hp & _ & _). pose proof (lookup_insert_eq U p 24) as HUp.
  exists p. unfold mlist_push. rewrite (bind_ok _ _ _ _ _ E), (bind_ok _ _ _ _ _ (mlist_empty m1 a1 h1 _ _ _ _ _ _ Hh1 Hm1)).
  destruct es as [|[p0 d0] es]; [rewrite bool_decide_true by done|rewrite bool_decide_false by done].
  - destruct (mlist_single m1 a1 h1 G1 U S l1 lst p d) as (m' & E' & Hh' & C' & Hm'); [done..|].
    exists m', a1, h1, G1, l1. split_and!; [done| |done]. eapply extends_store; [done..|]. auto.
  - destruct (mlist_ld m1 a1 h1 _ _ _ _ Hm1) as [El _]. rewrite (bind_ok _ _ _ _ _ El). cbn [first head fmap option_fmap option_map fst default from_option id].
    pose proof (mls_list _ _ _ _ _ Hm1) as HUl. pose proof (mls_chain _ _ _ _ _ Hm1) as (_ & H00 & Wd0 & n0 & Wn0 & Hch).
    assert (<[p := 24]> U !! p0 = Some 24) as HU0 by (eapply (mls_elems _ _ _ _ _ Hm1 p0 d0); by left).
    destruct (heap_block _ _ _ _ _ _ _ _ Hh1 HUp) as (_ & _ & Hpb & _).
    destruct (heap_block _ _ _ _ _ _ _ _ Hh1 HU0) as (_ & _ & Hpb0 & _).
    destruct (mlist_apart m1 m1 a1 h1 G1 _ _ S l1 lst _ p 24 Hh1 Hm1) as [Hap Hap']; [done..|].
    destruct (mlist_inner m1 a1 h1 G1 _ S l1 lst _ Hh1 Hm1) as [Hin Hin'].
    destruct (heap_store m1 a1 h1 G1 _ l1 p 24 (el_next p) p0 Hh1 HUp) as (m2 & E2 & W2 & Hh2 & C2);
      [unfold el_next; lia..|].
    destruct (heap_store m2 a1 h1 G1 _ l1 p0 24 (el_prev p0) p Hh2 HU0) as (m3 & E3 & W3 & Hh3 & C3);
      [unfold el_prev; lia..|].
    destruct (heap_store m3 a1 h1 G1 _ l1 lst 16 (ml_head lst) p Hh3 HUl) as (m4 & E4 & W4 & Hh4 & C4);
      [unfold ml_head; lia..|].
    unfold el_next, el_prev, ml_head in C2, C3, C4.
    assert (changes (λ x, p + 8 ≤ x < p + 16 ∨ p0 ≤ x < p0 + 8 ∨ lst ≤ x < lst + 8) m1 m4) as C.
    { eapply changes_trans; [eapply changes_trans|]; (eapply changes_weaken; [|done]); simpl; lia. }
    pose proof (Hap' p0 d0 ltac:(by left)) as Hpp0. pose proof (Hin p0 d0 ltac:(by left)) as Hlp0.
    exists m4, a1, h1, G1, l1. split_and!.
    + unfold st. rewrite (bind_ok _ _ _ _ _ E2), (bind_ok _ _ _ _ _ (ld_ok _ a1 h1 _ _ W2)).
      by rewrite (bind_ok _ _ _ _ _ E3).
    + eapply extends_store; [done..|]. simpl. intros x [Hx|[Hx|Hx]]; [left; lia|right..];
        destruct (own_blocks m U S lst _ x Hm) as [Ho Ho']; [apply (Ho' p0 d0); [by left|lia]|apply Ho; lia].
    + eapply mlist_add; [exact Hm|done|done|done| |].
      * eapply changes_word; [apply Hm1|done|]. unfold ml_tail. simpl. lia.
      * split_and!; [done|done| |exists p0; split].
        { eapply changes_word; [done..|]. unfold el_data. simpl. lia. }
        { unfold el_next in *. eapply changes_word; [eapply changes_word; [exact W2|exact C3|]|exact C4|]; simpl; lia. }
        eapply elems_changes; [apply (mls_chain _ _ _ _ _ Hm1)|done|]. intros x q dq Hx Hq.
        simpl in Hx. pose proof (Hap' q dq Hq). pose proof (Hin q dq Hq).
        destruct (decide (q = p0)) as [->|Hne]; [lia|]. pose proof (Hin' q dq p0 d0 Hq ltac:(by left) Hne). lia.
Qed.
Lemma final_cons e es : es ≠ [] → final (e :: es) = final es.
Proof. unfold final. intros Hne. destruct es; [done|]. by rewrite last_cons_cons. Qed.

Lemma final_elem es : es ≠ [] → ∃ es0 q d, es = es0 ++ [(q, d)] ∧ final es = q.
Proof.
  intros Hne. destruct (exists_last Hne) as (es0 & [q dq] & ->). exists es0, q, dq.
  unfold final. by rewrite last_snoc.
Qed.

(** A list whose words were rewritten for one element less. *)
Lemma mlist_del m m' U S lst es p d : mlist m U S lst ((p, d) :: es) →
  word64_at m' (ml_head lst) (first es) → word64_at m' (ml_tail lst) (final es) →
  elems m' (first es) es → mlist m' (delete p U) (S ∖ {[p]}) lst es.
Proof.
  intros Hm Hhd Htl Hch. destruct Hm as [-> HL HE [Hnp Hnd]%NoDup_cons _ _ _]. simpl in *.
  assert (lst ≠ p) as Hlp by (intros ->; specialize (HE p d ltac:(by left)); congruence).
  constructor; [| | |done..].
  - apply leibniz_equiv. intros x. rewrite elem_of_difference, !elem_of_union, !elem_of_list_to_set, !elem_of_singleton.
    split; [tauto|]. intros [->|Hx]; [tauto|]. split; [tauto|]. by intros ->.
  - by rewrite lookup_delete_ne.
  - intros q dq Hq. rewrite lookup_delete_ne; [eapply HE; by right|]. intros <-. apply Hnp.
    apply list_elem_of_fmap. by exists (p, dq).
Qed.

Lemma mlist_pop_ok m a h G U S l lst es p d : heap_ok m a h G U l → mlist m U S lst ((p, d) :: es) →
  ∃ m' h', mlist_pop lst (m, a, h) = Ok (d, (m', a, h')) ∧ heap_ok m' a h' G (delete p U) l ∧
    mlist m' (delete p U) (S ∖ {[p]}) lst es ∧ changes (λ x, private G U x ∨ in_blocks U S x) m m'.
Proof.
  intros Hh Hm. pose proof (mls_list _ _ _ _ _ Hm) as HUl. pose proof (mls_nodup _ _ _ _ _ Hm) as [Hnp _]%NoDup_cons.
  pose proof (mls_chain _ _ _ _ _ Hm) as (_ & H0 & Wd & n & Wn & Hch).
  assert (U !! p = Some 24) as HUp by (eapply (mls_elems _ _ _ _ _ Hm); by left).
  destruct (mlist_inner m a h G U S l lst _ Hh Hm) as [Hin Hin']. pose proof (Hin p d ltac:(by left)) as Hlp.
  destruct (heap_block _ _ _ _ _ _ _ _ Hh HUp) as (_ & _ & Hpb & _).
  destruct (mlist_ld m a h _ _ _ _ Hm) as [E1 E2].
  assert (n = first es ∧ 0 ≤ n < 2 ^ 64) as [-> Hn].
  { destruct es as [|[q dq] es]; simpl in Hch; [by subst|]. destruct Hch as (-> & ? & _). split; [done|].
    destruct (heap_block _ _ _ _ _ _ q 24 Hh) as (_ & _ & ? & _); [|lia]. eapply (mls_elems _ _ _ _ _ Hm). right. by left. }
  assert (∃ m1, (h0 ← ld (ml_head lst); t ← ld (ml_tail lst);
    (if h0 =? t then st (ml_tail lst) 0;; st (ml_head lst) 0
     else h0 ← ld (ml_head lst); n ← ld (el_next h0); st (ml_head lst) n)) (m, a, h) = Ok (tt, (m1, a, h)) ∧
    heap_ok m1 a h G U l ∧ changes (λ x, lst ≤ x < lst + 16) m m1 ∧
    word64_at m1 (ml_head lst) (first es) ∧ word64_at m1 (ml_tail lst) (final es))
    as (m1 & Eu & Hh1 & C1 & Wh & Wt).
  { rewrite (bind_ok _ _ _ _ _ E1), (bind_ok _ _ _ _ _ E2). change (first ((p, d) :: es)) with p in *.
    destruct (decide (es = [])) as [->|Hne].
    - change (final [(p, d)]) with p. rewrite Z.eqb_refl.
      destruct (heap_store m a h G U l lst 16 (ml_tail lst) 0 Hh HUl) as (m1 & E3 & W3 & Hh1 & C1);
        [unfold ml_tail; lia..|].
      destruct (heap_store m1 a h G U l lst 16 (ml_head lst) 0 Hh1 HUl) as (m2 & E4 & W4 & Hh2 & C2);
        [unfold ml_head; lia..|].
      exists m2. unfold ml_head, ml_tail, st in *. rewrite (bind_ok _ _ _ _ _ E3). split_and!; [done|done| |done|].
      + eapply changes_trans; (eapply changes_weaken; [|done]); simpl; lia.
      + eapply changes_word; [done..|]. simpl. lia.
    - rewrite final_cons in * by done.
      assert (p ≠ final es) as Hpf.
      { intros E. apply Hnp. destruct (final_elem es Hne) as (es0 & q & dq & Ee & Eq).
        assert (p = q) as -> by congruence. apply list_elem_of_fmap. exists (q, dq). split; [done|].
        rewrite Ee. apply elem_of_app. right. by left. }
      destruct (Z.eqb_spec p (final es)); [done|]. rewrite (bind_ok _ _ _ _ _ E1).
      rewrite (bind_ok _ _ _ _ _ (ld_ok _ a h _ _ Wn)).
      destruct (heap_store m a h G U l lst 16 (ml_head lst) (first es) Hh HUl) as (m1 & E3 & W3 & Hh1 & C1);
        [unfold ml_head; lia..|].
      exists m1. unfold ml_head, ml_tail in *. split_and!; [done|done| |done|].
      + eapply changes_weaken; [|done]. simpl. lia.
      + eapply changes_word; [|done|]; [|simpl; lia]. pose proof (mls_tail _ _ _ _ _ Hm) as Wt. by rewrite final_cons in Wt. }
  destruct (heap_free m1 a h G U l p 24 Hh1 HUp) as (m2 & h2 & Ef & Hh2 & C2); [auto with loos|].
  assert (mlist m1 (delete p U) (S ∖ {[p]}) lst es) as Hm1.
  { eapply mlist_del; [done..|]. eapply elems_changes; [done..|]. simpl. intros x q dq Hx Hq.
    pose proof (Hin q dq ltac:(by right)). lia. }
  exists m2, h2. split_and!; [|done| |].
  - unfold mlist_pop. rewrite (bind_ok _ _ _ _ _ (mlist_empty m a h G _ _ _ _ _ Hh Hm)), bool_decide_false by done.
    rewrite (bind_ok _ _ _ _ _ E1). rewrite (bind_ok _ _ _ _ _ (ld_ok _ a h _ _ Wd)).
    revert Eu. rewrite (bind_ok _ _ _ _ _ E1), (bind_ok _ _ _ _ _ E2). intros Eu.
    rewrite (bind_ok _ _ _ _ _ E1), (bind_ok _ _ _ _ _ E2), (bind_ok _ _ _ _ _ Eu). by rewrite (bind_ok _ _ _ _ _ Ef).
  - eapply mlist_frame; [done|done| |done]. intros x [_ Hx] (q & k & Hq & Hqk & Hqx). apply Hx.
    exists q, k. split; [|done]. by apply lookup_delete_Some in Hqk as [_ ?].
  - eapply changes_trans; (eapply changes_weaken; [|done]); simpl; intros x Hx; [|by left].
    right. destruct (own_blocks m U S lst _ x Hm) as [Ho _]. by apply Ho.
Qed.
(** Linking [p] behind the last element [q]. *)
Lemma elems_snoc P m m' e es0 q dq p d : elems m e (es0 ++ [(q, dq)]) → changes P m m' →
  (∀ x p' d', P x → (p', d') ∈ es0 → ¬ (p' + 8 ≤ x < p' + 24)) → (∀ x, P x → ¬ (q + 16 ≤ x < q + 24)) →
  word64_at m' (el_next q) p → elems m' p [(p, d)] → elems m' e (es0 ++ [(q, dq); (p, d)]).
Proof.
  intros Hel C He Hq Wq Hp. revert e Hel. induction es0 as [|[p' d'] es0 IH]; intros e Hel; simpl in *.
  - destruct Hel as (-> & H0 & Wd & _). split_and!; [done|done| |by exists p].
    eapply changes_word; [done..|]. unfold el_data. intros x Hx%Hq. lia.
  - destruct Hel as (-> & H0 & Wd & n & Wn & Hel).
    assert (∀ x, P x → ¬ (p' + 8 ≤ x < p' + 24)) as Hp' by (intros x Hx; apply (He x p' d' Hx); by left).
    split_and!; [done|done| |exists n; split].
    + eapply changes_word; [done..|]. unfold el_data. intros x Hx%Hp'. lia.
    + eapply changes_word; [done..|]. unfold el_next. intros x Hx%Hp'. lia.
    + apply IH; [|done]. intros x p'' d'' Hx Hin. apply (He x p'' d'' Hx). by right.
Qed.

Lemma mlist_append_ok m a h G U S l lst es d : heap_ok m a h G U l → mlist m U S lst es → l ≠ [] → 0 ≤ d < 2 ^ 64 →
  ∃ p m' a' h' G' l', mlist_append lst d (m, a, h) = Ok (tt, (m', a', h')) ∧
    extends m G U S l p 24 m' a' h' G' l' ∧ mlist m' (<[p := 24]> U) ({[p]} ∪ S) lst (es ++ [(p, d)]).
Proof.
  intros Hh Hm Hl Hd. destruct (mlist_new m a h G U S l lst es d Hh Hm Hl Hd)
    as (p & m1 & a1 & h1 & G1 & l1 & E & Hp0 & HpS & Hex & Hm1 & Wn & Wd).
  pose proof Hex as (Hh1 & Hp & _ & _). pose proof (lookup_insert_eq U p 24) as HUp.
  exists p. unfold mlist_append. rewrite (bind_ok _ _ _ _ _ E), (bind_ok _ _ _ _ _ (mlist_empty m1 a1 h1 _ _ _ _ _ _ Hh1 Hm1)).
  destruct (decide (es = [])) as [->|Hne]; [rewrite bool_decide_true by done|rewrite bool_decide_false by done].
  - destruct (mlist_single m1 a1 h1 G1 U S l1 lst p d) as (m' & E' & Hh' & C' & Hm'); [done..|].
    exists m', a1, h1, G1, l1. split_and!; [done| |done]. eapply extends_store; [done..|]. auto.
  - destruct (mlist_ld m1 a1 h1 _ _ _ _ Hm1) as [_ Et]. rewrite (bind_ok _ _ _ _ _ Et).
    destruct (final_elem es Hne) as (es0 & q & dq & Ees & Eq). rewrite Eq.
    pose proof (mls_list _ _ _ _ _ Hm1) as HUl.
    assert ((q, dq) ∈ es) as Hqes by (rewrite Ees; apply elem_of_app; right; by left).
    assert (<[p := 24]> U !! q = Some 24) as HUq by (by eapply (mls_elems _ _ _ _ _ Hm1)).
    destruct (heap_block _ _ _ _ _ _ _ _ Hh1 HUp) as (_ & _ & Hpb & _).
    destruct (heap_block _ _ _ _ _ _ _ _ Hh1 HUq) as (_ & Hq0 & Hqb & _).
    destruct (mlist_apart m1 m1 a1 h1 G1 _ _ S l1 lst _ p 24 Hh1 Hm1) as [Hap Hap']; [done..|].
    destruct (mlist_inner m1 a1 h1 G1 _ S l1 lst _ Hh1 Hm1) as [Hin Hin'].
    pose proof (Hap' q dq Hqes) as Hpq. pose proof (Hin q dq Hqes) as Hlq.
    destruct (heap_store m1 a1 h1 G1 _ l1 p 24 (el_prev p) q Hh1 HUp) as (m2 & E2 & W2 & Hh2 & C2);
      [unfold el_prev; lia..|].
    destruct (heap_store m2 a1 h1 G1 _ l1 q 24 (el_next q) p Hh2 HUq) as (m3 & E3 & W3 & Hh3 & C3);
      [unfold el_next; lia..|].
    destruct (heap_store m3 a1 h1 G1 _ l1 lst 16 (ml_tail lst) p Hh3 HUl) as (m4 & E4 & W4 & Hh4 & C4);
      [unfold ml_tail; lia..|].
    unfold el_next, el_prev, ml_tail in C2, C3, C4.
    assert (changes (λ x, p ≤ x < p + 8 ∨ q + 8 ≤ x < q + 16 ∨ lst + 8 ≤ x < lst + 16) m1 m4) as C.
    { eapply changes_trans; [eapply changes_trans|]; (eapply changes_weaken; [|done]); simpl; lia. }
    exists m4, a1, h1, G1, l1. split_and!.
    + unfold st. rewrite (bind_ok _ _ _ _ _ E2), (bind_ok _ _ _ _ _ (ld_ok _ a1 h1 _ _ W2)).
      by rewrite (bind_ok _ _ _ _ _ E3).
    + eapply extends_store; [done..|]. simpl. intros x [Hx|[Hx|Hx]]; [left; lia|right..];
        destruct (own_blocks m U S lst _ x Hm) as [Ho Ho']; [apply (Ho' q dq Hqes); lia|apply Ho; lia].
    + assert (first (es ++ [(p, d)]) = first es) as Ef by by destruct es.
      eapply mlist_add; [exact Hm|done|by rewrite <- Permutation_cons_append|rewrite Ef|unfold final; by rewrite last_snoc|rewrite Ef].
      * eapply changes_word; [apply Hm1|done|]. unfold ml_head. simpl. lia.
      * pose proof (mls_chain _ _ _ _ _ Hm1) as Hch. revert Hch. rewrite Ees at 2. intros Hch.
        rewrite Ees at 2. rewrite <- app_assoc. eapply elems_snoc; [done|done| | | |].
        { intros x p' d' Hx Hp'. simpl in Hx. assert ((p', d') ∈ es) as Hp'e by (rewrite Ees; apply elem_of_app; by left).
          pose proof (Hap' p' d' Hp'e). pose proof (Hin p' d' Hp'e).
          assert (p' ≠ q) as Hne'. { intros ->. pose proof (mls_nodup _ _ _ _ _ Hm) as Hnd.
            rewrite Ees, fmap_app in Hnd. apply NoDup_app in Hnd as (_ & Hnd & _). apply (Hnd q).
            - apply list_elem_of_fmap. by exists (q, d').
            - by left. }
          pose proof (Hin' p' d' q dq Hp'e Hqes Hne'). lia. }
        { simpl. lia. }
        { unfold el_next in *. eapply changes_word; [done|exact C4|]. simpl. lia. }
        split_and!; [done|done| |exists 0; split; [|done]];
          (eapply changes_word; [done..|]; unfold el_data, el_next; simpl; lia).
Qed.

(** [mlist_init]: an empty list in a new block, which is never freed. *)
Lemma mlist_init_ok m a h G U l : heap_ok m a h G U l → l ≠ [] →
  ∃ p m' a' h' G' l', mlist_init (m, a, h) = Ok (p, (m', a', h')) ∧
    extends m G U ∅ l p 16 m' a' h' G' l' ∧ mlist m' (<[p := 16]> U) {[p]} p [].
Proof.
  intros Hh Hl.
  destruct (heap_malloc m a h G U l 16 Hh) as (p & m0 & a0 & h0 & G' & l' & E0 & Hh0 & Hp & Ht & C0);
    [auto with loos|done|done|].
  pose proof (lookup_insert_eq U p 16) as HU.
  destruct (heap_store m0 a0 h0 G' _ l' p 16 (ml_head p) 0 Hh0 HU) as (m1 & E1 & W1 & Hh1 & C1);
    [unfold ml_head; lia..|].
  destruct (heap_store m1 a0 h0 G' _ l' p 16 (ml_tail p) 0 Hh1 HU) as (m2 & E2 & W2 & Hh2 & C2);
    [unfold ml_tail; lia..|].
  unfold ml_head, ml_tail in C1, C2.
  exists p, m2, a0, h0, G', l'. split_and!.
  - unfold mlist_init. rewrite (bind_ok _ _ _ _ _ E0). unfold st. rewrite (bind_ok _ _ _ _ _ E1).
    by rewrite (bind_ok _ _ _ _ _ E2).
  - eapply (extends_store (λ x, p ≤ x < p + 16)); [split_and!; [exact Hh0|done|done|]|done| |auto].
    + eapply changes_weaken; [|done]. auto.
    + eapply changes_trans; (eapply changes_weaken; [|done]); simpl; lia.
  - constructor; try done; [simpl; by rewrite union_empty_r_L|by intros ? ? ?%not_elem_of_nil|by apply NoDup_nil_2| ].
    eapply changes_word; [done..|]. unfold ml_head. simpl. lia.
Qed.

(** The first datum that [func] accepts. *)
Definition found (func : Z → bool) es : Z := default 0 (head (filter (λ d, func d) es.*2)).

Lemma mlist_find_loop_ok m a h func es : ∀ e fuel, elems m e es → (length es < fuel)%nat →
  mlist_find_loop fuel e func (m, a, h) = Ok (found func es, (m, a, h)).
Proof.
  unfold found. induction es as [|[p d] es IH]; intros e [|fuel] He Hf; simpl in Hf; try lia; cbn [mlist_find_loop].
  - by rewrite He.
  - destruct He as (-> & H0 & Wd & n & Wn & He). destruct (Z.eqb_spec p 0); [lia|].
    rewrite (bind_ok _ _ _ _ _ (ld_ok m a h _ _ Wd)). cbn [fmap list_fmap snd]. rewrite filter_cons.
    destruct (func d) eqn:Ef; simpl.
    + by rewrite (ld_ok m a h _ _ Wd).
    + rewrite (bind_ok _ _ _ _ _ (ld_ok m a h _ _ Wn)). apply IH; [done|lia].
Qed.

Lemma mlist_length m a h G U S l lst es : heap_ok m a h G U l → mlist m U S lst es → (length es < fuel_of m)%nat.
Proof.
  intros Hh Hm. unfold fuel_of. rewrite <- (length_fmap fst), <- size_dom.
  rewrite <- (size_list_to_set (C := gset Z) es.*1) by apply Hm.
  apply Nat.lt_succ_r, subseteq_size. intros p [[q d] [-> Hq]]%elem_of_list_to_set%list_elem_of_fmap.
  destruct (heap_block _ _ _ _ _ _ q 24 Hh) as (_ & _ & _ & Hmp & _); [by eapply (mls_elems _ _ _ _ _ Hm)|].
  apply elem_of_dom, Hmp. simpl. lia.
Qed.
(** C12: The operations implement a sequence of pointers.  [mlist_push] puts a datum first and
    [mlist_append] last, each with a new block of the heap and at most one page more;
    [mlist_pop] removes the first and returns it, 0 for an empty list, and gives its block back;
    [mlist_find] returns the first that is accepted.  No other block in use changes. *)
Theorem mlist_refines m a h G U S l lst es d : heap_ok m a h G U l → mlist m U S lst es → l ≠ [] →
  0 ≤ d < 2 ^ 64 →
  (∃ p m' a' h' G' l', mlist_push lst d (m, a, h) = Ok (tt, (m', a', h')) ∧
    extends m G U S l p 24 m' a' h' G' l' ∧ mlist m' (<[p := 24]> U) ({[p]} ∪ S) lst ((p, d) :: es)) ∧
  (∃ p m' a' h' G' l', mlist_append lst d (m, a, h) = Ok (tt, (m', a', h')) ∧
    extends m G U S l p 24 m' a' h' G' l' ∧ mlist m' (<[p := 24]> U) ({[p]} ∪ S) lst (es ++ [(p, d)])) ∧
  match es with
  | [] => mlist_pop lst (m, a, h) = Ok (0, (m, a, h))
  | (p, d0) :: es => ∃ m' h', mlist_pop lst (m, a, h) = Ok (d0, (m', a, h')) ∧
      heap_ok m' a h' G (delete p U) l ∧ mlist m' (delete p U) (S ∖ {[p]}) lst es ∧
      changes (λ x, private G U x ∨ in_blocks U S x) m m'
  end ∧
  mlist_is_empty lst (m, a, h) = Ok (bool_decide (es = []), (m, a, h)) ∧
  ∀ func, mlist_find lst func (m, a, h) = Ok (found func es, (m, a, h)).
Proof.
  intros Hh Hm Hl Hd. pose proof (mlist_empty m a h G U S l lst es Hh Hm) as Ee.
  split_and!; [by apply mlist_push_ok|by apply mlist_append_ok| |done|].
  - destruct es as [|[p d0] es]; [|by apply mlist_pop_ok].
    unfold mlist_pop. by rewrite (bind_ok _ _ _ _ _ Ee), bool_decide_true by done.
  - intros func. unfold mlist_find. rewrite (bind_ok _ _ _ _ _ Ee).
    destruct (decide (es = [])) as [->|Hne]; [by rewrite bool_decide_true by done|rewrite bool_decide_false by done].
    destruct (mlist_ld m a h _ _ _ _ Hm) as [El _]. rewrite (bind_ok _ _ _ _ _ El).
    rewrite (bind_ok _ _ _ (fuel_of m) (m, a, h)) by done. apply mlist_find_loop_ok; [apply Hm|].
    by eapply mlist_length.
Qed.
End sequence.

(** A list at 100 with the elements 200, 300 and 400. *)
Definition sample_mlist : mem :=
  write_bytes 100 (concat (le_split 8 <$> [200; 400]))
  (write_bytes 200 (concat (le_split 8 <$> [0; 300; 7]))
  (write_bytes 284 (concat (le_split 8 <$> [0; 24; 200; 400; 8]))
  (write_bytes 400 (concat (le_split 8 <$> [300; 0; 9])) ∅))).

Lemma mlist_remove_middle_witness : ∃ m' h',
  mlist_remove 100 8 (sample_mlist, 0, mheap_init) = Ok (tt, (m', 0, h')) ∧
  elems m' 200 [(200, 7); (300, 8); (400, 9)].
Proof.
  destruct (mlist_remove_middle sample_mlist 0 mheap_init 100 [(200, 7)] 300 8 [(400, 9)] 200 400)
    as (m' & h' & E & _ & _ & _ & Hl).
  - lia.
  - done.
  - by_word.
  - by_word.
  - cbn [elems app]. split_and!; [done|lia|by_word|]. exists 300. split; [by_word|].
    split_and!; [done|lia|by_word|]. exists 400. split; [by_word|].
    split_and!; [done|lia|by_word|]. exists 0. split; [by_word|done].
  - lia.
  - lia.
  - intros p d' [= -> ->]%list_elem_of_singleton. done.
  - apply Nat.ltb_lt. by vm_compute.
  - intros p d' Hp. cbn [app] in Hp.
    repeat (apply elem_of_cons in Hp as [[= -> ->]|Hp]; [lia|]). by apply not_elem_of_nil in Hp.
  - lia.
  - lia.
  - intros x Hx. assert (x = 284 ∨ x = 285 ∨ x = 286 ∨ x = 287 ∨ x = 288 ∨ x = 289 ∨ x = 290 ∨ x = 291)
      as Hx' by lia. destruct_or!; subst; by eexists.
  - by_word.
  - exists m', h'. split; [exact E|exact Hl].
Defined.

(** A heap with seven free pages, and an empty list on it. *)
Lemma sample_list : ∃ (m : mem) (a : Z) h G U l lst, heap_ok m a h G U l ∧ mlist m U {[lst]} lst [] ∧ l ≠ [].
Proof.
  destruct sample_table as (m & a & _ & _ & l & _ & Ha & _ & Hl).
  destruct (mlist_init_ok m a mheap_init [] ∅ l) as (p & m' & a' & h' & G' & l' & _ & (Hh & _ & Ht & _) & Hm);
    [by apply heap_init|by intros ->|].
  exists m', a', h', G', (<[p := 16]> ∅), l', p. split_and!; [done|done|].
  intros ->. destruct Ht as [[_ <-]|(q & -> & _)]; simpl in Hl; lia.
Qed.

Lemma mlist_refines_witness : ∃ lst (m : mem) (a : Z) h m' a' h',
  mlist_push lst 5 (m, a, h) = Ok (tt, (m', a', h')) ∧ mlist_pop lst (m, a, h) = Ok (0, (m, a, h)).
Proof.
  destruct sample_list as (m & a & h & G & U & l & lst & Hh & Hm & Hl).
  destruct (mlist_refines m a h G U _ l lst [] 5 Hh Hm Hl) as ((p & m' & a' & h' & _ & _ & E & _) & _ & E' & _);
    [by vm_compute|].
  exists lst, m, a, h, m', a', h'. split; [exact E|exact E'].
Defined.
