(* ===== verification/AddrSpace.v ===== *)
(** * mm/n_vm.c: the address space of a process

    A process records every page it owns as a [struct mapping] (pa, va, size,
    perm: four words on the kernel heap) on its [mapping_list].  The functions
    here combine the page table ([Vm]), the heap ([Malloc]) and the list
    ([MList]); [p->pgtbl] and [p->mapping_list] are passed as values, and a
    function that changes [p->mapping_list] returns the new one. *)

From S2P Require Import Prelude Mem CString PageAlloc Vm Malloc MList.

Definition map_pa (mapping : Z) : Z := mapping.
Definition map_va (mapping : Z) : Z := mapping + 8.
Definition map_size (mapping : Z) : Z := mapping + 16.
Definition map_perm (mapping : Z) : Z := mapping + 24.

Section program.
Context {A : Type} `{PageAllocator A}.
Abbreviation HM := (M (mem * A * mheap)).

Definition __proc_add_mapping (mapping_list pa va size perm : Z) : HM unit :=
  mapping ← malloc 32;
  st (map_pa mapping) pa;; st (map_va mapping) va;;
  st (map_size mapping) size;; st (map_perm mapping) perm;;
  mlist_push mapping_list mapping.

Fixpoint alloc_vm_loop (fuel : nat) (pgtbl mapping_list caddr end_ perm : Z) : HM Z :=
  if caddr <? end_
  then match fuel with
       | O => fail Fuel
       | S fuel =>
           new_mem ← on_pages (page_alloc PGSIZE);
           if new_mem =? 0 then fail Halt
           else
             on_memory (memset new_mem 0 PGSIZE);;
             r ← on_pages (__map_single_page pgtbl caddr new_mem perm);
             if negb (r =? 0) then fail Halt
             else __proc_add_mapping mapping_list new_mem caddr PGSIZE perm;;
                  alloc_vm_loop fuel pgtbl mapping_list (u64 (caddr + PGSIZE)) end_ perm
       end
  else mret 0.

Definition alloc_vm (pgtbl mapping_list start end_ perm : Z) : HM Z :=
  let end_ := PGROUNDUP end_ in
  alloc_vm_loop (Z.to_nat ((end_ - start) / PGSIZE + 1)) pgtbl mapping_list start end_ perm.

Fixpoint free_mappings (fuel : nat) (list : Z) : HM unit :=
  match fuel with
  | O => fail Fuel
  | S fuel =>
      e ← mlist_is_empty list;
      if e : bool then mret tt
      else info ← mlist_pop list;
           pa ← ld (map_pa info);
           on_pages (page_free (PA2VA pa));;
           free info;;
           free_mappings fuel list
  end.

Definition pgtbl_free (pgtbl mapping_list : Z) : HM unit :=
  fuel ← gets (λ s, fuel_of s.1.1);
  free_mappings fuel mapping_list;;
  on_pages (free_pagetable pgtbl 2).

(** The loop of [copy_pagetable]: the parent's mappings move to its new list [list], a copy
    of each goes to the child's [nlist]. *)
Fixpoint copy_mappings (fuel : nat) (old_list pgtbl list npgtbl nlist : Z) : HM unit :=
  match fuel with
  | O => fail Fuel
  | S fuel =>
      e ← mlist_is_empty old_list;
      if e : bool then mret tt
      else
        info ← mlist_pop old_list;
        new_mem ← on_pages (page_alloc PGSIZE);
        on_memory (memset new_mem 0 PG_SIZE);;
        va ← ld (map_va info); on_pages (copy_from_va pgtbl new_mem va PG_SIZE);;
        va ← ld (map_va info); size ← ld (map_size info); perm ← ld (map_perm info);
        on_pages (__map_pages npgtbl va size new_mem perm);;
        va ← ld (map_va info);
        pa ← on_pages (va_to_pa npgtbl va);
        ipa ← ld (map_pa info); va ← ld (map_va info); perm ← ld (map_perm info);
        __proc_add_mapping list ipa va PG_SIZE perm;;
        va ← ld (map_va info); perm ← ld (map_perm info);
        __proc_add_mapping nlist (PA2VA pa) va PG_SIZE perm;;
        copy_mappings fuel old_list pgtbl list npgtbl nlist
  end.

Definition copy_pagetable (pgtbl mapping_list npgtbl nmapping_list : Z) : HM Z :=
  list ← mlist_init;
  fuel ← gets (λ s, fuel_of s.1.1);
  copy_mappings fuel mapping_list pgtbl list npgtbl nmapping_list;;
  mret list.
End program.
