(* ===== verification/UserSpace.v ===== *)
(** * The user half of a process and the mapping list

    The state of an address space: its table tree and its frames ([uspace],
    [owns]), and the list of [struct mapping] records ([mappings]), of which
    [recorded] says that they are exactly the mapped pages.  Pages belong to
    the heap, to an address space or to the free pages, never to two of them;
    [evolves] is what the operations here may change.  [alloc_vm_correct] is
    the theorem about [alloc_vm]. *)

From S2P Require Import Prelude Mem CString PageAlloc Vm VmCopy Malloc Heap MList AddrSpace.

(** A [struct mapping]. *)
Record mapping := { m_pa : Z; m_va : Z; m_size : Z; m_perm : Z }.

Definition word (v : Z) : Prop := 0 ≤ v < 2 ^ 64.
Definition mapping_at (m : mem) (p : Z) (r : mapping) : Prop :=
  word64_at m (map_pa p) (m_pa r) ∧ word64_at m (map_va p) (m_va r) ∧
  word64_at m (map_size p) (m_size r) ∧ word64_at m (map_perm p) (m_perm r).
Definition mapping_ok (r : mapping) : Prop :=
  word (m_pa r) ∧ word (m_va r) ∧ word (m_size r) ∧ word (m_perm r).

(** The list at [lst] holds the records [ms]; [S] are its blocks, records included. *)
Definition mappings (m : mem) (U : gmap Z Z) (S : gset Z) (lst : Z) (ms : list mapping) : Prop :=
  ∃ es S0, mlist m U S0 lst es ∧ S = S0 ∪ list_to_set es.*2 ∧ NoDup es.*2 ∧
    Forall2 (λ d r, U !! d = Some 32 ∧ mapping_at m d r) es.*2 ms.

(** The pages of an address space. *)
Definition table (T : gmap (list Z) Z) (x : Z) : Prop := ∃ p, tree_page T p ∧ in_page p x.
Definition owns (T : gmap (list Z) Z) (F : gmap Z Z) (p : Z) : Prop := tree_page T p ∨ ∃ n, F !! n = Some p.
Definition away (T : gmap (list Z) Z) (F : gmap Z Z) (G l : list Z) : Prop :=
  ∀ p, owns T F p → p ∉ G ∧ p ∉ l.

(** What an operation on an address space may write: the private part of the heap, the
    operation's own blocks [S], the free pages [l] and the tables. *)
Definition touch (G : list Z) (U : gmap Z Z) (S : gset Z) (l : list Z) (T : gmap (list Z) Z) (x : Z) : Prop :=
  private G U x ∨ in_blocks U S x ∨ in_arena l x ∨ table T x.

Section space.
Context {A : Type} `{PageAllocator A}.
Implicit Types (m : mem) (a : A) (h : mheap) (U : gmap Z Z) (S : gset Z) (G l : list Z).
Implicit Types (T : gmap (list Z) Z) (F : gmap Z Z) (ms : list mapping).

Record uspace m root T F : Prop := { us_pt : pt m root T; us_map : umap m T F }.

(** At most [k] free pages went to the heap or the address space, and blocks outside [S] are
    still in use. *)
Record evolves (k : nat) m G U S l T m' G' U' S' l' T' : Prop := {
  ev_blocks : ∀ p n, p ∉ S → U !! p = Some n → U' !! p = Some n;
  ev_own : ∀ p, p ∈ S' → p ∈ S ∨ U !! p = None;
  ev_free : ∀ p, p ∈ l' → p ∈ l;
  ev_len : (length l ≤ length l' + k)%nat;
  ev_heap : ∀ p, p ∈ G' → p ∈ G ∨ p ∈ l;
  ev_heap_sub : G ⊆ G';
  ev_tables : ∀ p, tree_page T' p → tree_page T p ∨ p ∈ l;
  ev_mem : changes (touch G U S l T) m m'
}.

Lemma evolves_refl m G U S l T : evolves 0 m G U S l T m G U S l T.
Proof. constructor; auto; [lia|apply changes_refl]. Qed.

Lemma heap_page_cell m a h G U l p q x : heap_ok m a h G U l → p ∈ G → in_page p x → kpage q → q ∉ G → ¬ in_page q x.
Proof.
  intros Hh Hp Hx Hq Hn. destruct (heap_page _ _ _ _ _ _ _ Hh Hp) as [_ Hk].
  eapply (kpage_disjoint p q); [done|done| |done]. by intros ->.
Qed.

Lemma free_page m a h G U l q : heap_ok m a h G U l → q ∈ l → kpage q ∧ q ∉ G ∧ mapped m q PGSIZE.
Proof.
  intros Hh Hq. destruct (avail_pages _ _ _ (heap_avail _ _ _ _ _ _ Hh)) as [_ Hk]. destruct (Hk q Hq).
  split_and!; [done| |done]. intros HG. by destruct (heap_page _ _ _ _ _ _ _ Hh HG).
Qed.

Lemma owned_page m root T F p : uspace m root T F → owns T F p → kpage p ∧ mapped m p PGSIZE.
Proof.
  intros [Hpt Hu] [[k Hk]|[n Hn]]; [destruct (pt_page _ _ _ Hpt _ _ Hk)|destruct (um_range _ _ _ Hu _ _ Hn)]; tauto.
Qed.

(** What is touched later was touched before. *)
Lemma touch_later k m G U S l T m1 a1 h1 G1 U1 S1 l1 T1 x :
  evolves k m G U S l T m1 G1 U1 S1 l1 T1 → heap_ok m1 a1 h1 G1 U1 l1 →
  touch G1 U1 S1 l1 T1 x → touch G U S l T x.
Proof.
  intros Ev Hh Hx.
  assert (in_arena G1 x → (∀ p n, p ∉ S → U !! p = Some n → p ≤ x < p + n → False) → touch G U S l T x) as Hgen.
  { intros (g & Hg & Hgx) Hno. destruct (ev_heap _ _ _ _ _ _ _ _ _ _ _ _ _ Ev g Hg) as [HG|Hl];
      [|right; right; left; by exists g].
    destruct (block_dec U x) as [(p & n & HU & Hpx)|Hnb].
    - destruct (decide (p ∈ S)) as [HS|HS]; [right; left; by exists p, n|]. exfalso. by eapply Hno.
    - left. split; [by exists g|done]. }
  destruct Hx as [[Hg Hnb]|[(p & n & Hp & HU & Hpx)|[(g & Hg & Hgx)|(p & Hp & Hpx)]]].
  - apply Hgen; [done|]. intros p n HS HU Hpx. apply Hnb. exists p, n. split; [by eapply ev_blocks|done].
  - apply Hgen; [eapply block_arena; [done|by exists p, n]|]. intros p' n' HS HU' Hpx'.
    assert (p ≠ p') as Hne.
    { intros ->. destruct (ev_own _ _ _ _ _ _ _ _ _ _ _ _ _ Ev p' Hp); congruence. }
    pose proof (heap_disjoint _ _ _ _ _ _ p n p' n' Hh HU ltac:(by eapply ev_blocks) Hne). lia.
  - right; right; left. exists g. split; [by eapply ev_free|done].
  - destruct (ev_tables _ _ _ _ _ _ _ _ _ _ _ _ _ Ev p Hp); [right; right; right|right; right; left]; by exists p.
Qed.

Lemma evolves_trans k1 k2 m G U S l T m1 a1 h1 G1 U1 S1 l1 T1 m2 G2 U2 S2 l2 T2 :
  evolves k1 m G U S l T m1 G1 U1 S1 l1 T1 → heap_ok m1 a1 h1 G1 U1 l1 →
  evolves k2 m1 G1 U1 S1 l1 T1 m2 G2 U2 S2 l2 T2 → evolves (k1 + k2) m G U S l T m2 G2 U2 S2 l2 T2.
Proof.
  intros E1 Hh E2. pose proof E1 as [A1 A2 A3 A4 A5 A6 A7 A8]. pose proof E2 as [B1 B2 B3 B4 B5 B6 B7 B8].
  constructor; auto; [| |lia|..].
  - intros p n HS HU. apply B1; [|by apply A1]. intros HS1. destruct (A2 p HS1); congruence.
  - intros p [HS1|HU1]%B2; [by apply A2|]. destruct (decide (p ∈ S)) as [|HS]; [by left|right].
    destruct (U !! p) as [n|] eqn:HU; [|done]. by rewrite (A1 p n HS HU) in HU1.
  - intros p [Hp%A5|Hp%A3]%B5; auto.
  - by etrans.
  - intros p [Hp%A7|Hp%A3]%B7; auto.
  - eapply changes_trans; [done|]. eapply changes_weaken; [|done]. intros x Hx. by eapply touch_later.
Qed.

(** A step of the heap alone, in a wider setting. *)
Lemma evolves_wider k m G U S l m' G' U' S' l' T T' R R' : evolves k m G U S l T m' G' U' S' l' T' →
  S ⊆ R → (∀ p, p ∈ R' → p ∈ R ∨ p ∈ S') → evolves k m G U R l T m' G' U' R' l' T'.
Proof.
  intros [E1 E2 E3 E4 E5 E6 E7 E8] HR HR'. constructor; auto.
  - intros p Hp. destruct (HR' p Hp) as [|Hs]; [by left|]. destruct (E2 p Hs); auto.
  - eapply changes_weaken; [|done]. intros x [?|[(p & n & Hp & ?)|?]]; [by left| |by right; right].
    right; left. exists p, n. split; [by apply HR|done].
Qed.

Lemma evolves_tables k m G U S l m' G' U' S' l' T : evolves k m G U S l ∅ m' G' U' S' l' ∅ →
  evolves k m G U S l T m' G' U' S' l' T.
Proof.
  intros [E1 E2 E3 E4 E5 E6 E7 E8]. constructor; auto. eapply changes_weaken; [|done].
  intros x [?|[?|[?|(p & [key Hp] & _)]]]; [by left|by right; left|by right; right; left|by rewrite lookup_empty in Hp].
Qed.

(** Pages and blocks that are not touched. *)
Lemma touch_page m a h G U S l T p x : heap_ok m a h G U l → (∀ q, tree_page T q → kpage q) → kpage p →
  p ∉ G → p ∉ l → ¬ tree_page T p → in_page p x → ¬ touch G U S l T x.
Proof.
  intros Hh HTk Hk HG Hl HT Hx [[(g & Hg & Hgx) _]|[(q & n & _ & HU & Hqx)|[(g & Hg & Hgx)|(q & Hq & Hqx)]]].
  - by eapply heap_page_cell.
  - destruct (block_arena _ _ _ _ _ _ x Hh) as (g & Hg & Hgx); [by exists q, n|]. by eapply heap_page_cell.
  - destruct (free_page _ _ _ _ _ _ _ Hh Hg) as (Hgk & _). eapply (kpage_disjoint p g); [done|done| |done|done].
    by intros ->.
  - eapply (kpage_disjoint p q); [done|by apply HTk| |done|done]. by intros ->.
Qed.

Lemma touch_blocks m a h G U S S' l T x : heap_ok m a h G U l → (∀ p, tree_page T p → kpage p ∧ p ∉ G) →
  S ## S' → touch G U S l T x → ¬ in_blocks U S' x.
Proof.
  intros Hh HT HS Hx (q & n & Hq & HU & Hqx).
  destruct (block_arena _ _ _ _ _ _ x Hh) as (g & Hg & Hgx); [by exists q, n|].
  destruct Hx as [[_ Hnb]|[(p & k & Hp & HU' & Hpx)|[(p & Hp & Hpx)|(p & Hp & Hpx)]]].
  - apply Hnb. by exists q, n.
  - assert (p ≠ q) as Hne by set_solver. pose proof (heap_disjoint _ _ _ _ _ _ p k q n Hh HU' HU Hne). lia.
  - destruct (free_page _ _ _ _ _ _ _ Hh Hp) as (Hpk & HpG & _). by eapply (heap_page_cell m a h G U l g p x).
  - destruct (HT p Hp). by eapply (heap_page_cell m a h G U l g p x).
Qed.
(** Changes elsewhere. *)
Lemma uspace_frame P m m' root T F : uspace m root T F → changes P m m' →
  (∀ x p, owns T F p → in_page p x → ¬ P x) → uspace m' root T F.
Proof.
  intros [Hpt Hu] [Hd HP] Hx.
  assert (∀ p x, tree_page T p → in_page p x → m' !! x = m !! x) as Hs.
  { intros p x Hp Hpx. apply HP. by eapply Hx; [left|]. }
  split; [by eapply pt_frame|]. destruct Hu as [U1 U2 U3]. constructor; [| |done].
  - intros n q Hn. destruct (U1 n q Hn) as (? & ? & ? & ?). split_and!; [lia|lia|done| |done].
    by eapply mapped_dom.
  - intros n q Hn. destruct (U2 n q Hn) as (e & He & ? & ?). exists e. split_and!; [|done|done].
    eapply leaf_frame; [done..|]. intros k p x Hp _ Hpx. apply (Hs p); [by exists k|done].
Qed.

Lemma mapping_at_frame P m m' p r : mapping_at m p r → changes P m m' →
  (∀ x, P x → ¬ (p ≤ x < p + 32)) → mapping_at m' p r.
Proof.
  intros (W1 & W2 & W3 & W4) HC HP. unfold map_pa, map_va, map_size, map_perm in *.
  split_and!; (eapply changes_word; [done..|]; unfold map_pa, map_va, map_size, map_perm; intros x Hx%HP; lia).
Qed.

Lemma record_block (es : list (Z * Z)) d : d ∈ es.*2 → d ∈ (list_to_set es.*2 : gset Z).
Proof. by rewrite elem_of_list_to_set. Qed.

Lemma mappings_frame P m m' U U' S lst ms : mappings m U S lst ms → changes P m m' →
  (∀ x, P x → ¬ in_blocks U S x) → (∀ p n, p ∈ S → U !! p = Some n → U' !! p = Some n) → mappings m' U' S lst ms.
Proof.
  intros (es & S0 & Hm & -> & Hnd & Hr) HC HP HU. exists es, S0. split_and!; [|done|done|].
  - eapply mlist_frame; [done|done| |].
    + intros x Hx (p & n & Hp & ? & ?). apply (HP x Hx). exists p, n. split_and!; [set_solver|done|lia|lia].
    + intros p Hp. destruct (mlist_dom _ _ _ _ _ _ Hm Hp) as [n Hn]. rewrite Hn. apply HU; [set_solver|done].
  - apply Forall2_same_length_lookup_2; [by eapply Forall2_length|]. intros i d r Hi Hir.
    pose proof (Forall2_lookup_lr _ _ _ _ _ _ Hr Hi Hir) as [Hd Hat].
    assert (d ∈ (list_to_set es.*2 : gset Z)) as Hds by (apply record_block; by eapply list_elem_of_lookup_2).
    split; [apply HU; [set_solver|done]|]. eapply mapping_at_frame; [done..|].
    intros x Hx Hdx. apply (HP x Hx). exists d, 32. split_and!; [set_solver|done|lia|lia].
Qed.

Lemma mappings_dom m U S lst ms p : mappings m U S lst ms → p ∈ S → is_Some (U !! p).
Proof.
  intros (es & S0 & Hm & -> & _ & Hr) [Hp|Hp%elem_of_list_to_set]%elem_of_union; [by eapply mlist_dom|].
  apply list_elem_of_lookup in Hp as [i Hi]. destruct (Forall2_lookup_l _ _ _ _ _ Hr Hi) as (r & _ & ? & _). eauto.
Qed.

(** An operation that leaves the blocks of a list alone. *)
Lemma mappings_evolves k m a h G U S l T m' G' U' S' l' T' S2 lst ms : heap_ok m a h G U l →
  (∀ p, tree_page T p → kpage p ∧ p ∉ G) → evolves k m G U S l T m' G' U' S' l' T' → S ## S2 →
  mappings m U S2 lst ms → mappings m' U' S2 lst ms.
Proof.
  intros Hh HT Ev HS Hm. eapply mappings_frame; [done|by eapply ev_mem| |].
  - intros x Hx. by eapply touch_blocks.
  - intros p n Hp HU. eapply ev_blocks; [done|set_solver|done].
Qed.

(** [extends] is a step in which the address space stays. *)
Lemma extends_evolves m a h G U S l T p n m' a' h' G' l' : heap_ok m a h G U l →
  extends m G U S l p n m' a' h' G' l' →
  evolves 1 m G U S l T m' G' (<[p := n]> U) ({[p]} ∪ S) l' T.
Proof.
  intros Hh (Hh' & Hp & Ht & C). constructor; auto.
  - intros q k _ HU. rewrite lookup_insert_ne; [done|congruence].
  - intros q [->%elem_of_singleton|]%elem_of_union; auto.
  - destruct Ht as [[_ ->]|(q & -> & _)]; [done|]. intros r Hr. by right.
  - destruct Ht as [[_ ->]|(q & -> & _)]; simpl; lia.
  - destruct Ht as [[-> _]|(q & -> & ->)]; [auto|]. intros r [->|Hr]%elem_of_cons; [right; by left|by left].
  - by eapply took_sub.
  - eapply changes_weaken; [|done]. intros x [[(g & Hg & Hgx) Hnb]|Hx]; [|right; left; done].
    destruct Ht as [[-> _]|(q & -> & ->)]; [left; split; [by exists g|done]|].
    apply elem_of_cons in Hg as [->|Hg]; [right; right; left; exists q; split; [by left|done]|].
    left. split; [by exists g|done].
Qed.
(** List operations leave the records alone. *)
Lemma record_frame m a h G U l m0 S0 lst es G' m' d r : heap_ok m a h G U l → mlist m0 U S0 lst es → U !! d = Some 32 →
  changes (λ x, private G' U x ∨ in_blocks U S0 x) m m' → mapping_at m d r → mapping_at m' d r.
Proof.
  intros Hh Hm Hd HC Hat. eapply mapping_at_frame; [done..|]. intros x [[_ Hnb]|(q & n & Hq & HU & Hqx)] Hx.
  - apply Hnb. by exists d, 32.
  - assert (d ≠ q) as Hne.
    { intros ->. destruct Hm as [-> HL HE _ _ _ _]. apply elem_of_union in Hq as [->%elem_of_singleton|Hq]; [congruence|].
      apply elem_of_list_to_set, list_elem_of_fmap in Hq as ([e de] & -> & Hq). specialize (HE _ _ Hq). simpl in *. congruence. }
    pose proof (heap_disjoint _ _ _ _ _ _ d 32 q n Hh Hd HU Hne). lia.
Qed.

(** A new record in a block of its own. *)
Lemma new_record m a h G U l r : heap_ok m a h G U l → l ≠ [] → mapping_ok r →
  ∃ p m' a' h' G' l', (∀ B (k : Z → M (mem * A * mheap) B),
      (mapping ← malloc 32; st (map_pa mapping) (m_pa r);; st (map_va mapping) (m_va r);;
       st (map_size mapping) (m_size r);; st (map_perm mapping) (m_perm r);; k mapping) (m, a, h) = k p (m', a', h')) ∧
    extends m G U ∅ l p 32 m' a' h' G' l' ∧ mapping_at m' p r ∧ word p.
Proof.
  intros Hh Hl (V1 & V2 & V3 & V4).
  destruct (heap_malloc m a h G U l 32 Hh) as (p & m0 & a0 & h0 & G' & l' & E0 & Hh0 & Hp & Ht & C0);
    [auto with loos|done|done|].
  pose proof (lookup_insert_eq U p 32) as HU. unfold map_pa, map_va, map_size, map_perm.
  destruct (heap_block _ _ _ _ _ _ _ _ Hh0 HU) as (_ & H1 & H2 & _).
  destruct (heap_store m0 a0 h0 G' _ l' p 32 p (m_pa r) Hh0 HU) as (m1 & E1 & W1 & Hh1 & C1); [lia|lia|done|].
  destruct (heap_store m1 a0 h0 G' _ l' p 32 (p + 8) (m_va r) Hh1 HU) as (m2 & E2 & W2 & Hh2 & C2); [lia|lia|done|].
  destruct (heap_store m2 a0 h0 G' _ l' p 32 (p + 16) (m_size r) Hh2 HU) as (m3 & E3 & W3 & Hh3 & C3); [lia|lia|done|].
  destruct (heap_store m3 a0 h0 G' _ l' p 32 (p + 24) (m_perm r) Hh3 HU) as (m4 & E4 & W4 & Hh4 & C4); [lia|lia|done|].
  exists p, m4, a0, h0, G', l'. split_and!.
  - intros B k. rewrite (bind_ok _ _ _ _ _ E0). unfold st.
    rewrite (bind_ok _ _ _ _ _ E1), (bind_ok _ _ _ _ _ E2), (bind_ok _ _ _ _ _ E3). by rewrite (bind_ok _ _ _ _ _ E4).
  - eapply (extends_store (λ x, p ≤ x < p + 32)); [split_and!; [exact Hh0|done|done|]|done| |auto].
    + eapply changes_weaken; [|done]. auto.
    + eapply changes_trans; [eapply changes_trans; [eapply changes_trans|]|]; (eapply changes_weaken; [|done]); simpl; lia.
  - unfold mapping_at, map_pa, map_va, map_size, map_perm. split_and!; [..|done].
    + eapply changes_word; [eapply changes_word; [eapply changes_word; [exact W1|done|]|done|]|done|]; simpl; lia.
    + eapply changes_word; [eapply changes_word; [exact W2|done|]|done|]; simpl; lia.
    + eapply changes_word; [exact W3|done|]; simpl; lia.
  - unfold word. lia.
Qed.

Lemma add_mapping_ok m a h G U S l T lst ms r : heap_ok m a h G U l → mappings m U S lst ms → mapping_ok r →
  (2 ≤ length l)%nat →
  ∃ m' a' h' G' U' S' l', __proc_add_mapping lst (m_pa r) (m_va r) (m_size r) (m_perm r) (m, a, h) = Ok (tt, (m', a', h')) ∧
    heap_ok m' a' h' G' U' l' ∧ mappings m' U' S' lst (r :: ms) ∧ evolves 2 m G U S l T m' G' U' S' l' T.
Proof.
  intros Hh Hms Hr Hl.
  destruct (new_record m a h G U l r Hh) as (p & m1 & a1 & h1 & G1 & l1 & E1 & X1 & Hat & Hw); [intros ->; simpl in Hl; lia|done|].
  pose proof X1 as (Hh1 & Hp & _ & C1).
  assert (mappings m1 (<[p := 32]> U) S lst ms) as Hms1.
  { eapply mappings_frame; [done|done| |].
    - intros x [Hx|(q & k & Hq & _)]; [by eapply private_blocks|set_solver].
    - intros q n _ HU. rewrite lookup_insert_ne; [done|congruence]. }
  assert (p ∉ S) as HpS by (intros Hin; destruct (mappings_dom _ _ _ _ _ _ Hms Hin); congruence).
  pose proof Hms1 as (es & S0 & Hm & HS & Hnd & Hrec). pose proof (lookup_insert_eq U p 32) as HUp.
  destruct (mlist_push_ok m1 a1 h1 G1 _ S0 l1 lst es p Hh1 Hm) as (q & m2 & a2 & h2 & G2 & l2 & E2 & X2 & Hm2); [|done|].
  { intros ->. destruct X1 as (_ & _ & [[_ <-]|(g & -> & _)] & _); simpl in Hl; lia. }
  pose proof X2 as (Hh2 & Hq & _ & C2).
  exists m2, a2, h2, G2, (<[q := 24]> (<[p := 32]> U)), ({[q]} ∪ ({[p]} ∪ S)), l2. split_and!; [|done| |].
  - unfold __proc_add_mapping. by rewrite E1.
  - exists ((q, p) :: es), ({[q]} ∪ S0). cbn [fmap list_fmap snd]. split_and!; [done|rewrite HS; simpl; set_solver| |].
    + constructor; [|done]. intros Hin. apply HpS. rewrite HS. apply elem_of_union_r, record_block, Hin.
    + constructor.
      * rewrite lookup_insert_ne by congruence. split; [done|]. by eapply (record_frame m1 a1 h1).
      * eapply Forall2_impl; [done|]. intros d r' [Hd Hat']. rewrite lookup_insert_ne by congruence.
        split; [done|]. by eapply (record_frame m1 a1 h1).
  - change 2%nat with (1 + 1)%nat. eapply evolves_trans; [|exact Hh1|].
    + eapply extends_evolves; [done|]. eapply extends_more; [|done]. set_solver.
    + eapply extends_evolves; [done|]. eapply extends_more; [|done]. set_solver.
Qed.
(** ** Adding a page *)
Definition perm_ok (perm : Z) : Prop := word perm ∧ Z.land perm PAMASK = 0 ∧ Z.land perm PTE_V ≠ 0.

Lemma map_user m a root T F l n q perm : uspace m root T F → avail m a l → (∀ p, owns T F p → p ∉ l) →
  0 ≤ n < 2 ^ 33 → F !! n = None → kpage q → mapped m q PGSIZE → ¬ owns T F q → q ∉ l → perm_ok perm →
  (2 ≤ length l)%nat →
  ∃ m' a' T' l', __map_single_page root (n * PGSIZE) q perm (m, a) = Ok (0, (m', a')) ∧
    uspace m' root T' (<[n := q]> F) ∧ avail m' a' l' ∧ (∃ k, (k ≤ 2)%nat ∧ l' = drop k l) ∧ separate T' l' ∧
    (∀ p, tree_page T' p → tree_page T p ∨ p ∈ l) ∧ changes (λ x, table T x ∨ in_arena l x) m m'.
Proof.
  intros [Hpt Hu] Ha Hsep Hn HF Hk Hqm Hqo Hql (Hp1 & Hp2 & Hp3) Hl. pose proof Hu as [U1 U2 U3].
  destruct (leaf_exists m root T (n * PGSIZE) Hpt) as [old Hold].
  destruct (map_single_ok m a root T l (n * PGSIZE) q perm old) as
    (m' & a' & T' & E & Hpt' & Ha' & Hs' & Hsub & HT' & Hd & Hlf & Hother & Hfr); try done.
  { intros p Hp Ht. apply (Hsep p); [by left|done]. }
  { etrans; [apply missing_le|done]. }
  exists m', a', T', (drop (missing T (n * PGSIZE)) l). split_and!; [done| |done| |done|done|].
  - split; [done|]. constructor.
    + intros n0 q0 [[<- <-]|[Hne HF0]]%lookup_insert_Some.
      * split_and!; [lia|lia|done|by eapply mapped_dom|]. intros [?|?]%HT'; [|done]. apply Hqo. by left.
      * destruct (U1 n0 q0 HF0) as (? & ? & ? & Hnt). split_and!; [lia|lia|done|by eapply mapped_dom|].
        intros [?|?]%HT'; [done|]. apply (Hsep q0); [right; by exists n0|done].
    + intros n0 q0 [[<- <-]|[Hne HF0]]%lookup_insert_Some.
      * eexists. split_and!; [exact Hlf| |by apply entry_valid].
        rewrite PTE2PA_entry by done. by apply (PA2VA_PTE2PA q).
      * destruct (U2 n0 q0 HF0) as (e & He & ? & ?). exists e. split_and!; [|done|done].
        apply Hother; [|done]. intros Hs. apply Hne. destruct (U1 n0 q0 HF0) as (? & _).
        apply same_entry_page in Hs; unfold PGSIZE in *; [zmod|lia|lia].
    + intros n1 n2 q0 [[<- <-]|[Hn1 H1]]%lookup_insert_Some [[<- E2]|[Hn2 H2]]%lookup_insert_Some;
        [done|exfalso; apply Hqo; right; by exists n2|subst; exfalso; apply Hqo; right; by exists n1|by eapply U3].
  - exists (missing T (n * PGSIZE)). split; [apply missing_le|done].
  - split; [done|]. intros x Hx. apply Hfr. intros p [Hp|Hp] Hpx; apply Hx; [left|right]; by exists p.
Qed.

(** A page taken off the free list, and cleared. *)
Lemma fresh_page m a h G U S q l T : heap_ok m a h G U (q :: l) →
  ∃ m1 m2 a' r, on_pages (page_alloc PGSIZE) (m, a, h) = Ok (q, (m1, a', h)) ∧
    on_memory (memset q 0 PGSIZE) (m1, a', h) = Ok (r, (m2, a', h)) ∧ heap_ok m2 a' h G U l ∧
    (∀ x, in_page q x → m2 !! x = Some 0) ∧ (kpage q ∧ mapped m2 q PGSIZE ∧ q ∉ G ∧ q ∉ l ∧ 0 < q) ∧
    changes (in_page q) m m2.
Proof.
  intros Hh. destruct (free_page _ _ _ _ _ _ q Hh) as (Hk & HG & Hm); [by left|].
  pose proof (heap_avail _ _ _ _ _ _ Hh) as Ha. destruct (avail_pages _ _ _ Ha) as [[Hql _]%NoDup_cons Hpg].
  destruct (page_alloc_ok m a q l PGSIZE Ha) as (m1 & a1 & E1 & Ha1 & Ho1 & Hd1); [done|].
  destruct (memset_page_ok q 0 m1) as (m2 & E2 & Ho2 & Hd2 & Hz); [by eapply mapped_dom|].
  assert (changes (in_page q) m m2) as C.
  { split; [congruence|]. intros x Hx. by rewrite Ho2, Ho1. }
  exists m1, m2, a1, (q + PGSIZE). split_and!; [| | |done|done| |done|done| |done].
  - unfold on_pages, zoom. simpl. by rewrite E1.
  - by apply on_memory_ok.
  - eapply heap_update; [done|done| | |].
    + intros x Hx. right. intros (g & Hg & Hgx). by eapply (heap_page_cell m a h G U (q :: l) g q x).
    + eapply avail_frame; [done|done|]. intros p x Hp Hx. apply Ho2. intros Hqx.
      eapply (kpage_disjoint p q); [apply Hpg; by right|done| |done|done]. by intros ->.
    + intros p Hp. destruct (heap_page _ _ _ _ _ _ _ Hh Hp) as [Hn _]. intros ?. apply Hn. by right.
  - by eapply changes_mapped.
  - apply kpage_bound in Hk. lia.
Qed.

(** Taking a page and writing to it is a step. *)
Lemma page_evolves m m' G U S q l T : changes (in_page q) m m' → evolves 1 m G U S (q :: l) T m' G U S l T.
Proof.
  intros C. constructor; auto; [intros p Hp; by right|simpl; lia|].
  eapply changes_weaken; [|done]. intros x Hx. right; right; left. exists q. split; [by left|done].
Qed.

Lemma on_pages_ok {B} (c : M (mem * A) B) m a h r m' a' : c (m, a) = Ok (r, (m', a')) →
  on_pages c (m, a, h) = Ok (r, (m', a', h)).
Proof. intros E. unfold on_pages, zoom. simpl. by rewrite E. Qed.

(** Mapping a page [q] that is not free any more. *)
Lemma map_evolves m a h G U l root T F n q perm : heap_ok m a h G U l → uspace m root T F → away T F G l →
  0 ≤ n < 2 ^ 33 → F !! n = None → kpage q → mapped m q PGSIZE → ¬ owns T F q → q ∉ G → q ∉ l → perm_ok perm →
  (2 ≤ length l)%nat →
  ∃ m' a' T' l', on_pages (__map_single_page root (n * PGSIZE) q perm) (m, a, h) = Ok (0, (m', a', h)) ∧
    heap_ok m' a' h G U l' ∧ uspace m' root T' (<[n := q]> F) ∧ away T' (<[n := q]> F) G l' ∧
    (∀ S, evolves 2 m G U S l T m' G U S l' T') ∧ (∀ x, in_page q x → m' !! x = m !! x).
Proof.
  intros Hh Hus Haw Hn HF Hk Hqm Hqo HqG Hql Hperm Hl. pose proof (heap_avail _ _ _ _ _ _ Hh) as Ha.
  destruct (map_user m a root T F l n q perm Hus Ha) as
    (m' & a' & T' & l' & E & Hus' & Ha' & (k & Hk2 & ->) & Hs' & HT' & C); try done.
  { intros p Hp. apply (Haw p Hp). }
  assert (∀ p, p ∈ drop k l → p ∈ l) as Hsub.
  { intros p Hp. rewrite <- (take_drop k l). apply elem_of_app. by right. }
  exists m', a', T', (drop k l). split_and!; [by apply on_pages_ok| |done| | |].
  - eapply heap_update; [done|done| |done|].
    + intros x [(p & Hp & Hpx)|(p & Hp & Hpx)]; right; intros (g & Hg & Hgx).
      * destruct (Haw p) as [HpG _]; [by left|]. destruct (owned_page _ _ _ _ _ Hus ltac:(by left)) as [Hpk _].
        by eapply (heap_page_cell m a h G U l g p x).
      * destruct (free_page _ _ _ _ _ _ _ Hh Hp) as (Hpk & HpG & _). by eapply (heap_page_cell m a h G U l g p x).
    + intros p Hp Hp'. destruct (heap_page _ _ _ _ _ _ _ Hh Hp) as [Hn' _]. by apply Hn', Hsub.
  - intros p [Hp|[n' Hp]].
    + split; [|intros ?; by eapply Hs']. destruct (HT' p Hp) as [Ht|Hl']; [apply Haw; by left|].
      by destruct (free_page _ _ _ _ _ _ _ Hh Hl') as (_ & ? & _).
    + apply lookup_insert_Some in Hp as [[_ <-]|[_ Hp]]; [split; [done|by intros ?%Hsub]|].
      destruct (Haw p) as [? Hn']; [by right; exists n'|]. split; [done|by intros ?%Hsub].
  - intros S. constructor; auto; [rewrite length_drop; lia|].
    eapply changes_weaken; [|done]. intros x [?|?]; [by right; right; right|by right; right; left].
  - intros x Hx. apply C. intros [(p & Hp & Hpx)|(p & Hp & Hpx)].
    + destruct (owned_page m root T F p Hus ltac:(by left)) as [Hpk _].
      eapply (kpage_disjoint q p); [done..| |done|done]. intros ->. apply Hqo. by left.
    + destruct (free_page _ _ _ _ _ _ _ Hh Hp) as (Hpk & _). eapply (kpage_disjoint q p); [done..| |done|done].
      by intros ->.
Qed.

(** An address space beside a step that is not its own, and its pages afterwards. *)
Lemma uspace_evolves k m a h G U S l T m' G' U' S' l' T' root T0 F0 : heap_ok m a h G U l →
  (∀ q, tree_page T q → kpage q) → evolves k m G U S l T m' G' U' S' l' T' → uspace m root T0 F0 →
  away T0 F0 G l → (∀ p, owns T0 F0 p → ¬ tree_page T p) →
  uspace m' root T0 F0 ∧ away T0 F0 G' l' ∧ ∀ x p, owns T0 F0 p → in_page p x → m' !! x = m !! x.
Proof.
  intros Hh HT Ev Hus Haw Hdis.
  assert (∀ x p, owns T0 F0 p → in_page p x → ¬ touch G U S l T x) as Hno.
  { intros x p Hp Hx. destruct (owned_page _ _ _ _ _ Hus Hp) as [Hk _]. destruct (Haw p Hp).
    eapply touch_page; try done. by apply Hdis. }
  split_and!.
  - eapply uspace_frame; [done|by eapply ev_mem|done].
  - intros p Hp. destruct (Haw p Hp) as [HG Hl]. split.
    + intros [?|?]%(ev_heap _ _ _ _ _ _ _ _ _ _ _ _ _ Ev); contradiction.
    + intros ?%(ev_free _ _ _ _ _ _ _ _ _ _ _ _ _ Ev). contradiction.
  - intros x p Hp Hx. apply (ev_mem _ _ _ _ _ _ _ _ _ _ _ _ _ Ev). by eapply Hno.
Qed.

(** The same for the address space whose tables the step may use, when they stay as they are. *)
Lemma heap_step k m a h G U S l T m' G' U' S' l' root F : heap_ok m a h G U l →
  evolves k m G U S l ∅ m' G' U' S' l' ∅ → uspace m root T F → away T F G l →
  uspace m' root T F ∧ away T F G' l' ∧ (∀ x p, owns T F p → in_page p x → m' !! x = m !! x) ∧
  evolves k m G U S l T m' G' U' S' l' T.
Proof.
  intros Hh Ev Hus Haw. assert (∀ p, ¬ tree_page ∅ p) as He by (intros p [key Hk]; by rewrite lookup_empty in Hk).
  destruct (uspace_evolves k m a h G U S l ∅ m' G' U' S' l' ∅ root T F) as (? & ? & ?); try done.
  { intros q Hq. by destruct (He q). }
  split_and!; [done..|by apply evolves_tables].
Qed.
(** ** The process as a whole *)

(** The records are the mapped pages, one each. *)
Record recorded F ms : Prop := {
  rc_nodup : NoDup (m_va <$> ms);
  rc_record : ∀ r, r ∈ ms → perm_ok (m_perm r) ∧ m_size r = PGSIZE ∧
    ∃ n, m_va r = n * PGSIZE ∧ F !! n = Some (m_pa r);
  rc_page : ∀ n q, F !! n = Some q → ∃ r, r ∈ ms ∧ m_va r = n * PGSIZE
}.

Record process m a h G U S l root T F lst ms : Prop := {
  pr_heap : heap_ok m a h G U l;
  pr_user : uspace m root T F;
  pr_away : away T F G l;
  pr_list : mappings m U S lst ms;
  pr_records : recorded F ms
}.

(** The record of a page. *)
Definition page_record (n q perm : Z) : mapping :=
  {| m_pa := q; m_va := n * PGSIZE; m_size := PGSIZE; m_perm := perm |}.

Lemma recorded_add F ms n q perm : recorded F ms → F !! n = None → perm_ok perm →
  recorded (<[n := q]> F) (page_record n q perm :: ms).
Proof.
  intros [R1 R2 R3] HF Hp. constructor.
  - simpl. constructor; [|done]. intros (r & Er & Hr)%list_elem_of_fmap.
    destruct (R2 r Hr) as (_ & _ & n' & En & HF'). simpl in Er. unfold PGSIZE in *.
    assert (n = n') as -> by lia. congruence.
  - intros r [->|Hr]%elem_of_cons.
    + split_and!; [apply Hp|done|]. exists n. by rewrite lookup_insert_eq.
    + destruct (R2 r Hr) as (? & ? & n' & En & HF'). split_and!; [done..|]. exists n'. split; [done|].
      rewrite lookup_insert_ne; [done|]. congruence.
  - intros n' q' [[<- <-]|[Hne HF']]%lookup_insert_Some.
    + exists (page_record n q perm). split; [by left|done].
    + destruct (R3 n' q' HF') as (r & ? & ?). exists r. split; [by right|done].
Qed.

Lemma page_record_ok n q perm : 0 ≤ n < 2 ^ 33 → kpage q → perm_ok perm → mapping_ok (page_record n q perm).
Proof.
  intros Hn Hk (Hp & _). apply kpage_bound in Hk. unfold mapping_ok, word, page_record, PGSIZE in *. simpl.
  split_and!; lia || apply Hp.
Qed.

Lemma user_tables m root T F p : uspace m root T F → tree_page T p → kpage p.
Proof. intros Hus Hp. eapply owned_page; [done|by left]. Qed.

(** The frames of a process are not touched by the operations on its tables. *)
Lemma frame_untouched m a h G U S l root T F n p x : heap_ok m a h G U l → uspace m root T F → away T F G l →
  F !! n = Some p → in_page p x → ¬ touch G U S l T x.
Proof.
  intros Hh Hus Haw HF Hx. destruct (um_range _ _ _ (us_map _ _ _ _ Hus) _ _ HF) as (_ & Hk & _ & Ht).
  destruct (Haw p) as [? ?]; [by right; exists n|]. eapply touch_page; try done. intros q. by apply (user_tables m root T F).
Qed.

(** Mapping a page [q] that is out of the free list, and recording it. *)
Lemma install_page m a h G U S l root T F lst ms n q perm : process m a h G U S l root T F lst ms →
  0 ≤ n < 2 ^ 33 → F !! n = None → kpage q → mapped m q PGSIZE → ¬ owns T F q → q ∉ G → q ∉ l → perm_ok perm →
  (4 ≤ length l)%nat →
  ∃ m1 a1 T' m' a' h' G' U' S' l', on_pages (__map_single_page root (n * PGSIZE) q perm) (m, a, h) = Ok (0, (m1, a1, h)) ∧
    __proc_add_mapping lst q (n * PGSIZE) PGSIZE perm (m1, a1, h) = Ok (tt, (m', a', h')) ∧
    process m' a' h' G' U' S' l' root T' (<[n := q]> F) lst (page_record n q perm :: ms) ∧
    evolves 4 m G U S l T m' G' U' S' l' T' ∧ (∀ x, in_page q x → m' !! x = m !! x).
Proof.
  intros [Hh Hus Haw Hms Hrec] Hn HF Hk Hqm Hqo HqG Hql Hperm Hl.
  destruct (map_evolves m a h G U l root T F n q perm) as
    (m1 & a1 & T' & l1 & E1 & Hh1 & Hus1 & Haw1 & Ev1 & Hq1); try done; [lia|].
  assert (mappings m1 U S lst ms) as Hms1.
  { eapply (mappings_evolves 2 m a h G U ∅ l T); [done| |apply Ev1|set_solver|done].
    intros p Hp. split; [by apply (user_tables m root T F)|]. apply (Haw p). by left. }
  destruct (add_mapping_ok m1 a1 h G U S l1 ∅ lst ms (page_record n q perm) Hh1 Hms1) as
    (m' & a' & h' & G' & U' & S' & l' & E2 & Hh2 & Hms2 & Ev2); [by apply page_record_ok| |].
  { pose proof (ev_len _ _ _ _ _ _ _ _ _ _ _ _ _ (Ev1 S)). lia. }
  destruct (heap_step 2 m1 a1 h G U S l1 T' m' G' U' S' l' root (<[n := q]> F)) as (Hus2 & Haw2 & Hfr & Ev3); try done.
  exists m1, a1, T', m', a', h', G', U', S', l'. split_and!; [done|done| | |].
  - constructor; [done..|by apply recorded_add].
  - change 4%nat with (2 + 2)%nat. eapply evolves_trans; [apply Ev1|done|done].
  - intros x Hx. rewrite (Hfr x q); [by apply Hq1| |done]. right. exists n. by rewrite lookup_insert_eq.
Qed.
(** ** alloc_vm *)

(** [new] extends the pages of [old] by the numbers from [n] to [n + k], cleared; nothing in the
    old ones changes. *)
Record more_pages m m' F F' (n k : Z) : Prop := {
  mp_old : F ⊆ F';
  mp_new : ∀ i, is_Some (F' !! i) ↔ is_Some (F !! i) ∨ n ≤ i < n + k;
  mp_zero : ∀ i q x, n ≤ i < n + k → F' !! i = Some q → in_page q x → m' !! x = Some 0;
  mp_same : ∀ i q x, F !! i = Some q → in_page q x → m' !! x = m !! x
}.

Lemma more_pages_none m F n : more_pages m m F F n 0.
Proof. constructor; [done|intros i; split; [by left|by intros [|?]; [|lia]]|intros i q x ?; lia|done]. Qed.

(** A page in front of others. *)
Lemma more_pages_cons m m1 m' F F' n k q : 0 ≤ k → F !! n = None → more_pages m m1 F (<[n := q]> F) n 1 →
  more_pages m1 m' (<[n := q]> F) F' (n + 1) k → more_pages m m' F F' n (k + 1).
Proof.
  intros Hk HF [A1 A2 A3 A4] [B1 B2 B3 B4]. constructor.
  - by etrans.
  - intros i. rewrite B2, A2. split; [intros [[?|?]|?]; auto; right; lia|].
    intros [?|?]; [by left; left|]. destruct (decide (i = n)); [left; right; lia|right; lia].
  - intros i p x Hi Hp Hx. destruct (decide (i = n)) as [->|Hne].
    + assert (p = q) as ->.
      { pose proof (lookup_weaken _ _ _ _ (lookup_insert_eq F n q) B1). congruence. }
      rewrite (B4 n q x); [|by rewrite lookup_insert_eq|done]. eapply (A3 n q); [lia|by rewrite lookup_insert_eq|done].
    + eapply B3; [|done|done]. lia.
  - intros i p x Hp Hx. rewrite (B4 i p x); [by eapply A4| |done]. by eapply lookup_weaken.
Qed.

Lemma alloc_vm_step fuel m a h G U S l root T F lst ms n end_ perm : process m a h G U S l root T F lst ms →
  0 ≤ n < 2 ^ 33 → F !! n = None → perm_ok perm → (5 ≤ length l)%nat → n * PGSIZE < end_ →
  ∃ q m' a' h' G' U' S' l' T', alloc_vm_loop (Datatypes.S fuel) root lst (n * PGSIZE) end_ perm (m, a, h) =
      alloc_vm_loop fuel root lst ((n + 1) * PGSIZE) end_ perm (m', a', h') ∧
    process m' a' h' G' U' S' l' root T' (<[n := q]> F) lst (page_record n q perm :: ms) ∧
    evolves 5 m G U S l T m' G' U' S' l' T' ∧ more_pages m m' F (<[n := q]> F) n 1 ∧ q ∈ l.
Proof.
  intros Hpr Hn HF Hperm Hl Hend. destruct l as [|q l]; [simpl in Hl; lia|]. pose proof Hpr as [Hh Hus Haw Hms Hrec].
  destruct (fresh_page m a h G U S q l T Hh) as (m1 & m2 & a1 & r & E1 & E2 & Hh2 & Hz & (Hk & Hm & HG & Hql & Hq0) & C).
  assert (¬ owns T F q) as Hqo by (intros Ho; destruct (Haw q Ho) as [_ Hn']; apply Hn'; by left).
  pose proof (page_evolves m m2 G U S q l T C) as Ev1.
  assert (process m2 a1 h G U S l root T F lst ms) as Hpr2.
  { constructor; [done| | | |done].
    - eapply uspace_frame; [done|done|]. intros x p Hp Hx Hqx. destruct (owned_page _ _ _ _ _ Hus Hp) as [Hpk _].
      eapply (kpage_disjoint p q); [done..| |done|done]. by intros ->.
    - intros p Hp. destruct (Haw p Hp) as [? Hn']. split; [done|]. intros ?. apply Hn'. by right.
    - eapply (mappings_evolves 1 m a h G U ∅ (q :: l) T); [done| |by apply page_evolves|set_solver|done].
      intros p Hp. split; [by apply (user_tables m root T F)|]. apply (Haw p). by left. }
  destruct (install_page m2 a1 h G U S l root T F lst ms n q perm Hpr2) as
    (m3 & a3 & T' & m' & a' & h' & G' & U' & S' & l' & E3 & E4 & Hpr' & Ev2 & Hq); try done; [simpl in Hl; lia|].
  assert (evolves 5 m G U S (q :: l) T m' G' U' S' l' T') as Ev.
  { change 5%nat with (1 + 4)%nat. by eapply evolves_trans. }
  exists q, m', a', h', G', U', S', l', T'. split_and!; [|done|done| |by left].
  - cbn [alloc_vm_loop]. destruct (Z.ltb_spec (n * PGSIZE) end_); [|lia].
    rewrite (bind_ok _ _ _ _ _ E1). destruct (Z.eqb_spec q 0); [lia|].
    rewrite (bind_ok _ _ _ _ _ E2), (bind_ok _ _ _ _ _ E3). cbn [Z.eqb negb]. rewrite (bind_ok _ _ _ _ _ E4).
    f_equal. rewrite wrap_id; unfold PGSIZE; lia.
  - constructor.
    + by apply insert_subseteq.
    + intros i. destruct (decide (i = n)) as [->|Hne].
      * rewrite lookup_insert_eq. split; [right; lia|by eexists].
      * rewrite lookup_insert_ne by done. split; [by left|intros [|]; [done|lia]].
    + intros i p x Hi Hp Hx. assert (i = n) as -> by lia. rewrite lookup_insert_eq in Hp. injection Hp as <-.
      by rewrite Hq, Hz.
    + intros i p x Hp Hx. apply (ev_mem _ _ _ _ _ _ _ _ _ _ _ _ _ Ev). by eapply frame_untouched.
Qed.

Lemma alloc_vm_loop_ok root lst perm k : perm_ok perm → ∀ fuel n m a h G U S l T F ms,
  process m a h G U S l root T F lst ms → (k ≤ fuel)%nat → 0 ≤ n → n + Z.of_nat k ≤ 2 ^ 33 →
  (∀ i, n ≤ i < n + Z.of_nat k → F !! i = None) → (5 * k ≤ length l)%nat →
  ∃ m' a' h' G' U' S' l' T' F' new, alloc_vm_loop fuel root lst (n * PGSIZE) ((n + Z.of_nat k) * PGSIZE) perm (m, a, h) =
      Ok (0, (m', a', h')) ∧ process m' a' h' G' U' S' l' root T' F' lst (new ++ ms) ∧
    evolves (5 * k) m G U S l T m' G' U' S' l' T' ∧ more_pages m m' F F' n (Z.of_nat k) ∧
    Forall (λ r, m_perm r = perm) new ∧ (∀ i q, F' !! i = Some q → F !! i = Some q ∨ q ∈ l).
Proof.
  intros Hperm. induction k as [|k IH]; intros fuel n m a h G U S l T F ms Hpr Hfuel Hn Hhi HF Hl.
  - exists m, a, h, G, U, S, l, T, F, []. split_and!; [|done|apply evolves_refl|apply more_pages_none|done|by left].
    rewrite Z.add_0_r. destruct fuel; simpl; by destruct (Z.ltb_spec (n * PGSIZE) (n * PGSIZE)); [lia|].
  - destruct fuel as [|fuel]; [lia|].
    assert (F !! n = None) as HFn by (apply HF; lia).
    destruct (alloc_vm_step fuel m a h G U S l root T F lst ms n ((n + Z.of_nat (Datatypes.S k)) * PGSIZE) perm Hpr) as
      (q & m1 & a1 & h1 & G1 & U1 & S1 & l1 & T1 & E1 & Hpr1 & Ev1 & Hmp1 & Hq); [lia|done|done|lia|unfold PGSIZE; lia|].
    pose proof (ev_len _ _ _ _ _ _ _ _ _ _ _ _ _ Ev1).
    destruct (IH fuel (n + 1) m1 a1 h1 G1 U1 S1 l1 T1 (<[n := q]> F) (page_record n q perm :: ms) Hpr1) as
      (m' & a' & h' & G' & U' & S' & l' & T' & F' & new & E2 & Hpr' & Ev2 & Hmp2 & Hnew & Hfrom); [lia|lia|lia| |lia|].
    { intros i Hi. rewrite lookup_insert_ne by lia. apply HF. lia. }
    exists m', a', h', G', U', S', l', T', F', (new ++ [page_record n q perm]). split_and!.
    + rewrite E1. by replace (n + Z.of_nat (Datatypes.S k)) with (n + 1 + Z.of_nat k) by lia.
    + by rewrite <- app_assoc.
    + replace (5 * Datatypes.S k)%nat with (5 + 5 * k)%nat by lia. eapply evolves_trans; [done|apply Hpr1|done].
    + replace (Z.of_nat (Datatypes.S k)) with (Z.of_nat k + 1) by lia. eapply more_pages_cons; [lia|done|done|done].
    + apply Forall_app. split; [done|]. by constructor.
    + intros i q' [Hi|Hi]%Hfrom; [|right; by eapply ev_free].
      apply lookup_insert_Some in Hi as [[<- <-]|[_ ?]]; [by right|by left].
Qed.

Lemma alloc_vm_run m a h G U S l root T F lst ms start end_ perm :
  process m a h G U S l root T F lst ms → perm_ok perm → start mod PGSIZE = 0 → 0 ≤ start ≤ end_ → end_ ≤ MAXVA →
  let n := start / PGSIZE in let k := (PGROUNDUP end_ - start) / PGSIZE in
  (∀ i, n ≤ i < n + k → F !! i = None) → 5 * k ≤ Z.of_nat (length l) →
  ∃ m' a' h' G' U' S' l' T' F' new, alloc_vm root lst start end_ perm (m, a, h) = Ok (0, (m', a', h')) ∧
    process m' a' h' G' U' S' l' root T' F' lst (new ++ ms) ∧ more_pages m m' F F' n k ∧
    Forall (λ r, m_perm r = perm) new ∧ evolves (5 * Z.to_nat k) m G U S l T m' G' U' S' l' T' ∧
    (∀ i q, F' !! i = Some q → F !! i = Some q ∨ q ∈ l).
Proof.
  intros Hpr Hperm Hal Hse Hmax n k HF Hl. change MAXVA with (2 ^ 47) in *.
  destruct (PGROUNDUP_spec end_) as [Hr Hb]; [lia|unfold PGSIZE; lia|].
  assert (start = n * PGSIZE) as Hs by (unfold n, PGSIZE in *; zmod).
  assert (0 ≤ k ∧ PGROUNDUP end_ = (n + Z.of_nat (Z.to_nat k)) * PGSIZE) as [Hk0 He] by (unfold n, k, PGSIZE in *; zmod).
  assert (n + k ≤ 2 ^ 33) by (unfold PGSIZE in *; zmod).
  assert (0 ≤ n) by (unfold n, PGSIZE; zmod).
  destruct (alloc_vm_loop_ok root lst perm (Z.to_nat k) Hperm (Z.to_nat (k + 1)) n m a h G U S l T F ms Hpr) as
    (m' & a' & h' & G' & U' & S' & l' & T' & F' & new & E & Hpr' & Ev & Hmp & Hnew & Hfrom); [lia|lia|lia| |lia|].
  { intros i Hi. apply HF. lia. }
  exists m', a', h', G', U', S', l', T', F', new. split_and!; [|done| |done|done|done].
  - unfold alloc_vm. fold k. by rewrite He, Hs.
  - by replace k with (Z.of_nat (Z.to_nat k)) by lia.
Qed.
End space.

(** ** Properties *)
Section properties.
Context {A : Type} `{PageAllocator A}.

(** C5: [alloc_vm].  For a process in order, an unmapped range from a page boundary and five free
    pages for each page of it, the call returns 0 and maps every page of the range to a cleared
    frame of its own that was free, with a record in the mapping list; the old frames keep their contents,
    every structure stays in order, and nothing is written but the tables, the list's blocks,
    the private part of the heap and what were free pages.  The comment of the code promises the
    new size, or 0 on an error; 0 is what a success returns, and the failures of [kmalloc] and
    [__map_single_page] end in [panic].  Both callers pass a page boundary as [start]; another
    one would be recorded as it is, which the invariant does not allow. *)
Theorem alloc_vm_correct (m : mem) (a : A) h G U S l root T F lst ms start end_ perm :
  process m a h G U S l root T F lst ms → perm_ok perm → start mod PGSIZE = 0 → 0 ≤ start ≤ end_ → end_ ≤ MAXVA →
  let n := start / PGSIZE in let k := (PGROUNDUP end_ - start) / PGSIZE in
  (∀ i, n ≤ i < n + k → F !! i = None) → 5 * k ≤ Z.of_nat (length l) →
  ∃ m' a' h' G' U' S' l' T' F' new, alloc_vm root lst start end_ perm (m, a, h) = Ok (0, (m', a', h')) ∧
    process m' a' h' G' U' S' l' root T' F' lst (new ++ ms) ∧ more_pages m m' F F' n k ∧
    Forall (λ r, m_perm r = perm) new ∧ evolves (5 * Z.to_nat k) m G U S l T m' G' U' S' l' T' ∧
    (∀ i q, F' !! i = Some q → F !! i = Some q ∨ q ∈ l).
Proof. apply alloc_vm_run. Qed.
End properties.

(** A process with an empty table and an empty list, and [n] free pages. *)
Lemma sample_user n : Z.of_nat n < 1022 → ∃ (m : mem) (a : Z) h G U S l root T lst,
  process m a h G U S l root T ∅ lst [] ∧ (n ≤ length l)%nat.
Proof.
  intros Hn. destruct (sample_pages (2 + n)) as (m0 & a0 & [|q l] & Ha0 & Hl); [lia|done|].
  destruct (pgtbl_create_ok m0 a0 q l Ha0) as (m & a & _ & Hpt & Ha & Hs & _).
  pose proof (heap_init m a l Ha) as Hh.
  assert (uspace m q {[ [] := q ]} ∅) as Hus.
  { split; [done|]. constructor; intros i; [intros p|intros p|intros i' p]; by rewrite lookup_empty. }
  destruct (mlist_init_ok m a mheap_init [] ∅ l Hh) as (p & m' & a' & h' & G' & l' & _ & X & Hm); [by intros ->|].
  pose proof X as (Hh' & _).
  pose proof (extends_evolves m a mheap_init [] ∅ ∅ l ∅ p 16 _ _ _ _ _ Hh X) as Ev0.
  destruct (heap_step 1 m a mheap_init [] ∅ ∅ l {[ [] := q ]} _ _ _ _ _ q ∅ Hh Ev0 Hus) as (Hus' & Haw' & _ & Ev).
  { intros x [Hx|[i Hi]]; [|by rewrite lookup_empty in Hi].
    split; [by intros ?%not_elem_of_nil|by intros ?%Hs]. }
  exists m', a', h', G', (<[p := 16]> ∅), {[p]}, l', q, {[ [] := q ]}, p. split.
  - constructor; [done|done|done| |].
    + exists [], {[p]}. split_and!; [done|simpl; by rewrite union_empty_r_L|by apply NoDup_nil_2|by constructor].
    + constructor; [by apply NoDup_nil_2|by intros r Hr%not_elem_of_nil|].
      intros i x. by rewrite lookup_empty.
  - pose proof (ev_len _ _ _ _ _ _ _ _ _ _ _ _ _ Ev). simpl in *. lia.
Qed.

Lemma alloc_vm_correct_witness : ∃ lst root (m : mem) (a : Z) h m' a' h' F',
  alloc_vm root lst 0x10000 0x10100 PTE_DEFAULT (m, a, h) = Ok (0, (m', a', h')) ∧
  more_pages m m' ∅ F' 4 1.
Proof.
  destruct (sample_user 6) as (m & a & h & G & U & S & l & root & T & lst & Hpr & Hl); [done|].
  destruct (alloc_vm_correct m a h G U S l root T ∅ lst [] 0x10000 0x10100 PTE_DEFAULT Hpr) as
    (m' & a' & h' & _ & _ & _ & _ & _ & F' & _ & E & _ & Hmp & _); [by vm_compute|done|done|done|done| |].
  - change ((PGROUNDUP 0x10100 - 0x10000) / PGSIZE) with 1. lia.
  - exists lst, root, m, a, h, m', a', h', F'. split; [exact E|exact Hmp].
Defined.
