(* ===== verification/Fork.v ===== *)
(** * mm/n_vm.c: copying an address space

    [copy_pagetable_correct]: the child of a fork gets frames of its own with
    the contents of the parent's, under the same addresses and permissions. *)

From S2P Require Import Prelude Mem CString PageAlloc Vm VmCopy Malloc Heap MList AddrSpace UserSpace.

Section fork.
Context {A : Type} `{PageAllocator A}.
Implicit Types (m : mem) (a : A) (h : mheap) (U : gmap Z Z) (S : gset Z) (G l : list Z).
Implicit Types (T : gmap (list Z) Z) (F : gmap Z Z) (ms : list mapping).

(** Two address spaces side by side. *)
Record two m a h G U l root T F nroot nT nF : Prop := {
  tw_heap : heap_ok m a h G U l;
  tw_user : uspace m root T F;
  tw_child : uspace m nroot nT nF;
  tw_away : away T F G l;
  tw_child_away : away nT nF G l;
  tw_apart : ∀ p, owns T F p → ¬ owns nT nF p
}.

(** The frames of [F] hold in [m'] what they held in [m]. *)
Definition frames_same F m m' : Prop := ∀ n p x, F !! n = Some p → in_page p x → m' !! x = m !! x.

Lemma frames_same_trans F m1 m2 m3 : frames_same F m1 m2 → frames_same F m2 m3 → frames_same F m1 m3.
Proof. intros H1 H2 n p x Hp Hx. rewrite (H2 n p x), (H1 n p x); done. Qed.

Lemma empty_tables p : ¬ tree_page ∅ p.
Proof. intros [k Hk]. by rewrite lookup_empty in Hk. Qed.

(** A step of the heap. *)
Lemma two_heap k m a h G U S l root T F nroot nT nF m' a' h' G' U' S' l' :
  two m a h G U l root T F nroot nT nF → evolves k m G U S l ∅ m' G' U' S' l' ∅ → heap_ok m' a' h' G' U' l' →
  two m' a' h' G' U' l' root T F nroot nT nF ∧ frames_same F m m' ∧ frames_same nF m m'.
Proof.
  intros [Hh Hu Hc Ha Hca Hap] Ev Hh'.
  destruct (heap_step k m a h G U S l T m' G' U' S' l' root F Hh Ev Hu Ha) as (Hu' & Ha' & Hs & _).
  destruct (heap_step k m a h G U S l nT m' G' U' S' l' nroot nF Hh Ev Hc Hca) as (Hc' & Hca' & Hs' & _).
  split_and!; [done| |]; intros n p x Hp Hx; [eapply Hs|eapply Hs']; [right; by exists n|done|right; by exists n|done].
Qed.

(** Other lists and records beside a step of the heap. *)
Lemma mappings_heap k m a h G U S l m' G' U' S' l' S2 lst ms : heap_ok m a h G U l →
  evolves k m G U S l ∅ m' G' U' S' l' ∅ → S ## S2 → mappings m U S2 lst ms → mappings m' U' S2 lst ms.
Proof.
  intros Hh Ev. eapply mappings_evolves; [done| |done]. intros p Hp. by destruct (empty_tables p).
Qed.

Lemma record_heap k m a h G U S l T m' G' U' S' l' T' d r : heap_ok m a h G U l →
  (∀ p, tree_page T p → kpage p ∧ p ∉ G) → evolves k m G U S l T m' G' U' S' l' T' → d ∉ S → U !! d = Some 32 →
  mapping_at m d r → mapping_at m' d r ∧ U' !! d = Some 32.
Proof.
  intros Hh HT Ev Hd HU Hat. split; [|by eapply ev_blocks].
  eapply mapping_at_frame; [done|by eapply ev_mem|]. intros x Hx Hdx.
  eapply (touch_blocks m a h G U S {[d]} l T x Hh HT); [set_solver|done|]. exists d, 32. split_and!; [set_solver|done|lia|lia].
Qed.

(** New blocks are in no other list. *)
Lemma evolves_apart k m G U S l T m' G' U' S' l' T' S2 : evolves k m G U S l T m' G' U' S' l' T' → S ## S2 →
  (∀ p, p ∈ S2 → is_Some (U !! p)) → S' ## S2.
Proof.
  intros Ev HS HU p Hp Hp2. destruct (ev_own _ _ _ _ _ _ _ _ _ _ _ _ _ Ev p Hp) as [?|Hn]; [set_solver|].
  destruct (HU p Hp2). congruence.
Qed.

Lemma mappings_pop m a h G U S l lst r ms : heap_ok m a h G U l → mappings m U S lst (r :: ms) →
  ∃ d m' h' U' S', mlist_pop lst (m, a, h) = Ok (d, (m', a, h')) ∧ heap_ok m' a h' G U' l ∧ mappings m' U' S' lst ms ∧
    U' !! d = Some 32 ∧ mapping_at m' d r ∧ S' ⊆ S ∧ d ∈ S ∧ d ∉ S' ∧ evolves 0 m G U S l ∅ m' G U' S' l ∅ ∧
    ∃ p, U' = delete p U ∧ S = {[p]} ∪ {[d]} ∪ S' ∧ p ∉ S' ∧ p ≠ d.
Proof.
  intros Hh (es & S0 & Hm & -> & Hnd & Hr). destruct es as [|[p d] es]; [by inversion Hr|].
  cbn [fmap list_fmap snd] in *. apply NoDup_cons in Hnd as [Hnd0 Hnd].
  apply Forall2_cons in Hr as [[Hd Hat] Hr].
  destruct (mlist_pop_ok m a h G U S0 l lst es p d Hh Hm) as (m' & h' & E & Hh' & Hm' & C).
  assert (U !! p = Some 24) as Hp by (eapply (mls_elems _ _ _ _ _ Hm); by left).
  assert (∀ x, x ∈ S0 → U !! x = Some 16 ∨ U !! x = Some 24) as HS0.
  { destruct Hm as [-> HL HE _ _ _ _]. intros x [->%elem_of_singleton|Hx]%elem_of_union; [by left|right].
    apply elem_of_list_to_set, list_elem_of_fmap in Hx as ([q e] & -> & Hq). by eapply HE. }
  assert (∀ d' r', U !! d' = Some 32 → mapping_at m d' r' → delete p U !! d' = Some 32 ∧ mapping_at m' d' r') as Hkeep.
  { intros d' r' Hd' Hat'. split; [|by eapply (record_frame m a h)].
    rewrite lookup_delete_ne; [done|]. congruence. }
  assert (p ∈ S0) as HpS.
  { rewrite (mls_blocks _ _ _ _ _ Hm). simpl. set_solver. }
  assert (d ∉ S0) as HdS by (intros Hin; destruct (HS0 d Hin); congruence).
  exists d, m', h', (delete p U), (S0 ∖ {[p]} ∪ list_to_set es.*2). split_and!; [done|done| |by eapply Hkeep|by eapply Hkeep|simpl; set_solver| | | |].
  - exists es, (S0 ∖ {[p]}). split_and!; [done|done|done|]. eapply Forall2_impl; [done|].
    intros d' r' [??]. by apply Hkeep.
  - simpl. set_solver.
  - intros [Hin|Hin]%elem_of_union; [set_solver|]. apply elem_of_list_to_set in Hin. by apply Hnd0.
  - constructor; [| |done|lia|by left|done|by left|].
    + intros q n Hq HU. rewrite lookup_delete_ne; [done|]. intros <-. apply Hq. by apply elem_of_union_l.
    + intros q Hq. left. simpl. set_solver.
    + eapply changes_weaken; [|done]. intros x [?|(q & n & ? & ? & ?)]; [by left|right; left].
      exists q, n. split; [by apply elem_of_union_l|done].
  - exists p. split; [done|]. split; [|split; [|by intros ->]].
    + simpl. rewrite (union_difference_singleton_L p S0) at 1 by done. clear. set_solver.
    + intros [Hin|Hin]%elem_of_union; [clear -Hin; set_solver|]. apply elem_of_list_to_set in Hin.
      apply list_elem_of_lookup in Hin as [i Hi]. destruct (Forall2_lookup_l _ _ _ _ _ Hr Hi) as (r' & _ & Hr' & _). congruence.
Qed.
(** ** One page of the child *)
Lemma two_page m a h G U q l root T F nroot nT nF m' a' : two m a h G U (q :: l) root T F nroot nT nF →
  changes (in_page q) m m' → heap_ok m' a' h G U l → two m' a' h G U l root T F nroot nT nF.
Proof.
  intros [Hh Hu Hc Ha Hca Hap] C Hh'. destruct (free_page _ _ _ _ _ _ q Hh) as (Hk & _); [by left|].
  assert (∀ root T F, uspace m root T F → away T F G (q :: l) → uspace m' root T F ∧ away T F G l) as Hone.
  { intros root0 T0 F0 Hu0 Ha0. split.
    - eapply uspace_frame; [done..|]. intros x p Hp Hx Hqx. destruct (owned_page _ _ _ _ _ Hu0 Hp) as [Hpk _].
      destruct (Ha0 p Hp) as [_ Hn]. eapply (kpage_disjoint p q); [done..| |done|done]. intros ->. apply Hn. by left.
    - intros p Hp. destruct (Ha0 p Hp) as [? Hn]. split; [done|]. intros ?. apply Hn. by right. }
  destruct (Hone root T F Hu Ha), (Hone nroot nT nF Hc Hca). by constructor.
Qed.

(** The frames of [F] hold bytes. *)
Definition frame_bytes m F : Prop := ∀ n p x, F !! n = Some p → in_page p x → ∃ b, m !! x = Some b ∧ byte b.

Lemma frame_data m p : mapped m p PGSIZE → (∀ x, in_page p x → ∃ b, m !! x = Some b ∧ byte b) →
  ∃ data, Z.of_nat (length data) = PGSIZE ∧ mem_at m p data ∧ bytes data.
Proof.
  intros Hm Hb. destruct (mapped_mem_at m p (Z.to_nat PGSIZE)) as (data & Hl & Hat).
  { by rewrite Z2Nat.id. }
  exists data. split_and!; [by rewrite Hl, Z2Nat.id|done|]. apply Forall_lookup_2. intros i b Hi.
  pose proof (lookup_lt_Some _ _ _ Hi) as Hlt. rewrite Hl in Hlt.
  destruct (Hb (p + Z.of_nat i)) as (b' & Hb' & ?); [unfold in_page, PGSIZE in *; lia|].
  rewrite (Hat i b Hi) in Hb'. congruence.
Qed.

Lemma page_ubytes m F n p data : F !! n = Some p → Z.of_nat (length data) = PGSIZE → mem_at m p data →
  ubytes m F (n * PGSIZE) data.
Proof.
  intros HF Hl Hat i b Hi. exists p. pose proof (lookup_lt_Some _ _ _ Hi).
  replace ((n * PGSIZE + Z.of_nat i) / PGSIZE) with n by (unfold PGSIZE in *; zmod).
  replace ((n * PGSIZE + Z.of_nat i) mod PGSIZE) with (Z.of_nat i) by (unfold PGSIZE in *; zmod).
  split; [done|by apply Hat].
Qed.

(** Reading one page of a process into a page outside it. *)
Lemma copy_page_ok m a root T F n p q data : uspace m root T F → F !! n = Some p → mem_at m p data →
  Z.of_nat (length data) = PGSIZE → bytes data → kpage q → mapped m q PGSIZE → ¬ owns T F q →
  copy_from_va root q (n * PGSIZE) PG_SIZE (m, a) = Ok (0, (write_bytes q data m, a)).
Proof.
  intros Hus HF Hat Hl Hb Hk Hm Hqo. destruct Hus as [Hpt Hu]. destruct (um_range _ _ _ Hu _ _ HF) as (Hn & _).
  assert (∀ x, q ≤ x < q + PGSIZE → not_user F x ∧ ∀ p, tree_page T p → ¬ in_page p x) as Hx.
  { intros x Hx. split.
    - intros n' q' Hq'. eapply kpage_disjoint; [done|by eapply um_range| |done]. intros ->. apply Hqo. right. by exists n'.
    - intros p' Hp'. eapply kpage_disjoint; [done| | |done]; [destruct Hp'; by eapply pt_page|]. intros ->. apply Hqo. by left. }
  pose proof (copy_from_va_loop_ok root T F (copy_fuel PGSIZE) m a (n * PGSIZE) q data [] Hpt Hu) as E.
  rewrite app_nil_r, Hl in E. change PG_SIZE with PGSIZE. unfold copy_from_va. apply E; try done.
  - unfold PGSIZE; lia.
  - change MAXVA with (2 ^ 47). unfold PGSIZE. lia.
  - by apply (page_ubytes m F n p).
  - split; [|by left]. intros i Hi. exists p.
    by replace ((n * PGSIZE + i) / PGSIZE) with n by (unfold PGSIZE in *; zmod).
  - by apply copy_fuel_enough.
Qed.

Lemma copy_page m a h G U q l root T F nroot nT nF n p : two m a h G U (q :: l) root T F nroot nT nF →
  F !! n = Some p → frame_bytes m F →
  ∃ m1 m2 m3 a' r, on_pages (page_alloc PGSIZE) (m, a, h) = Ok (q, (m1, a', h)) ∧
    on_memory (memset q 0 PG_SIZE) (m1, a', h) = Ok (r, (m2, a', h)) ∧
    on_pages (copy_from_va root q (n * PGSIZE) PG_SIZE) (m2, a', h) = Ok (0, (m3, a', h)) ∧
    two m3 a' h G U l root T F nroot nT nF ∧ changes (in_page q) m m2 ∧ changes (in_page q) m m3 ∧
    (∀ i, 0 ≤ i < PGSIZE → m3 !! (q + i) = m !! (p + i)) ∧
    kpage q ∧ mapped m3 q PGSIZE ∧ q ∉ G ∧ q ∉ l ∧ ¬ owns T F q ∧ ¬ owns nT nF q.
Proof.
  intros Htw HF Hby. pose proof Htw as [Hh Hu Hc Ha Hca Hap].
  destruct (fresh_page m a h G U ∅ q l ∅ Hh) as (m1 & m2 & a1 & r & E1 & E2 & Hh2 & _ & (Hk & Hm & HG & Hql & Hq0) & C).
  assert (¬ owns T F q) as Hqo by (intros Ho; destruct (Ha q Ho) as [_ Hn]; apply Hn; by left).
  assert (¬ owns nT nF q) as Hqo' by (intros Ho; destruct (Hca q Ho) as [_ Hn]; apply Hn; by left).
  pose proof (two_page m a h G U q l root T F nroot nT nF m2 a1 Htw C Hh2) as Htw2.
  destruct (um_range _ _ _ (us_map _ _ _ _ Hu) _ _ HF) as (_ & Hpk & Hpm & _).
  assert (p ≠ q) as Hpq by (intros ->; apply Hqo; right; by exists n).
  assert (∀ x, in_page p x → m2 !! x = m !! x) as Hp2.
  { intros x Hx. apply C. by apply (kpage_disjoint p q x). }
  destruct (frame_data m p Hpm) as (data & Hl & Hat & Hb); [intros x Hx; by eapply Hby|].
  assert (mem_at m2 p data) as Hat2.
  { intros i b Hi. pose proof (lookup_lt_Some _ _ _ Hi). rewrite Hp2; [by apply Hat|]. unfold in_page. lia. }
  set (m3 := write_bytes q data m2).
  assert (changes (in_page q) m2 m3) as C3.
  { apply changes_write; [by rewrite Hl|]. rewrite Hl. done. }
  exists m1, m2, m3, a1, r. split_and!; [done|done| | |done| | |done|by eapply changes_mapped|done..].
  - apply on_pages_ok. eapply (copy_page_ok m2 a1 root T F n p q data); try done. apply Htw2.
  - assert (heap_ok m3 a1 h G U l) as Hh3.
    { eapply heap_update; [exact Hh2|exact C3| | |].
      - intros x Hx. right. intros (g & Hg & Hgx). destruct (heap_page _ _ _ _ _ _ _ Hh2 Hg) as [_ Hgk].
        eapply (kpage_disjoint g q); [done..| |done|done]. by intros ->.
      - eapply avail_frame; [by eapply heap_avail|apply C3|]. intros g x Hg Hx. apply C3. intros Hqx.
        destruct (free_page _ _ _ _ _ _ _ Hh2 Hg) as (Hgk & _). eapply (kpage_disjoint g q); [done..| |done|done]. by intros ->.
      - intros g Hg. by apply (heap_page _ _ _ _ _ _ _ Hh2 Hg). }
    eapply two_page; [done| |done]. by eapply changes_trans.
  - by eapply changes_trans.
  - intros i Hi. destruct (lookup_lt_is_Some_2 data (Z.to_nat i)) as [b Hb']; [unfold PGSIZE in *; lia|].
    replace i with (Z.of_nat (Z.to_nat i)) by lia. rewrite (Hat _ _ Hb'). by apply write_bytes_lookup.
Qed.

Lemma map_pages_one root n q perm m a s' : 0 ≤ n < 2 ^ 33 → kpage q →
  __map_single_page root (n * PGSIZE) q perm (m, a) = Ok (0, s') →
  __map_pages root (n * PGSIZE) PGSIZE q perm (m, a) = Ok (0, s' : mem * A).
Proof.
  intros Hn [Hq _] E. unfold __map_pages. rewrite !PGROUNDDOWN_mod, Hq, wrap_id by (unfold PGSIZE; lia).
  replace (n * PGSIZE - (n * PGSIZE) mod PGSIZE) with (n * PGSIZE) by (unfold PGSIZE; zmod).
  replace (n * PGSIZE + PGSIZE - 1 - _) with (n * PGSIZE) by (unfold PGSIZE; zmod).
  replace (Z.to_nat _) with 1%nat by (unfold PGSIZE; zmod). rewrite Z.sub_0_r. cbn [map_pages_loop].
  destruct (Z.leb_spec (n * PGSIZE) (n * PGSIZE)); [|lia]. rewrite (bind_ok _ _ _ _ _ E).
  destruct (Z.leb_spec (u64 (n * PGSIZE + PGSIZE)) (n * PGSIZE)) as [Hle|]; [|done].
  rewrite wrap_id in Hle; unfold PGSIZE in *; lia.
Qed.

Lemma page_pa m a root T F n q : uspace m root T F → F !! n = Some q →
  ∃ pa, va_to_pa root (n * PGSIZE) (m, a) = Ok (pa, (m, a)) ∧ PA2VA pa = q ∧ 0 ≤ pa ≤ 2 ^ 50 - PGSIZE.
Proof.
  intros [Hpt Hu] HF. destruct (um_range _ _ _ Hu _ _ HF) as (Hn & _).
  destruct (um_leaf _ _ _ Hu _ _ HF) as (e & Hlf & Hq & HV). exists (PTE2PA e). split; [|split; [done|apply PTE2PA_bound]].
  rewrite (va_to_pa_ok m a root T _ e Hpt); [|unfold PGSIZE; lia|done]. change MAXVA with (2 ^ 47).
  destruct (Z.leb_spec (2 ^ 47) (n * PGSIZE)); [unfold PGSIZE in *; lia|]. unfold translate.
  destruct (Z.eqb_spec (Z.land e PTE_V) 0); [done|]. do 3 f_equal. unfold PGSIZE. zmod.
Qed.
(** ** The loop of copy_pagetable *)

(** The state of the loop: the records [ms] still to copy, those of the parent's new list, and
    the child's with its frames. *)
Record forking m a h G U l root T F nroot nT nF S lst ms S1 plst ms1 S2 nlst nms : Prop := {
  fk_two : two m a h G U l root T F nroot nT nF;
  fk_old : mappings m U S lst ms;
  fk_new : mappings m U S1 plst ms1;
  fk_child : mappings m U S2 nlst nms;
  fk_sets : S ## S1 ∧ S ## S2 ∧ S1 ## S2;
  fk_bytes : frame_bytes m F;
  fk_records : recorded nF nms;
  fk_nodup : NoDup (m_va <$> ms);
  fk_todo : ∀ r, r ∈ ms → perm_ok (m_perm r) ∧ m_size r = PGSIZE ∧
    ∃ n, m_va r = n * PGSIZE ∧ F !! n = Some (m_pa r) ∧ nF !! n = None;
  fk_same : ∀ n q, nF !! n = Some q → ∃ p, F !! n = Some p ∧ ∀ i, 0 ≤ i < PGSIZE → m !! (q + i) = m !! (p + i)
}.

Lemma frames_bytes m m' F : frame_bytes m F → frames_same F m m' → frame_bytes m' F.
Proof. intros Hb Hs n p x Hp Hx. rewrite (Hs n p x Hp Hx). by eapply Hb. Qed.

Lemma contents_same m m' F nF : frames_same F m m' → frames_same nF m m' →
  (∀ n q, nF !! n = Some q → ∃ p, F !! n = Some p ∧ ∀ i, 0 ≤ i < PGSIZE → m !! (q + i) = m !! (p + i)) →
  ∀ n q, nF !! n = Some q → ∃ p, F !! n = Some p ∧ ∀ i, 0 ≤ i < PGSIZE → m' !! (q + i) = m' !! (p + i).
Proof.
  intros Hs Hs' Hc n q Hq. destruct (Hc n q Hq) as (p & Hp & Hi). exists p. split; [done|]. intros i Hi'.
  rewrite (Hs' n q _ Hq), (Hs n p _ Hp); [by apply Hi|unfold in_page; lia..].
Qed.

(** The child's page is mapped: the step in which its tables grow. *)
Lemma map_child m a h G U l root T F nroot nT nF n q perm : two m a h G U l root T F nroot nT nF →
  0 ≤ n < 2 ^ 33 → nF !! n = None → kpage q → mapped m q PGSIZE → q ∉ G → q ∉ l → ¬ owns T F q → ¬ owns nT nF q →
  perm_ok perm → (2 ≤ length l)%nat →
  ∃ m' a' nT' l', on_pages (__map_pages nroot (n * PGSIZE) PGSIZE q perm) (m, a, h) = Ok (0, (m', a', h)) ∧
    two m' a' h G U l' root T F nroot nT' (<[n := q]> nF) ∧ (∀ S, evolves 2 m G U S l nT m' G U S l' nT') ∧
    frames_same F m m' ∧ frames_same (<[n := q]> nF) m m'.
Proof.
  intros [Hh Hu Hc Ha Hca Hap] Hn HF Hk Hm HG Hl Hqo Hqo' Hperm Hlen.
  destruct (map_evolves m a h G U l nroot nT nF n q perm) as
    (m' & a' & nT' & l' & E & Hh' & Hc' & Hca' & Ev & Hq); try done.
  assert (∀ p, tree_page nT p → kpage p) as HTk by (intros p; by apply (user_tables m nroot nT nF)).
  destruct (uspace_evolves 2 m a h G U ∅ l nT m' G U ∅ l' nT' root T F Hh HTk (Ev ∅) Hu Ha) as (Hu' & Ha' & Hs).
  { intros p Hp Ht. apply (Hap p Hp). by left. }
  exists m', a', nT', l'. split_and!; [| |done| |].
  - apply on_pages_ok. apply map_pages_one; [done|done|].
    revert E. unfold on_pages, zoom. simpl. destruct (__map_single_page _ _ _ _ _) as [[r [m0 a0]]|]; [|done].
    by intros [= -> -> ->].
  - constructor; [done..|]. intros p Hp [Ht|[n' Hn']].
    + destruct (ev_tables _ _ _ _ _ _ _ _ _ _ _ _ _ (Ev ∅) p Ht) as [Ht'|Hpl].
      * apply (Hap p Hp). by left.
      * by destruct (Ha p Hp).
    + apply lookup_insert_Some in Hn' as [[_ <-]|[_ Hn']]; [done|]. apply (Hap p Hp). right. by exists n'.
  - intros n' p x Hp Hx. eapply Hs; [right; by exists n'|done].
  - intros n' p x [[<- <-]|[_ Hp]]%lookup_insert_Some Hx; [by apply Hq|].
    apply (ev_mem _ _ _ _ _ _ _ _ _ _ _ _ _ (Ev ∅)). by eapply (frame_untouched m a h G U ∅ l nroot nT nF).
Qed.
(** A record of a whole page, spelled out. *)
Lemma page_record_eta r n : m_size r = PGSIZE → m_va r = n * PGSIZE → r = page_record n (m_pa r) (m_perm r).
Proof. destruct r as [pa va size perm]. simpl. by intros -> ->. Qed.

Lemma record_ld m a h d r : mapping_at m d r →
  ld (map_pa d) (m, a, h) = Ok (m_pa r, (m, a, h)) ∧ ld (map_va d) (m, a, h) = Ok (m_va r, (m, a, h)) ∧
  ld (map_size d) (m, a, h) = Ok (m_size r, (m, a, h)) ∧ ld (map_perm d) (m, a, h) = Ok (m_perm r, (m, a, h)).
Proof. intros (W1 & W2 & W3 & W4). by split_and!; apply ld_ok. Qed.

(** The frames of the child copy those of the parent. *)
Definition copied m F (nF : gmap Z Z) : Prop := ∀ n q, nF !! n = Some q → ∃ p, F !! n = Some p ∧
  ∀ i, 0 ≤ i < PGSIZE → m !! (q + i) = m !! (p + i).

Lemma mappings_empty m a h G U l S lst ms : heap_ok m a h G U l → mappings m U S lst ms →
  mlist_is_empty lst (m, a, h) = Ok (bool_decide (ms = []), (m, a, h)).
Proof.
  intros Hh (es & S0 & Hm & _ & _ & Hr). rewrite (mlist_empty m a h G U S0 l lst es Hh Hm). do 2 f_equal.
  destruct es as [|e es]; [by inversion Hr|]. cbn [fmap list_fmap] in Hr. by inversion Hr.
Qed.

(** The first half of a turn: the page and its mapping. *)
Lemma fork_page m a h G U l root T F nroot nT nF S lst r ms S1 plst ms1 S2 nlst nms :
  forking m a h G U l root T F nroot nT nF S lst (r :: ms) S1 plst ms1 S2 nlst nms → (3 ≤ length l)%nat →
  ∃ n d q pa m' a' h' U' S' l' nT', (∀ B (k : Z → Z → M (mem * A * mheap) B),
      (info ← mlist_pop lst; new_mem ← on_pages (page_alloc PGSIZE); on_memory (memset new_mem 0 PG_SIZE);;
       va ← ld (map_va info); on_pages (copy_from_va root new_mem va PG_SIZE);;
       va ← ld (map_va info); size ← ld (map_size info); perm ← ld (map_perm info);
       on_pages (__map_pages nroot va size new_mem perm);;
       va ← ld (map_va info); pa ← on_pages (va_to_pa nroot va); k info pa) (m, a, h) = k d pa (m', a', h')) ∧
    (m_va r = n * PGSIZE ∧ 0 ≤ n < 2 ^ 33 ∧ kpage q ∧ kpage (m_pa r) ∧ PA2VA pa = q ∧ nF !! n = None ∧ q ∈ l) ∧
    (d ∈ S ∧ d ∉ S' ∧ S' ⊆ S ∧ mapping_at m' d r ∧ U' !! d = Some 32) ∧
    two m' a' h' G U' l' root T F nroot nT' (<[n := q]> nF) ∧
    mappings m' U' S' lst ms ∧ mappings m' U' S1 plst ms1 ∧ mappings m' U' S2 nlst nms ∧
    evolves 3 m G U S l nT m' G U' S' l' nT' ∧ frames_same F m m' ∧ copied m' F (<[n := q]> nF).
Proof.
  intros [Htw Hold Hnew Hch (D1 & D2 & D3) Hby Hrec Hnd Htodo Hsame] Hl.
  destruct (Htodo r) as (Hperm & Hsz & n & Hva & HF & HnF); [by left|].
  pose proof (tw_heap _ _ _ _ _ _ _ _ _ _ _ _ Htw) as Hh.
  destruct (mappings_pop m a h G U S l lst r ms Hh Hold) as
    (d & m1 & h1 & U1 & S' & E1 & Hh1 & Hold1 & HdU & Hat & HSS & HdS & HdS' & Ev1 & _).
  destruct (two_heap 0 m a h G U S l root T F nroot nT nF m1 a h1 G U1 S' l Htw Ev1 Hh1) as (Htw1 & Hs1 & Hs1').
  destruct l as [|q l]; [simpl in Hl; lia|].
  destruct (copy_page m1 a h1 G U1 q l root T F nroot nT nF n (m_pa r) Htw1 HF) as
    (m2 & m3 & m4 & a4 & v & E2 & E3 & E4 & Htw4 & C3 & C4 & Hcopy & Hk & Hm & HG & Hql & Hqo & Hqo'); [by eapply frames_bytes|].
  assert (∀ F0 T0 root0, uspace m1 root0 T0 F0 → ¬ owns T0 F0 q → frames_same F0 m1 m4) as Hkeep.
  { intros F0 T0 root0 Hu0 Hq0 n' p x Hp Hx. apply C4. eapply (kpage_disjoint p q); [|done| |done].
    - by eapply (um_range _ _ _ (us_map _ _ _ _ Hu0)).
    - intros ->. apply Hq0. right. by exists n'. }
  pose proof (Hkeep F T root (tw_user _ _ _ _ _ _ _ _ _ _ _ _ Htw1) Hqo) as Hs4.
  pose proof (Hkeep nF nT nroot (tw_child _ _ _ _ _ _ _ _ _ _ _ _ Htw1) Hqo') as Hs4'.
  assert (0 ≤ n < 2 ^ 33 ∧ kpage (m_pa r)) as [Hn Hpk].
  { destruct (um_range _ _ _ (us_map _ _ _ _ (tw_user _ _ _ _ _ _ _ _ _ _ _ _ Htw1)) _ _ HF) as (? & ? & _). done. }
  destruct (map_child m4 a4 h1 G U1 l root T F nroot nT nF n q (m_perm r) Htw4) as
    (m5 & a5 & nT' & l' & E5 & Htw5 & Ev5 & Hs5 & Hs5'); try done; [simpl in Hl; lia|].
  pose proof (tw_heap _ _ _ _ _ _ _ _ _ _ _ _ Htw4) as Hh4.
  assert (∀ p, tree_page nT p → kpage p ∧ p ∉ G) as HnT.
  { intros p Hp. split; [apply (user_tables m4 nroot nT nF); [apply Htw4|done]|].
    apply (tw_child_away _ _ _ _ _ _ _ _ _ _ _ _ Htw4 p). by left. }
  assert (∀ S0, evolves 1 m1 G U1 S0 (q :: l) nT m4 G U1 S0 l nT) as Ev4 by (intros S0; by apply page_evolves).
  assert (∀ S0 lst0 ms0, mappings m1 U1 S0 lst0 ms0 → mappings m5 U1 S0 lst0 ms0) as Hlists.
  { intros S0 lst0 ms0 Hm0.
    eapply (mappings_evolves 2 m4 a4 h1 G U1 ∅ l nT); [done|done|apply Ev5|clear; set_solver|].
    eapply (mappings_evolves 1 m1 a h1 G U1 ∅ (q :: l) nT); [done|done|apply Ev4|clear; set_solver|done]. }
  destruct (record_heap 1 m1 a h1 G U1 ∅ (q :: l) nT m4 G U1 ∅ l nT d r Hh1 HnT (Ev4 ∅)) as [Hat4 _]; [set_solver|done|done|].
  destruct (record_heap 2 m4 a4 h1 G U1 ∅ l nT m5 G U1 ∅ l' nT' d r Hh4 HnT (Ev5 ∅)) as [Hat5 _]; [set_solver|done|done|].
  destruct (page_pa m5 a5 nroot nT' (<[n := q]> nF) n q (tw_child _ _ _ _ _ _ _ _ _ _ _ _ Htw5)) as (pa & E6 & Hpa & _);
    [by rewrite lookup_insert_eq|].
  exists n, d, q, pa, m5, a5, h1, U1, S', l', nT'. split; [|split; [split_and!; solve [done | lia | by left]|split; [done|split; [done|]]]].
  - intros B k. rewrite (bind_ok _ _ _ _ _ E1), (bind_ok _ _ _ _ _ E2), (bind_ok _ _ _ _ _ E3).
    assert (mapping_at m3 d r) as Hat3.
    { destruct (record_heap 1 m1 a h1 G U1 ∅ (q :: l) nT m3 G U1 ∅ l nT d r Hh1 HnT) as [? _];
        [by apply page_evolves|clear; set_solver|done..]. }
    destruct (record_ld m3 a4 h1 d r Hat3) as (_ & L3 & _). destruct (record_ld m4 a4 h1 d r Hat4) as (_ & L4 & L4' & L4'').
    destruct (record_ld m5 a5 h1 d r Hat5) as (_ & L5 & _).
    rewrite (bind_ok _ _ _ _ _ L3), Hva, (bind_ok _ _ _ _ _ E4), (bind_ok _ _ _ _ _ L4), (bind_ok _ _ _ _ _ L4'), (bind_ok _ _ _ _ _ L4'').
    rewrite Hva, Hsz, (bind_ok _ _ _ _ _ E5), (bind_ok _ _ _ _ _ L5), Hva.
    by rewrite (bind_ok _ _ _ _ _ (on_pages_ok _ _ _ h1 _ _ _ E6)).
  - split_and!; [by apply Hlists| | | | |].
    + apply Hlists. by eapply (mappings_heap 0 m a h G U S).
    + apply Hlists. by eapply (mappings_heap 0 m a h G U S).
    + change 3%nat with (0 + (1 + 2))%nat. eapply evolves_trans; [by apply evolves_tables|done|].
      eapply evolves_trans; [apply Ev4|done|apply Ev5].
    + eapply frames_same_trans; [done|]. by eapply frames_same_trans.
    + intros n' q' Hq'. destruct (decide (n' = n)) as [->|Hne].
      * rewrite lookup_insert_eq in Hq'. injection Hq' as <-. exists (m_pa r). split; [done|]. intros i Hi.
        rewrite (Hs5' n q), Hcopy, (Hs5 n (m_pa r)), (Hs4 n (m_pa r)); try done; try (unfold in_page; lia).
        by rewrite lookup_insert_eq.
      * rewrite lookup_insert_ne in Hq' by done. destruct (Hsame n' q' Hq') as (p & Hp & Hi). exists p. split; [done|].
        intros i Hi'. rewrite (Hs5' n' q'), (Hs4' n' q'), (Hs1' n' q'), (Hs5 n' p), (Hs4 n' p), (Hs1 n' p);
          try done; try (unfold in_page; lia); [by apply Hi|]. by rewrite lookup_insert_ne.
Qed.
Lemma fork_turn fuel m a h G U l root T F nroot nT nF S lst r ms S1 plst ms1 S2 nlst nms :
  forking m a h G U l root T F nroot nT nF S lst (r :: ms) S1 plst ms1 S2 nlst nms → (7 ≤ length l)%nat →
  ∃ n q m' a' h' G' U' l' nT' S' S1' S2',
    copy_mappings (Datatypes.S fuel) lst root plst nroot nlst (m, a, h) =
      copy_mappings fuel lst root plst nroot nlst (m', a', h') ∧ (m_va r = n * PGSIZE ∧ q ∈ l) ∧
    forking m' a' h' G' U' l' root T F nroot nT' (<[n := q]> nF) S' lst ms S1' plst (r :: ms1) S2' nlst
      (page_record n q (m_perm r) :: nms) ∧
    evolves 7 m G U (S ∪ S1 ∪ S2) l nT m' G' U' (S' ∪ S1' ∪ S2') l' nT' ∧ frames_same F m m'.
Proof.
  intros Hfk Hl. pose proof Hfk as [Htw Hold Hnew Hch (D1 & D2 & D3) Hby Hrec Hnd Htodo Hsame].
  pose proof (tw_heap _ _ _ _ _ _ _ _ _ _ _ _ Htw) as Hh.
  destruct (fork_page m a h G U l root T F nroot nT nF S lst r ms S1 plst ms1 S2 nlst nms Hfk) as
    (n & d & q & pa & m1 & a1 & h1 & U1 & S' & l1 & nT' & E1 & (Hva & Hn & Hk & Hpk & Hpa & HnF & Hql) & (HdS & HdS' & HSS & Hat & HdU)
     & Htw1 & Hold1 & Hnew1 & Hch1 & Ev1 & Hs1 & Hcp1); [lia|].
  pose proof (ev_len _ _ _ _ _ _ _ _ _ _ _ _ _ Ev1). pose proof (tw_heap _ _ _ _ _ _ _ _ _ _ _ _ Htw1) as Hh1.
  destruct (Htodo r ltac:(by left)) as (Hperm & Hsz & _).
  assert (mapping_ok r) as Hr by (rewrite (page_record_eta r n Hsz Hva); by apply page_record_ok).
  assert (∀ p, p ∈ S' → is_Some (U1 !! p)) as Hd1 by (intros p; apply (mappings_dom _ _ _ _ _ p Hold1)).
  assert (∀ p, p ∈ S2 → is_Some (U1 !! p)) as Hd2 by (intros p; apply (mappings_dom _ _ _ _ _ p Hch1)).
  destruct (add_mapping_ok m1 a1 h1 G U1 S1 l1 ∅ plst ms1 r Hh1 Hnew1 Hr) as
    (m2 & a2 & h2 & G2 & U2 & S1' & l2 & E2 & Hh2 & Hnew2 & Ev2); [lia|].
  pose proof (ev_len _ _ _ _ _ _ _ _ _ _ _ _ _ Ev2).
  destruct (two_heap 2 m1 a1 h1 G U1 S1 l1 root T F nroot nT' (<[n := q]> nF) m2 a2 h2 G2 U2 S1' l2 Htw1 Ev2 Hh2) as (Htw2 & Hs2 & Hs2').
  assert (S1 ## S') as D1' by (clear -D1 HSS; set_solver).
  assert (d ∉ S1 ∧ d ∉ S2) as [Hdn1 Hdn2] by (clear -D1 D2 HdS; set_solver).
  pose proof (mappings_heap _ _ _ _ _ _ _ _ _ _ _ _ _ _ _ _ Hh1 Ev2 D1' Hold1) as Hold2.
  pose proof (mappings_heap _ _ _ _ _ _ _ _ _ _ _ _ _ _ _ _ Hh1 Ev2 D3 Hch1) as Hch2.
  pose proof (evolves_apart _ _ _ _ _ _ _ _ _ _ _ _ _ S' Ev2 D1' Hd1) as D1''.
  pose proof (evolves_apart _ _ _ _ _ _ _ _ _ _ _ _ _ S2 Ev2 D3 Hd2) as D3'.
  destruct (record_heap 2 m1 a1 h1 G U1 S1 l1 ∅ m2 G2 U2 S1' l2 ∅ d r Hh1) as [Hat2 _]; [|done..|].
  { intros p Hp. by destruct (empty_tables p). }
  destruct (add_mapping_ok m2 a2 h2 G2 U2 S2 l2 ∅ nlst nms (page_record n q (m_perm r)) Hh2 Hch2) as
    (m3 & a3 & h3 & G3 & U3 & S2' & l3 & E3 & Hh3 & Hch3 & Ev3); [by apply page_record_ok|lia|].
  destruct (two_heap 2 m2 a2 h2 G2 U2 S2 l2 root T F nroot nT' (<[n := q]> nF) m3 a3 h3 G3 U3 S2' l3 Htw2 Ev3 Hh3) as (Htw3 & Hs3 & Hs3').
  assert (S2 ## S') as D2' by (clear -D2 HSS; set_solver).
  assert (S2 ## S1') as D3'' by (clear -D3'; set_solver).
  assert (∀ p, p ∈ S' → is_Some (U2 !! p)) as Hd1' by (intros p; apply (mappings_dom _ _ _ _ _ p Hold2)).
  assert (∀ p, p ∈ S1' → is_Some (U2 !! p)) as Hd3 by (intros p; apply (mappings_dom _ _ _ _ _ p Hnew2)).
  pose proof (evolves_apart _ _ _ _ _ _ _ _ _ _ _ _ _ S' Ev3 D2' Hd1') as D4.
  pose proof (evolves_apart _ _ _ _ _ _ _ _ _ _ _ _ _ S1' Ev3 D3'' Hd3) as D5.
  assert (frames_same F m m3) as Hs by (eapply frames_same_trans; [done|]; by eapply frames_same_trans).
  exists n, q, m3, a3, h3, G3, U3, l3, nT', S', S1', S2'. split_and!; [|done|done| | |done].
  - cbn [copy_mappings]. rewrite (bind_ok _ _ _ _ _ (mappings_empty _ _ _ _ _ _ _ _ _ Hh Hold)), bool_decide_false by done.
    rewrite E1. destruct (record_ld m1 a1 h1 d r Hat) as (L1 & L2 & _ & L3).
    destruct (record_ld m2 a2 h2 d r Hat2) as (_ & L5 & _ & L6).
    rewrite (bind_ok _ _ _ _ _ L1), (bind_ok _ _ _ _ _ L2), (bind_ok _ _ _ _ _ L3).
    change PG_SIZE with PGSIZE. rewrite Hsz in E2. rewrite (bind_ok _ _ _ _ _ E2), (bind_ok _ _ _ _ _ L5), (bind_ok _ _ _ _ _ L6).
    rewrite Hpa, Hva. by rewrite (bind_ok _ _ _ _ _ E3).
  - constructor; [done| | |done| |by eapply frames_bytes| | | |].
    + by eapply (mappings_heap 2 m2 a2 h2 G2 U2 S2 l2 m3 G3 U3 S2' l3).
    + by eapply (mappings_heap 2 m2 a2 h2 G2 U2 S2 l2 m3 G3 U3 S2' l3).
    + clear -D1'' D4 D5. split_and!; set_solver.
    + by apply recorded_add.
    + by apply NoDup_cons in Hnd as [_ ?].
    + intros r' Hr'. destruct (Htodo r') as (? & ? & n' & Hva' & HF' & HnF'); [by right|].
      split_and!; [done..|]. exists n'. split_and!; [done|done|]. rewrite lookup_insert_ne; [done|].
      intros <-. apply NoDup_cons in Hnd as [Hnd _]. apply Hnd. rewrite Hva, <- Hva'. apply list_elem_of_fmap. by exists r'.
    + eapply contents_same; [| |exact Hcp1]; by eapply frames_same_trans.
  - change 7%nat with (3 + (2 + 2))%nat. eapply evolves_trans; [|exact Hh1|].
    + eapply (evolves_wider 3 m G U S l m1 G U1 S' l1 nT nT' (S ∪ S1 ∪ S2) (S' ∪ S1 ∪ S2)); [done|clear; set_solver|clear; set_solver].
    + eapply evolves_trans; [|exact Hh2|].
      * eapply (evolves_wider 2 m1 G U1 S1 l1 m2 G2 U2 S1' l2 nT' nT' (S' ∪ S1 ∪ S2) (S' ∪ S1' ∪ S2));
          [by apply evolves_tables|clear; set_solver|clear; set_solver].
      * eapply (evolves_wider 2 m2 G2 U2 S2 l2 m3 G3 U3 S2' l3 nT' nT' (S' ∪ S1' ∪ S2) (S' ∪ S1' ∪ S2'));
          [by apply evolves_tables|clear; set_solver|clear; set_solver].
Qed.
(** What the child's record keeps of the parent's. *)
Definition range_of (r : mapping) : Z * Z * Z := (m_va r, m_size r, m_perm r).

Lemma copy_mappings_ok root T F lst plst nroot nlst ms : ∀ fuel m a h G U l nT nF S S1 ms1 S2 nms,
  forking m a h G U l root T F nroot nT nF S lst ms S1 plst ms1 S2 nlst nms → (length ms < fuel)%nat →
  (7 * length ms ≤ length l)%nat →
  ∃ m' a' h' G' U' l' nT' nF' S' S1' S2' new, copy_mappings fuel lst root plst nroot nlst (m, a, h) = Ok (tt, (m', a', h')) ∧
    forking m' a' h' G' U' l' root T F nroot nT' nF' S' lst [] S1' plst (rev ms ++ ms1) S2' nlst (new ++ nms) ∧
    (∀ n, is_Some (nF' !! n) ↔ is_Some (nF !! n) ∨ ∃ r, r ∈ ms ∧ m_va r = n * PGSIZE) ∧
    (∀ i q, nF' !! i = Some q → nF !! i = Some q ∨ q ∈ l) ∧ range_of <$> new = range_of <$> rev ms ∧
    evolves (7 * length ms) m G U (S ∪ S1 ∪ S2) l nT m' G' U' (S' ∪ S1' ∪ S2') l' nT' ∧ frames_same F m m'.
Proof.
  induction ms as [|r ms IH]; intros fuel m a h G U l nT nF S S1 ms1 S2 nms Hfk Hf Hl;
    (destruct fuel as [|fuel]; [simpl in Hf; lia|]).
  - exists m, a, h, G, U, l, nT, nF, S, S1, S2, []. split_and!; [|done| |by left|done|apply evolves_refl|by intros n p x].
    + cbn [copy_mappings]. pose proof Hfk as [Htw Hold _ _ _ _ _ _ _ _].
      by rewrite (bind_ok _ _ _ _ _ (mappings_empty _ _ _ _ _ _ _ _ _ (tw_heap _ _ _ _ _ _ _ _ _ _ _ _ Htw) Hold)), bool_decide_true by done.
    + intros n. split; [by left|]. intros [|(r & Hr & _)]; [done|]. by apply not_elem_of_nil in Hr.
  - simpl in Hl, Hf. destruct (fork_turn fuel m a h G U l root T F nroot nT nF S lst r ms S1 plst ms1 S2 nlst nms Hfk) as
      (n & q & m1 & a1 & h1 & G1 & U1 & l1 & nT1 & S' & S1' & S2' & E1 & [Hva Hql] & Hfk1 & Ev1 & Hs1); [lia|].
    pose proof (ev_len _ _ _ _ _ _ _ _ _ _ _ _ _ Ev1).
    destruct (IH fuel m1 a1 h1 G1 U1 l1 nT1 (<[n := q]> nF) S' S1' (r :: ms1) S2' _ Hfk1) as
      (m2 & a2 & h2 & G2 & U2 & l2 & nT2 & nF2 & S'' & S1'' & S2'' & new & E2 & Hfk2 & Hdom & Hfr & Hnew & Ev2 & Hs2); [lia|lia|].
    exists m2, a2, h2, G2, U2, l2, nT2, nF2, S'', S1'', S2'', (new ++ [page_record n q (m_perm r)]). split_and!.
    + by rewrite E1.
    + simpl. by rewrite <- !app_assoc.
    + intros n'. rewrite Hdom. destruct (decide (n' = n)) as [->|Hne].
      * rewrite lookup_insert_eq. split; [|by left; eexists]. intros _. right. exists r. split; [by left|done].
      * rewrite lookup_insert_ne by done. split.
        { intros [?|(r' & Hr' & ?)]; [by left|right]. exists r'. split; [by right|done]. }
        intros [?|(r' & [->|Hr']%elem_of_cons & Hv)]; [by left| |right; by exists r'].
        exfalso. apply Hne. unfold PGSIZE in *. lia.
    + intros i p Hi. destruct (Hfr i p Hi) as [Hi'|?]; [|right; by eapply ev_free].
      apply lookup_insert_Some in Hi' as [[_ <-]|[_ ?]]; [by right|by left].
    + simpl. rewrite !fmap_app, Hnew. f_equal. cbn. f_equal. unfold range_of. simpl. rewrite Hva.
      by destruct (fk_todo _ _ _ _ _ _ _ _ _ _ _ _ _ _ _ _ _ _ _ _ _ Hfk r ltac:(by left)) as (_ & -> & _).
    + simpl length. replace (7 * Datatypes.S (length ms))%nat with (7 + 7 * length ms)%nat by lia.
      eapply evolves_trans; [exact Ev1| |exact Ev2]. apply (fk_two _ _ _ _ _ _ _ _ _ _ _ _ _ _ _ _ _ _ _ _ _ Hfk1).
    + by eapply frames_same_trans.
Qed.

Lemma recorded_perm F ms ms' : recorded F ms → ms ≡ₚ ms' → recorded F ms'.
Proof.
  intros [R1 R2 R3] Hp. constructor.
  - by rewrite <- Hp.
  - intros r Hr. apply R2. by rewrite Hp.
  - intros n q Hq. destruct (R3 n q Hq) as (r & Hr & ?). exists r. by rewrite <- Hp.
Qed.

Lemma mappings_length m a h G U S l lst ms : heap_ok m a h G U l → mappings m U S lst ms → (length ms < fuel_of m)%nat.
Proof.
  intros Hh (es & S0 & Hm & _ & _ & Hr). apply Forall2_length in Hr. rewrite length_fmap in Hr. rewrite <- Hr.
  by eapply mlist_length.
Qed.

(** The copy is seen at the same addresses. *)
Lemma copied_ubytes m m' F nF va bs : frames_same F m m' → copied m' F nF →
  (∀ n, is_Some (nF !! n) ↔ is_Some (F !! n)) → ubytes m F va bs ↔ ubytes m' nF va bs.
Proof.
  intros Hs Hc Hdom.
  assert (∀ x n p q, F !! n = Some p → nF !! n = Some q → m' !! (q + x mod PGSIZE) = m !! (p + x mod PGSIZE)) as Heq.
  { intros x n p q Hp Hq. assert (0 ≤ x mod PGSIZE < PGSIZE) by (unfold PGSIZE; zmod).
    destruct (Hc n q Hq) as (p' & Hp' & Hi). assert (p' = p) as -> by congruence.
    rewrite Hi, (Hs n p); [done|done|unfold in_page; lia|done]. }
  split; intros Hu i b Hi; destruct (Hu i b Hi) as (p & Hp & Hb).
  - destruct (proj2 (Hdom ((va + Z.of_nat i) / PGSIZE))) as [q Hq]; [by eexists|].
    exists q. split; [done|]. by rewrite (Heq (va + Z.of_nat i) _ p q Hp Hq).
  - destruct (proj1 (Hdom ((va + Z.of_nat i) / PGSIZE))) as [q Hq]; [by eexists|].
    exists q. split; [done|]. by rewrite <- (Heq (va + Z.of_nat i) _ q p Hq Hp).
Qed.
(** The call as a whole. *)
Lemma copy_pagetable_run m a h G U S l root T F lst ms nroot nT S2 nlst :
  process m a h G U S l root T F lst ms → uspace m nroot nT ∅ → away nT ∅ G l → mappings m U S2 nlst [] →
  S ## S2 → (∀ p, owns T F p → ¬ owns nT ∅ p) → frame_bytes m F → (7 * length ms + 1 ≤ length l)%nat →
  ∃ plst m' a' h' G' U' S' S1' S2' l' nT' nF' nms,
    copy_pagetable root lst nroot nlst (m, a, h) = Ok (plst, (m', a', h')) ∧
    process m' a' h' G' U' S1' l' root T F plst (rev ms) ∧ process m' a' h' G' U' S2' l' nroot nT' nF' nlst nms ∧
    (S1' ## S2' ∧ S1' ⊆ S' ∧ S2' ⊆ S') ∧ (∀ p, owns T F p → ¬ owns nT' nF' p) ∧ range_of <$> nms = range_of <$> rev ms ∧
    frames_same F m m' ∧ (∀ n, is_Some (nF' !! n) ↔ is_Some (F !! n)) ∧ (∀ i q, nF' !! i = Some q → q ∈ l) ∧ copied m' F nF' ∧
    evolves (7 * length ms + 1) m G U (S ∪ S2) l nT m' G' U' S' l' nT'.
Proof.
  intros [Hh Hu Ha Hms Hrec] Hc Hca Hms2 HS Hap Hby Hl.
  assert (l ≠ []) as Hne by (intros ->; simpl in Hl; lia).
  destruct (mlist_init_ok m a h G U l Hh Hne) as (plst & m1 & a1 & h1 & G1 & l1 & E1 & X & Hm1).
  pose proof X as (Hh1 & Hfresh & _).
  pose proof (extends_evolves m a h G U ∅ l ∅ plst 16 _ _ _ _ _ Hh X) as Ev1. rewrite union_empty_r_L in Ev1.
  pose proof (ev_len _ _ _ _ _ _ _ _ _ _ _ _ _ Ev1).
  destruct (two_heap 1 m a h G U ∅ l root T F nroot nT ∅ m1 a1 h1 G1 (<[plst := 16]> U) {[plst]} l1) as (Htw1 & Hs1 & _); [by constructor|done|done|].
  assert (∀ S0 lst0 ms0, mappings m U S0 lst0 ms0 → mappings m1 (<[plst := 16]> U) S0 lst0 ms0 ∧ S0 ## {[plst]}) as Hlists.
  { intros S0 lst0 ms0 Hm0. split.
    { apply (mappings_heap 1 m a h G U ∅ l m1 G1 _ {[plst]} l1 S0 lst0 ms0 Hh Ev1); [clear; set_solver|done]. }
    intros x Hx ->%elem_of_singleton. destruct (mappings_dom _ _ _ _ _ _ Hm0 Hx). congruence. }
  destruct (Hlists _ _ _ Hms) as [Hold D1], (Hlists _ _ _ Hms2) as [Hch D2].
  assert (forking m1 a1 h1 G1 (<[plst := 16]> U) l1 root T F nroot nT ∅ S lst ms {[plst]} plst [] S2 nlst []) as Hfk.
  { constructor; [done|done| |done| |by eapply frames_bytes| |apply Hrec| |].
    - exists [], {[plst]}. split_and!; [done|simpl; by rewrite union_empty_r_L|by apply NoDup_nil_2|by constructor].
    - split_and!; [done|done|done].
    - constructor; [by apply NoDup_nil_2|by intros r Hr%not_elem_of_nil|]. intros n q. by rewrite lookup_empty.
    - intros r Hr. destruct (rc_record _ _ Hrec r Hr) as (? & ? & n & ? & ?). split_and!; [done..|].
      exists n. by rewrite lookup_empty.
    - intros n q. by rewrite lookup_empty. }
  destruct (copy_mappings_ok root T F lst plst nroot nlst ms (fuel_of m1) m1 a1 h1 G1 _ l1 nT ∅ S {[plst]} [] S2 [] Hfk) as
    (m2 & a2 & h2 & G2 & U2 & l2 & nT2 & nF2 & S' & S1' & S2' & new & E2 & Hfk2 & Hdom & Hfr & Hnew & Ev2 & Hs2);
    [by eapply mappings_length|lia|].
  rewrite !app_nil_r in Hfk2. pose proof Hfk2 as [[Hh2 Hu2 Hc2 Ha2 Hca2 Hap2] _ Hpl Hnl (_ & _ & D3) _ Hnrec _ _ Hcp].
  assert (frames_same F m m2) as Hs by by eapply frames_same_trans.
  exists plst, m2, a2, h2, G2, U2, (S' ∪ S1' ∪ S2'), S1', S2', l2, nT2, nF2, new.
  split_and!; [| | |done|clear; set_solver|clear; set_solver|done|done|done| | |done|].
  - unfold copy_pagetable. rewrite (bind_ok _ _ _ _ _ E1), (bind_ok _ _ _ (fuel_of m1) (m1, a1, h1)) by done.
    by rewrite (bind_ok _ _ _ _ _ E2).
  - constructor; [done..|]. eapply recorded_perm; [done|]. apply Permutation_rev.
  - by constructor.
  - intros n. rewrite Hdom, lookup_empty. split.
    + intros [[? ?]|(r & Hr & Hv)]; [done|]. destruct (rc_record _ _ Hrec r Hr) as (_ & _ & n' & Hv' & HF).
      assert (n = n') as -> by (unfold PGSIZE in *; lia). by eexists.
    + intros [q Hq]. right. by apply (rc_page _ _ Hrec n q).
  - intros i q Hi. destruct (Hfr i q Hi) as [Hn|Hl1]; [by rewrite lookup_empty in Hn|]. by eapply (ev_free _ _ _ _ _ _ _ _ _ _ _ _ _ Ev1).
  - rewrite Nat.add_comm. eapply evolves_trans; [|exact Hh1|exact Ev2].
    apply evolves_tables. eapply evolves_wider; [exact Ev1|clear; set_solver|]. clear. set_solver.
Qed.
End fork.

(** ** Properties *)
Section properties.
Context {A : Type} `{PageAllocator A}.

(** C6: [fork] copies the memory of the parent.  For a parent in order, a child with an empty table
    and an empty list, and seven free pages per page of the parent and one more, the call
    returns the parent's new list.  Parent and child are in order afterwards, share no page and
    no block; the parent has its frames, with their contents, and its records in reverse order;
    the child has frames of its own under the same addresses, sizes and permissions, and reads
    at every address what the parent read before.  Nothing is written but what [touch] says. *)
Theorem copy_pagetable_correct (m : mem) (a : A) h G U S l root T F lst ms nroot nT S2 nlst :
  process m a h G U S l root T F lst ms → uspace m nroot nT ∅ → away nT ∅ G l → mappings m U S2 nlst [] →
  S ## S2 → (∀ p, owns T F p → ¬ owns nT ∅ p) → frame_bytes m F → (7 * length ms + 1 ≤ length l)%nat →
  ∃ plst m' a' h' G' U' S' S1' S2' l' nT' nF' nms,
    copy_pagetable root lst nroot nlst (m, a, h) = Ok (plst, (m', a', h')) ∧
    process m' a' h' G' U' S1' l' root T F plst (rev ms) ∧ process m' a' h' G' U' S2' l' nroot nT' nF' nlst nms ∧
    S1' ## S2' ∧ (∀ p, owns T F p → ¬ owns nT' nF' p) ∧ range_of <$> nms = range_of <$> rev ms ∧
    frames_same F m m' ∧ (∀ va bs, ubytes m F va bs ↔ ubytes m' nF' va bs) ∧
    evolves (7 * length ms + 1) m G U (S ∪ S2) l nT m' G' U' S' l' nT'.
Proof.
  intros Hpr Hc Hca Hms2 HS Hap Hby Hl.
  destruct (copy_pagetable_run m a h G U S l root T F lst ms nroot nT S2 nlst Hpr Hc Hca Hms2 HS Hap Hby Hl) as
    (plst & m' & a' & h' & G' & U' & S' & S1' & S2' & l' & nT' & nF' & nms & E & H1 & H2 & (D & _ & _) & H3 & H4 & Hs & Hdom & _ & Hcp & Ev).
  exists plst, m', a', h', G', U', S', S1', S2', l', nT', nF', nms. split_and!; [done..| |done].
  intros va bs. by apply copied_ubytes.
Qed.
End properties.

(** A new table beside a process, as [proc_init] makes one for a child. *)
Lemma new_table {A : Type} `{PageAllocator A} (m : mem) (a : A) h G U q l :
  heap_ok m a h G U (q :: l) → ∃ m' a', on_pages pgtbl_create (m, a, h) = Ok (q, (m', a', h)) ∧
    heap_ok m' a' h G U l ∧ uspace m' q {[ [] := q ]} ∅ ∧ away {[ [] := q ]} ∅ G l ∧ changes (in_page q) m m'.
Proof.
  intros Hh. destruct (free_page _ _ _ _ _ _ q Hh) as (Hk & HG & Hm); [by left|].
  destruct (pgtbl_create_ok m a q l) as (m' & a' & E & Hpt & Ha & Hs & Hd & Ho); [by eapply heap_avail|].
  assert (changes (in_page q) m m') as C by by split.
  exists m', a'. split_and!; [by apply on_pages_ok| | | |done].
  - eapply heap_update; [done|done| |done|].
    + intros x Hx. right. intros (g & Hg & Hgx). by eapply (heap_page_cell m a h G U (q :: l) g q x).
    + intros p Hp ?. destruct (heap_page _ _ _ _ _ _ _ Hh Hp) as [Hn _]. apply Hn. by right.
  - split; [done|]. constructor; intros i; [intros p|intros p|intros i' p]; by rewrite lookup_empty.
  - intros p [Hp|[i Hi]]; [|by rewrite lookup_empty in Hi]. split; [|by intros ?%Hs].
    destruct Hp as [k [_ <-]%lookup_singleton_Some]. done.
Qed.

(** A process with one page, and a child with an empty table and an empty list. *)
Lemma sample_fork : ∃ (m : mem) (a : Z) h G U S l root T F lst r nroot nT S2 nlst,
  process m a h G U S l root T F lst [r] ∧ uspace m nroot nT ∅ ∧ away nT ∅ G l ∧ mappings m U S2 nlst [] ∧
  S ## S2 ∧ (∀ p, owns T F p → ¬ owns nT ∅ p) ∧ frame_bytes m F ∧ F !! 16 = Some (m_pa r) ∧ (8 ≤ length l)%nat.
Proof.
  destruct (sample_user 15) as (m & a & h & G & U & S & l & root & T & lst & Hpr & Hl); [done|].
  destruct (alloc_vm_step 0 m a h G U S l root T ∅ lst [] 16 (17 * PGSIZE) PTE_DEFAULT Hpr) as
    (p & m1 & a1 & h1 & G1 & U1 & S1 & l1 & T1 & _ & Hpr1 & Ev1 & Hmp1 & _); try done; [lia|].
  pose proof (ev_len _ _ _ _ _ _ _ _ _ _ _ _ _ Ev1).
  destruct l1 as [|q l1]; [simpl in *; lia|]. simpl in *.
  pose proof Hpr1 as [Hh1 Hu1 Ha1 Hm1 Hr1].
  destruct (new_table m1 a1 h1 G1 U1 q l1 Hh1) as (m2 & a2 & _ & Hh2 & Hc2 & Hca2 & C2).
  pose proof (page_evolves m1 m2 G1 U1 ∅ q l1 ∅ C2) as Ev2.
  destruct (heap_step 1 m1 a1 h1 G1 U1 ∅ (q :: l1) T1 m2 G1 U1 ∅ l1 root _ Hh1 Ev2 Hu1 Ha1) as (Hu2 & Ha2 & Hs2 & _).
  pose proof (mappings_heap 1 m1 a1 h1 G1 U1 ∅ (q :: l1) m2 G1 U1 ∅ l1 S1 lst _ Hh1 Ev2 ltac:(clear; set_solver) Hm1) as Hm2.
  destruct (mlist_init_ok m2 a2 h1 G1 U1 l1 Hh2) as (nlst & m3 & a3 & h3 & G3 & l3 & _ & X & Hc3); [intros ->; simpl in *; lia|].
  pose proof X as (Hh3 & Hfresh & _). pose proof (extends_evolves m2 a2 h1 G1 U1 ∅ l1 ∅ nlst 16 _ _ _ _ _ Hh2 X) as Ev3.
  rewrite union_empty_r_L in Ev3. pose proof (ev_len _ _ _ _ _ _ _ _ _ _ _ _ _ Ev3).
  assert (∀ x, owns T1 (<[16 := p]> ∅) x → ¬ owns {[ [] := q ]} ∅ x) as Hap.
  { intros x Hx [[k [_ <-]%lookup_singleton_Some]|[i Hi]]; [|by rewrite lookup_empty in Hi].
    destruct (Ha1 _ Hx) as [_ Hn]. apply Hn. by left. }
  destruct (two_heap 1 m2 a2 h1 G1 U1 ∅ l1 root T1 (<[16 := p]> ∅) q {[ [] := q ]} ∅ m3 a3 h3 G3
    (<[nlst := 16]> U1) {[nlst]} l3) as (Htw & Hs3 & _); [by constructor|done|done|].
  exists m3, a3, h3, G3, (<[nlst := 16]> U1), S1, l3, root, T1, (<[16 := p]> ∅), lst, (page_record 16 p PTE_DEFAULT).
  exists q, {[ [] := q ]}, {[nlst]}, nlst. destruct Htw. split_and!; [|done|done| | |done| |by rewrite lookup_insert_eq|lia].
  - constructor; [done..| |done].
    apply (mappings_heap 1 m2 a2 h1 G1 U1 ∅ l1 m3 G3 _ {[nlst]} l3 S1 lst _ Hh2 Ev3); [clear; set_solver|done].
  - exists [], {[nlst]}. split_and!; [done|simpl; by rewrite union_empty_r_L|by apply NoDup_nil_2|by constructor].
  - intros x Hx ->%elem_of_singleton. destruct (mappings_dom _ _ _ _ _ _ Hm2 Hx). congruence.
  - intros i p' x Hi Hx. exists 0. split; [|done]. rewrite (Hs3 i p' x Hi Hx), (Hs2 x p'); [|by right; exists i|done].
    apply lookup_insert_Some in Hi as [[<- <-]|[_ Hi]]; [|by rewrite lookup_empty in Hi].
    eapply (mp_zero _ _ _ _ _ _ Hmp1); [|by rewrite lookup_insert_eq|done]. lia.
Qed.

Lemma copy_pagetable_correct_witness : ∃ root lst nroot nlst (m : mem) (a : Z) h plst m' a' h' F nF',
  copy_pagetable root lst nroot nlst (m, a, h) = Ok (plst, (m', a', h')) ∧ is_Some (F !! 16) ∧
  (∀ va bs, ubytes m F va bs ↔ ubytes m' nF' va bs).
Proof.
  destruct sample_fork as (m & a & h & G & U & S & l & root & T & F & lst & r & nroot & nT & S2 & nlst &
    Hpr & Hc & Hca & Hm & HS & Hap & Hby & HF & Hl).
  destruct (copy_pagetable_correct m a h G U S l root T F lst [r] nroot nT S2 nlst Hpr Hc Hca Hm HS Hap Hby Hl) as
    (plst & m' & a' & h' & _ & _ & _ & _ & _ & _ & _ & nF' & _ & E & _ & _ & _ & _ & _ & _ & Hu & _).
  exists root, lst, nroot, nlst, m, a, h, plst, m', a', h', F, nF'. split_and!; [exact E|by eexists|exact Hu].
Defined.
