(* ===== verification/Release.v ===== *)
(** * mm/n_vm.c: releasing address spaces

    [pgtbl_free] walks the mapping list and then the three levels of the page
    table.  [pgtbl_free_correct]: it gives back exactly the frames and the
    tables of the address space, frees the records and leaves the empty list. *)

From S2P Require Import Prelude Mem CString PageAlloc Vm VmCopy Malloc Heap MList AddrSpace UserSpace Fork.

(** ** free_pagetable *)
Section tables.
Context {A : Type} `{PageAllocator A}.
Context (m0 : mem) (root : Z) (T : gmap (list Z) Z) (Hpt : pt m0 root T).
Implicit Types (m : mem) (a : A) (l : list Z) (k : list Z).

(** The tables at and under the path [k]; those under the entries from [j] on. *)
Definition below k (q : Z) : Prop := ∃ k', T !! (k' ++ k) = Some q.
Definition below_from (j : Z) k (q : Z) : Prop := ∃ i, j ≤ i < 2048 ∧ below (i :: k) q.
Definition pages_of (P : Z → Prop) (x : Z) : Prop := ∃ q, P q ∧ in_page q x.

(** The tables of [P] are as they were in [m0], and none of them is free. *)
Record ready_free m l (P : Z → Prop) : Prop := {
  rf_dom : dom m = dom m0;
  rf_same : ∀ x, pages_of P x → m !! x = m0 !! x;
  rf_used : ∀ q, P q → q ∉ l
}.

Lemma below_child k k' q : T !! (k' ++ k) = Some q → is_Some (T !! k).
Proof.
  revert q. induction k' as [|i k' IH]; intros q Hq; [by eexists|].
  destruct (pt_child _ _ _ Hpt _ _ _ Hq) as [[p Hp] _]. by eapply IH.
Qed.

Lemma below_page k q : below k q → kpage q ∧ mapped m0 q PGSIZE.
Proof. intros [k' Hq]. by destruct (pt_page _ _ _ Hpt _ _ Hq) as (? & ? & _). Qed.

Lemma below_from_step j k q : 0 ≤ j < 2048 →
  below_from j k q ↔ below (j :: k) q ∨ below_from (j + 1) k q.
Proof.
  intros Hj. split.
  - intros (i & Hi & Hq). destruct (decide (i = j)) as [->|Hne]; [by left|right]. exists i. split; [lia|done].
  - intros [Hq|(i & Hi & Hq)]; [exists j|exists i]; (split; [lia|done]).
Qed.

Lemma below_from_end k q : ¬ below_from 2048 k q.
Proof. intros (i & Hi & _). lia. Qed.

Lemma below_all k p q : T !! k = Some p → below k q ↔ q = p ∨ below_from 0 k q.
Proof.
  intros Hk. split.
  - intros [k' Hq]. destruct k' as [|i k' _] using rev_ind; [left; simpl in Hq; congruence|right].
    rewrite <- app_assoc in Hq. simpl in Hq. destruct (below_child _ _ _ Hq) as [c Hc].
    destruct (pt_child _ _ _ Hpt _ _ _ Hc) as [_ Hi]. exists i. split; [lia|by exists k'].
  - intros [->|(i & _ & k' & Hq)]; [by exists []|]. exists (k' ++ [i]). by rewrite <- app_assoc.
Qed.

(** Tables under different entries are different pages. *)
Lemma below_apart j k q : below (j :: k) q → ¬ below_from (j + 1) k q.
Proof.
  intros [k' Hq] (i & Hi & k'' & Hq'). pose proof (pt_inj _ _ _ Hpt _ _ _ Hq Hq') as E.
  assert (k' ++ [j] ++ k = k'' ++ [i] ++ k) as E' by done. rewrite !app_assoc in E'.
  apply app_inv_tail, app_inj_2 in E' as [_ [= ->]]; [lia|done].
Qed.

Lemma below_above j k p : T !! k = Some p → ¬ below_from j k p.
Proof.
  intros Hk (i & _ & k' & Hq). pose proof (pt_inj _ _ _ Hpt _ _ _ Hk Hq) as E.
  apply (f_equal length) in E. rewrite length_app in E. simpl in E. lia.
Qed.

(** Freeing some tables leaves the others as they were. *)
Lemma ready_step m l P Q m' l' : ready_free m l (λ q, P q ∨ Q q) → (∀ q, P q ∨ Q q → kpage q) →
  (∀ q, P q → ¬ Q q) → changes (pages_of P) m m' → (∀ q, q ∈ l' ↔ q ∈ l ∨ P q) → ready_free m' l' Q.
Proof.
  intros [R1 R2 R3] Hk HPQ [Hd Hs] Hl. constructor; [congruence| |].
  - intros x (q & Hq & Hx). rewrite Hs; [apply R2; exists q; tauto|]. intros (p & Hp & Hpx).
    apply (kpage_disjoint p q x); [by apply Hk; left|by apply Hk; right| |done|done]. intros ->. by eapply HPQ.
  - intros q Hq [Hin|Hin]%Hl; [eapply R3; [by right|done]|by eapply HPQ].
Qed.

Lemma ready_sub m l P Q : ready_free m l P → (∀ q, Q q → P q) → ready_free m l Q.
Proof. intros [R1 R2 R3] HQ. constructor; [done|intros x (q & Hq & Hx); apply R2; exists q; auto|auto]. Qed.

(** What freeing the tables of [P] does. *)
Definition gives_back (P : Z → Prop) m a l (r : res (unit * (mem * A))) : Prop :=
  ∃ m' a' l', r = Ok (tt, (m', a')) ∧ avail m' a' l' ∧ (∀ q, q ∈ l' ↔ q ∈ l ∨ P q) ∧ changes (pages_of P) m m'.

Lemma gives_back_iff P Q m a l r : (∀ q, P q ↔ Q q) → gives_back P m a l r → gives_back Q m a l r.
Proof.
  intros HPQ (m' & a' & l' & -> & Ha & Hl & C). exists m', a', l'. split_and!; [done|done| |].
  - intros q. by rewrite Hl, HPQ.
  - eapply changes_weaken; [|done]. intros x (q & Hq & ?). exists q. by rewrite <- HPQ.
Qed.

Lemma gives_back_then P Q (c c' : M (mem * A) unit) m a l : gives_back P m a l (c (m, a)) →
  (∀ m1 a1 l1, avail m1 a1 l1 → (∀ q, q ∈ l1 ↔ q ∈ l ∨ P q) → changes (pages_of P) m m1 →
     gives_back Q m1 a1 l1 (c' (m1, a1))) →
  gives_back (λ q, P q ∨ Q q) m a l ((c;; c') (m, a)).
Proof.
  intros (m1 & a1 & l1 & E1 & Ha1 & Hl1 & C1) Hc'. destruct (Hc' m1 a1 l1 Ha1 Hl1 C1) as (m2 & a2 & l2 & E2 & Ha2 & Hl2 & C2).
  exists m2, a2, l2. split_and!; [by rewrite (bind_ok _ _ _ _ _ E1)|done| |].
  - intros q. rewrite Hl2, Hl1. tauto.
  - eapply changes_trans; (eapply changes_weaken; [|done]); intros x (q & ? & ?); exists q; tauto.
Qed.

Lemma page_back m a l q : avail m a l → ready_free m l (eq q) → kpage q → mapped m0 q PGSIZE →
  gives_back (eq q) m a l (page_free q (m, a)).
Proof.
  intros Ha [R1 _ R3] Hk Hm. destruct (page_free_ok m a q l Ha Hk) as (m' & a' & E & Ha' & Ho & Hd);
    [by eapply mapped_dom|by apply R3|].
  exists m', a', (q :: l). split_and!; [done|done| |].
  - intros q'. rewrite elem_of_cons. intuition congruence.
  - split; [done|]. intros x Hx. apply Ho. intros Hqx. apply Hx. by exists q.
Qed.

Definition entries_free (k : list Z) (p : Z) (free : Z → M (mem * A) unit) : Prop := ∀ i q m a l, 0 ≤ i < 2048 →
  T !! (i :: k) = Some q → avail m a l → ready_free m l (below (i :: k)) →
  gives_back (below (i :: k)) m a l (free q (m, a)).

Lemma free_entries_ok k p free n : T !! k = Some p → (length k < 2)%nat → entries_free k p free →
  ∀ j m a l, 0 ≤ j → j + Z.of_nat n = 2048 → avail m a l → ready_free m l (λ q, below_from j k q ∨ q = p) →
  gives_back (below_from j k) m a l (free_entries n (p + 8 * j) free (m, a)).
Proof.
  intros Hk Hlk Hfree. induction n as [|n IH]; intros j m a l Hj Hn Ha Hr.
  - exists m, a, l. split_and!; [done|done| |apply changes_refl]. intros q.
    replace j with 2048 by lia. pose proof (below_from_end k q). tauto.
  - assert (word64_at m (p + 8 * j) (default 0 (T !! (j :: k)))) as Hw.
    { eapply word_at_same; [eapply (pt_entry _ _ _ Hpt _ _ j Hk); [done|lia]|]. intros x Hx. apply Hr.
      exists p. split; [by right|]. unfold in_page, PGSIZE. lia. }
    cbn [free_entries].
    rewrite (bind_ok _ _ _ _ _ (in_mem_ok _ _ _ _ _ (load_ok _ _ _ _ Hw))).
    replace (p + 8 * j + 8) with (p + 8 * (j + 1)) by lia.
    eapply (gives_back_iff (λ q, below (j :: k) q ∨ below_from (j + 1) k q)); [intros q; symmetry; apply below_from_step; lia|].
    assert (ready_free m l (λ q, below (j :: k) q ∨ (below_from (j + 1) k q ∨ q = p))) as Hr'.
    { eapply ready_sub; [done|]. simpl. intros q. rewrite (below_from_step j k q) by lia. tauto. }
    eapply (gives_back_then (below (j :: k)) (below_from (j + 1) k)).
    + destruct (T !! (j :: k)) as [q|] eqn:Hq; cbn [default from_option id].
      * destruct (pt_page _ _ _ Hpt _ _ Hq) as [Hqk _]. apply kpage_bound in Hqk.
        destruct (Z.eqb_spec q 0); [lia|]. cbn [negb]. apply Hfree; [lia|done|done|]. eapply ready_sub; [exact Hr'|]. intros q' Hq'. by left.
      * exists m, a, l. split_and!; [done|done| |apply changes_refl]. intros q'.
        split; [by left|]. intros [|[k' Hk']]; [done|]. destruct (below_child _ _ _ Hk'). congruence.
    + intros m1 a1 l1 Ha1 Hl1 C1. apply IH; [lia|lia|done|]. eapply ready_step; [exact Hr'| | |done|done].
      * intros q [Hq|[(i & _ & Hq)| ->]]; [by eapply below_page..|]. by destruct (pt_page _ _ _ Hpt _ _ Hk).
      * intros q Hq [Hq'| ->]; [by eapply below_apart|]. apply (below_above j k p Hk). exists j. split; [lia|done].
Qed.

(** A table with everything under it. *)
Lemma free_level_ok level : ∀ k p m a l, (length k + level = 2)%nat → T !! k = Some p → avail m a l →
  ready_free m l (below k) → gives_back (below k) m a l (free_level level p (m, a)).
Proof.
  induction level as [|level IH]; intros k p m a l Hlen Hk Ha Hr.
  - eapply (gives_back_iff (eq p)).
    + intros q. rewrite (below_all k p q Hk). split; [by left|]. intros [->|(i & _ & k' & Hq)]; [done|].
      destruct (pt_page _ _ _ Hpt _ _ Hq) as (_ & _ & Hl). rewrite length_app in Hl. simpl in Hl. lia.
    + destruct (pt_page _ _ _ Hpt _ _ Hk) as (? & ? & _). apply page_back; [done| |done|done].
      eapply ready_sub; [done|]. intros q <-. by exists [].
  - eapply (gives_back_iff (λ q, below_from 0 k q ∨ p = q)).
    + intros q. rewrite (below_all k p q Hk). intuition congruence.
    + assert (ready_free m l (λ q, below_from 0 k q ∨ p = q)) as Hr'.
      { eapply ready_sub; [done|]. simpl. intros q. rewrite (below_all k p q Hk). intuition congruence. }
      destruct (pt_page _ _ _ Hpt _ _ Hk) as (Hpk & Hpm & _). cbn [free_level]. unfold free_table.
      eapply (gives_back_then (below_from 0 k) (eq p)).
      * replace p with (p + 8 * 0) at 1 by lia. change (Z.to_nat (Z.shiftl 1 PTWIDTH)) with 2048%nat.
        apply free_entries_ok; [done|lia| |lia|done|done|].
        -- intros i q m' a' l' Hi Hq Ha' Hrr. apply IH; [simpl; lia|done|done|done].
        -- eapply ready_sub; [exact Hr'|]. simpl. intros q. intuition congruence.
      * intros m1 a1 l1 Ha1 Hl1 C1. apply page_back; [done| |done|done].
        eapply ready_step; [exact Hr'| | |done|done].
        -- intros q [(i & _ & Hq)| <-]; [by eapply below_page|done].
        -- intros q Hq <-. by eapply below_above.
Qed.
End tables.

(** ** The records *)
Section records.
Context {A : Type} `{PageAllocator A}.
Implicit Types (m : mem) (a : A) (h : mheap) (U : gmap Z Z) (S : gset Z) (G l : list Z).
Implicit Types (T : gmap (list Z) Z) (F : gmap Z Z) (ms : list mapping).

Lemma release_page m a h G U l q : heap_ok m a h G U l → kpage q → mapped m q PGSIZE → q ∉ l → q ∉ G →
  ∃ m' a', on_pages (page_free q) (m, a, h) = Ok (tt, (m', a', h)) ∧ heap_ok m' a' h G U (q :: l) ∧
    changes (in_page q) m m'.
Proof.
  intros Hh Hk Hm Hl HG. pose proof (heap_avail _ _ _ _ _ _ Hh) as Ha.
  destruct (page_free_ok m a q l Ha Hk Hm Hl) as (m' & a' & E & Ha' & Ho & Hd).
  assert (changes (in_page q) m m') as C by by split.
  exists m', a'. split_and!; [by apply on_pages_ok| |done]. eapply heap_update; [done|done| |done|].
  - intros x Hx. right. intros (g & Hg & Hgx). by eapply (heap_page_cell m a h G U l g q x).
  - intros p Hp [->|Hin]%elem_of_cons; [done|]. by destruct (heap_page _ _ _ _ _ _ _ Hh Hp).
Qed.

(** The heap grows by the released blocks. *)
Lemma private_deleted m a h G U U' l S x : heap_ok m a h G U l → (∀ p n, U !! p = Some n → p ∉ S → U' !! p = Some n) →
  private G U' x → private G U x ∨ in_blocks U S x.
Proof.
  intros Hh HU [Hx Hnb]. destruct (block_dec U x) as [(p & n & Hp & Hpx)|Hb]; [|by left].
  destruct (decide (p ∈ S)); [right; by exists p, n|]. exfalso. apply Hnb. exists p, n. split; [by apply HU|done].
Qed.

(** One turn of the loop: the frame of the first record goes back, and so does its record. *)
Lemma release_turn fuel m a h G U S l lst r ms : heap_ok m a h G U l → mappings m U S lst (r :: ms) →
  kpage (m_pa r) → mapped m (m_pa r) PGSIZE → m_pa r ∉ l → m_pa r ∉ G →
  ∃ m' a' h' p d S', free_mappings (Datatypes.S fuel) lst (m, a, h) = free_mappings fuel lst (m', a', h') ∧
    heap_ok m' a' h' G (delete d (delete p U)) (m_pa r :: l) ∧ mappings m' (delete d (delete p U)) S' lst ms ∧
    (S = {[p]} ∪ {[d]} ∪ S' ∧ p ∉ S' ∧ d ∉ S') ∧ changes (touch G U S (m_pa r :: l) ∅) m m'.
Proof.
  intros Hh Hms Hk Hm Hl HG.
  destruct (mappings_pop m a h G U S l lst r ms Hh Hms) as
    (d & m1 & h1 & U1 & S' & E1 & Hh1 & Hms1 & HdU & Hat & HSS & HdS & HdS' & Ev1 & p & -> & HS & HpS' & Hpd).
  assert (p ∈ S) as HpS by (rewrite HS; clear; set_solver).
  destruct (record_ld m1 a h1 d r Hat) as (L1 & _).
  destruct (release_page m1 a h1 G (delete p U) l (m_pa r) Hh1 Hk) as (m2 & a2 & E2 & Hh2 & C2);
    [eapply changes_mapped; [by eapply ev_mem|done]|done|done|].
  destruct (heap_free m2 a2 h1 G (delete p U) (m_pa r :: l) d 32 Hh2 HdU) as (m3 & h3 & E3 & Hh3 & C3); [auto with loos|].
  assert (∀ q x, q ∈ G → in_page q x → ¬ in_page (m_pa r) x) as Hout.
  { intros q x Hq Hx. by eapply (heap_page_cell m1 a h1 G (delete p U) l q (m_pa r) x). }
  exists m3, a2, h3, p, d, S'. split_and!; [|done| |done|done|done|].
  - cbn [free_mappings]. rewrite (bind_ok _ _ _ _ _ (mappings_empty _ _ _ _ _ _ _ _ _ Hh Hms)), bool_decide_false by done.
    by rewrite (bind_ok _ _ _ _ _ E1), (bind_ok _ _ _ _ _ L1), PA2VA_kpage, (bind_ok _ _ _ _ _ E2), (bind_ok _ _ _ _ _ E3).
  - eapply mappings_frame; [eapply mappings_frame; [exact Hms1|exact C2| |done]|exact C3| |].
    + intros x Hx (q & n & _ & HU & Hqx). destruct (block_arena _ _ _ _ _ _ x Hh1) as (g & Hg & Hgx);
        [by exists q, n|]. by eapply Hout.
    + intros x [_ Hnb] (q & n & _ & HU & Hqx). apply Hnb. by exists q, n.
    + intros q n Hq HU. rewrite lookup_delete_ne; [done|]. by intros <-.
  - eapply changes_trans; [|eapply changes_trans].
    + eapply changes_weaken; [|by eapply ev_mem].
      intros x [?|[?|[(q & Hq & ?)|(q & Hq & _)]]]; [by left|by right; left| |by destruct (empty_tables q)].
      right; right; left. exists q. split; [by right|done].
    + eapply changes_weaken; [|exact C2]. intros x Hx. right; right; left. exists (m_pa r). split; [by left|done].
    + eapply changes_weaken; [|exact C3]. intros x Hx. destruct (private_deleted m a h G U (delete p U) l S x Hh) as [?|?];
        [|done|by left|by right; left]. intros q n HU Hq. rewrite lookup_delete_ne; [done|]. by intros <-.
Qed.

Lemma touch_deleted m a h G U S S' l l' T T' p d x : heap_ok m a h G U l → S = {[p]} ∪ {[d]} ∪ S' → l ⊆ l' →
  (∀ q, table T' q → table T q) → touch G (delete d (delete p U)) S' l' T' x → touch G U S l' T x.
Proof.
  intros Hh HS Hl HT [Hx|[(q & n & Hq & HU & Hqx)|[Hx|Hx]]].
  - destruct (private_deleted m a h G U (delete d (delete p U)) l S x Hh) as [?|?]; [|done|by left|by right; left].
    intros q n HU Hq. rewrite !lookup_delete_ne; [done|intros <-; apply Hq; rewrite HS; clear; set_solver..].
  - apply lookup_delete_Some in HU as [_ [_ HU]%lookup_delete_Some]. right; left. exists q, n.
    split; [|done]. rewrite HS. clear -Hq. set_solver.
  - by right; right; left.
  - right; right; right. by apply HT.
Qed.

(** The frames of the records, and no two records with the same. *)
Definition frame_list m G l ms : Prop := NoDup (m_pa <$> ms) ∧
  ∀ r, r ∈ ms → kpage (m_pa r) ∧ mapped m (m_pa r) PGSIZE ∧ m_pa r ∉ l ∧ m_pa r ∉ G.

Lemma free_mappings_ok lst ms : ∀ fuel m a h G U S l, heap_ok m a h G U l → mappings m U S lst ms →
  frame_list m G l ms → (length ms < fuel)%nat →
  ∃ m' a' h' U', free_mappings fuel lst (m, a, h) = Ok (tt, (m', a', h')) ∧
    heap_ok m' a' h' G U' (rev (m_pa <$> ms) ++ l) ∧ mappings m' U' {[lst]} lst [] ∧
    (∀ p n, U' !! p = Some n ↔ U !! p = Some n ∧ (p ∈ S → p = lst)) ∧
    changes (touch G U S (rev (m_pa <$> ms) ++ l) ∅) m m'.
Proof.
  induction ms as [|r ms IH]; intros fuel m a h G U S l Hh Hms [Hnd Hfr] Hf; (destruct fuel as [|fuel]; [simpl in Hf; lia|]).
  - assert (S = {[lst]}) as ->.
    { destruct Hms as (es & S0 & Hm & -> & _ & Hr). destruct es as [|e es]; [|by inversion Hr].
      rewrite (mls_blocks _ _ _ _ _ Hm). simpl. clear. set_solver. }
    exists m, a, h, U. split_and!; [|done|done| |apply changes_refl].
    + cbn [free_mappings]. by rewrite (bind_ok _ _ _ _ _ (mappings_empty _ _ _ _ _ _ _ _ _ Hh Hms)), bool_decide_true.
    + intros p n. rewrite elem_of_singleton. tauto.
  - destruct (Hfr r) as (Hk & Hm & Hl & HG); [by left|]. apply NoDup_cons in Hnd as [Hr Hnd].
    destruct (release_turn fuel m a h G U S l lst r ms Hh Hms Hk Hm Hl HG) as
      (m1 & a1 & h1 & p & d & S' & E1 & Hh1 & Hms1 & (HS & Hp & Hd) & C1).
    destruct (IH fuel m1 a1 h1 G (delete d (delete p U)) S' (m_pa r :: l) Hh1 Hms1) as (m2 & a2 & h2 & U2 & E2 & Hh2 & Hms2 & HU2 & C2);
      [|simpl in Hf; lia|].
    { split; [done|]. intros r' Hr'. destruct (Hfr r') as (? & ? & ? & ?); [by right|].
      split_and!; [done|by eapply changes_mapped| |done]. intros [Heq|?]%elem_of_cons; [|done].
      apply Hr. rewrite <- Heq. by apply list_elem_of_fmap_2. }
    assert (rev (m_pa <$> r :: ms) ++ l = rev (m_pa <$> ms) ++ m_pa r :: l) as -> by (simpl; by rewrite <- app_assoc).
    exists m2, a2, h2, U2. split_and!; [by rewrite E1|done|done| |].
    + intros q n. rewrite HU2, !lookup_delete_Some. assert (lst ∈ S') as HlS.
      { destruct Hms1 as (es & S0 & Hm1 & -> & _ & _). rewrite (mls_blocks _ _ _ _ _ Hm1). clear. set_solver. }
      rewrite HS. split; [intros [(? & ? & ?) Hq]; split; [done|]; intros Hin; apply Hq; clear -Hin H0 H1; set_solver|].
      intros [? Hq]. assert (q ∈ S' → q = lst) as Hq' by (intros; apply Hq; clear -H1; set_solver).
      split; [|done]. split; [|split; [|done]]; intros <-; [apply Hd|apply Hp]; rewrite Hq; [done|clear; set_solver|done|clear; set_solver].
    + eapply changes_trans; (eapply changes_weaken; [|done]).
      * intros x [?|[?|[(q & Hq & ?)|?]]]; [by left|by right; left| |by right; right; right].
        right; right; left. exists q. split; [by apply elem_of_app; right|done].
      * intros x Hx. eapply touch_deleted; [exact Hh|exact HS| |done|exact Hx].
        intros q Hq. apply elem_of_app. right. by right.
Qed.
End records.

(** ** The whole address space *)
Section release.
Context {A : Type} `{PageAllocator A}.
Implicit Types (m : mem) (a : A) (h : mheap) (U : gmap Z Z) (S : gset Z) (G l : list Z).
Implicit Types (T : gmap (list Z) Z) (F : gmap Z Z) (ms : list mapping).

Lemma recorded_frames m a h G U S l root T F lst ms : process m a h G U S l root T F lst ms →
  frame_list m G l ms ∧ ∀ q, q ∈ m_pa <$> ms ↔ ∃ n, F !! n = Some q.
Proof.
  intros [Hh Hu Ha _ [R1 R2 R3]]. split; [split|].
  - apply NoDup_fmap_2_strong; [|by eapply NoDup_fmap_1]. intros r r' Hr Hr' Heq.
    destruct (R2 r Hr) as (_ & _ & n & Hn & HF), (R2 r' Hr') as (_ & _ & n' & Hn' & HF').
    assert (n = n') as -> by (eapply (um_inj _ _ _ (us_map _ _ _ _ Hu)); [exact HF|by rewrite Heq]).
    apply list_elem_of_lookup in Hr as [i Hi], Hr' as [j Hj].
    assert (i = j) as ->; [|congruence]. eapply (NoDup_lookup (m_va <$> ms)); [done|rewrite list_lookup_fmap, Hi; done|].
    rewrite list_lookup_fmap, Hj. simpl. congruence.
  - intros r Hr. destruct (R2 r Hr) as (_ & _ & n & _ & HF).
    destruct (owned_page m root T F (m_pa r) Hu) as [? ?]; [right; by exists n|].
    destruct (Ha (m_pa r)); [right; by exists n|]. done.
  - intros q. split.
    + intros (r & -> & Hr)%list_elem_of_fmap. destruct (R2 r Hr) as (_ & _ & n & _ & HF). by exists n.
    + intros [n Hn]. destruct (R3 n q Hn) as (r & Hr & Hva). destruct (R2 r Hr) as (_ & _ & n' & Hn' & HF).
      assert (n = n') as <- by (unfold PGSIZE in *; lia). apply list_elem_of_fmap. exists r. split; [congruence|done].
Qed.

(** Table pages are outside what the heap and the frames touch. *)
Lemma tables_untouched m a h G U S l l' root T F q x : heap_ok m a h G U l → uspace m root T F → tree_page T q →
  q ∉ G → q ∉ l' → (∀ p, p ∈ l' → kpage p) → in_page q x → ¬ touch G U S l' ∅ x.
Proof.
  intros Hh Hu Hq HG Hl Hk Hx. destruct (owned_page m root T F q Hu) as [Hqk _]; [by left|].
  assert (∀ g, g ∈ G → ¬ in_page g x) as HG'.
  { intros g Hg Hgx. by eapply (heap_page_cell m a h G U l g q x). }
  intros [[(g & Hg & Hgx) _]|[(p & n & _ & HU & Hpx)|[(p & Hp & Hpx)|(p & Hp & _)]]].
  - by eapply HG'.
  - destruct (block_arena _ _ _ _ _ _ x Hh) as (g & Hg & Hgx); [by exists p, n|]. by eapply HG'.
  - eapply (kpage_disjoint q p); [done|by apply Hk| |done|done]. by intros ->.
  - by destruct (empty_tables p).
Qed.

Lemma below_root T q : below T [] q ↔ tree_page T q.
Proof.
  split; [intros [k Hk]; exists k; by rewrite app_nil_r in Hk|intros [k Hk]; exists k; by rewrite app_nil_r].
Qed.

(** The heap beside freed tables. *)
Lemma free_tables_ok m a h G U l root T : heap_ok m a h G U l → pt m root T → (∀ q, tree_page T q → q ∉ l ∧ q ∉ G) →
  ∃ m' a' l', on_pages (free_pagetable root 2) (m, a, h) = Ok (tt, (m', a', h)) ∧ heap_ok m' a' h G U l' ∧
    (∀ q, q ∈ l' ↔ q ∈ l ∨ tree_page T q) ∧ changes (table T) m m'.
Proof.
  intros Hh Hpt Hq. pose proof (heap_avail _ _ _ _ _ _ Hh) as Ha.
  destruct (free_level_ok m root T Hpt 2 [] root m a l) as (m' & a' & l' & E & Ha' & Hl' & C); [done|apply Hpt|done| |].
  { constructor; [done|done|]. intros q Hb%below_root. by destruct (Hq q Hb). }
  setoid_rewrite below_root in Hl'.
  assert (changes (table T) m m') as C' by (eapply changes_weaken; [|done]; intros x (q & Hb%below_root & ?); by exists q).
  exists m', a', l'. split_and!; [by apply on_pages_ok| |done|done].
  eapply heap_update; [done|exact C'| |done|].
  - intros x (q & Hb & Hx). right. intros (g & Hg & Hgx). destruct (Hq q Hb), Hb as [k Hk].
    destruct (pt_page _ _ _ Hpt _ _ Hk) as [Hqk _]. by eapply (heap_page_cell m a h G U l g q x).
  - intros p Hp [?|Hb]%Hl'; [by destruct (heap_page _ _ _ _ _ _ _ Hh Hp)|by destruct (Hq p Hb)].
Qed.

(** The call as a whole. *)
Lemma pgtbl_free_ok m a h G U S l root T F lst ms : process m a h G U S l root T F lst ms →
  ∃ m' a' h' U' l', pgtbl_free root lst (m, a, h) = Ok (tt, (m', a', h')) ∧
    heap_ok m' a' h' G U' l' ∧ mappings m' U' {[lst]} lst [] ∧
    (∀ p, p ∈ l' ↔ p ∈ l ∨ owns T F p) ∧
    (∀ p n, U' !! p = Some n ↔ U !! p = Some n ∧ (p ∈ S → p = lst)) ∧
    changes (touch G U S l' ∅) m m'.
Proof.
  intros Hpr. pose proof Hpr as [Hh Hu Ha Hms _]. destruct (recorded_frames m a h G U S l root T F lst ms Hpr) as [Hfr HF].
  destruct (free_mappings_ok lst ms (fuel_of m) m a h G U S l Hh Hms Hfr) as
    (m1 & a1 & h1 & U1 & E1 & Hh1 & Hms1 & HU1 & C1); [by eapply mappings_length|].
  set (l1 := rev (m_pa <$> ms) ++ l) in *.
  assert (∀ q, q ∈ l1 ↔ q ∈ l ∨ ∃ n, F !! n = Some q) as Hl1.
  { intros q. unfold l1. rewrite elem_of_app, <- HF, <- (Permutation_rev (m_pa <$> ms)). tauto. }
  destruct (avail_pages _ _ _ (heap_avail _ _ _ _ _ _ Hh1)) as [_ Hk1].
  assert (∀ q, tree_page T q → q ∉ l1 ∧ q ∉ G) as Hq.
  { intros q Hq. destruct (Ha q) as [HG Hl]; [by left|]. split; [|done]. intros [?|[n Hn]]%Hl1; [done|].
    destruct (um_range _ _ _ (us_map _ _ _ _ Hu) _ _ Hn) as (_ & _ & _ & Hnt). done. }
  assert (pt m1 root T) as Hpt1.
  { eapply pt_frame; [apply Hu|apply C1|]. intros q x Hqt Hx. apply C1. destruct (Hq q Hqt).
    eapply (tables_untouched m a h G U S l l1 root T F q x); try done. intros p Hp. by apply Hk1. }
  destruct (free_tables_ok m1 a1 h1 G U1 l1 root T Hh1 Hpt1 Hq) as (m2 & a2 & l2 & E2 & Hh2 & Hl2 & C2).
  exists m2, a2, h1, U1, l2. split_and!; [|done| | |done|].
  - unfold pgtbl_free. rewrite (bind_ok _ _ _ (fuel_of m) (m, a, h)) by done. by rewrite (bind_ok _ _ _ _ _ E1).
  - eapply mappings_frame; [done|done| |done]. intros x (q & Hqt & Hx) (p & n & _ & HU & Hpx).
    destruct (block_arena _ _ _ _ _ _ x Hh1) as (g & Hg & Hgx); [by exists p, n|].
    destruct (Hq q Hqt), Hqt as [k Hk]. destruct (pt_page _ _ _ Hpt1 _ _ Hk) as [Hqk _].
    by eapply (heap_page_cell m1 a1 h1 G U1 l1 g q x).
  - intros p. rewrite Hl2, Hl1. unfold owns. tauto.
  - eapply changes_trans; (eapply changes_weaken; [|done]).
    + intros x [?|[?|[(q & Hq' & ?)|?]]]; [by left|by right; left| |by right; right; right].
      right; right; left. exists q. split; [|done]. apply Hl2. by left.
    + intros x (q & Hqt & Hx). right; right; left. exists q. split; [|done]. apply Hl2. by right.
Qed.
End release.

(** ** Properties *)
Section properties.
Context {A : Type} `{PageAllocator A}.

(** C10: [pgtbl_free].  For a process in order the call returns.  The free pages afterwards are the
    old ones and exactly the tables and frames the process owned, so nothing leaks and nothing
    is freed twice; the list is empty and its records and elements are no longer in use, while
    every other block of the heap is; only the private part of the heap, the freed blocks and
    the free pages are written. *)
Theorem pgtbl_free_correct (m : mem) (a : A) h G U S l root T F lst ms : process m a h G U S l root T F lst ms →
  ∃ m' a' h' U' l', pgtbl_free root lst (m, a, h) = Ok (tt, (m', a', h')) ∧
    heap_ok m' a' h' G U' l' ∧ mappings m' U' {[lst]} lst [] ∧
    (∀ p, p ∈ l' ↔ p ∈ l ∨ owns T F p) ∧
    (∀ p n, U' !! p = Some n ↔ U !! p = Some n ∧ (p ∈ S → p = lst)) ∧
    changes (touch G U S l' ∅) m m'.
Proof. apply pgtbl_free_ok. Qed.
End properties.

Lemma pgtbl_free_correct_witness : ∃ root lst (m : mem) (a : Z) h m' a' h' T F (l l' : list Z),
  pgtbl_free root lst (m, a, h) = Ok (tt, (m', a', h')) ∧ is_Some (F !! 16) ∧ (∀ p, p ∈ l' ↔ p ∈ l ∨ owns T F p).
Proof.
  destruct sample_fork as (m & a & h & G & U & S & l & root & T & F & lst & r & _ & _ & _ & _ &
    Hpr & _ & _ & _ & _ & _ & _ & HF & _).
  destruct (pgtbl_free_correct m a h G U S l root T F lst [r] Hpr) as
    (m' & a' & h' & _ & l' & E & _ & _ & Hl & _).
  exists root, lst, m, a, h, m', a', h', T, F, l, l'. split_and!; [exact E|by eexists|exact Hl].
Defined.
