(* ===== verification/Ext2Dir.v ===== *)
(** * fs/ext2.c: directories and paths

    Directory blocks are related to the entries they encode ([encode]), paths
    to the list of their components ([components]); the theorems give
    [find_dir_entry] and [ext2_path_lookup] on these views, and the directory
    block on which the search never ends. *)

From S2P Require Import Prelude Mem PageAlloc Ext2.

(** ** Directory entries *)
Record dirent := { de_inode : Z; de_type : Z; de_name : list Z; de_pad : list Z }.

Definition rec_len (e : dirent) : Z := 8 + Z.of_nat (length (de_name e)) + Z.of_nat (length (de_pad e)).

Definition encode (e : dirent) : list Z :=
  le_split 4 (de_inode e) ++ le_split 2 (rec_len e) ++
  [Z.of_nat (length (de_name e)); de_type e] ++ de_name e ++ de_pad e.

Definition dirent_ok (e : dirent) : Prop :=
  0 ≤ de_inode e < 2 ^ 32 ∧ rec_len e < 2 ^ 16 ∧ (length (de_name e) ≤ 255)%nat.

Definition dir_block (es : list dirent) : list Z := concat (encode <$> es).

(** What a search for [name] should find: the first live entry with that name. *)
Fixpoint lookup_name (name : list Z) (es : list dirent) : option Z :=
  match es with
  | [] => None
  | e :: es =>
      if decide (de_inode e ≠ 0 ∧ de_name e ≠ [] ∧ c_str (de_name e) = name) then Some (de_inode e)
      else lookup_name name es
  end.

Section directory.
Lemma length_encode e : Z.of_nat (length (encode e)) = rec_len e.
Proof. unfold encode, rec_len. rewrite !length_app, !length_le_split. simpl. lia. Qed.

Lemma array_app n off (l k : list Z) : array n (length l + off) (l ++ k) = array n off k.
Proof. unfold array. by rewrite <- drop_drop, drop_app_length. Qed.

Lemma rd_bytes_at n off (l k r : list Z) : off = Z.of_nat (length l) → n = length k →
  rd_bytes n off (l ++ k ++ r) = Ok k.
Proof.
  intros -> ->. unfold rd_bytes. rewrite !length_app.
  destruct (Z.leb_spec 0 (Z.of_nat (length l))); [|lia].
  destruct (Z.leb_spec (Z.of_nat (length l) + Z.of_nat (length k))
    (Z.of_nat (length l + (length k + length r)))); [|lia].
  simpl. rewrite Nat2Z.id. replace (length l) with (length l + 0)%nat by lia.
  rewrite array_app. unfold array. by rewrite drop_0, take_app_length.
Qed.

Lemma rd_at n off (l k r : list Z) : off = Z.of_nat (length l) → n = length k →
  rd n off (l ++ k ++ r) = Ok (le_combine k).
Proof.
  intros Ho Hn. pose proof (rd_bytes_at n off l k r Ho Hn) as E. unfold rd, rd_bytes in *.
  destruct (_ && _); [|done]. apply ok_inj in E. unfold field, array in *. by rewrite E.
Qed.

(** The fields of an entry [e] in a block. *)
Lemma entry_fields pre e post : dirent_ok e → let buf := pre ++ encode e ++ post in
  let de := Z.of_nat (length pre) in
  rd 4 de buf = Ok (de_inode e) ∧ rd 2 (de + 4) buf = Ok (rec_len e) ∧
  rd 1 (de + 6) buf = Ok (Z.of_nat (length (de_name e))) ∧
  rd_bytes (length (de_name e)) (de + 8) buf = Ok (de_name e).
Proof.
  intros (Hi & Hr & Hn) buf de.
  assert (0 ≤ rec_len e) as Hr0 by (unfold rec_len; lia).
  unfold buf, encode. rewrite <- !app_assoc. split_and!.
  - rewrite rd_at by (rewrite ?length_le_split; done). rewrite le_combine_split, Z.mod_small; done.
  - rewrite app_assoc, rd_at by (rewrite ?length_app, ?length_le_split; lia).
    rewrite le_combine_split, Z.mod_small; done.
  - rewrite app_assoc, (app_assoc _ (le_split 2 _)).
    change ([Z.of_nat (length (de_name e)); de_type e] ++ de_name e ++ de_pad e ++ post) with
      ([Z.of_nat (length (de_name e))] ++ [de_type e] ++ de_name e ++ de_pad e ++ post).
    rewrite rd_at by (rewrite ?length_app, ?length_le_split; simpl; lia).
    f_equal. simpl. lia.
  - rewrite app_assoc, (app_assoc _ (le_split 2 _)), (app_assoc _ [_; _]).
    apply rd_bytes_at; [|done]. rewrite !length_app, !length_le_split. simpl. lia.
Qed.

Lemma rec_len_pos e : 8 ≤ rec_len e.
Proof. unfold rec_len. lia. Qed.

Lemma length_dir_block es : 8 * Z.of_nat (length es) ≤ Z.of_nat (length (dir_block es)).
Proof.
  induction es as [|e es IH]; [done|]. unfold dir_block in *.
  cbn [fmap list_fmap concat length].
  rewrite length_app, Nat2Z.inj_add, length_encode. pose proof (rec_len_pos e). lia.
Qed.

Lemma find_in_block_ok name fuel : ∀ es pre, Forall dirent_ok es →
  Z.of_nat (length (dir_block es)) < Z.of_nat fuel →
  find_in_block fuel (Z.of_nat (length (pre ++ dir_block es))) (Z.of_nat (length pre))
    (pre ++ dir_block es) name = Ok (lookup_name name es).
Proof.
  induction fuel as [|fuel IH]; intros es pre Hok Hf; [lia|].
  destruct es as [|e es]; cbn [find_in_block].
  { rewrite app_nil_r. by destruct (Z.ltb_spec (Z.of_nat (length pre)) (Z.of_nat (length pre))); [lia|]. }
  apply Forall_cons in Hok as [He Hok]. change (dir_block (e :: es)) with (encode e ++ dir_block es) in *.
  rewrite !length_app, !Nat2Z.inj_add, length_encode. rewrite length_app, Nat2Z.inj_add, length_encode in Hf.
  pose proof (rec_len_pos e). destruct (Z.ltb_spec (Z.of_nat (length pre))
    (Z.of_nat (length pre) + (rec_len e + Z.of_nat (length (dir_block es))))); [|lia].
  destruct (entry_fields pre e (dir_block es) He) as (Ei & Er & En & Ena).
  assert (find_in_block fuel (Z.of_nat (length pre) + (rec_len e + Z.of_nat (length (dir_block es))))
    (Z.of_nat (length pre) + rec_len e) (pre ++ encode e ++ dir_block es) name =
    Ok (lookup_name name es)) as E.
  { specialize (IH es (pre ++ encode e) Hok ltac:(lia)).
    rewrite !length_app, !Nat2Z.inj_add, length_encode, <- app_assoc, <- Z.add_assoc in IH. exact IH. }
  rewrite Ei. cbn [mbind res_bind lookup_name].
  destruct (Z.eqb_spec (de_inode e) 0) as [Hz|Hz].
  { cbn [mbind res_bind]. rewrite Er. cbn [mbind res_bind].
    rewrite E. rewrite decide_False; [done|]. by intros [? _]. }
  rewrite En. cbn [mbind res_bind]. destruct (Z.eqb_spec (Z.of_nat (length (de_name e))) 0) as [Hl|Hl].
  { rewrite Er. cbn [mbind res_bind]. rewrite E. rewrite decide_False; [done|].
    intros (_ & Hn & _). apply Hn, length_zero_iff_nil. lia. }
  rewrite Nat2Z.id, Ena. cbn [mbind res_bind].
  destruct (decide (c_str (de_name e) = name)) as [Hc|Hc].
  - rewrite decide_True; [done|]. split_and!; [done| |done]. intros Hn. rewrite Hn in Hl. done.
  - rewrite Er. cbn [mbind res_bind]. rewrite E. rewrite decide_False; [done|]. by intros (_ & _ & ?).
Qed.

Lemma lookup_name_app name es1 es2 :
  lookup_name name (es1 ++ es2) =
    match lookup_name name es1 with Some i => Some i | None => lookup_name name es2 end.
Proof. induction es1 as [|e es1 IH]; [done|]. simpl. case_decide; [done|]. apply IH. Qed.

(** C18: [find_dir_entry].  When every direct block of a directory encodes a list of entries,
    the search returns the inode number of the first entry in use with that name, in the order
    of the blocks, and [-1] when there is none; deleted entries (inode 0) are skipped. *)
Theorem find_dir_entry_correct (sector : Z → list Z) fs dir name (ess : list (list dirent)) :
  block_size fs = 1024 → (length ess ≤ 12)%nat → length (i_block dir) = 15%nat →
  (∀ i es, ess !! i = Some es → ∃ b, i_block dir !! i = Some b ∧ b ≠ 0 ∧
     read_block sector b = dir_block es ∧ length (dir_block es) = 1024%nat ∧ Forall dirent_ok es) →
  (length ess = 12%nat ∨ i_block dir !! length ess = Some 0) →
  find_dir_entry sector fs dir name = Ok (lookup_name name (concat ess)).
Proof.
  intros Hbs Hlen Hib Hbl Hend. unfold find_dir_entry. rewrite Hbs. revert Hlen Hib Hbl Hend.
  assert (∀ (ess : list (list dirent)) bs,
    (∀ i es, ess !! i = Some es → ∃ b, bs !! i = Some b ∧ b ≠ 0 ∧ read_block sector b = dir_block es ∧
       length (dir_block es) = 1024%nat ∧ Forall dirent_ok es) →
    (length ess = length bs ∨ bs !! length ess = Some 0) →
    find_in_blocks sector bs 1024 name = Ok (lookup_name name (concat ess))) as Hgen.
  { clear. induction ess as [|es ess IH]; intros bs Hbl Hend.
    - destruct bs as [|b bs]; [done|]. destruct Hend as [|Hend]; [done|]. by injection Hend as ->.
    - destruct (Hbl 0%nat es eq_refl) as (b & Hb & Hnz & Hr & Hl & Hok).
      destruct bs as [|b' bs]; [done|]. injection Hb as ->. cbn [find_in_blocks].
      destruct (Z.eqb_spec b 0); [done|]. rewrite Hr.
      pose proof (find_in_block_ok name (S (Z.to_nat 1024)) es [] Hok) as E.
      rewrite app_nil_l, Hl in E. change (Z.of_nat 1024) with 1024 in E.
      change (Z.of_nat (length [])) with 0 in E. rewrite E by lia.
      cbn [mbind res_bind concat]. rewrite lookup_name_app.
      destruct (lookup_name name es); [done|]. apply IH.
      + intros i es' Hi. apply (Hbl (S i) es' Hi).
      + destruct Hend as [Hend|Hend]; [left; simpl in Hend; lia|by right]. }
  intros Hlen Hib Hbl Hend. apply Hgen.
  - intros i es Hi. destruct (Hbl i es Hi) as (b & Hb & ?). exists b. split; [|done].
    rewrite lookup_take_lt; [done|]. apply lookup_lt_Some in Hi. lia.
  - destruct Hend as [->|Hend]; [left; rewrite length_take; lia|].
    destruct (decide (length ess = 12%nat)) as [->|]; [left; rewrite length_take; lia|].
    right. by rewrite lookup_take_lt by lia.
Qed.

(** A directory block with a zero [rec_len].  When the search reaches an entry that does not
    match and whose [rec_len] is 0, it stays there: no budget is enough, the kernel hangs.
    ([ext2_read_dir] stops at such an entry.) *)
Theorem find_dir_entry_hangs fuel limit de buf name : 0 ≤ de < limit →
  rd 4 de buf = Ok 0 → rd 2 (de + 4) buf = Ok 0 →
  find_in_block fuel limit de buf name = Err Fuel.
Proof.
  intros Hde Hi Hr. induction fuel as [|fuel IH]; cbn [find_in_block];
    (destruct (Z.ltb_spec de limit); [|lia]); [done|].
  rewrite Hi. cbn [mbind res_bind]. change (0 =? 0) with true. cbn [mbind res_bind].
  rewrite Hr. cbn [mbind res_bind]. by rewrite Z.add_0_r.
Qed.
End directory.

Definition sample_dir_entries : list dirent :=
  [ {| de_inode := 2; de_type := 2; de_name := [46]; de_pad := replicate 3 0 |};
    {| de_inode := 11; de_type := 1; de_name := [105; 110; 105; 116]; de_pad := replicate 1000 0 |} ].
Definition sample_dir_disk (s : Z) : list Z :=
  if s =? 6 then take 512 (dir_block sample_dir_entries)
  else if s =? 7 then drop 512 (dir_block sample_dir_entries) else replicate 512 0.
Definition sample_dir : ext2_inode := inode_of (le_split 2 EXT2_S_IFDIR ++ replicate 38 0 ++ le_split 4 3 ++ replicate 84 0).

Lemma find_dir_entry_correct_witness :
  find_dir_entry sample_dir_disk sample_fs sample_dir [105; 110; 105; 116] = Ok (Some 11).
Proof.
  apply (find_dir_entry_correct sample_dir_disk sample_fs sample_dir [105; 110; 105; 116] [sample_dir_entries]).
  - done.
  - simpl. lia.
  - by vm_compute.
  - intros [|i] es Hi; [|done]. injection Hi as <-. exists 3. split_and!; [by vm_compute|done|by vm_compute..|].
    repeat constructor; by vm_compute.
  - right. by vm_compute.
Defined.

Lemma find_dir_entry_hangs_witness :
  find_in_block 100 1024 0 (replicate 1024 0) [105] = Err Fuel.
Proof. apply find_dir_entry_hangs; by vm_compute. Defined.

(** ** Paths *)
Fixpoint split_slash (p : list Z) : list (list Z) :=
  match p with
  | [] => [[]]
  | c :: p =>
      if is_slash c then [] :: split_slash p
      else match split_slash p with w :: ws => (c :: w) :: ws | [] => [[c]] end
  end.

Definition components (p : list Z) : list (list Z) := filter (λ w, w ≠ []) (split_slash p).

Section paths.
Context (sector : Z → list Z) (fs : ext2_fs).

(** The lookup of a list of components from an inode. *)
Fixpoint walk_names (cur : ext2_inode) (names : list (list Z)) : res (Z * option ext2_inode) :=
  match names with
  | [] => Ok (0, Some cur)
  | name :: names =>
      if Z.land (i_mode cur) EXT2_S_IFDIR =? 0 then Ok (- ENOTDIR, None)
      else
        r ← find_dir_entry sector fs cur name;
        match r with
        | None => Ok (-1, None)
        | Some ino =>
            r ← ext2_get_inode sector fs ino;
            match r with
            | (0, Some inode) => walk_names inode names
            | (ret, _) => Ok (ret, None)
            end
        end
  end.

Lemma split_slash_cons p : ∃ w ws, split_slash p = w :: ws.
Proof. destruct p as [|c p]; simpl; [eauto|]. destruct (is_slash c); [eauto|]. destruct (split_slash p); eauto. Qed.

Lemma components_skip p : components (skip_slashes p) = components p.
Proof.
  induction p as [|c p IH]; [done|]. simpl. destruct (is_slash c) eqn:E; [|done].
  rewrite IH. unfold components. simpl. rewrite E. by rewrite filter_cons_False by (intros Hn; by apply Hn).
Qed.

(** Taking a name off a path takes its first word off. *)
Lemma take_name_split n p w ws : split_slash p = w :: ws → (length w ≤ n)%nat →
  ∃ rest, take_name n p = (w, rest) ∧ (length rest + length w = length p)%nat ∧
    (ws = [] ∧ rest = [] ∨ ∃ p', rest = 47 :: p' ∧ split_slash p' = ws).
Proof.
  revert n w ws. induction p as [|c p IH]; intros n w ws Hs Hn; simpl in Hs.
  - injection Hs as <- <-. destruct n; exists []; simpl; auto.
  - destruct (is_slash c) eqn:E.
    + injection Hs as <- <-. unfold is_slash in E. assert (c = 47) as -> by lia.
      exists (47 :: p). destruct n; simpl; split_and!; eauto.
    + destruct (split_slash_cons p) as (w' & ws' & Hp). rewrite Hp in Hs. injection Hs as <- <-.
      destruct n as [|n]; [simpl in Hn; lia|]. simpl in Hn. simpl. rewrite E.
      destruct (IH n w' ws' Hp ltac:(lia)) as (rest & -> & Hl & Hr). exists rest. split_and!; [done| |done].
      simpl. lia.
Qed.

Lemma skip_slashes_spec p : (length (skip_slashes p) ≤ length p)%nat ∧
  match skip_slashes p with c :: _ => is_slash c = false | [] => True end.
Proof. induction p as [|c p IH]; simpl; [done|]. destruct (is_slash c) eqn:E; simpl; [split; [lia|apply IH]|done]. Qed.

Lemma lookup_loop_ok fuel : ∀ p cur, (length p ≤ fuel)%nat →
  Forall (λ w, (length w ≤ EXT2_NAME_LEN)%nat) (components p) →
  lookup_loop sector fuel fs p cur = walk_names cur (components p).
Proof.
  induction fuel as [|fuel IH]; intros p cur Hf Hok.
  { destruct p; [done|simpl in Hf; lia]. }
  destruct p as [|c0 p0]; [done|]. set (p := c0 :: p0) in *. cbn [lookup_loop].
  change (match p with [] => _ | _ :: _ => ?x end) with x. unfold parse_path_component.
  destruct (skip_slashes_spec p) as [Hlen Hns]. rewrite <- (components_skip p) in *.
  set (q := skip_slashes p) in *. destruct q as [|c q'] eqn:Eq.
  { cbn [take_name]. destruct fuel; done. }
  destruct (split_slash_cons (c :: q')) as (w & ws & Hw).
  assert (w ≠ []) as Hwne.
  { simpl in Hw. rewrite Hns in Hw. destruct (split_slash q'); by injection Hw as <- _. }
  assert (components (c :: q') = w :: filter (λ w, w ≠ []) ws) as Hcomp.
  { unfold components. rewrite Hw. by rewrite filter_cons_True. }
  rewrite Hcomp in Hok |- *. apply Forall_cons in Hok as [Hwl Hok].
  destruct (take_name_split EXT2_NAME_LEN (c :: q') w ws Hw Hwl) as (rest & Et & Hl & Hr).
  rewrite Et, decide_False by done. cbn [walk_names].
  destruct (Z.land (i_mode cur) EXT2_S_IFDIR =? 0); [done|].
  destruct (find_dir_entry sector fs cur w) as [[ino|]|]; [|done..]. cbn [mbind res_bind].
  destruct (ext2_get_inode sector fs ino) as [[[] [inode|]]|]; try done. cbn [mbind res_bind].
  assert (length w ≠ 0)%nat by (by destruct w).
  assert (components rest = filter (λ w, w ≠ []) ws) as <-.
  { destruct Hr as [[-> ->]|(p' & -> & <-)]; [done|]. unfold components. simpl.
    by rewrite filter_cons_False by (intros Hn; by apply Hn). }
  apply IH; [lia|]. destruct Hr as [[-> ->]|(p' & -> & <-)]; [by constructor|].
  unfold components. simpl. by rewrite filter_cons_False by (intros Hn; by apply Hn).
Qed.

(** C17: [ext2_path_lookup] resolves a path one component at a time: repeated and trailing
    slashes do not matter, a component of something that is not a directory gives [-ENOTDIR], a
    missing entry [-1], an invalid inode the code of [ext2_get_inode], and the parsing loop ends.
    (Components are at most 255 characters long.) *)
Theorem ext2_path_lookup_correct path :
  Forall (λ w, (length w ≤ EXT2_NAME_LEN)%nat) (components path) →
  ext2_path_lookup sector fs path =
    (r ← ext2_get_inode sector fs EXT2_ROOT_INO;
     match r with (0, Some root) => walk_names root (components path) | (ret, _) => Ok (ret, None) end).
Proof.
  intros Hok. unfold ext2_path_lookup. apply res_bind_ext. intros [ret [root|]]; [|done].
  destruct ret; [|done..]. by apply lookup_loop_ok.
Qed.
End paths.

Lemma ext2_path_lookup_correct_witness :
  ext2_path_lookup sample_dir_disk sample_fs [47; 47; 97; 47; 98] = Ok (-1, None) ∧
  components [47; 47; 97; 47; 98] = [[97]; [98]].
Proof.
  split; [|done]. rewrite (ext2_path_lookup_correct sample_dir_disk sample_fs [47; 47; 97; 47; 98]).
  - by vm_compute.
  - by_decide.
Defined.
