(* ===== verification/Ahci.v ===== *)
(** * driver/ahci.c, driver/disk.c: the SATA driver

    The driver programs the disk controller (the HBA) through memory-mapped
    registers and a command table in memory.  The controller is hardware: its
    registers are the operations of the class [Hba], where any access may make
    the device progress and change memory, and what the driver relies on is the
    record [healthy], which states the behaviour the AHCI specification
    documents: commands are fetched from the command list, the data of a DMA
    read goes to the regions of the PRD table, the bit of the slot in PxCI stays
    set until then.  Memory is the kernel's: the cell of a physical address is
    the one at its address in the cached window, and the uncached window the
    driver uses reaches the same cell ([cell]).

    [read_block_correct] closes the gap to the model of fs/ext2.c, where the
    disk is a function from sectors to bytes. *)

From S2P Require Import Prelude Mem CString Bitmap PageAlloc Ext2.

(** ** driver/include/ahci.h *)
Definition HBA_PORT_IPM_ACTIVE := 1.
Definition HBA_PORT_DET_PRESENT := 3.
Definition HBA_PxIS_TFES := Z.shiftl 1 30.
Definition ATA_DEV_BUSY := 0x80.
Definition ATA_DEV_DRQ := 0x08.
Definition ATA_CMD_READ_DMA_EXT := 0x25.
Definition ATA_CMD_WRITE_DMA_EXT := 0x35.
Definition FIS_TYPE_REG_H2D := 0x27.

(** [struct HBA_PORT]: the addresses of its registers. *)
Definition clb (port : Z) : Z := port + 0x00.
Definition is_ (port : Z) : Z := port + 0x10.
Definition tfd (port : Z) : Z := port + 0x20.
Definition ssts (port : Z) : Z := port + 0x28.
Definition sact (port : Z) : Z := port + 0x34.
Definition ci (port : Z) : Z := port + 0x38.

Definition sizeof_hba_port := 0x80.

(** [struct HBA_MEM] *)
Definition cap (abar : Z) : Z := abar + 0x00.
Definition pi (abar : Z) : Z := abar + 0x0C.
Definition ports (abar i : Z) : Z := abar + 0x100 + sizeof_hba_port * i.

(** [struct HBA_CMD_HEADER], 32 bytes; [cfl], [a], [w] and [p] share the first. *)
Definition sizeof_cmd_header := 32.
Definition hdr_flags (cmdheader : Z) : Z := cmdheader.
Definition hdr_prdtl (cmdheader : Z) : Z := cmdheader + 2.
Definition hdr_ctba (cmdheader : Z) : Z := cmdheader + 8.

(** [struct HBA_CMD_TBL] with one [HBA_PRDT_ENTRY]; [dbc] and [i] share the last word of an
    entry. *)
Definition sizeof_cmd_tbl := 144.
Definition sizeof_prdt_entry := 16.
Definition prdt_entry (cmdtbl i : Z) : Z := cmdtbl + 0x80 + sizeof_prdt_entry * i.
Definition dba (prd : Z) : Z := prd.
Definition dbau (prd : Z) : Z := prd + 4.
Definition dbc (prd : Z) : Z := prd + 12.

(** [struct FIS_REG_H2D]: [c] is the top bit of the second byte. *)
Definition sizeof_fis_h2d := 20.
Definition fis_type (f : Z) : Z := f.
Definition fis_c (f : Z) : Z := f + 1.
Definition fis_command (f : Z) : Z := f + 2.
Definition lba0 (f : Z) : Z := f + 4.
Definition lba1 (f : Z) : Z := f + 5.
Definition lba2 (f : Z) : Z := f + 6.
Definition device (f : Z) : Z := f + 7.
Definition lba3 (f : Z) : Z := f + 8.
Definition lba4 (f : Z) : Z := f + 9.
Definition lba5 (f : Z) : Z := f + 10.
Definition countl (f : Z) : Z := f + 12.
Definition counth (f : Z) : Z := f + 13.

(** ** include/memlayout.h *)
Definition UNCACHED_MEMORY_ADDR := 0x8000000000000000.
Definition PHYS_TO_UNCACHED (addr : Z) : Z := Z.lor UNCACHED_MEMORY_ADDR addr.
Definition PHYS_TO_MAIN (addr : Z) : Z := Z.lor MAIN_KERNEL_DMW addr.
Definition SATA_ADDR := PHYS_TO_UNCACHED 0x400e0000.

(** The memory cell an address of a direct-mapped window reaches, named by its address in the
    cached window. *)
Definition cell (a : Z) : Z := PHYS_TO_MAIN (a mod 2 ^ VALEN).

(** ** The controller *)
Class Hba (D : Type) := {
  hba_read : Z → mem * D → Z * (mem * D);
  hba_write : Z → Z → mem * D → mem * D
}.

Section program.
Context {D : Type} `{Hba D}.

Definition load_reg (r : Z) : M (mem * D) Z := λ s,
  let '(v, s') := hba_read r s in Ok (u32 v, s').
Definition store_reg (r v : Z) : M (mem * D) unit := λ s, Ok (tt, hba_write r (u32 v) s).

(** A bit field of a byte or word in memory. *)
Definition store_bits (n : nat) (a mask v : Z) : M mem unit :=
  x ← load n a; store n a (Z.lor (Z.land x (Z.lnot mask)) (Z.land v mask)).

(** The loop leaves [pi] as it is, so that bit 0 decides for all 32 ports.  [Log] expands to
    nothing. *)
Fixpoint probe_loop (n : nat) (abar pi i port_num port_no : Z) : M (mem * D) Z :=
  match n with
  | O => mret port_no
  | S n =>
      if Z.land pi 1 =? 0 then probe_loop n abar pi (i + 1) port_num port_no
      else
        let port := ports abar i in
        v ← load_reg (ssts port);
        let ipm := Z.land (u8 (Z.shiftr v 8)) 0x0F in
        let det := Z.land v 0x0F in
        if negb (det =? HBA_PORT_DET_PRESENT) || negb (ipm =? HBA_PORT_IPM_ACTIVE)
        then probe_loop n abar pi (i + 1) port_num port_no
        else
          let port_num := port_num + 1 in
          probe_loop n abar pi (i + 1) port_num (if port_num =? 2 then i else port_no)
  end.

Definition ahic_probe_port (abar : Z) : M (mem * D) Z :=
  v ← load_reg (pi abar); probe_loop 32 abar v 0 0 (-1).

Fixpoint first_slot (n : nat) (i slots : Z) : Z :=
  match n with
  | O => -1
  | S n => if Z.land slots 1 =? 0 then i else first_slot n (i + 1) (Z.shiftr slots 1)
  end.

Definition find_cmdslot (abar port : Z) : M (mem * D) Z :=
  a ← load_reg (sact port); c ← load_reg (ci port);
  v ← load_reg (cap abar);
  mret (first_slot (Z.to_nat (get_bits_range v 8 4)) 0 (Z.lor a c)).

(** The entries before the last one; the buffer and count they leave for it. *)
Fixpoint prdt_loop (n : nat) (cmdtbl i buf count : Z) : M mem (Z * Z * Z) :=
  match n with
  | O => mret (i, buf, count)
  | S n =>
      let prd := prdt_entry cmdtbl i in
      store32 (dba prd) (u32 buf);;
      store32 (dbau prd) (Z.shiftr buf 32);;
      store_bits 4 (dbc prd) 0x3FFFFF (8 * 1024 - 1);;
      store_bits 4 (dbc prd) (Z.shiftl 1 31) (Z.shiftl 1 31);;
      prdt_loop n cmdtbl (i + 1) (u64 (buf + 0x1000)) (u32 (count - 16))
  end.

(** The header of the slot and the command table: the body of [do_ahci_read] and
    [do_ahci_write] between [find_cmdslot] and the wait for the port. *)
Definition setup_header (cmdheader count : Z) : M mem Z :=
  store_bits 1 (hdr_flags cmdheader) 0x1F (sizeof_fis_h2d / 4);;
  store_bits 1 (hdr_flags cmdheader) 0x40 0;;
  store 2 (hdr_prdtl cmdheader) (u16 (Z.shiftr (u32 (count - 1)) 4) + 1);;
  v ← load32 (hdr_ctba cmdheader);
  mret (cell (PHYS_TO_UNCACHED v)).

Definition setup_prdt (cmdheader cmdtbl count buf : Z) : M mem Z :=
  prdtl ← load16 (hdr_prdtl cmdheader);
  memset cmdtbl 0 (u64 (sizeof_cmd_tbl + (prdtl - 1) * sizeof_prdt_entry));;
  '(i, buf, count) ← prdt_loop (Z.to_nat (prdtl - 1)) cmdtbl 0 buf count;
  let prd := prdt_entry cmdtbl i in
  store32 (dba prd) (u32 buf);;
  store_bits 4 (dbc prd) 0x3FFFFF (u32 (u32 (Z.shiftl count 9) - 1));;
  store_bits 4 (dbc prd) (Z.shiftl 1 31) (Z.shiftl 1 31);;
  mret count.

Definition setup_fis (cmdfis command start count : Z) : M mem unit :=
  store8 (fis_type cmdfis) FIS_TYPE_REG_H2D;;
  store_bits 1 (fis_c cmdfis) 0x80 0x80;;
  store8 (fis_command cmdfis) command;;
  let startl := u32 start in
  let starth := u32 (Z.shiftr start 32) in
  store8 (lba0 cmdfis) (u8 startl);;
  store8 (lba1 cmdfis) (u8 (Z.shiftr startl 8));;
  store8 (lba2 cmdfis) (u8 (Z.shiftr startl 16));;
  store8 (device cmdfis) (Z.shiftl 1 6);;
  store8 (lba3 cmdfis) (u8 (Z.shiftr startl 24));;
  store8 (lba4 cmdfis) (u8 starth);;
  store8 (lba5 cmdfis) (u8 (Z.shiftr starth 8));;
  store8 (countl cmdfis) (Z.land count 0xFF);;
  store8 (counth cmdfis) (Z.land (Z.shiftr count 8) 0xFF).

(** The wait for the port, at most [spin_max] times; the number of turns. *)
Definition spin_max := 1000000.
Fixpoint wait_idle (fuel : nat) (port spin : Z) : M (mem * D) Z :=
  match fuel with
  | O => fail Fuel
  | S fuel =>
      v ← load_reg (tfd port);
      if negb (Z.land v (Z.lor ATA_DEV_BUSY ATA_DEV_DRQ) =? 0) && (spin <? spin_max)
      then wait_idle fuel port (spin + 1)
      else mret spin
  end.

(** The loop until the controller has cleared the bit of the slot. *)
Fixpoint wait_done (fuel : nat) (port slot : Z) : M (mem * D) Z :=
  match fuel with
  | O => fail Fuel
  | S fuel =>
      c ← load_reg (ci port);
      if Z.land c (Z.shiftl 1 slot) =? 0 then mret 0
      else v ← load_reg (is_ port);
           if negb (Z.land v HBA_PxIS_TFES =? 0) then mret (-1) else wait_done fuel port slot
  end.

(** [do_ahci_read] and [do_ahci_write] differ in [command] only; [fuel] bounds the wait for
    completion. *)
Definition do_ahci_command (fuel : nat) (command abar port_num start count buf : Z) :
    M (mem * D) Z :=
  let port := ports abar port_num in
  store_reg (is_ port) (-1);;
  slot ← find_cmdslot abar port;
  if slot =? -1 then mret (-1)
  else
    b ← load_reg (clb port);
    let cmdheader := cell (PHYS_TO_UNCACHED b) + sizeof_cmd_header * slot in
    cmdtbl ← in_mem (setup_header cmdheader count);
    count ← in_mem (setup_prdt cmdheader cmdtbl count buf);
    in_mem (setup_fis cmdtbl command start count);;
    spin ← wait_idle (Z.to_nat (spin_max + 1)) port 0;
    if spin =? spin_max then mret (-1)
    else
      store_reg (ci port) (Z.shiftl 1 slot);;
      r ← wait_done fuel port slot;
      if r =? -1 then mret (-1)
      else v ← load_reg (is_ port);
           if negb (Z.land v HBA_PxIS_TFES =? 0) then mret (-1) else mret 0.

Definition do_ahci_read (fuel : nat) := do_ahci_command fuel ATA_CMD_READ_DMA_EXT.
Definition do_ahci_write (fuel : nat) := do_ahci_command fuel ATA_CMD_WRITE_DMA_EXT.

(** [ahci_buf] is the address of the driver's static buffer of 8192 bytes. *)
Definition ahci_read (ahci_buf : Z) (fuel : nat) (abar port_num start count buf : Z) :
    M (mem * D) Z :=
  ret ← do_ahci_read fuel abar port_num start count ahci_buf;
  in_mem (memcpy buf ahci_buf (u32 (count * 512)));;
  mret ret.

Definition ahci_write (ahci_buf : Z) (fuel : nat) (abar port_num start count buf : Z) :
    M (mem * D) Z :=
  in_mem (memcpy ahci_buf buf (u32 (count * 512)));;
  do_ahci_write fuel abar port_num start count ahci_buf.

(** *** fs/ext2.c on top of the driver *)
Definition read_block (ahci_buf : Z) (fuel : nat) (gabar gport block_offset buf : Z) :
    M (mem * D) Z :=
  ahci_read ahci_buf fuel gabar gport (u32 (block_offset * (BLOCK_SIZE / 512))) (BLOCK_SIZE / 512) buf;;
  mret 0.

(** *** driver/disk.c *)
Definition ramdisk_read (ramdisk buf offset len : Z) : M mem Z :=
  memcpy buf (ramdisk + offset) len;; mret len.
Definition ramdisk_write (ramdisk buf offset len : Z) : M mem Z :=
  memcpy (ramdisk + offset) buf len;; mret len.

(** The controller and the port [ext2_init_disk] gets; [buf] is the stack buffer. *)
Definition disk_init (ahci_buf : Z) (fuel : nat) (buf : Z) : M (mem * D) (Z * Z) :=
  port_num ← ahic_probe_port SATA_ADDR;
  ahci_read ahci_buf fuel SATA_ADDR port_num 0 8 buf;;
  b ← in_mem (λ m, match read_bytes (Z.to_nat 8192) buf m with
                   | Some l => Ok (l, m) | None => Err (Fault buf) end);
  if ext2_check b then mret (SATA_ADDR, port_num) else panic.
End program.

(** ** What the controller promises

    A command as the controller fetches it: the flags of the header, the FIS, and the regions
    (physical address, bytes) of the PRD table. *)
Record command := { c_flags : Z; c_fis : list Z; c_prdt : list (Z * Z) }.

Definition fetch (n : nat) (a : Z) (m : mem) : option Z := le_combine <$> read_bytes n a m.

Fixpoint fetch_prdt (n : nat) (prd : Z) (m : mem) : option (list (Z * Z)) :=
  match n with
  | O => Some []
  | S n =>
      lo ← fetch 4 (dba prd) m; hi ← fetch 4 (dbau prd) m; w ← fetch 4 (dbc prd) m;
      l ← fetch_prdt n (prd + sizeof_prdt_entry) m;
      Some ((lo + 2 ^ 32 * hi, w mod 2 ^ 22 + 1) :: l)
  end.

(** The command in slot 0 of the list at physical address [base]. *)
Definition fetch_command (base : Z) (m : mem) : option command :=
  let h := cell base in
  flags ← fetch 2 (hdr_flags h) m; n ← fetch 2 (hdr_prdtl h) m;
  lo ← fetch 4 (hdr_ctba h) m; hi ← fetch 4 (hdr_ctba h + 4) m;
  let t := cell (lo + 2 ^ 32 * hi) in
  fis ← read_bytes (Z.to_nat sizeof_fis_h2d) t m;
  prdt ← fetch_prdt (Z.to_nat n) (prdt_entry t 0) m;
  Some {| c_flags := flags; c_fis := fis; c_prdt := prdt |}.

(** Byte [i] of [x]. *)
Definition byte_of (x i : Z) : Z := x / 2 ^ (8 * i) mod 256.

(** [c] is READ DMA EXT of [n] sectors from [lba] to the physical address [p]: an H2D register
    FIS of five words, no flag of the header set, one region of even address. *)
Definition dma_read (c : command) (p lba n : Z) : Prop :=
  c_flags c = 5 ∧
  c_fis c = [0x27; 0x80; 0x25; 0; byte_of lba 0; byte_of lba 1; byte_of lba 2; 0x40;
             byte_of lba 3; byte_of lba 4; byte_of lba 5; 0; byte_of n 0; byte_of n 1;
             0; 0; 0; 0; 0; 0] ∧
  c_prdt c = [(p, 512 * n)] ∧ p mod 2 = 0 ∧ 0 ≤ lba < 2 ^ 48 ∧ 0 < n < 2 ^ 13.

Definition in_prdt (c : command) (a : Z) : Prop :=
  ∃ p n, (p, n) ∈ c_prdt c ∧ cell p ≤ a < cell p + n.

Section contract.
Context {D : Type} `{Hba D}.

(** A controller at [abar] whose port [port] has its command list at physical address [base] and
    a drive with the contents [sector]: [scratch] are the cells the controller owns (received
    FISes, the byte count of the header), [idle] and [busy k c] its states without a command and
    with [c] to be completed after [k] more reads of PxCI. *)
Record healthy (abar port base : Z) (sector : Z → list Z) (scratch : Z → Prop)
    (idle : D → Prop) (busy : nat → command → D → Prop) : Prop := {
  idle_read : ∀ r m d v m' d', idle d → hba_read r (m, d) = (v, (m', d')) →
    idle d' ∧ changes scratch m m' ∧ 0 ≤ v < 2 ^ 32 ∧ (r = sact port ∨ r = ci port → v = 0) ∧
    (r = clb port → v = base) ∧
    (r = tfd port → Z.land v (Z.lor ATA_DEV_BUSY ATA_DEV_DRQ) = 0) ∧
    (r = is_ port → Z.land v HBA_PxIS_TFES = 0) ∧ (r = cap abar → v / 2 ^ 8 mod 2 ^ 4 ≠ 0);
  idle_clear : ∀ v m d m' d', idle d → hba_write (is_ port) v (m, d) = (m', d') →
    idle d' ∧ changes scratch m m';
  idle_issue : ∀ m d c p lba n m' d', idle d → fetch_command base m = Some c → dma_read c p lba n →
    hba_write (ci port) 1 (m, d) = (m', d') →
    (∃ k, busy k c d') ∧ changes (λ a, scratch a ∨ in_prdt c a) m m';
  busy_wait : ∀ k m d c v m' d', busy (S k) c d → hba_read (ci port) (m, d) = (v, (m', d')) →
    0 ≤ v < 2 ^ 32 ∧ Z.land v 1 ≠ 0 ∧ busy k c d' ∧ changes (λ a, scratch a ∨ in_prdt c a) m m';
  busy_status : ∀ k m d c v m' d', busy k c d → hba_read (is_ port) (m, d) = (v, (m', d')) →
    0 ≤ v < 2 ^ 32 ∧ Z.land v HBA_PxIS_TFES = 0 ∧ busy k c d' ∧
    changes (λ a, scratch a ∨ in_prdt c a) m m';
  busy_done : ∀ m d c p lba n v m' d', busy O c d → dma_read c p lba n → mapped m (cell p) (512 * n) →
    hba_read (ci port) (m, d) = (v, (m', d')) →
    0 ≤ v < 2 ^ 32 ∧ Z.land v 1 = 0 ∧ idle d' ∧ changes (λ a, scratch a ∨ in_prdt c a) m m' ∧
    mem_at m' (cell p) (concat (sector <$> seqZ lba n))
}.
End contract.

(** ** Memory lemmas *)
Lemma store_bits_word n a x mask v m : word_at n m a x →
  0 ≤ Z.lor (Z.land x (Z.lnot mask)) (Z.land v mask) < 2 ^ (8 * Z.of_nat n) →
  ∃ m', store_bits n a mask v m = Ok (tt, m') ∧
    word_at n m' a (Z.lor (Z.land x (Z.lnot mask)) (Z.land v mask)) ∧
    changes (λ x, a ≤ x < a + Z.of_nat n) m m'.
Proof.
  intros Hw Hv. unfold store_bits. rewrite (bind_ok _ _ _ x m) by by apply load_ok.
  apply store_word; [by eapply word_at_mapped|done].
Qed.

Lemma word_at_fetch n m a v : word_at n m a v → fetch n a m = Some v.
Proof.
  intros (l & <- & Hm & <-). unfold fetch. by rewrite (proj2 (read_bytes_Some _ _ _ l)).
Qed.

Lemma cell_main p : 0 ≤ p < 2 ^ 48 → cell p = MAIN_KERNEL_DMW + p.
Proof.
  intros Hp. unfold cell, PHYS_TO_MAIN, VALEN. rewrite Z.mod_small by done.
  by apply lor_add with 48.
Qed.

Lemma cell_uncached p : 0 ≤ p < 2 ^ 48 → cell (PHYS_TO_UNCACHED p) = MAIN_KERNEL_DMW + p.
Proof.
  intros Hp. unfold PHYS_TO_UNCACHED. rewrite (lor_add p UNCACHED_MEMORY_ADDR 48) by done.
  unfold cell, PHYS_TO_MAIN, VALEN. rewrite Z.add_mod by done.
  change (UNCACHED_MEMORY_ADDR mod 2 ^ 48) with 0. rewrite Z.add_0_l, Z.mod_mod, Z.mod_small by done.
  by apply lor_add with 48.
Qed.

(** ** The command in memory *)
(** Byte [i] of a word that is cut to its low bits. *)
Lemma byte_of_cut x i n : 0 ≤ i → 8 * i + 8 ≤ n → byte_of (x mod 2 ^ n) i = byte_of x i.
Proof.
  intros Hi Hn. unfold byte_of. change 256 with (2 ^ 8). apply Z.bits_inj'. intros j Hj.
  destruct (decide (j < 8)).
  - rewrite !Z.mod_pow2_bits_low by lia. rewrite !Z.div_pow2_bits by lia. by rewrite Z.mod_pow2_bits_low by lia.
  - by rewrite !Z.mod_pow2_bits_high by lia.
Qed.

Lemma byte_of_shift x i s : 0 ≤ i → 0 ≤ s → s mod 8 = 0 →
  byte_of (Z.shiftr x s) i = byte_of x (i + s / 8).
Proof.
  intros Hi Hs H8. unfold byte_of. rewrite Z.shiftr_div_pow2, Z.div_div by lia.
  rewrite <- Z.pow_add_r by lia. do 3 f_equal. zmod.
Qed.

Lemma byte_of_low x : u8 x = byte_of x 0.
Proof. unfold byte_of, wrap. by rewrite Z.div_1_r. Qed.

Lemma byte_of_bound x i : 0 ≤ byte_of x i < 256.
Proof. by apply Z.mod_pos_bound. Qed.

(** The header of a slot, when no flag but those the driver sets is on in it. *)
Record hdr_ok (m : mem) (h ctba : Z) : Prop := {
  hdr_mapped : mapped m h sizeof_cmd_header;
  hdr_first : ∃ f, m !! h = Some f ∧ 0 ≤ f < 256 ∧ Z.land f 0xA0 = 0;
  hdr_second : m !! (h + 1) = Some 0;
  hdr_table : word_at 4 m (hdr_ctba h) ctba;
  hdr_table_high : word_at 4 m (hdr_ctba h + 4) 0
}.

Lemma word1 m a b : m !! a = Some b ↔ word_at 1 m a b.
Proof.
  split.
  - intros H. exists [b]. split_and!; [done| |simpl; lia]. apply mem_at_cons. split; [done|apply mem_at_nil].
  - intros ([|x [|]] & ? & Hm & <-); try done. apply mem_at_cons in Hm as [-> _]. simpl. f_equal. lia.
Qed.

Lemma word2 m a b c : m !! a = Some b → m !! (a + 1) = Some c → word_at 2 m a (b + 256 * c).
Proof.
  intros Hb Hc. exists [b; c]. split_and!; [done| |simpl; lia].
  rewrite !mem_at_cons. split_and!; [done..|apply mem_at_nil].
Qed.

Lemma flags_bits f : 0 ≤ f < 256 → Z.land f 0xA0 = 0 →
  let f1 := Z.lor (Z.land f (Z.lnot 0x1F)) (Z.land (sizeof_fis_h2d / 4) 0x1F) in
  0 ≤ f1 < 2 ^ (8 * Z.of_nat 1) ∧ Z.lor (Z.land f1 (Z.lnot 0x40)) (Z.land 0 0x40) = 5.
Proof.
  intros Hf. by_enum f 0 256.
Qed.

Lemma setup_header_ok m h ctba count : hdr_ok m h ctba → 1 ≤ count ≤ 16 →
  ∃ m', setup_header h count m = Ok (cell (PHYS_TO_UNCACHED ctba), m') ∧
    m' !! h = Some 5 ∧ m' !! (h + 1) = Some 0 ∧ word_at 2 m' (hdr_prdtl h) 1 ∧
    changes (λ x, h ≤ x < h + 4) m m'.
Proof.
  intros [Hmap (f & Hf & Hfb & Hf0) H1 Ht _] Hc. destruct (flags_bits f Hfb Hf0) as [Hb E5].
  unfold setup_header, hdr_flags.
  destruct (store_bits_word 1 h f 0x1F (sizeof_fis_h2d / 4) m) as (m1 & E1 & W1 & C1); [by apply word1|done|].
  rewrite (bind_ok _ _ _ tt m1) by done.
  destruct (store_bits_word 1 h _ 0x40 0 m1 W1) as (m2 & E2 & W2 & C2); [by rewrite E5|].
  rewrite (bind_ok _ _ _ tt m2) by done. rewrite E5 in W2.
  assert (u16 (Z.shiftr (u32 (count - 1)) 4) + 1 = 1) as ->.
  { by_enum count 1 16. }
  assert (changes (λ x, h ≤ x < h + 4) m m2) as C12.
  { eapply changes_trans; (eapply changes_weaken; [|done]); simpl; lia. }
  destruct (store_word 2 (hdr_prdtl h) 1 m2) as (m3 & E3 & W3 & C3); [|done|].
  { eapply changes_mapped; [done|]. eapply mapped_sub; [done|unfold hdr_prdtl, sizeof_cmd_header; simpl; lia..]. }
  rewrite (bind_ok _ _ _ tt m3) by done.
  assert (changes (λ x, h ≤ x < h + 4) m m3) as C13.
  { eapply changes_trans; [done|]. eapply changes_weaken; [|done]. unfold hdr_prdtl. simpl. lia. }
  rewrite (bind_ok _ _ _ ctba m3).
  2:{ apply load_ok. eapply changes_word; [done..|]. unfold hdr_ctba. simpl. lia. }
  exists m3. split_and!; [done| | |done|done].
  - destruct C3 as [_ H3]. rewrite H3 by (unfold hdr_prdtl; simpl; lia). by apply word1.
  - destruct C1 as [_ H1'], C2 as [_ H2], C3 as [_ H3]. rewrite H3, H2, H1' by (unfold hdr_prdtl; simpl; lia). done.
Qed.

Lemma last_prdt_bits count : 1 ≤ count ≤ 16 →
  let w1 := Z.lor (Z.land 0 (Z.lnot 0x3FFFFF)) (Z.land (u32 (u32 (Z.shiftl count 9) - 1)) 0x3FFFFF) in
  let w2 := Z.lor (Z.land w1 (Z.lnot (Z.shiftl 1 31))) (Z.land (Z.shiftl 1 31) (Z.shiftl 1 31)) in
  0 ≤ w1 < 2 ^ 32 ∧ 0 ≤ w2 < 2 ^ 32 ∧ w2 mod 2 ^ 22 + 1 = 512 * count.
Proof.
  intros Hc. by_enum count 1 16.
Qed.

Lemma setup_prdt_ok m h t count buf : word_at 2 m (hdr_prdtl h) 1 → mapped m t sizeof_cmd_tbl →
  1 ≤ count ≤ 16 →
  ∃ m' w, setup_prdt h t count buf m = Ok (count, m') ∧
    mem_at m' t (replicate 20 0) ∧ word_at 4 m' (dba (prdt_entry t 0)) (u32 buf) ∧
    word_at 4 m' (dbau (prdt_entry t 0)) 0 ∧ word_at 4 m' (dbc (prdt_entry t 0)) w ∧
    w mod 2 ^ 22 + 1 = 512 * count ∧ changes (λ x, t ≤ x < t + sizeof_cmd_tbl) m m'.
Proof.
  intros Hp Ht Hc. destruct (last_prdt_bits count Hc) as (B1 & B2 & Hw). cbv zeta in *.
  unfold setup_prdt. rewrite (bind_ok _ _ _ 1 m) by by apply load_ok.
  change (u64 (sizeof_cmd_tbl + (1 - 1) * sizeof_prdt_entry)) with sizeof_cmd_tbl.
  rewrite (bind_ok _ _ _ _ _ (memset_ok t 0 sizeof_cmd_tbl m ltac:(done) Ht)).
  change (u8 0) with 0. set (m0 := write_bytes t (replicate _ 0) m).
  assert (mem_at m0 t (replicate 144 0)) as Hz by apply write_bytes_at.
  assert (changes (λ x, t ≤ x < t + sizeof_cmd_tbl) m m0) as C0.
  { apply only_changes; [by apply write_bytes_dom|]. apply (write_bytes_only t (replicate 144 0)). }
  assert (∀ a, t ≤ a → a + 4 ≤ t + 144 → word_at 4 m0 a 0) as Hw0.
  { intros a Ha1 Ha2. exists (replicate 4 0). split_and!; [done| |done]. intros i b Hi.
    apply lookup_replicate_1 in Hi as [-> Hi].
    replace (a + Z.of_nat i) with (t + Z.of_nat (Z.to_nat (a + Z.of_nat i - t))) by lia.
    apply Hz, lookup_replicate. split; [done|lia]. }
  rewrite (bind_ok _ _ _ (0, buf, count) m0) by done. cbn beta iota. set (prd := prdt_entry t 0).
  assert (prd = t + 128) as Hprd by (unfold prd, prdt_entry, sizeof_prdt_entry; lia).
  assert (∀ m' a, changes (λ x, t ≤ x < t + sizeof_cmd_tbl) m m' → t ≤ a → a + 4 ≤ t + 144 → mapped m' a 4) as Hmap.
  { intros m' a C' ??. eapply changes_mapped; [done|]. eapply mapped_sub; [done|unfold sizeof_cmd_tbl; lia..]. }
  destruct (store_word 4 (dba prd) (u32 buf) m0) as (m1 & E1 & W1 & C1).
  { apply Hmap; [done|unfold dba; lia..]. }
  { by apply wrap_bound. }
  rewrite (bind_ok _ _ _ tt m1) by done.
  assert (word_at 4 m1 (dbau prd) 0) as U1.
  { eapply changes_word; [apply Hw0; unfold dbau; lia|done|]. unfold dba, dbau. simpl. lia. }
  assert (word_at 4 m1 (dbc prd) 0) as V1.
  { eapply changes_word; [apply Hw0; unfold dbc; lia|done|]. unfold dba, dbc. simpl. lia. }
  destruct (store_bits_word 4 (dbc prd) 0 0x3FFFFF (u32 (u32 (Z.shiftl count 9) - 1)) m1) as (m2 & E2 & W2 & C2);
    [done..|]. rewrite (bind_ok _ _ _ tt m2) by done.
  destruct (store_bits_word 4 (dbc prd) _ (Z.shiftl 1 31) (Z.shiftl 1 31) m2 W2) as (m3 & E3 & W3 & C3); [done|].
  rewrite (bind_ok _ _ _ tt m3) by done.
  assert (changes (λ x, prd + 12 ≤ x < prd + 16) m1 m3) as C13.
  { eapply changes_trans; (eapply changes_weaken; [|done]); unfold dbc; simpl; lia. }
  eexists m3, _. split_and!; [done| | | |done|done|].
  - eapply changes_bytes; [|done|simpl; lia]. eapply changes_bytes; [|done|unfold dba; simpl; lia].
    change (replicate 144 0) with (replicate 20 0 ++ replicate 124 0) in Hz. by apply mem_at_app in Hz as [? _].
  - eapply changes_word; [done..|]. unfold dba. simpl. lia.
  - eapply changes_word; [done..|]. unfold dbau. simpl. lia.
  - eapply changes_trans; [done|]. eapply changes_trans; eapply changes_weaken; [|done| |done];
      unfold dba, sizeof_cmd_tbl; simpl; lia.
Qed.

(** One byte store of [setup_fis]: the rest runs on a memory with the updated FIS. *)
Lemma fis_step {B} c (k : M mem B) a i b v T n m (Q : mem → Prop) : mem_at m a T →
  c m = store8 b v m → b = a + Z.of_nat i → (i < length T)%nat → 0 ≤ v < 256 →
  n = Z.of_nat (length T) →
  (∀ m1, mem_at m1 a (<[i := v]> T) → ∃ r m', k m1 = Ok (r, m') ∧
    changes (λ x, a ≤ x < a + n) m1 m' ∧ Q m') →
  ∃ r m', (c;; k) m = Ok (r, m') ∧ changes (λ x, a ≤ x < a + n) m m' ∧ Q m'.
Proof.
  intros Hm Hc -> Hi Hv -> Hk. destruct (store8_run a T i v m Hm Hi Hv) as (m1 & E1 & Hm1 & C1).
  destruct (Hk m1 Hm1) as (r & m' & E & C' & HQ). exists r, m'. split_and!; [|by eapply changes_trans|done].
  rewrite (bind_ok _ _ _ tt m1); [done|]. by rewrite Hc.
Qed.

Ltac fis_store i :=
  eapply (fis_step _ _ _ i); [eassumption|reflexivity| |cbn; lia|first [done|auto]|done|];
  [unfold fis_type, fis_c, fis_command, lba0, lba1, lba2, device, lba3, lba4, lba5, countl, counth; lia|];
  match goal with Hm : mem_at ?m _ _ |- _ => clear dependent m end; intros ? ?; cbn [insert list_insert] in *.

Lemma setup_fis_ok m t start count : mem_at m t (replicate 20 0) → 0 ≤ start → 0 ≤ count < 2 ^ 16 →
  ∃ r m', setup_fis t ATA_CMD_READ_DMA_EXT start count m = Ok (r, m') ∧
    changes (λ x, t ≤ x < t + 20) m m' ∧
    mem_at m' t [0x27; 0x80; 0x25; 0; byte_of start 0; byte_of start 1; byte_of start 2; 0x40;
      byte_of start 3; byte_of start 4; byte_of start 5; 0; byte_of count 0; byte_of count 1;
      0; 0; 0; 0; 0; 0].
Proof.
  intros Hm Hs Hc. unfold setup_fis. cbv zeta.
  assert (∀ x, Z.land x 0xFF = byte_of x 0) as Hff.
  { intros x. unfold byte_of. change 0xFF with (2 ^ 8 - 1). rewrite land_low by done. by rewrite Z.div_1_r. }
  rewrite !Hff, !byte_of_low, (byte_of_shift count), !(byte_of_shift (u32 _)) by done.
  unfold wrap. rewrite !byte_of_cut, !byte_of_shift by done.
  change (0 + 8 / 8) with 1. change (0 + 16 / 8) with 2. change (0 + 24 / 8) with 3. 
  change (0 + 32 / 8) with 4. change (1 + 32 / 8) with 5.
  change (Z.shiftl 1 6) with 0x40. change (replicate 20 0) with
    [0;0;0;0;0;0;0;0;0;0;0;0;0;0;0;0;0;0;0;0] in Hm.
  pose proof (byte_of_bound start) as Bs. pose proof (byte_of_bound count) as Bc.
  fis_store 0%nat.
  eapply (fis_step _ _ _ 1 (fis_c t) 0x80); [eassumption| |unfold fis_c; lia|cbn; lia|done|done|].
  { unfold store_bits. rewrite (bind_ok _ _ _ 0 m1); [done|]. apply load8_ok. by apply (H 1%nat). }
  clear dependent m1. intros m1 H. cbn [insert list_insert] in H.
  fis_store 2%nat. fis_store 4%nat. fis_store 5%nat. fis_store 6%nat. fis_store 7%nat.
  fis_store 8%nat. fis_store 9%nat. fis_store 10%nat. fis_store 12%nat.
  match goal with Hm : mem_at ?m _ ?T |- _ =>
    destruct (store8_run t T 13 (byte_of count 1) m Hm) as (m' & E & Hm' & C'); [simpl; lia|apply Bc|] end.
  exists tt, m'. unfold counth. split_and!; [exact E|exact C'|exact Hm'].
Qed.

(** The command [setup_header], [setup_prdt] and [setup_fis] leave: one region for all sectors. *)
Definition read_command (buf start count : Z) : command := {|
  c_flags := 5;
  c_fis := [0x27; 0x80; 0x25; 0; byte_of start 0; byte_of start 1; byte_of start 2; 0x40;
            byte_of start 3; byte_of start 4; byte_of start 5; 0; byte_of count 0; byte_of count 1;
            0; 0; 0; 0; 0; 0];
  c_prdt := [(buf, 512 * count)]
|}.

Record built (m : mem) (h t ctba buf start count : Z) : Prop := {
  built_header : hdr_ok m h ctba;
  built_flags : m !! h = Some 5;
  built_prdtl : word_at 2 m (hdr_prdtl h) 1;
  built_fis : mem_at m t (c_fis (read_command buf start count));
  built_dba : word_at 4 m (dba (prdt_entry t 0)) buf;
  built_dbau : word_at 4 m (dbau (prdt_entry t 0)) 0;
  built_dbc : ∃ w, word_at 4 m (dbc (prdt_entry t 0)) w ∧ w mod 2 ^ 22 + 1 = 512 * count
}.

(** [P] keeps off the header, apart from its byte count, and off the table. *)
Definition off_command (P : Z → Prop) (h t : Z) : Prop :=
  ∀ a, P a → ¬ (h ≤ a < h + 4) ∧ ¬ (h + 8 ≤ a < h + sizeof_cmd_header) ∧
             ¬ (t ≤ a < t + sizeof_cmd_tbl).

Ltac apart HP := intros ? ?%HP; unfold prdt_entry, dba, dbau, dbc, hdr_prdtl, hdr_ctba,
  sizeof_cmd_header, sizeof_cmd_tbl, sizeof_prdt_entry in *; cbn in *; lia.

Lemma hdr_ok_changes P m m' h t ctba : hdr_ok m h ctba → changes P m m' → off_command P h t →
  hdr_ok m' h ctba.
Proof.
  intros [Hm (f & Hf & ?) H1 Ht Hh] HC HP. split.
  - by eapply changes_mapped.
  - exists f. split; [|done]. apply word1. eapply changes_word; [by apply word1|done|apart HP].
  - apply word1. eapply changes_word; [by apply word1|done|apart HP].
  - eapply changes_word; [done..|apart HP].
  - eapply changes_word; [done..|apart HP].
Qed.

Lemma built_changes P m m' h t ctba buf start count : built m h t ctba buf start count →
  changes P m m' → off_command P h t → built m' h t ctba buf start count.
Proof.
  intros [Hh Hf Hp Hi Hd Hu (w & Hw & ?)] HC HP. split.
  - by eapply hdr_ok_changes.
  - apply word1. eapply changes_word; [by apply word1|done|apart HP].
  - eapply changes_word; [done..|apart HP].
  - eapply changes_bytes; [done..|apart HP].
  - eapply changes_word; [done..|apart HP].
  - eapply changes_word; [done..|apart HP].
  - exists w. split; [|done]. eapply changes_word; [done..|apart HP].
Qed.

Lemma built_fetch m base ctba buf start count : 0 ≤ ctba < 2 ^ 32 →
  built m (cell base) (cell ctba) ctba buf start count →
  fetch_command base m = Some (read_command buf start count).
Proof.
  intros Hc [[_ _ H1 Ht Hh] Hf Hp Hi Hd Hu (w & Hw & Ew)]. unfold fetch_command, hdr_flags.
  rewrite (word_at_fetch 2 m (cell base) 5 (word2 m (cell base) 5 0 Hf H1)).
  cbn [mbind option_bind]. rewrite (word_at_fetch _ _ _ _ Hp). cbn [mbind option_bind].
  rewrite (word_at_fetch _ _ _ _ Ht). cbn [mbind option_bind].
  rewrite (word_at_fetch _ _ _ _ Hh). cbn [mbind option_bind].
  rewrite Z.mul_0_r, Z.add_0_r.
  change (Z.to_nat sizeof_fis_h2d) with (length (c_fis (read_command buf start count))).
  rewrite (proj2 (read_bytes_Some _ _ _ _) (conj eq_refl Hi)). cbn [mbind option_bind].
  change (Z.to_nat 1) with 1%nat. cbn [fetch_prdt].
  rewrite (word_at_fetch _ _ _ _ Hd). cbn [mbind option_bind].
  rewrite (word_at_fetch _ _ _ _ Hu). cbn [mbind option_bind].
  rewrite (word_at_fetch _ _ _ _ Hw). cbn [mbind option_bind].
  rewrite Ew, Z.mul_0_r, Z.add_0_r. done.
Qed.

Lemma read_command_valid buf start count : buf mod 2 = 0 → 0 ≤ start < 2 ^ 48 → 1 ≤ count ≤ 16 →
  dma_read (read_command buf start count) buf start count.
Proof. intros. split_and!; try done; lia. Qed.

(** ** The driver meets the controller *)

(** Where the physical memory the driver uses lies: the command list, the command table, the
    buffer of 8192 bytes, none of them overlapping the others or the controller's cells. *)
Record layout (base ctba buf : Z) (scratch : Z → Prop) : Prop := {
  base_range : 0 ≤ base ∧ base + sizeof_cmd_header ≤ 2 ^ 32;
  ctba_range : 0 ≤ ctba ∧ ctba + sizeof_cmd_tbl ≤ 2 ^ 32;
  buf_range : 0 ≤ buf ∧ buf + 8192 ≤ 2 ^ 32 ∧ buf mod 2 = 0;
  list_table : base + sizeof_cmd_header ≤ ctba ∨ ctba + sizeof_cmd_tbl ≤ base;
  list_buf : base + sizeof_cmd_header ≤ buf ∨ buf + 8192 ≤ base;
  table_buf : ctba + sizeof_cmd_tbl ≤ buf ∨ buf + 8192 ≤ ctba;
  scratch_off : off_command scratch (cell base) (cell ctba);
  scratch_buf : ∀ a, scratch a → ¬ (cell buf ≤ a < cell buf + 8192)
}.

Section driver.
Context {D : Type} `{Hba D} (abar port_num base ctba buf : Z) (sector : Z → list Z).
Context (scratch : Z → Prop) (idle : D → Prop) (busy : nat → command → D → Prop).
Local Abbreviation port := (ports abar port_num).
Hypothesis Hlaws : healthy abar port base sector scratch idle busy.
Hypothesis Hlayout : layout base ctba buf scratch.

(** The state between two requests. *)
Definition ready (s : mem * D) : Prop :=
  idle s.2 ∧ hdr_ok s.1 (cell base) ctba ∧ mapped s.1 (cell ctba) sizeof_cmd_tbl ∧
  mapped s.1 (cell buf) 8192.

(** What a read of [count] sectors may change. *)
Definition touched (count a : Z) : Prop :=
  scratch a ∨ cell base ≤ a < cell base + 4 ∨ cell ctba ≤ a < cell ctba + sizeof_cmd_tbl ∨
  cell buf ≤ a < cell buf + 512 * count.

Lemma cells : cell base = MAIN_KERNEL_DMW + base ∧ cell ctba = MAIN_KERNEL_DMW + ctba ∧
  cell buf = MAIN_KERNEL_DMW + buf.
Proof.
  destruct Hlayout as [[??] [??] (? & ? & ?)]. unfold sizeof_cmd_header, sizeof_cmd_tbl in *.
  split_and!; apply cell_main; lia.
Qed.

Lemma prdt_off start count : 1 ≤ count ≤ 16 →
  off_command (λ a, scratch a ∨ in_prdt (read_command buf start count) a) (cell base) (cell ctba).
Proof.
  intros Hc a [Hs|(p & n & Hpn & Ha)]; [by apply (scratch_off _ _ _ _ Hlayout)|].
  cbn in Hpn. apply list_elem_of_singleton in Hpn. injection Hpn as -> ->.
  destruct cells as (E1 & E2 & E3). destruct Hlayout as [[??] [??] [??] L1 L2 L3 _ _].
  unfold sizeof_cmd_header, sizeof_cmd_tbl in *. lia.
Qed.

Lemma load_reg_ok r (s : mem * D) v s' : hba_read r s = (v, s') → 0 ≤ v < 2 ^ 32 →
  load_reg r s = Ok (v, s').
Proof. intros E Hv. unfold load_reg. rewrite E. by rewrite wrap_id. Qed.

(** An access while the controller is idle. *)
Lemma idle_load r m d : idle d → ∃ v m' d', load_reg r (m, d) = Ok (v, (m', d')) ∧ idle d' ∧
  changes scratch m m' ∧ 0 ≤ v < 2 ^ 32 ∧ (r = sact port ∨ r = ci port → v = 0) ∧
  (r = clb port → v = base) ∧
  (r = tfd port → Z.land v (Z.lor ATA_DEV_BUSY ATA_DEV_DRQ) = 0) ∧
  (r = is_ port → Z.land v HBA_PxIS_TFES = 0) ∧ (r = cap abar → v / 2 ^ 8 mod 2 ^ 4 ≠ 0).
Proof.
  intros Hi. unfold load_reg. destruct (hba_read r (m, d)) as [v [m' d']] eqn:E.
  destruct (idle_read _ _ _ _ _ _ _ Hlaws _ _ _ _ _ _ Hi E) as (? & ? & Hv & ?).
  exists v, m', d'. rewrite wrap_id by done. done.
Qed.

Lemma find_cmdslot_idle m d : idle d → ∃ m' d', find_cmdslot abar port (m, d) = Ok (0, (m', d')) ∧
  idle d' ∧ changes scratch m m'.
Proof.
  intros Hi. unfold find_cmdslot.
  destruct (idle_load (sact port) m d Hi) as (v1 & m1 & d1 & E1 & Hi1 & C1 & _ & Hv1 & _).
  rewrite Hv1 in E1 by auto. rewrite (bind_ok _ _ _ _ _ E1).
  destruct (idle_load (ci port) m1 d1 Hi1) as (v2 & m2 & d2 & E2 & Hi2 & C2 & _ & Hv2 & _).
  rewrite Hv2 in E2 by auto. rewrite (bind_ok _ _ _ _ _ E2).
  destruct (idle_load (cap abar) m2 d2 Hi2) as (v3 & m3 & d3 & E3 & Hi3 & C3 & Hb & _ & _ & _ & _ & Hn).
  rewrite (bind_ok _ _ _ _ _ E3). exists m3, d3. split_and!; [|done|].
  - rewrite get_bits_range_ok by lia. specialize (Hn eq_refl).
    pose proof (Z.mod_pos_bound (v3 / 2 ^ 8) (2 ^ 4)).
    destruct (Z.to_nat _) eqn:E; [lia|]. done.
  - eapply changes_trans; [done|]. by eapply changes_trans.
Qed.

(** The wait for completion, whatever the number of polls. *)
Lemma wait_done_ok k c p lba n fuel m d : busy k c d → dma_read c p lba n →
  mapped m (cell p) (512 * n) → (k < fuel)%nat →
  ∃ m' d', wait_done fuel port 0 (m, d) = Ok (0, (m', d')) ∧ idle d' ∧
    changes (λ a, scratch a ∨ in_prdt c a) m m' ∧
    mem_at m' (cell p) (concat (sector <$> seqZ lba n)).
Proof.
  revert fuel m d. induction k as [|k IH]; intros [|fuel] m d Hb Hv Hmp Hf; try lia; cbn [wait_done].
  - destruct (hba_read (ci port) (m, d)) as [v [m' d']] eqn:E.
    destruct (busy_done _ _ _ _ _ _ _ Hlaws _ _ _ _ _ _ _ _ _ Hb Hv Hmp E) as (Hr & H0 & ? & ? & ?).
    exists m', d'. split_and!; [|done..]. rewrite (bind_ok _ _ _ _ _ (load_reg_ok _ _ _ _ E Hr)).
    change (Z.shiftl 1 0) with 1. by rewrite H0.
  - destruct (hba_read (ci port) (m, d)) as [v [m1 d1]] eqn:E.
    destruct (busy_wait _ _ _ _ _ _ _ Hlaws _ _ _ _ _ _ _ Hb E) as (Hr & H0 & Hb1 & C1).
    rewrite (bind_ok _ _ _ _ _ (load_reg_ok _ _ _ _ E Hr)).
    change (Z.shiftl 1 0) with 1. rewrite (proj2 (Z.eqb_neq _ _) H0).
    destruct (hba_read (is_ port) (m1, d1)) as [v' [m2 d2]] eqn:E'.
    destruct (busy_status _ _ _ _ _ _ _ Hlaws _ _ _ _ _ _ _ Hb1 E') as (Hr' & H0' & Hb2 & C2).
    rewrite (bind_ok _ _ _ _ _ (load_reg_ok _ _ _ _ E' Hr')), H0'. cbn [negb Z.eqb].
    destruct (IH fuel m2 d2 Hb2 Hv) as (m' & d' & ? & ? & C3 & ?); [|lia|].
    { eapply changes_mapped; [done|]. by eapply changes_mapped. }
    exists m', d'. split_and!; [done..| |done]. eapply changes_trans; [done|]. by eapply changes_trans.
Qed.

Lemma u32_buf : u32 (cell buf) = buf.
Proof.
  destruct cells as (_ & _ & ->). destruct (buf_range _ _ _ _ Hlayout) as (? & ? & _).
  unfold wrap. rewrite Z.add_mod by done. change (MAIN_KERNEL_DMW mod 2 ^ 32) with 0.
  rewrite Z.add_0_l, Z.mod_mod by done. apply Z.mod_small. lia.
Qed.

Lemma setup_ok m start count : hdr_ok m (cell base) ctba → mapped m (cell ctba) sizeof_cmd_tbl →
  0 ≤ start → 1 ≤ count ≤ 16 →
  ∃ m1 m2 m3, setup_header (cell base) count m = Ok (cell ctba, m1) ∧
    setup_prdt (cell base) (cell ctba) count (cell buf) m1 = Ok (count, m2) ∧
    setup_fis (cell ctba) ATA_CMD_READ_DMA_EXT start count m2 = Ok (tt, m3) ∧
    built m3 (cell base) (cell ctba) ctba buf start count ∧ changes (touched count) m m3.
Proof.
  intros Hh Ht Hs Hc. pose proof cells as (E1 & E2 & E3). destruct Hlayout as [[??] [??] _ L1 _ _ _ _].
  unfold sizeof_cmd_header, sizeof_cmd_tbl in *.
  destruct (setup_header_ok m _ ctba count Hh Hc) as (m1 & R1 & F1 & S1 & P1 & C1).
  rewrite cell_uncached, <- E2 in R1 by lia.
  destruct (setup_prdt_ok m1 (cell base) (cell ctba) count (cell buf)) as (m2 & w & R2 & Z2 & A2 & U2 & W2 & Hw & C2);
    [done|by eapply changes_mapped|done|]. rewrite u32_buf in A2.
  destruct (setup_fis_ok m2 (cell ctba) start count Z2 Hs ltac:(lia)) as ([] & m3 & R3 & C3 & F3).
  assert (changes (λ x, cell ctba ≤ x < cell ctba + 144) m1 m3) as C13.
  { eapply changes_trans; [done|]. eapply changes_weaken; [|done]. simpl. lia. }
  exists m1, m2, m3. split_and!; [done..| |].
  - destruct Hh as [Hm _ _ Htb Hth]. split.
    + split.
      * eapply changes_mapped; [done|]. by eapply changes_mapped.
      * exists 5. split; [|done]. apply word1. eapply changes_word; [by apply word1|done|simpl; lia].
      * apply word1. eapply changes_word; [by apply word1|done|simpl; lia].
      * eapply changes_word; [|done|unfold hdr_ctba; simpl; lia].
        eapply changes_word; [done..|unfold hdr_ctba; simpl; lia].
      * eapply changes_word; [|done|unfold hdr_ctba; simpl; lia].
        eapply changes_word; [done..|unfold hdr_ctba; simpl; lia].
    + apply word1. eapply changes_word; [by apply word1|done|simpl; lia].
    + eapply changes_word; [done..|unfold hdr_prdtl; simpl; lia].
    + done.
    + eapply changes_word; [done..|unfold prdt_entry, dba, sizeof_prdt_entry; simpl; lia].
    + eapply changes_word; [done..|unfold prdt_entry, dbau, sizeof_prdt_entry; simpl; lia].
    + exists w. split; [|done]. eapply changes_word; [done..|unfold prdt_entry, dbc, sizeof_prdt_entry; simpl; lia].
  - eapply changes_trans; (eapply changes_weaken; [|done]); unfold touched, sizeof_cmd_tbl; simpl; lia.
Qed.

Lemma scratch_touched count a : scratch a → touched count a.
Proof. by left. Qed.

Lemma prdt_touched start count a : scratch a ∨ in_prdt (read_command buf start count) a → touched count a.
Proof.
  intros [?|(p & n & Hpn & Ha)]; [by left|]. cbn in Hpn. apply list_elem_of_singleton in Hpn.
  injection Hpn as -> ->. by do 3 right.
Qed.

Lemma wait_idle_ok m d : idle d → ∃ m' d',
  wait_idle (Z.to_nat (spin_max + 1)) port 0 (m, d) = Ok (0, (m', d')) ∧ idle d' ∧ changes scratch m m'.
Proof.
  intros Hi. destruct (Z.to_nat (spin_max + 1)) as [|fuel] eqn:Ef; [unfold spin_max in Ef; lia|]. cbn [wait_idle].
  destruct (idle_load (tfd port) m d Hi) as (v & m' & d' & E & Hi' & C' & _ & _ & _ & Hv & _).
  exists m', d'. rewrite (bind_ok _ _ _ _ _ E), Hv by done. done.
Qed.

Lemma ready_changes P m m' d d' : ready (m, d) → idle d' → changes P m m' →
  off_command P (cell base) (cell ctba) → ready (m', d').
Proof.
  intros (_ & Hh & Ht & Hb) Hi HC HP. split_and!; [done|by eapply hdr_ok_changes|..]; by eapply changes_mapped.
Qed.

Lemma length_sectors start n : (∀ s, length (sector s) = 512%nat) → 0 ≤ n →
  Z.of_nat (length (concat (sector <$> seqZ start n))) = 512 * n.
Proof.
  intros Hl Hn. unfold seqZ. rewrite <- (Z2Nat.id n) at 2 by done. generalize (Z.to_nat n) as k. clear Hn.
  intros k. generalize 0%nat as j. induction k as [|k IH]; intros j; [done|].
  cbn [seq fmap list_fmap concat]. rewrite length_app, Hl. rewrite Nat2Z.inj_add, (IH (S j)). lia.
Qed.

(** [do_ahci_read] of up to 16 sectors. *)
Lemma do_ahci_read_ok m d start count : ready (m, d) → (∀ s, length (sector s) = 512%nat) → 0 ≤ start → start + count ≤ 2 ^ 48 →
  1 ≤ count ≤ 16 →
  ∃ k, ∀ fuel, (k < fuel)%nat →
  ∃ m' d', do_ahci_read fuel abar port_num start count (cell buf) (m, d) = Ok (0, (m', d')) ∧
    ready (m', d') ∧ changes (touched count) m m' ∧
    mem_at m' (cell buf) (concat (sector <$> seqZ start count)).
Proof.
  intros Hr Hl Hs Hsc Hc. pose proof Hr as (Hi & _). simpl in Hi.
  pose proof (scratch_off _ _ _ _ Hlayout) as Hso.
  destruct (hba_write (is_ port) (u32 (-1)) (m, d)) as [m0 d0] eqn:E0.
  destruct (idle_clear _ _ _ _ _ _ _ Hlaws _ _ _ _ _ Hi E0) as [Hi0 C0].
  destruct (find_cmdslot_idle m0 d0 Hi0) as (m1 & d1 & E1 & Hi1 & C1).
  destruct (idle_load (clb port) m1 d1 Hi1) as (b & m2 & d2 & E2 & Hi2 & C2 & _ & _ & Hbase & _).
  rewrite Hbase in E2 by done. clear b Hbase.
  assert (changes scratch m m2) as C02 by (eapply changes_trans; [done|]; by eapply changes_trans).
  destruct (ready_changes _ _ _ _ d2 Hr Hi2 C02 Hso) as (_ & Hh2 & Ht2 & _). simpl in *.
  destruct (setup_ok m2 start count Hh2 Ht2 Hs Hc) as (m3 & m4 & m5 & E3 & E4 & E5 & B5 & C25).
  destruct (wait_idle_ok m5 d2 Hi2) as (m6 & d6 & E6 & Hi6 & C6).
  pose proof (built_changes _ _ _ _ _ _ _ _ _ B5 C6 Hso) as B6.
  assert (0 ≤ ctba < 2 ^ 32) as Hctba.
  { destruct (ctba_range _ _ _ _ Hlayout). unfold sizeof_cmd_tbl in *. lia. }
  assert (dma_read (read_command buf start count) buf start count) as Hv.
  { apply read_command_valid; [apply (buf_range _ _ _ _ Hlayout)|lia|done]. }
  destruct (hba_write (ci port) 1 (m6, d6)) as [m7 d7] eqn:E7.
  destruct (idle_issue _ _ _ _ _ _ _ Hlaws _ _ _ _ _ _ _ _ Hi6 (built_fetch _ _ _ _ _ _ Hctba B6) Hv E7) as [[k Hbz] C7].
  exists k. intros fuel Hf.
  destruct (wait_done_ok k _ _ _ _ fuel m7 d7 Hbz Hv) as (m8 & d8 & E8 & Hi8 & C8 & Hm8); [|done|].
  { eapply changes_mapped; [exact C7|]. eapply changes_mapped; [exact C6|]. eapply changes_mapped; [exact C25|].
    eapply changes_mapped; [exact C02|]. eapply mapped_sub; [apply Hr|lia..]. }
  destruct (idle_load (is_ port) m8 d8 Hi8) as (v & m9 & d9 & E9 & Hi9 & C9 & _ & _ & _ & _ & Hst & _).
  pose proof (prdt_off start count Hc) as Hpo.
  assert (changes (touched count) m m9) as C.
  { pose proof (λ m m', changes_weaken _ _ m m' (scratch_touched count)) as Ws.
    pose proof (λ m m', changes_weaken _ _ m m' (prdt_touched start count)) as Wp.
    eapply changes_trans; [by apply Ws|]. eapply changes_trans; [done|]. eapply changes_trans; [by apply Ws|].
    eapply changes_trans; [by apply Wp|]. eapply changes_trans; [by apply Wp|]. by apply Ws. }
  exists m9, d9. split_and!.
  - unfold do_ahci_read, do_ahci_command.
    rewrite (bind_ok _ _ _ tt (m0, d0)) by (unfold store_reg; by rewrite E0).
    rewrite (bind_ok _ _ _ _ _ E1). cbn [Z.eqb]. rewrite (bind_ok _ _ _ _ _ E2).
    destruct cells as (Eb & Et & Ebf). destruct (base_range _ _ _ _ Hlayout). unfold sizeof_cmd_header in *.
    rewrite cell_uncached, <- Eb, Z.mul_0_r, Z.add_0_r by lia.
    rewrite (bind_ok _ _ _ _ _ (in_mem_ok _ _ _ _ _ E3)), (bind_ok _ _ _ _ _ (in_mem_ok _ _ _ _ _ E4)),
      (bind_ok _ _ _ _ _ (in_mem_ok _ _ _ _ _ E5)), (bind_ok _ _ _ _ _ E6).
    change (0 =? spin_max) with false. cbn beta iota.
    rewrite (bind_ok _ _ _ tt (m7, d7)) by (unfold store_reg; change (u32 (Z.shiftl 1 0)) with 1; by rewrite E7).
    rewrite (bind_ok _ _ _ _ _ E8). cbn [Z.eqb]. rewrite (bind_ok _ _ _ _ _ E9), Hst by done. done.
  - pose proof (built_changes _ _ _ _ _ _ _ _ _ B6 C7 Hpo) as B7.
    pose proof (built_changes _ _ _ _ _ _ _ _ _ B7 C8 Hpo) as B8.
    destruct (built_changes _ _ _ _ _ _ _ _ _ B8 C9 Hso) as [Hh9 _ _ _ _ _ _].
    destruct Hr as (_ & _ & Ht & Hb). cbn [fst snd] in Ht, Hb.
    split_and!; [done|done|by eapply changes_mapped|by eapply changes_mapped].
  - done.
  - intros i b Hib. destruct C9 as [_ C9]. rewrite C9; [by apply Hm8|].
    intros Hsb. apply (scratch_buf _ _ _ _ Hlayout _ Hsb). apply lookup_lt_Some in Hib.
    pose proof (length_sectors start count Hl ltac:(lia)). lia.
Qed.

(** [dst] is memory the driver can copy [count] sectors to. *)
Definition target (m : mem) (count dst : Z) : Prop :=
  mapped m dst (512 * count) ∧ off_command (λ a, dst ≤ a < dst + 512 * count) (cell base) (cell ctba) ∧
  (dst + 512 * count ≤ cell buf ∨ cell buf + 8192 ≤ dst).

Lemma sectors_bytes start n : (∀ s, bytes (sector s)) → bytes (concat (sector <$> seqZ start n)).
Proof. intros Hb. apply Forall_concat, Forall_fmap, Forall_true. intros s. apply Hb. Qed.

Lemma ahci_read_ok m d start count dst : ready (m, d) → (∀ s, length (sector s) = 512%nat) →
  (∀ s, bytes (sector s)) → 0 ≤ start → start + count ≤ 2 ^ 48 → 1 ≤ count ≤ 16 →
  target m count dst →
  ∃ k, ∀ fuel, (k < fuel)%nat →
  ∃ m' d', ahci_read (cell buf) fuel abar port_num start count dst (m, d) = Ok (0, (m', d')) ∧
    ready (m', d') ∧ changes (λ a, touched count a ∨ dst ≤ a < dst + 512 * count) m m' ∧
    mem_at m' dst (concat (sector <$> seqZ start count)).
Proof.
  intros Hr Hl Hby Hs Hsc Hc (Hm & Ho & Hd).
  destruct (do_ahci_read_ok m d start count Hr Hl Hs Hsc Hc) as [k Hk]. exists k. intros fuel Hf.
  destruct (Hk fuel Hf) as (m1 & d1 & E1 & Hr1 & C1 & Hm1).
  pose proof (length_sectors start count Hl ltac:(lia)) as Hlen.
  set (data := concat (sector <$> seqZ start count)) in *.
  assert (changes (λ a, dst ≤ a < dst + 512 * count) m1 (write_bytes dst data m1)) as C2.
  { rewrite <- Hlen. apply only_changes; [|apply write_bytes_only]. apply write_bytes_dom. rewrite Hlen.
    by eapply changes_mapped. }
  exists (write_bytes dst data m1), d1. split_and!.
  - unfold ahci_read. rewrite (bind_ok _ _ _ _ _ E1).
    rewrite (bind_ok _ _ _ (dst + 512 * count) (write_bytes dst data m1, d1)); [done|]. apply in_mem_ok.
    replace (u32 (count * 512)) with (512 * count) by (rewrite wrap_id; lia).
    apply memcpy_ok; [done|done|by apply sectors_bytes|by eapply changes_mapped|]. unfold ascending. lia.
  - eapply ready_changes; [done|apply Hr1|done|done].
  - eapply changes_trans; (eapply changes_weaken; [|done]); simpl; tauto.
  - apply write_bytes_at.
Qed.

(** C19: The disk driver implements the disk of the ext2 reader.  With a working controller, block
    [b] read by the driver's [read_block] into [dst] is the block of the model of fs/ext2.c; the
    call returns 0 after finitely many polls, changes only the destination, the driver's
    command structures and buffer, and leaves the driver ready for the next request. *)
Theorem read_block_correct m d b dst : ready (m, d) → (∀ s, length (sector s) = 512%nat) →
  (∀ s, bytes (sector s)) → target m 2 dst →
  ∃ k, ∀ fuel, (k < fuel)%nat →
  ∃ m' d', read_block (cell buf) fuel abar port_num b dst (m, d) = Ok (0, (m', d')) ∧
    mem_at m' dst (Ext2.read_block sector b) ∧ ready (m', d') ∧
    changes (λ a, touched 2 a ∨ dst ≤ a < dst + 1024) m m'.
Proof.
  intros Hr Hl Hby Ht. set (s := u32 (b * 2)).
  assert (0 ≤ s < 2 ^ 32) by by apply wrap_bound.
  destruct (ahci_read_ok m d s 2 dst Hr Hl Hby ltac:(lia) ltac:(lia) ltac:(lia) Ht) as [k Hk].
  exists k. intros fuel Hf. destruct (Hk fuel Hf) as (m' & d' & E & Hr' & C' & Hm').
  exists m', d'. change (concat (sector <$> seqZ s 2)) with (sector (0 + s) ++ sector (1 + s) ++ []) in Hm'.
  rewrite app_nil_r, Z.add_0_l, (Z.add_comm 1) in Hm'. split_and!; [|done..].
  unfold read_block. change (BLOCK_SIZE / 512) with 2. fold s. by rewrite (bind_ok _ _ _ _ _ E).
Qed.
End driver.

(** ** Ports, slots and errors *)
Section registers.
Context {D : Type} `{Hba D}.

(** A drive is present and active on port [i]. *)
Definition active (reg : Z → Z) (abar i : Z) : bool :=
  (reg (ssts (ports abar i)) mod 16 =? HBA_PORT_DET_PRESENT) &&
  (reg (ssts (ports abar i)) / 256 mod 16 =? HBA_PORT_IPM_ACTIVE).

Lemma probe_loop_ok reg abar p (s : mem * D) n : Z.land p 1 ≠ 0 →
  (∀ r s, hba_read r s = (reg r, s)) → (∀ r, 0 ≤ reg r < 2 ^ 32) → ∀ i num no, 0 ≤ num →
  let l := filter (active reg abar) (seqZ i (Z.of_nat n)) in
  probe_loop n abar p i num no s =
    Ok (if num =? 0 then default no (l !! 1%nat) else if num =? 1 then default no (l !! 0%nat) else no, s).
Proof.
  intros Hp Hreg Hb. induction n as [|n IH]; intros i num no Hn; cbn [probe_loop]; cbv zeta.
  { change (filter (active reg abar) (seqZ i (Z.of_nat 0))) with (@nil Z). simpl. by zcases. }
  rewrite (proj2 (Z.eqb_neq _ _) Hp). set (v := reg (ssts (ports abar i))).
  rewrite (bind_ok _ _ _ v s) by (apply load_reg_ok; [apply Hreg|apply Hb]).
  rewrite (seqZ_cons i) by lia. replace (Z.pred (Z.of_nat (S n))) with (Z.of_nat n) by lia.
  change 0x0F with (2 ^ 4 - 1). rewrite !land_low by done.
  replace (u8 (Z.shiftr v 8) mod 2 ^ 4) with (v / 256 mod 16).
  2:{ unfold wrap. rewrite Z.shiftr_div_pow2 by done. change (2 ^ 8) with 256. change (2 ^ 4) with 16. zmod. }
  rewrite filter_cons. change (2 ^ 4) with 16.
  assert (active reg abar i = (v mod 16 =? HBA_PORT_DET_PRESENT) && (v / 256 mod 16 =? HBA_PORT_IPM_ACTIVE))
    as Ea by done.
  rewrite <- negb_andb, <- Ea.
  destruct (decide (active reg abar i)) as [Ha|Ha].
  2:{ apply Is_true_false in Ha. rewrite Ha. by apply IH. }
  apply Is_true_true in Ha. rewrite Ha. cbn [negb].
  rewrite IH by lia. cbv zeta. change (i + 1) with (Z.succ i).
  destruct (filter _ (seqZ (Z.succ i) (Z.of_nat n))) as [|x l]; zcases; done.
Qed.

(** [ahic_probe_port] never shifts the map of implemented ports: when port 0 is implemented it
    looks at all 32 ports and returns the second with an active drive, when port 0 is not
    implemented it returns -1 whatever the others are. *)
Theorem ahic_probe_port_correct reg abar (s : mem * D) :
  (∀ r s, hba_read r s = (reg r, s)) → (∀ r, 0 ≤ reg r < 2 ^ 32) →
  ahic_probe_port abar s =
    Ok (if Z.land (reg (pi abar)) 1 =? 0 then -1
        else default (-1) (filter (active reg abar) (seqZ 0 32) !! 1%nat), s).
Proof.
  intros Hreg Hb. unfold ahic_probe_port.
  rewrite (bind_ok _ _ _ (reg (pi abar)) s) by (apply load_reg_ok; [apply Hreg|apply Hb]).
  destruct (Z.eqb_spec (Z.land (reg (pi abar)) 1) 0) as [Hz|Hn].
  - generalize 32%nat, 0 at 1. intros n. induction n as [|n IH]; intros i; [done|].
    cbn [probe_loop]. rewrite Hz. apply IH.
  - by rewrite (probe_loop_ok reg abar _ s 32 Hn Hreg Hb).
Qed.

(** C40: [read_block] does not look at what [ahci_read] returns: on a controller with a single
    command slot (NCS = 0 in CAP, as with 17) [find_cmdslot] searches no slot at all, every
    request fails without a command being issued, and [read_block] returns 0 with whatever the
    driver's buffer held before.  The controller is left as the four accesses leave it: PxIS is
    written, PxSACT, PxCI and CAP are read, and nothing is written to PxCI. *)
Theorem read_block_stale fuel gabar gport b dst (m : mem) (d : D) abuf old :
  (∀ r s, (hba_read r s).2.1 = s.1 ∧ (r = cap gabar → u32 (hba_read r s).1 / 2 ^ 8 mod 2 ^ 4 = 0)) →
  (∀ r v s, (hba_write r v s).1 = s.1) →
  mem_at m abuf old → length old = 1024%nat → bytes old → mapped m dst 1024 → ascending dst abuf 1024 →
  let port := ports gabar gport in
  let s1 := hba_write (is_ port) (2 ^ 32 - 1) (m, d) in
  let s2 := (hba_read (sact port) s1).2 in
  let s3 := (hba_read (ci port) s2).2 in
  let s4 := (hba_read (cap gabar) s3).2 in
  read_block abuf fuel gabar gport b dst (m, d) = Ok (0, (write_bytes dst old m, s4.2)) ∧
  do_ahci_read fuel gabar gport (u32 (b * 2)) 2 abuf (m, d) = Ok (-1, (m, s4.2)).
Proof.
  intros Hread Hwrite Hold Hlen Hby Hm Ha port s1 s2 s3 s4.
  assert (∀ r s, load_reg r s = Ok (u32 (hba_read r s).1, (hba_read r s).2)) as L.
  { intros r s. unfold load_reg. by destruct (hba_read r s). }
  assert (s4 = (m, s4.2)) as Es.
  { rewrite (surjective_pairing s4) at 1. f_equal. unfold s4, s3, s2, s1.
    do 3 rewrite (proj1 (Hread _ _)). by rewrite Hwrite. }
  assert (do_ahci_read fuel gabar gport (u32 (b * 2)) 2 abuf (m, d) = Ok (-1, (m, s4.2))) as E.
  { rewrite <- Es. unfold do_ahci_read, do_ahci_command, find_cmdslot. fold port.
    rewrite (bind_ok _ _ _ tt s1), (bind_ok _ _ _ (-1) s4); [done| |done].
    rewrite (bind_ok _ _ _ _ _ (L (sact port) s1)), (bind_ok _ _ _ _ _ (L (ci port) s2)).
    rewrite (bind_ok _ _ _ _ _ (L (cap gabar) s3)).
    rewrite get_bits_range_ok, (proj2 (Hread _ _) eq_refl) by done || lia. done. }
  split; [|exact E]. unfold read_block, ahci_read. change (BLOCK_SIZE / 512) with 2.
  rewrite (bind_ok _ _ _ (-1) (write_bytes dst old m, s4.2)); [done|].
  rewrite (bind_ok _ _ _ _ _ E). rewrite (bind_ok _ _ _ (dst + 1024) (write_bytes dst old m, s4.2)); [done|].
  apply in_mem_ok. apply memcpy_ok; [by rewrite Hlen|done..].
Qed.
End registers.

(** ** A controller that keeps the contract

    It fetches a command when PxCI is written, answers two polls with the bit of the slot set
    and transfers the data at the third. *)
Definition sample_base := 0x1000.
Definition sample_table := 0x2000.
Definition sample_buf := 0x4000.
Definition sample_dst := MAIN_KERNEL_DMW + 0x8000.
Definition sample_disk (s : Z) : list Z := replicate 512 (s mod 256).

Definition sample_transfer (c : command) (m : mem) : mem :=
  let f i := c_fis c !!! i in
  let lba := le_combine [f 4%nat; f 5%nat; f 6%nat; f 8%nat; f 9%nat; f 10%nat] in
  let n := le_combine [f 12%nat; f 13%nat] in
  match c_prdt c with
  | (p, _) :: _ => write_bytes (cell p) (concat (sample_disk <$> seqZ lba n)) m
  | [] => m
  end.

Definition sample_hba : Hba (option (nat * command)) := {|
  hba_read r s := let '(m, d) := s in
    if r =? ci (ports 0 0)
    then match d with
         | None => (0, s)
         | Some (S k, c) => (1, (m, Some (k, c)))
         | Some (O, c) => (0, (sample_transfer c m, None))
         end
    else if r =? clb (ports 0 0) then (sample_base, s)
    else if r =? cap 0 then (0x1F00, s) else (0, s);
  hba_write r v s := let '(m, d) := s in
    if (r =? ci (ports 0 0)) && (v =? 1)
    then match fetch_command sample_base m with Some c => (m, Some (2%nat, c)) | None => s end
    else s
|}.

Lemma byte_of_split x : le_split 6 x = [byte_of x 0; byte_of x 1; byte_of x 2; byte_of x 3; byte_of x 4; byte_of x 5].
Proof. unfold byte_of. cbn [le_split]. rewrite !Z.div_div by done. by rewrite Z.div_1_r. Qed.

Lemma sample_transfer_ok c p lba n m : dma_read c p lba n →
  sample_transfer c m = write_bytes (cell p) (concat (sample_disk <$> seqZ lba n)) m.
Proof.
  intros (_ & Hf & Hp & _ & Hl & Hn). unfold sample_transfer. rewrite Hf, Hp.
  cbn -[byte_of le_combine concat]. f_equal. f_equal. f_equal.
  rewrite <- byte_of_split, le_combine_split. change (8 * Z.of_nat 6) with 48. rewrite Z.mod_small by done.
  f_equal. pose proof (le_combine_split 2 n) as E. rewrite Z.mod_small in E by (simpl; lia).
  rewrite <- E at 3. unfold byte_of. cbn [le_split]. by rewrite Z.div_1_r.
Qed.

#[local] Existing Instance sample_hba.

Lemma sample_healthy : healthy 0 (ports 0 0) sample_base sample_disk (λ _, False) (λ d, d = None)
  (λ k c d, d = Some (k, c)).
Proof.
  split.
  - intros r m d v m' d' -> E. cbn in E.
    destruct (Z.eqb_spec r (ci (ports 0 0))) as [->|];
      [|destruct (Z.eqb_spec r (clb (ports 0 0))) as [->|]; [|destruct (Z.eqb_spec r (cap 0)) as [->|]]];
      injection E as <- <- <-; split_and!; first [done | tauto | intros X; vm_compute in X; intuition congruence].
  - intros v m d m' d' -> E. cbn in E. by injection E as <- <-.
  - intros m d c p lba n m' d' -> Hf Hr E. cbn -[fetch_command] in E. rewrite Hf in E. injection E as <- <-.
    split; [by exists 2%nat|done].
  - intros k m d c v m' d' -> E. cbn in E. injection E as <- <- <-. split_and!; done.
  - intros k m d c v m' d' -> E. cbn in E. injection E as <- <- <-. split_and!; done.
  - intros m d c p lba n v m' d' -> Hr Hm E. cbn -[sample_transfer] in E. injection E as <- <- <-.
    rewrite (sample_transfer_ok _ _ _ _ _ Hr). split_and!; [done..| |apply write_bytes_at].
    assert (Z.of_nat (length (concat (sample_disk <$> seqZ lba n))) = 512 * n) as Hlen.
    { apply length_sectors; [done|]. destruct Hr as (_ & _ & _ & _ & _ & Hn). lia. }
    destruct Hr as (_ & _ & Hp & _). eapply changes_weaken; [|apply only_changes; [|apply write_bytes_only]].
    + intros a Ha. right. exists p, (512 * n). rewrite Hp. split; [apply list_elem_of_here|]. by rewrite <- Hlen.
    + apply write_bytes_dom. by rewrite Hlen.
Qed.

Definition sample_header : list Z := replicate 8 0 ++ le_split 4 sample_table ++ replicate 20 0.
Definition sample_memory : mem :=
  write_bytes (cell sample_base) sample_header
    (write_bytes (cell sample_table) (replicate 144 0)
      (write_bytes (cell sample_buf) (replicate (Z.to_nat 8192) 7)
        (write_bytes sample_dst (replicate 1024 0) ∅))).

Lemma sample_layout : layout sample_base sample_table sample_buf (λ _, False).
Proof.
  unfold sample_base, sample_table, sample_buf, sizeof_cmd_header, sizeof_cmd_tbl.
  split; unfold sizeof_cmd_header, sizeof_cmd_tbl; try lia; done.
Qed.

Lemma sample_ready : ready sample_base sample_table sample_buf (λ d, d = None)
  (sample_memory, @None (nat * command)).
Proof.
  split_and!; [done| |by_mapped 144%nat|by_mapped (Z.to_nat 8192)]. split.
  - by_mapped 32%nat.
  - exists 0. by vm_compute.
  - by vm_compute.
  - by_word.
  - by_word.
Qed.

Lemma sample_target : target sample_base sample_table sample_buf sample_memory 2 sample_dst.
Proof.
  split_and!; [by_mapped 1024%nat| |vm_compute; by right].
  intros a Ha. change (cell sample_base) with (MAIN_KERNEL_DMW + 0x1000).
  change (cell sample_table) with (MAIN_KERNEL_DMW + 0x2000).
  unfold sample_dst, sizeof_cmd_header, sizeof_cmd_tbl in *. lia.
Qed.

Lemma read_block_correct_witness : ∃ k, ∀ fuel, (k < fuel)%nat → ∃ m' d',
  read_block (cell sample_buf) fuel 0 0 5 sample_dst (sample_memory, None) = Ok (0, (m', d')) ∧
  mem_at m' sample_dst (replicate 512 10 ++ replicate 512 11) ∧
  ready sample_base sample_table sample_buf (λ d, d = None) (m', d') ∧
  changes (λ a, touched sample_base sample_table sample_buf (λ _, False) 2 a ∨
                sample_dst ≤ a < sample_dst + 1024) sample_memory m'.
Proof.
  apply (read_block_correct 0 0 sample_base sample_table sample_buf sample_disk (λ _, False)
    (λ d, d = None) (λ k c d, d = Some (k, c)) sample_healthy sample_layout).
  - apply sample_ready.
  - done.
  - intros s. apply Forall_replicate. unfold byte. apply Z.mod_pos_bound. done.
  - apply sample_target.
Defined.

(** Registers of a controller with drives on the ports 0, 1 and 3. *)
Definition sample_regs (pi_value r : Z) : Z :=
  if r =? pi 0 then pi_value
  else if (r =? ssts (ports 0 0)) || (r =? ssts (ports 0 1)) || (r =? ssts (ports 0 3)) then 0x113
  else 0.
Definition sample_static (v : Z) : Hba unit := {|
  hba_read r s := (sample_regs v r, s);
  hba_write _ _ s := s
|}.

Lemma ahic_probe_port_correct_witness :
  @ahic_probe_port unit (sample_static 0xB) 0 (∅, tt) = Ok (1, (∅, tt)) ∧
  @ahic_probe_port unit (sample_static 0xA) 0 (∅, tt) = Ok (-1, (∅, tt)).
Proof.
  split.
  - rewrite (@ahic_probe_port_correct unit (sample_static 0xB) (sample_regs 0xB)); [done..|].
    intros r. unfold sample_regs. repeat case_match; lia.
  - rewrite (@ahic_probe_port_correct unit (sample_static 0xA) (sample_regs 0xA)); [done..|].
    intros r. unfold sample_regs. repeat case_match; lia.
Defined.

Lemma read_block_stale_witness :
  @read_block unit (sample_static 0) (cell sample_buf) 1 0 0 5 sample_dst (sample_memory, tt) =
    Ok (0, (write_bytes sample_dst (replicate 1024 7) sample_memory, tt)).
Proof.
  refine (proj1 (@read_block_stale unit (sample_static 0) 1 0 0 5 sample_dst sample_memory tt
    (cell sample_buf) (replicate 1024 7) _ _ _ _ _ _ _)).
  - intros r s. split; [done|]. intros ->. done.
  - done.
  - by apply (read_bytes_Some 1024); vm_compute.
  - done.
  - by apply Forall_replicate.
  - by_mapped 1024%nat.
  - vm_compute. by right.
Defined.
