(* ===== verification/Uart.v ===== *)
(** * driver/uart.c: the console

    The device is the sequence of results of polling the line status register:
    [None] for no data, [Some k] for a key.  Output is the list of characters
    written.  [getstr] fills the static array [getstr_buf] of 128 bytes; a
    write behind it is a [Fault] at its index. *)

From S2P Require Import Prelude.

Record uart := { rx : list (option Z); tx : list Z; getstr_buf : list Z }.

Definition putch (c : Z) : M uart unit :=
  modify (λ u, {| rx := rx u; tx := tx u ++ [u8 c]; getstr_buf := getstr_buf u |}).

Fixpoint putstr (s : list Z) : M uart unit :=
  match s with [] => mret tt | c :: s => putch c;; putstr s end.

(** No more polls to come is the wait for a key that is never pressed. *)
Definition getch : M uart Z := λ u,
  match rx u with
  | [] => Err Fuel
  | k :: ks =>
      Ok (match k with Some key => if key =? 13 then 10 else key | None => -1 end,
          {| rx := ks; tx := tx u; getstr_buf := getstr_buf u |})
  end.

Definition buf_set (i c : Z) : M uart unit := λ u,
  if (0 <=? i) && (i <? Z.of_nat (length (getstr_buf u)))
  then Ok (tt, {| rx := rx u; tx := tx u; getstr_buf := <[Z.to_nat i := u8 c]> (getstr_buf u) |})
  else Err (Fault i).

(** The [while] loop: the position of [p], what is left of [count], and the last [c]. *)
Fixpoint getstr_loop (fuel : nat) (p count c : Z) : M uart (Z * Z * Z) :=
  if count =? 0 then mret (p, count, c)
  else match fuel with
       | O => fail Fuel
       | S fuel =>
           c ← getch;
           if c =? 10 then mret (p, count, c)
           else if c =? -1 then getstr_loop fuel p count c
           else buf_set p c;;
                (if 1 <? count then putch c else mret tt);;
                getstr_loop fuel (p + 1) (count - 1) c
       end.

(** The result is the string in [getstr_buf]. *)
Definition getstr (count : Z) : M uart (list Z) :=
  let count := if count <? 128 then count else 128 in
  fuel ← gets (λ u, S (length (rx u)));
  r ← getstr_loop fuel 0 count 0;
  let '(p, count, c) := r in
  p ← (if c =? 10
       then buf_set p 10;; (if 1 <? count then putch 10 else mret tt);; mret (p + 1)
       else mret p);
  buf_set p 0;;
  gets getstr_buf.

Section properties.
(** A printable key: a byte that is no line end. *)
Definition key (c : Z) : Prop := 0 < c < 256 ∧ c ≠ 10 ∧ c ≠ 13.

Lemma getch_key c ks o b : key c →
  getch {| rx := Some c :: ks; tx := o; getstr_buf := b |} =
    Ok (c, {| rx := ks; tx := o; getstr_buf := b |}).
Proof. intros (_ & _ & H). unfold getch. simpl. by destruct (Z.eqb_spec c 13). Qed.

Lemma buf_set_ok i c r o b : 0 ≤ i < Z.of_nat (length b) →
  buf_set i c {| rx := r; tx := o; getstr_buf := b |} =
    Ok (tt, {| rx := r; tx := o; getstr_buf := <[Z.to_nat i := u8 c]> b |}).
Proof.
  intros Hi. unfold buf_set. simpl.
  destruct (Z.leb_spec 0 i), (Z.ltb_spec i (Z.of_nat (length b))); simpl; done || lia.
Qed.

(** The loop takes keys into the buffer and echoes them. *)
Lemma getstr_loop_keys cs : ∀ pre mid rest ks o c0 count f, Forall key cs →
  length mid = length cs → Z.of_nat (length cs) < count →
  getstr_loop (length cs + f) (Z.of_nat (length pre)) count c0
      {| rx := (Some <$> cs) ++ ks; tx := o; getstr_buf := pre ++ mid ++ rest |} =
    getstr_loop f (Z.of_nat (length (pre ++ cs))) (count - Z.of_nat (length cs)) (default c0 (last cs))
      {| rx := ks; tx := o ++ cs; getstr_buf := pre ++ cs ++ rest |}.
Proof.
  induction cs as [|c cs IH]; intros pre mid rest ks o c0 count f Hk Hmid Hc.
  - destruct mid; [|done]. simpl. by rewrite !app_nil_r, Z.sub_0_r.
  - destruct mid as [|x mid]; [done|]. apply Forall_cons in Hk as [Hk Hks].
    cbn [length] in *. specialize (IH (pre ++ [c]) mid rest ks (o ++ [c]) c (count - 1) f Hks
      ltac:(lia) ltac:(lia)). simpl. destruct (Z.eqb_spec count 0); [lia|].
    rewrite (bind_ok _ _ _ _ _ (getch_key c _ _ _ Hk)). destruct Hk as (Hcb & Hc10 & Hc13).
    destruct (Z.eqb_spec c 10); [done|]. destruct (Z.eqb_spec c (-1)); [lia|].
    assert (u8 c = c) as Hu by (apply wrap_id; lia).
    rewrite (bind_ok _ _ _ tt {| rx := (Some <$> cs) ++ ks; tx := o;
      getstr_buf := (pre ++ [c]) ++ mid ++ rest |}).
    2: { rewrite buf_set_ok by (rewrite !length_app; simpl; lia).
         rewrite Nat2Z.id, Hu. do 3 f_equal.
         rewrite insert_app_r_alt by lia. rewrite Nat.sub_diag. simpl. by rewrite <- app_assoc. }
    destruct (Z.ltb_spec 1 count); [|lia].
    rewrite (bind_ok _ _ _ tt {| rx := (Some <$> cs) ++ ks; tx := o ++ [c];
      getstr_buf := (pre ++ [c]) ++ mid ++ rest |}).
    2: { unfold putch, modify. simpl. by rewrite Hu. }
    replace (Z.of_nat (length pre) + 1) with (Z.of_nat (length (pre ++ [c])))
      by (rewrite length_app; simpl; lia).
    rewrite IH, <- !app_assoc. f_equal; [cbn [length]; lia|].
    clear. destruct cs as [|x cs _] using rev_ind; [done|]. by rewrite app_comm_cons, !last_snoc.
Qed.

Lemma buffer_split (b : list Z) n : (n ≤ length b)%nat → ∃ mid rest, b = mid ++ rest ∧ length mid = n.
Proof. intros Hn. exists (take n b), (drop n b). rewrite take_drop, length_take. split; [done|lia]. Qed.

(** [getstr] returns a typed line.  A line of at most 126 printable keys, shorter than
    [count], ends up in the buffer followed by a newline and a NUL, the keys are echoed, and
    exactly the line is consumed from the device. *)
Theorem getstr_line cs ks o b count : Forall key cs → length b = 128%nat →
  Z.of_nat (length cs) < count → (length cs ≤ 126)%nat →
  ∃ b', getstr count {| rx := (Some <$> cs) ++ Some 13 :: ks; tx := o; getstr_buf := b |} =
      Ok (b', {| rx := ks;
                 tx := o ++ cs ++ (if 1 <? Z.min count 128 - Z.of_nat (length cs) then [10] else []);
                 getstr_buf := b' |}) ∧
    take (length cs + 2) b' = cs ++ [10; 0].
Proof.
  intros Hk Hb Hc Hlen. destruct (buffer_split b (length cs)) as (mid & rest & -> & Hmid); [lia|].
  rewrite length_app in Hb. destruct rest as [|r0 [|r1 rest]]; [simpl in Hb; lia..|].
  set (cnt := if count <? 128 then count else 128).
  assert (cnt = Z.min count 128) as Hcnt by (unfold cnt; zcases).
  exists (cs ++ 10 :: 0 :: rest). split.
  2: { change (cs ++ 10 :: 0 :: rest) with (cs ++ [10; 0] ++ rest). rewrite app_assoc, take_app_length'; [done|].
       rewrite length_app. simpl. lia. }
  unfold getstr. fold cnt. rewrite (bind_ok _ _ _ (S (length ((Some <$> cs) ++ Some 13 :: ks)))
    {| rx := (Some <$> cs) ++ Some 13 :: ks; tx := o; getstr_buf := mid ++ r0 :: r1 :: rest |}) by done.
  replace (S (length ((Some <$> cs) ++ Some 13 :: ks))) with (length cs + S (S (length ks)))%nat
    by (rewrite length_app, length_fmap; simpl; lia).
  pose proof (getstr_loop_keys cs [] mid (r0 :: r1 :: rest) (Some 13 :: ks) o 0 cnt (S (S (length ks))) Hk Hmid
    ltac:(lia)) as E. cbn [app length] in E. change (Z.of_nat 0) with 0 in E.
  assert (getstr_loop (S (S (length ks))) (Z.of_nat (length cs)) (cnt - Z.of_nat (length cs))
    (default 0 (last cs)) {| rx := Some 13 :: ks; tx := o ++ cs; getstr_buf := cs ++ r0 :: r1 :: rest |} =
    Ok ((Z.of_nat (length cs), cnt - Z.of_nat (length cs), 10),
        {| rx := ks; tx := o ++ cs; getstr_buf := cs ++ r0 :: r1 :: rest |})) as E'.
  { cbn [getstr_loop]. destruct (Z.eqb_spec (cnt - Z.of_nat (length cs)) 0); [lia|done]. }
  rewrite E' in E. rewrite (bind_ok _ _ _ _ _ E). rewrite Z.eqb_refl.
  assert (∀ x y zs, <[length cs := x]> (cs ++ y :: zs) = cs ++ x :: zs) as Hins.
  { intros x y zs. rewrite insert_app_r_alt by lia. by rewrite Nat.sub_diag. }
  set (echo := if 1 <? cnt - Z.of_nat (length cs) then [10] else []).
  rewrite (bind_ok _ _ _ (Z.of_nat (length cs) + 1)
    {| rx := ks; tx := o ++ cs ++ echo; getstr_buf := cs ++ 10 :: r1 :: rest |}).
  2: { rewrite (bind_ok _ _ _ tt {| rx := ks; tx := o ++ cs; getstr_buf := cs ++ 10 :: r1 :: rest |}).
       2: { rewrite buf_set_ok by (rewrite length_app; simpl; lia). by rewrite Nat2Z.id, Hins. }
       rewrite (bind_ok _ _ _ tt {| rx := ks; tx := o ++ cs ++ echo; getstr_buf := cs ++ 10 :: r1 :: rest |}); [done|].
       unfold echo. destruct (1 <? _); [|by rewrite app_nil_r].
       unfold putch, modify. simpl. by rewrite <- app_assoc. }
  rewrite (bind_ok _ _ _ tt {| rx := ks; tx := o ++ cs ++ echo; getstr_buf := cs ++ 10 :: 0 :: rest |}).
  2: { rewrite buf_set_ok by (rewrite length_app; simpl; lia). do 3 f_equal.
       replace (Z.to_nat (Z.of_nat (length cs) + 1)) with (length (cs ++ [10])) by (rewrite length_app; simpl; lia).
       change (cs ++ 10 :: r1 :: rest) with (cs ++ [10] ++ r1 :: rest). rewrite app_assoc.
       rewrite insert_app_r_alt by lia. rewrite Nat.sub_diag. simpl. by rewrite <- app_assoc. }
  unfold gets, echo. simpl. by rewrite Hcnt.
Qed.

(** C39: [getstr] overruns its buffer.  After 127 keys of a request for 128 or more characters,
    any further key, the line end included, makes the final NUL go to [getstr_buf[128]], one
    byte behind the array. *)
Theorem getstr_overrun cs k ks o b count : Forall key cs → length b = 128%nat →
  length cs = 127%nat → 128 ≤ count → 0 < k < 256 →
  getstr count {| rx := (Some <$> cs) ++ Some k :: ks; tx := o; getstr_buf := b |} = Err (Fault 128).
Proof.
  intros Hk Hb Hlen Hc Hkb. destruct (buffer_split b 127) as (mid & rest & -> & Hmid); [lia|].
  rewrite length_app in Hb. destruct rest as [|r0 [|]]; [simpl in Hb; lia| |simpl in Hb; lia].
  unfold getstr. assert ((if count <? 128 then count else 128) = 128) as -> by zcases.
  rewrite (bind_ok _ _ _ (S (length ((Some <$> cs) ++ Some k :: ks)))
    {| rx := (Some <$> cs) ++ Some k :: ks; tx := o; getstr_buf := mid ++ [r0] |}) by done.
  replace (S (length ((Some <$> cs) ++ Some k :: ks))) with (length cs + S (S (length ks)))%nat
    by (rewrite length_app, length_fmap; simpl; lia).
  pose proof (getstr_loop_keys cs [] mid [r0] (Some k :: ks) o 0 128 (S (S (length ks))) Hk
    ltac:(lia) ltac:(lia)) as E. cbn [app length] in E. change (Z.of_nat 0) with 0 in E.
  rewrite Hlen in E |- *. change (128 - Z.of_nat 127) with 1 in E.
  assert (∃ p cnt c u, getstr_loop (S (S (length ks))) (Z.of_nat 127) 1
    (default 0 (last cs)) {| rx := Some k :: ks; tx := o ++ cs; getstr_buf := cs ++ [r0] |} =
    Ok ((p, cnt, c), u) ∧ length (getstr_buf u) = 128%nat ∧
    (c = 10 ∧ p = 127 ∧ cnt = 1 ∨ c ≠ 10 ∧ p = 128)) as (p & cnt & c & u & E' & Hu & Hcase).
  { cbn [getstr_loop]. change (1 =? 0) with false. cbn [negb].
    set (key := if k =? 13 then 10 else k).
    rewrite (bind_ok _ _ _ key {| rx := ks; tx := o ++ cs; getstr_buf := cs ++ [r0] |}) by done.
    destruct (Z.eqb_spec key 10) as [Hk10|Hk10].
    - eexists _, _, _, _. split; [done|]. simpl. rewrite length_app. simpl. split; [lia|]. left. done.
    - assert (key ≠ -1) by (unfold key; destruct (k =? 13); lia).
      destruct (Z.eqb_spec key (-1)); [done|].
      rewrite (bind_ok _ _ _ tt {| rx := ks; tx := o ++ cs;
        getstr_buf := <[Z.to_nat (Z.of_nat 127) := u8 key]> (cs ++ [r0]) |}).
      2: { apply buf_set_ok. rewrite length_app. simpl. lia. }
      rewrite (bind_ok _ _ _ tt {| rx := ks; tx := o ++ cs;
        getstr_buf := <[Z.to_nat (Z.of_nat 127) := u8 key]> (cs ++ [r0]) |}) by done.
      eexists _, _, _, _. split; [done|]. cbn [getstr_buf]. rewrite length_insert, length_app. simpl.
      split; [lia|]. right. done. }
  rewrite E' in E. rewrite (bind_ok _ _ _ _ _ E).
  assert (∀ u', length (getstr_buf u') = 128%nat → buf_set 128 0 u' = Err (Fault 128)) as Hfault.
  { intros u' Hu'. unfold buf_set. by rewrite Hu'. }
  destruct Hcase as [(-> & -> & ->)|(Hc10 & ->)].
  - rewrite Z.eqb_refl. rewrite (bind_ok _ _ _ 128
      {| rx := rx u; tx := tx u; getstr_buf := <[127%nat := 10]> (getstr_buf u) |}).
    2: { unfold buf_set, mbind, M_bind. rewrite Hu. done. }
    apply bind_err, Hfault. simpl. by rewrite length_insert.
  - destruct (Z.eqb_spec c 10); [done|]. rewrite (bind_ok _ _ _ 128 u) by done.
    by apply bind_err, Hfault.
Qed.
End properties.

Lemma getstr_line_witness : ∃ b',
  getstr 100 {| rx := [Some 108; Some 115; Some 13]; tx := []; getstr_buf := replicate 128 0 |} =
    Ok (b', {| rx := []; tx := [108; 115; 10]; getstr_buf := b' |}) ∧ take 4 b' = [108; 115; 10; 0].
Proof. apply (getstr_line [108; 115] [] [] (replicate 128 0) 100); [repeat constructor; done|done..|simpl; lia]. Defined.

Lemma getstr_overrun_witness :
  getstr 200 {| rx := replicate 127 (Some 97) ++ [Some 13]; tx := []; getstr_buf := replicate 128 0 |} =
    Err (Fault 128).
Proof.
  apply (getstr_overrun (replicate 127 97) 13 [] [] (replicate 128 0) 200); try done.
  apply Forall_replicate. done.
Defined.
