(* ===== verification/Stdio.v ===== *)
(** * lolibc/stdio.c: formatted output

    [_itoa], [_uatoi] and [vsprintf] on the byte memory.  The arguments of a call
    are a list of 64-bit values, as [va_arg] takes them one after the other; the
    local buffers of [vsprintf] and [printf] are addresses the model gets as
    arguments.  [format] says what a format string stands for, and
    [vsprintf_correct] that the code writes it. *)

From S2P Require Import Prelude Mem CString Uart.

(** ** The program *)
Definition _itoa_table : list Z := [48; 49; 50; 51; 52; 53; 54; 55; 56; 57; 65; 66; 67; 68; 69; 70].

Definition to_upper (c : Z) : Z := if (97 <=? c) && (c <=? 122) then c - 97 + 65 else c.

Fixpoint table_index (n : nat) (i : Z) (t : list Z) (ch : Z) : Z :=
  match n, t with
  | S n, x :: t => if ch =? x then i else table_index n (i + 1) t ch
  | _, _ => -1
  end.

Definition get_itoa_table_index (ch len : Z) : Z :=
  let max_len := if len <? 16 then len else 16 in table_index (Z.to_nat max_len) 0 _itoa_table ch.

(** The digits from the last one on; a value of 64 bits has at most 20. *)
Fixpoint uitoa_digits (fuel : nat) (value dst radix : Z) : M mem Z :=
  if value =? 0 then mret dst
  else match fuel with
       | O => fail Fuel
       | S fuel =>
           store8 dst (_itoa_table !!! Z.to_nat (value mod radix));;
           uitoa_digits fuel (value / radix) (dst + 1) radix
       end.

Fixpoint swap_loop (fuel : nat) (pre last : Z) : M mem unit :=
  if pre <? last
  then match fuel with
       | O => fail Fuel
       | S fuel =>
           tmp ← load8 pre; l ← load8 last; store8 pre l;; store8 last tmp;;
           swap_loop fuel (pre + 1) (last - 1)
       end
  else mret tt.

Definition _uitoa (value string radix : Z) : M mem Z :=
  if negb (radix =? 10) && negb (radix =? 16) then fail Halt
  else if value =? 0 then store8 string 48;; store8 (string + 1) 0;; mret 2
  else
    dst ← uitoa_digits 20 value string radix;
    swap_loop (Z.to_nat (dst - string)) string (dst - 1);;
    store8 dst 0;;
    mret (dst + 1 - string).

(** [value = -value] on a signed 64-bit integer: the least one has no negation
    ("INT_MIN overflow" in the source). *)
Definition negate (value : Z) : M mem Z := if value =? - 2 ^ 63 then fail Overflow else mret (- value).

Definition _itoa (value string radix : Z) : M mem Z :=
  if negb (radix =? 10) then fail Halt
  else if value <? 0
  then store8 string 45;; v ← negate value; n ← _uitoa (u64 v) (string + 1) radix; mret (1 + n)
  else _uitoa (u64 value) string radix.

Fixpoint uatoi_loop (fuel : nat) (s radix value : Z) : M mem (Z * Z) :=
  match fuel with
  | O => fail Fuel
  | S fuel =>
      c ← load8 s;
      let bit_value := get_itoa_table_index (to_upper c) radix in
      if 0 <=? bit_value
      then uatoi_loop fuel (s + 1) radix (u64 (u64 (value * radix) + bit_value))
      else mret (s, value)
  end.

(** The number of characters and [*result]. *)
Definition _uatoi (string radix : Z) : M mem (Z * Z) :=
  if negb (radix =? 10) && negb (radix =? 16) then fail Halt
  else fuel ← gets fuel_of; r ← uatoi_loop fuel string radix 0; mret (r.1 - string, r.2).

Inductive fmt_flag := FLAG_NOP | FLAG_ZERO | FLAG_LEFT.
#[export] Instance fmt_flag_eq_dec : EqDecision fmt_flag.
Proof. solve_decision. Defined.

Definition flag_of (c : Z) : option (fmt_flag * Z) :=
  if (c =? 43) || (c =? 32) || (c =? 35) then None
  else if c =? 48 then Some (FLAG_ZERO, 1)
  else if c =? 45 then Some (FLAG_LEFT, 1) else Some (FLAG_NOP, 0).

Definition get_fmt_flag (fmt : Z) : M mem (fmt_flag * Z) :=
  c ← load8 fmt; match flag_of c with Some r => mret r | None => panic end.

(** [while (remain-- > 0) *dst++ = c], and [strcpy] of a literal. *)
Fixpoint fill (n : nat) (dst c : Z) : M mem unit :=
  match n with O => mret tt | S n => store8 dst c;; fill n (dst + 1) c end.
Fixpoint store_chars (dst : Z) (l : list Z) : M mem unit :=
  match l with [] => mret tt | c :: l => store8 dst c;; store_chars (dst + 1) l end.

Definition copy_fmt_str (dst buf : Z) (flag : fmt_flag) (num : Z) : M mem Z :=
  buf_str_len ← strlen buf;
  let len := if num <? buf_str_len then buf_str_len else num in
  let remain := len - buf_str_len in
  match flag with
  | FLAG_NOP | FLAG_ZERO =>
      fill (Z.to_nat remain) dst (if decide (flag = FLAG_ZERO) then 48 else 32);;
      strcpy (dst + remain) buf;; mret len
  | FLAG_LEFT =>
      strcpy dst buf;; n ← strlen buf; fill (Z.to_nat remain) (dst + n) 32;; mret len
  end.

Definition null_str : list Z := [40; 110; 117; 108; 108; 41; 0].

(** One conversion: [buf] filled from the arguments; the rest of them and [dst], which [%p]
    advances.  [%u] prints in base 16 like [%x]: the code compares [c], which is the percent
    sign. *)
Definition convert (conv buf dst : Z) (ap : list Z) : M mem (Z * list Z) :=
  match ap with
  | [] => fail Uninit
  | a :: ap =>
      if conv =? 99 then store8 buf (u8 a);; store8 (buf + 1) 0;; mret (dst, ap)
      else if conv =? 115 then
        (if negb (a =? 0) then strcpy buf a;; mret tt else store_chars buf null_str);; mret (dst, ap)
      else if conv =? 100 then _itoa (s64 a) buf 10;; mret (dst, ap)
      else if conv =? 112 then
        store8 dst 48;; store8 (dst + 1) 120;; _uitoa (u64 a) buf 16;; mret (dst + 2, ap)
      else _uitoa (u64 a) buf 16;; mret (dst, ap)
  end.

Definition is_conv (c : Z) : bool :=
  (c =? 99) || (c =? 115) || (c =? 100) || (c =? 112) || (c =? 117) || (c =? 120).

(** [buf] is the local array of 512 bytes. *)
Fixpoint vsprintf_loop (fuel : nat) (dst fmt buf : Z) (ap : list Z) : M mem Z :=
  match fuel with
  | O => fail Fuel
  | S fuel =>
      c ← load8 fmt;
      if c =? 0 then mret dst
      else if c =? 37 then
        let fmt := fmt + 1 in
        '(flag, n) ← get_fmt_flag fmt;
        let fmt := fmt + n in
        '(n, width) ← _uatoi fmt 10;
        let fmt := fmt + n in
        conv ← load8 fmt;
        if negb (is_conv conv) then fail Halt
        else
          '(dst, ap) ← convert conv buf dst ap;
          n ← copy_fmt_str dst buf flag (s32 width);
          vsprintf_loop fuel (dst + n) (fmt + 1) buf ap
      else store8 dst c;; vsprintf_loop fuel (dst + 1) (fmt + 1) buf ap
  end.

Definition vsprintf (buf out fmt : Z) (ap : list Z) : M mem Z :=
  fuel ← gets fuel_of;
  dst ← vsprintf_loop fuel out fmt buf ap;
  store8 dst 0;;
  mret (dst + 1 - out).

Definition sprintf := vsprintf.

(** [out] is the local array of 512 bytes of [printf], [buf] that of [vsprintf]. *)
Definition printf (buf out fmt : Z) (ap : list Z) : M (mem * uart) Z :=
  result ← zoom fst (λ m s, (m, s.2)) (vsprintf buf out fmt ap);
  n ← zoom fst (λ m s, (m, s.2)) (strlen out);
  l ← gets (λ s, read_bytes (Z.to_nat n) out s.1);
  match l with
  | Some l => zoom snd (λ u s, (s.1, u)) (putstr l);; mret result
  | None => fail (Fault out)
  end.

(** ** Numbers in decimal and hexadecimal *)
Definition digit (d : Z) : Z := _itoa_table !!! Z.to_nat d.
Definition radix_ok (r : Z) : Prop := r = 10 ∨ r = 16.

(** The digits of [v], the last one first, and as they are written. *)
Fixpoint le_digits (fuel : nat) (v r : Z) : list Z :=
  match fuel with
  | O => []
  | S fuel => if v =? 0 then [] else digit (v mod r) :: le_digits fuel (v / r) r
  end.
Definition digits (v r : Z) : list Z := if v =? 0 then [48] else reverse (le_digits 20 v r).

(** The value of a character, and of a string of digits. *)
Definition char_value (r c : Z) : Z := get_itoa_table_index (to_upper c) r.
Definition number (r : Z) (acc : Z) (s : list Z) : Z := foldl (λ a c, a * r + char_value r c) acc s.

Lemma digit_value r d : radix_ok r → 0 ≤ d < r → char_value r (digit d) = d ∧ 48 ≤ digit d < 71.
Proof.
  intros [-> | ->] Hd; unfold char_value; [by_enum d 0 10|by_enum d 0 16].
Qed.

Lemma le_digits_value fuel r v : radix_ok r → 0 ≤ v < r ^ Z.of_nat fuel →
  foldr (λ c a, a * r + char_value r c) 0 (le_digits fuel v r) = v.
Proof.
  intros Hr. assert (0 < r) by (destruct Hr; lia). revert v.
  induction fuel as [|fuel IH]; intros v Hv; cbn [le_digits]; [simpl in *; lia|].
  destruct (Z.eqb_spec v 0) as [->|]; [done|]. cbn [foldr].
  rewrite IH.
  - rewrite (proj1 (digit_value r (v mod r) Hr (Z.mod_pos_bound v r ltac:(lia)))).
    pose proof (Z.div_mod v r). lia.
  - rewrite Nat2Z.inj_succ, Z.pow_succ_r in Hv by lia. split; [apply Z.div_pos; lia|].
    apply Z.div_lt_upper_bound; lia.
Qed.

Lemma le_digits_chars fuel r v : radix_ok r → Forall (λ c, 48 ≤ c < 71 ∧ 0 ≤ char_value r c) (le_digits fuel v r).
Proof.
  intros Hr. assert (0 < r) by (destruct Hr; lia). revert v.
  induction fuel as [|fuel IH]; intros v; cbn [le_digits]; [constructor|].
  destruct (v =? 0); [constructor|]. constructor; [|done].
  destruct (digit_value r (v mod r) Hr (Z.mod_pos_bound v r ltac:(lia))) as [-> ?]. split; [done|].
  by apply Z.mod_pos_bound.
Qed.

Lemma foldl_reverse {A B} (f : A → B → A) a l : foldl f a (reverse l) = foldr (λ b a, f a b) a l.
Proof. induction l as [|b l IH]; [done|]. by rewrite reverse_cons, foldl_app, IH. Qed.

Lemma digits_value r v : radix_ok r → 0 ≤ v < 2 ^ 64 → number r 0 (digits v r) = v.
Proof.
  intros Hr Hv. unfold digits, number. destruct (Z.eqb_spec v 0) as [->|].
  - by destruct Hr as [-> | ->].
  - rewrite foldl_reverse. apply le_digits_value; [done|].
    destruct Hr as [-> | ->]; split; try lia; eapply Z.lt_le_trans; try apply Hv; by vm_compute.
Qed.

Lemma digits_chars r v : radix_ok r → Forall (λ c, 48 ≤ c < 71 ∧ 0 ≤ char_value r c) (digits v r).
Proof.
  intros Hr. unfold digits. destruct (v =? 0).
  - constructor; [|constructor]. split; [lia|]. by destruct Hr as [-> | ->].
  - apply Forall_reverse. by apply le_digits_chars.
Qed.

Lemma digits_length v r : (length (digits v r) ≤ 20)%nat.
Proof.
  assert (∀ f v, (length (le_digits f v r) ≤ f)%nat) as L.
  { intros f. induction f as [|f IH]; intros w; cbn [le_digits]; [done|]. destruct (w =? 0); simpl; [lia|].
    specialize (IH (w / r)). lia. }
  unfold digits. destruct (v =? 0); [simpl; lia|]. rewrite length_reverse. apply L.
Qed.

Lemma le_digits_bytes fuel v r : radix_ok r → bytes (le_digits fuel v r).
Proof. intros Hr. eapply Forall_impl; [by apply le_digits_chars|]. unfold byte. simpl. lia. Qed.

Lemma uitoa_digits_ok fuel v dst r m : radix_ok r → 0 ≤ v < r ^ Z.of_nat fuel →
  mapped m dst (Z.of_nat (length (le_digits fuel v r))) →
  uitoa_digits fuel v dst r m =
    Ok (dst + Z.of_nat (length (le_digits fuel v r)), write_bytes dst (le_digits fuel v r) m).
Proof.
  intros Hr. assert (0 < r) by (destruct Hr; lia). revert v dst m.
  induction fuel as [|fuel IH]; intros v dst m Hv Hm; cbn [uitoa_digits le_digits] in *.
  - assert (v = 0) as -> by (simpl in Hv; lia). simpl. by rewrite Z.add_0_r.
  - destruct (Z.eqb_spec v 0) as [->|]; [simpl; by rewrite Z.add_0_r|]. cbn [length] in Hm.
    destruct (digit_value r (v mod r) Hr (Z.mod_pos_bound v r ltac:(lia))) as [_ Hd]. unfold digit in Hd.
    assert (is_Some (m !! dst)) as Hdst by (apply Hm; lia).
    rewrite (bind_ok _ _ _ tt (<[dst := digit (v mod r)]> m)).
    2:{ rewrite store8_ok by done. unfold digit. by rewrite Z.mod_small by lia. }
    rewrite IH.
    + cbn [length write_bytes]. do 2 f_equal. lia.
    + rewrite Nat2Z.inj_succ, Z.pow_succ_r in Hv by lia. split; [apply Z.div_pos; lia|].
      apply Z.div_lt_upper_bound; lia.
    + intros x Hx. rewrite lookup_insert. case_decide; [eauto|]. apply Hm. lia.
Qed.

(** Swapping from both ends reverses a run in place. *)
Lemma swap_loop_ok fuel l a m : mem_at m a l → bytes l → (length l ≤ fuel)%nat →
  ∃ m', swap_loop fuel a (a + Z.of_nat (length l) - 1) m = Ok (tt, m') ∧ mem_at m' a (reverse l) ∧
    changes (λ x, a ≤ x < a + Z.of_nat (length l)) m m'.
Proof.
  revert l a m. induction fuel as [|fuel IH]; intros l a m Hm Hb Hl.
  { destruct l; [|simpl in Hl; lia]. exists m. cbn [swap_loop length]. zcases. split_and!; done. }
  destruct l as [|x l] using rev_ind; [|clear IHl; destruct l as [|y l]].
  - exists m. cbn [swap_loop length]. zcases. split_and!; done.
  - exists m. cbn [swap_loop length app]. zcases. split_and!; done.
  - cbn [app] in *. apply Forall_cons in Hb as [Hy [Hb Hx]%Forall_app]. apply Forall_cons in Hx as [Hx _].
    unfold byte in Hx, Hy. cbn [length] in *. rewrite length_app in *. cbn [length] in *.
    replace (a + Z.of_nat (S (length l + 1)) - 1) with (a + 1 + Z.of_nat (length l)) by lia.
    apply mem_at_cons in Hm as [Ma [Ml Mx]%mem_at_app]. apply mem_at_cons in Mx as [Mx _].
    set (z := a + 1 + Z.of_nat (length l)) in *. cbn [swap_loop]. destruct (Z.ltb_spec a z); [|lia].
    rewrite (bind_ok _ _ _ _ _ (load8_ok _ _ _ Ma)), (bind_ok _ _ _ _ _ (load8_ok _ _ _ Mx)).
    set (m1 := <[z := y]> (<[a := x]> m)).
    rewrite (bind_ok _ _ _ tt (<[a := x]> m)) by (rewrite store8_ok by eauto; by rewrite Z.mod_small by lia).
    rewrite (bind_ok _ _ _ tt m1).
    2:{ rewrite store8_ok by (rewrite lookup_insert_ne by lia; eauto). by rewrite Z.mod_small by lia. }
    destruct (IH l (a + 1) m1) as (m' & E & Hm' & [Hd HC]); [|done|lia|].
    { intros i b Hi. unfold m1. apply lookup_lt_Some in Hi as Hlt. rewrite !lookup_insert_ne by lia. by apply Ml. }
    replace (a + 1 + Z.of_nat (length l) - 1) with (z - 1) in E by lia.
    exists m'. rewrite E. split_and!; [done| |].
    + rewrite reverse_cons, reverse_snoc. cbn [app]. apply mem_at_cons. split.
      { rewrite HC by lia. unfold m1. rewrite lookup_insert_ne by lia. apply lookup_insert_eq. }
      apply mem_at_app. split; [done|]. rewrite length_reverse. apply mem_at_cons. split; [|apply mem_at_nil].
      fold z. rewrite HC by lia. apply lookup_insert_eq.
    + split.
      * rewrite Hd. unfold m1. rewrite !insert_dom; [done|eauto|].
        rewrite lookup_insert_ne by lia. eauto.
      * intros w Hw. rewrite HC by lia. unfold m1. by rewrite !lookup_insert_ne by lia.
Qed.

Lemma uitoa_ok v a r m : radix_ok r → 0 ≤ v < 2 ^ 64 →
  mapped m a (Z.of_nat (length (digits v r)) + 1) →
  ∃ m', _uitoa v a r m = Ok (Z.of_nat (length (digits v r)) + 1, m') ∧ cstr m' a (digits v r) ∧
    changes (λ x, a ≤ x < a + Z.of_nat (length (digits v r)) + 1) m m'.
Proof.
  intros Hr Hv Hm. pose proof (digits_chars r v Hr) as Hc. unfold _uitoa, cstr.
  assert (negb (r =? 10) && negb (r =? 16) = false) as -> by by destruct Hr as [-> | ->].
  assert (chars (digits v r)) as Hch by (eapply Forall_impl; [done|simpl; lia]).
  revert Hm Hc Hch. unfold digits. destruct (Z.eqb_spec v 0) as [->|Hnz]; intros Hm Hc Hch.
  - simpl in Hm. rewrite (bind_ok _ _ _ tt (<[a := 48]> m)) by by (rewrite store8_ok by (apply Hm; lia)).
    assert (is_Some (m !! (a + 1))) by (apply Hm; lia).
    rewrite (bind_ok _ _ _ tt (<[a + 1 := 0]> (<[a := 48]> m))).
    2:{ by rewrite store8_ok by (rewrite lookup_insert_ne by lia; done). }
    eexists. split_and!; [done| |done|].
    + cbn [app]. rewrite !mem_at_cons. split_and!; [|apply lookup_insert_eq|apply mem_at_nil].
      rewrite lookup_insert_ne by lia. apply lookup_insert_eq.
    + change (<[a + 1 := 0]> (<[a := 48]> m)) with (write_bytes a [48; 0] m). apply changes_write; [done|simpl; lia].
  - set (l := le_digits 20 v r) in *. rewrite length_reverse in *.
    assert (mapped m a (Z.of_nat (length l))) as Hml by (eapply mapped_sub; [done|lia..]).
    assert (v < r ^ Z.of_nat 20) as Hlt.
    { destruct Hr as [-> | ->]; eapply Z.lt_le_trans; try apply Hv; by vm_compute. }
    rewrite (bind_ok _ _ _ _ _ (uitoa_digits_ok 20 v a r m Hr ltac:(lia) Hml)).
    fold l. replace (Z.to_nat (a + Z.of_nat (length l) - a)) with (length l) by lia.
    destruct (swap_loop_ok (length l) l a (write_bytes a l m)) as (m1 & E1 & M1 & C1);
      [apply write_bytes_at|by apply le_digits_bytes|done|].
    rewrite (bind_ok _ _ _ _ _ E1).
    assert (changes (λ x, a ≤ x < a + Z.of_nat (length l) + 1) m m1) as C01.
    { eapply changes_trans; [apply changes_write|eapply changes_weaken; [|done]; simpl; lia]; [|simpl; lia].
      eapply mapped_sub; [done|lia..]. }
    set (e := a + Z.of_nat (length l)) in *.
    assert (is_Some (m1 !! e)) as He by (eapply (changes_mapped _ _ _ _ _ C01 Hm); lia).
    rewrite (bind_ok _ _ _ tt (<[e := 0]> m1)) by by rewrite store8_ok.
    exists (<[e := 0]> m1). split_and!; [unfold mret, M_ret; do 2 f_equal; lia| |done|].
    + apply mem_at_app. rewrite length_reverse. fold e. split.
      * intros i b Hi. rewrite lookup_insert_ne; [by apply M1|]. apply lookup_lt_Some in Hi.
        rewrite length_reverse in Hi. lia.
      * apply mem_at_cons. split; [apply lookup_insert_eq|apply mem_at_nil].
    + eapply changes_trans; [done|]. change (<[e := 0]> m1) with (write_bytes e [0] m1).
      apply changes_write; [|simpl; lia]. intros x Hx. simpl in Hx. by replace x with e by lia.
Qed.

(** A signed number in decimal. *)
Definition decimal (v : Z) : list Z := if v <? 0 then 45 :: digits (- v) 10 else digits v 10.

Lemma itoa_ok v a m : - 2 ^ 63 < v < 2 ^ 63 → mapped m a (Z.of_nat (length (decimal v)) + 1) →
  ∃ m', _itoa v a 10 m = Ok (Z.of_nat (length (decimal v)) + 1, m') ∧ cstr m' a (decimal v) ∧
    changes (λ x, a ≤ x < a + Z.of_nat (length (decimal v)) + 1) m m'.
Proof.
  intros Hv Hm. unfold _itoa, decimal in *. change (negb (10 =? 10)) with false. cbv iota.
  destruct (Z.ltb_spec v 0) as [Hn|Hn].
  - cbn [length] in *. assert (is_Some (m !! a)) by (apply Hm; lia).
    rewrite (bind_ok _ _ _ tt (<[a := 45]> m)) by by rewrite store8_ok.
    assert (changes (λ x, a ≤ x < a + 1) m (<[a := 45]> m)) as C1.
    { change (<[a := 45]> m) with (write_bytes a [45] m). apply changes_write; [|simpl; lia].
      intros x Hx. simpl in Hx. by replace x with a by lia. }
    rewrite (bind_ok _ _ _ (- v) (<[a := 45]> m)) by (unfold negate; by destruct (Z.eqb_spec v (- 2 ^ 63)); [lia|]).
    rewrite wrap_id by lia.
    destruct (uitoa_ok (- v) (a + 1) 10 (<[a := 45]> m)) as (m' & E & [Hc Hch] & C2); [by left|lia| |].
    { eapply changes_mapped; [done|]. eapply mapped_sub; [done|lia..]. }
    rewrite (bind_ok _ _ _ _ _ E). exists m'. split_and!.
    + unfold mret, M_ret. do 2 f_equal. lia.
    + apply cstr_cons. split_and!; [|lia|lia|done]. destruct C2 as [_ C2]. rewrite C2 by lia. apply lookup_insert_eq.
    + eapply changes_trans; (eapply changes_weaken; [|done]); simpl; lia.
  - rewrite wrap_id by lia. apply uitoa_ok; [by left|lia|done].
Qed.

(** [_uatoi] reads digits up to the first character that is none. *)
Lemma uatoi_loop_ok fuel l s r acc m c : radix_ok r → mem_at m s (l ++ [c]) → char_value r c < 0 →
  Forall (λ c, 0 ≤ char_value r c) l → 0 ≤ acc → number r acc l < 2 ^ 64 → (length l < fuel)%nat →
  uatoi_loop fuel s r acc m = Ok ((s + Z.of_nat (length l), number r acc l), m).
Proof.
  intros Hr. assert (0 < r) by (destruct Hr; lia).
  revert s acc fuel. induction l as [|d l IH]; intros s acc [|fuel] Hm Hc Hl Ha Hn Hf; try (simpl in Hf; lia);
    cbn [uatoi_loop app] in *; apply mem_at_cons in Hm as [Hd Hm].
  - rewrite (bind_ok _ _ _ _ _ (load8_ok _ _ _ Hd)). fold (char_value r c). simpl.
    destruct (Z.leb_spec 0 (char_value r c)); [lia|]. by rewrite Z.add_0_r.
  - rewrite (bind_ok _ _ _ _ _ (load8_ok _ _ _ Hd)). fold (char_value r d).
    apply Forall_cons in Hl as [Hdv Hl]. destruct (Z.leb_spec 0 (char_value r d)); [|lia].
    unfold number in Hn. cbn [foldl] in Hn. fold (number r (acc * r + char_value r d) l) in Hn.
    assert (∀ l a, 0 ≤ a → Forall (λ c, 0 ≤ char_value r c) l → a ≤ number r a l) as Hmono.
    { clear -H. intros l. induction l as [|x l IHl]; intros a Ha Hl; [done|]. apply Forall_cons in Hl as [Hx Hl].
      unfold number. cbn [foldl]. specialize (IHl (a * r + char_value r x)). unfold number in IHl.
      etrans; [|apply IHl; [nia|done]]. nia. }
    pose proof (Hmono l (acc * r + char_value r d) ltac:(nia) Hl).
    rewrite (wrap_id 64 (acc * r)), (wrap_id 64 (acc * r + char_value r d)) by nia.
    rewrite IH; [|done..|nia|done|simpl in Hf; lia]. cbn [length].
    unfold number. cbn [foldl]. do 2 f_equal. f_equal. lia.
Qed.

Lemma uatoi_ok l s r m c : radix_ok r → mem_at m s (l ++ [c]) → char_value r c < 0 →
  Forall (λ c, 0 ≤ char_value r c) l → number r 0 l < 2 ^ 64 →
  _uatoi s r m = Ok ((Z.of_nat (length l), number r 0 l), m).
Proof.
  intros Hr Hm Hc Hl Hn. unfold _uatoi.
  assert (negb (r =? 10) && negb (r =? 16) = false) as -> by by destruct Hr as [-> | ->].
  rewrite (bind_ok _ _ _ (fuel_of m) m) by done.
  rewrite (bind_ok _ _ _ (s + Z.of_nat (length l), number r 0 l) m).
  - unfold mret, M_ret. cbn [fst snd]. do 3 f_equal. lia.
  - eapply uatoi_loop_ok; [done..|]. unfold fuel_of. apply mem_at_room in Hm. pose proof (room_size m s).
    rewrite length_app in Hm. simpl in Hm. lia.
Qed.

(** C33: Printing a number and reading it back.  [_uitoa] writes the digits of any 64-bit value with
    their NUL and returns the number of bytes; [_uatoi] on them returns the same value; and
    [_itoa] writes the sign before the digits of the absolute value of every negative integer
    but the least one, whose negation overflows. *)
Theorem itoa_round_trip v a r m : radix_ok r → 0 ≤ v < 2 ^ 64 → mapped m a 22 →
  (∃ m', _uitoa v a r m = Ok (Z.of_nat (length (digits v r)) + 1, m') ∧ cstr m' a (digits v r) ∧
    changes (λ x, a ≤ x < a + 22) m m' ∧ _uatoi a r m' = Ok ((Z.of_nat (length (digits v r)), v), m')) ∧
  (0 < v < 2 ^ 63 → ∃ m', _itoa (- v) a 10 m = Ok (Z.of_nat (length (digits v 10)) + 2, m') ∧
    changes (λ x, a ≤ x < a + 22) m m' ∧ m' !! a = Some 45 ∧
    _uatoi (a + 1) 10 m' = Ok ((Z.of_nat (length (digits v 10)), v), m')) ∧
  _itoa (- 2 ^ 63) a 10 m = Err Overflow.
Proof.
  intros Hr Hv Hm.
  assert (∀ b r m', radix_ok r → cstr m' b (digits v r) →
    _uatoi b r m' = Ok ((Z.of_nat (length (digits v r)), v), m')) as Hback.
  { intros b r' m' Hr' [Hd _]. rewrite (uatoi_ok (digits v r') b r' m' 0); rewrite ?digits_value; try done.
    - by destruct Hr' as [-> | ->].
    - eapply Forall_impl; [by apply digits_chars|]. simpl. lia.
    - lia. }
  pose proof (digits_length v r). pose proof (digits_length v 10). split; [|split].
  - destruct (uitoa_ok v a r m Hr Hv) as (m' & E & Hc & C1); [eapply mapped_sub; [done|lia..]|].
    exists m'. split_and!; [done|done| |by apply Hback]. eapply changes_weaken; [|done]. simpl. lia.
  - intros Hv63. assert (decimal (- v) = 45 :: digits v 10) as Hdec.
    { unfold decimal. destruct (Z.ltb_spec (- v) 0); [|lia]. by rewrite Z.opp_involutive. }
    destruct (itoa_ok (- v) a m) as (m' & E & Hc & C1); [lia| |].
    { eapply mapped_sub; [done|lia|]. rewrite Hdec. cbn [length]. lia. }
    rewrite Hdec in *. cbn [length] in *. exists m'. apply cstr_cons in Hc as (H45 & _ & Hc). split_and!.
    + rewrite E. do 2 f_equal. lia.
    + eapply changes_weaken; [|done]. simpl. lia.
    + done.
    + apply Hback; [by left|done].
  - unfold _itoa. cbn [Z.eqb negb Pos.eqb]. change (- 2 ^ 63 <? 0) with true. cbv iota.
    rewrite (bind_ok _ _ _ tt (<[a := 45]> m)) by (rewrite store8_ok; [done|]; apply Hm; lia). done.
Qed.

(** ** Format strings *)
Definition pad (flag : fmt_flag) (width : Z) (t : list Z) : list Z :=
  let n := Z.to_nat (width - Z.of_nat (length t)) in
  match flag with
  | FLAG_NOP => replicate n 32 ++ t
  | FLAG_ZERO => replicate n 48 ++ t
  | FLAG_LEFT => t ++ replicate n 32
  end.

Section format.
(** The strings in memory, by their addresses. *)
Context (strs : Z → option (list Z)).

Definition text (conv a : Z) : option (list Z) :=
  if conv =? 99 then Some (if u8 a =? 0 then [] else [u8 a])
  else if conv =? 115 then if a =? 0 then Some (take 6 null_str) else strs a
  else if conv =? 100 then if s64 a =? - 2 ^ 63 then None else Some (decimal (s64 a))
  else Some (digits (u64 a) 16).

Definition prefix (conv : Z) : list Z := if conv =? 112 then [48; 120] else [].

(** [formats f ap s]: the format string [f] with the arguments [ap] stands for [s]. *)
Inductive formats : list Z → list Z → list Z → Prop :=
| formats_end ap : formats [] ap []
| formats_char c f ap s : c ≠ 37 → 0 < c < 256 → formats f ap s → formats (c :: f) ap (c :: s)
| formats_conv fl flag w conv f a ap t s :
    flag_of (hd 0 (fl ++ w ++ [conv])) = Some (flag, Z.of_nat (length fl)) →
    Forall (λ c, 0 ≤ char_value 10 c) w → number 10 0 w < 2 ^ 31 → is_conv conv = true →
    text conv a = Some t → (length t < 512)%nat → formats f ap s →
    formats (37 :: fl ++ w ++ conv :: f) (a :: ap)
      (prefix conv ++ pad flag (number 10 0 w) t ++ s).
End format.

Lemma fill_ok n dst c m : mapped m dst (Z.of_nat n) → 0 ≤ c < 256 →
  fill n dst c m = Ok (tt, write_bytes dst (replicate n c) m).
Proof.
  intros Hm Hc. revert dst m Hm. induction n as [|n IH]; intros dst m Hm; cbn [fill replicate write_bytes]; [done|].
  assert (is_Some (m !! dst)) by (apply Hm; lia).
  rewrite (bind_ok _ _ _ tt (<[dst := c]> m)) by (rewrite store8_ok by done; by rewrite Z.mod_small by lia).
  apply IH. intros x Hx. rewrite lookup_insert. case_decide; [eauto|]. apply Hm. lia.
Qed.

Lemma store_chars_ok dst l m : mapped m dst (Z.of_nat (length l)) → bytes l →
  store_chars dst l m = Ok (tt, write_bytes dst l m).
Proof.
  revert dst m. induction l as [|c l IH]; intros dst m Hm Hl; cbn [store_chars write_bytes length] in *; [done|].
  apply Forall_cons in Hl as [Hc Hl]. unfold byte in Hc.
  assert (is_Some (m !! dst)) by (apply Hm; lia).
  rewrite (bind_ok _ _ _ tt (<[dst := c]> m)) by (rewrite store8_ok by done; by rewrite Z.mod_small by lia).
  apply IH; [|done]. intros x Hx. rewrite lookup_insert. case_decide; [eauto|]. apply Hm. lia.
Qed.

Lemma strcpy_copy m dst src s : cstr m src s → mapped m dst (Z.of_nat (length s) + 1) →
  ascending dst src (Z.of_nat (length s) + 1) →
  strcpy dst src m = Ok (dst, write_bytes dst (s ++ [0]) m).
Proof.
  intros. unfold strcpy. mstep. mstep_by strcpy_loop_ok; [done|done|by eapply cstr_fuel|done..].
Qed.

Lemma length_pad flag w t : Z.of_nat (length (pad flag w t)) = Z.max w (Z.of_nat (length t)).
Proof. destruct flag; cbn; rewrite length_app, length_replicate; lia. Qed.

(** A run of writes next to each other. *)
Lemma copy_fmt_ok m dst buf flag w t : cstr m buf t → 
  mapped m dst (Z.of_nat (length (pad flag w t)) + 1) →
  (dst + Z.of_nat (length (pad flag w t)) + 1 ≤ buf ∨ buf + Z.of_nat (length t) + 1 ≤ dst) →
  ∃ m', copy_fmt_str dst buf flag w m = Ok (Z.of_nat (length (pad flag w t)), m') ∧
    mem_at m' dst (pad flag w t) ∧
    changes (λ x, dst ≤ x < dst + Z.of_nat (length (pad flag w t)) + 1) m m'.
Proof.
  intros Hc. rewrite length_pad. intros Hm Hd. unfold copy_fmt_str.
  set (lt := Z.of_nat (length t)) in *.
  rewrite (bind_ok _ _ _ lt m) by by apply strlen_ok. cbv zeta.
  replace (if w <? lt then lt else w) with (Z.max w lt) by (zcases).
  set (n := Z.to_nat (w - lt)). assert (Z.to_nat (Z.max w lt - lt) = n) as -> by lia.
  assert (∀ c, 0 ≤ c < 256 → ∃ m', (fill n dst c;; strcpy (dst + (Z.max w lt - lt)) buf;;
      mret (Z.max w lt)) m = Ok (Z.max w lt, m') ∧ mem_at m' dst (replicate n c ++ t) ∧
      changes (λ x, dst ≤ x < dst + Z.max w lt + 1) m m') as Hright.
  { intros c Hcb. set (m1 := write_bytes dst (replicate n c) m).
    assert (Z.of_nat n = Z.max w lt - lt) as En by lia.
    assert (changes (λ x, dst ≤ x < dst + Z.of_nat n) m m1) as C1.
    { apply changes_write; rewrite length_replicate; [eapply mapped_sub; [done|lia..]|done]. }
    rewrite (bind_ok _ _ _ tt m1) by (apply fill_ok; [eapply mapped_sub; [done|lia..]|done]).
    rewrite <- En. set (d := dst + Z.of_nat n).
    assert (mapped m1 d (lt + 1)) as Hm1.
    { eapply changes_mapped; [done|]. eapply mapped_sub; [done|lia..]. }
    assert (cstr m1 buf t) as Hc1 by (eapply changes_cstr; [done..|]; simpl; fold lt; lia).
    rewrite (bind_ok _ _ _ d (write_bytes d (t ++ [0]) m1)).
    2:{ apply strcpy_copy; [done|done|]. unfold ascending, d. fold lt. lia. }
    eexists. split_and!; [done| |].
    - apply mem_at_app. rewrite length_replicate. fold d. split.
      + apply write_bytes_mem_at_ne; [apply write_bytes_at|]. rewrite length_replicate. unfold d. lia.
      + eapply mem_at_app. apply write_bytes_at.
    - eapply changes_trans; [eapply changes_weaken; [|done]; simpl; lia|].
      apply changes_write; rewrite length_app; simpl; [|unfold d; fold lt; lia].
      eapply mapped_sub; [done|fold lt; lia..]. }
  destruct flag.
  - destruct (Hright 32 ltac:(lia)) as (m' & E & ? & ?). exists m'. split_and!; [exact E|done|done].
  - destruct (Hright 48 ltac:(lia)) as (m' & E & ? & ?). exists m'. split_and!; [exact E|done|done].
  - clear Hright. set (m1 := write_bytes dst (t ++ [0]) m).
    assert (changes (λ x, dst ≤ x < dst + lt + 1) m m1) as C1.
    { apply changes_write; rewrite length_app; simpl; [|fold lt; lia]. eapply mapped_sub; [done|fold lt; lia..]. }
    rewrite (bind_ok _ _ _ dst m1).
    2:{ apply strcpy_copy; [done|eapply mapped_sub; [done|lia..]|]. unfold ascending. fold lt. lia. }
    assert (cstr m1 buf t) as Hc1 by (eapply changes_cstr; [done..|]; simpl; fold lt; lia).
    rewrite (bind_ok _ _ _ lt m1) by by apply strlen_ok.
    set (m2 := write_bytes (dst + lt) (replicate n 32) m1).
    assert (mapped m1 (dst + lt) (Z.of_nat n)) as Hm1.
    { eapply changes_mapped; [done|]. eapply mapped_sub; [done|lia..]. }
    rewrite (bind_ok _ _ _ tt m2) by by apply fill_ok.
    exists m2. split_and!; [done| |].
    + apply mem_at_app. fold lt. fold n. split; [|apply write_bytes_at].
      apply write_bytes_mem_at_ne; [|rewrite length_replicate; fold lt; lia].
      eapply mem_at_app. apply write_bytes_at.
    + eapply changes_trans; [eapply changes_weaken; [|done]; simpl; lia|].
      apply changes_write; rewrite length_replicate; [done|lia].
Qed.

Section vsprintf.
Context (strs : Z → option (list Z)) (buf : Z) (P : Z → Prop).

(** [P] are the cells the call may write: none of a string argument, all of [buf]. *)
Hypothesis strs_apart : ∀ p t x, strs p = Some t → P x → ¬ (p ≤ x < p + Z.of_nat (length t) + 1).
Hypothesis buf_in : ∀ x, buf ≤ x < buf + 512 → P x.

Definition env (m : mem) : Prop :=
  mapped m buf 512 ∧ ∀ p t, strs p = Some t → cstr m p t.

Lemma env_changes m m' : env m → changes P m m' → env m'.
Proof.
  intros [Hb Hs] HC. split; [by eapply changes_mapped|]. intros p t Hp.
  eapply changes_cstr; [by apply Hs|done|]. eauto.
Qed.

Lemma convert_ok conv dst a ap t m : env m → text strs conv a = Some t → is_conv conv = true →
  (length t < 512)%nat → mapped m dst (Z.of_nat (length (prefix conv))) →
  (dst + Z.of_nat (length (prefix conv)) ≤ buf ∨ buf + 512 ≤ dst) →
  ∃ m', convert conv buf dst (a :: ap) m = Ok ((dst + Z.of_nat (length (prefix conv)), ap), m') ∧
    cstr m' buf t ∧ mem_at m' dst (prefix conv) ∧
    changes (λ x, dst ≤ x < dst + Z.of_nat (length (prefix conv)) ∨ buf ≤ x < buf + 512) m m'.
Proof.
  intros [Hb Hs] Ht Hconv Hlen Hd Hap. unfold text in Ht. cbn [convert].
  assert (∀ t, Z.of_nat (length t) < 512 → cstr (write_bytes buf (t ++ [0]) m) buf t → 
    changes (λ x, dst ≤ x < dst ∨ buf ≤ x < buf + 512) m (write_bytes buf (t ++ [0]) m)) as Hw.
  { intros t' Ht' _. apply changes_write; rewrite length_app; simpl; [eapply mapped_sub; [exact Hb|lia..]|lia]. }
  assert (∀ t, chars t → cstr (write_bytes buf (t ++ [0]) m) buf t) as Hcs.
  { intros t' Hc. split; [apply write_bytes_at|done]. }
  destruct (Z.eqb_spec conv 99) as [->|H99]; [|destruct (Z.eqb_spec conv 115) as [->|H115];
    [|destruct (Z.eqb_spec conv 100) as [->|H100]]].
  - cbn [prefix Z.eqb length] in *. rewrite Z.add_0_r.
    assert (is_Some (m !! buf) ∧ is_Some (m !! (buf + 1))) as [B0 B1] by (split; apply Hb; lia).
    pose proof (wrap_bound 8 a ltac:(done)) as Ha. change (2 ^ 8) with 256 in Ha.
    rewrite (bind_ok _ _ _ tt (<[buf := u8 a]> m)) by (rewrite store8_ok by done; by rewrite Z.mod_small by lia).
    set (m' := <[buf + 1 := 0]> (<[buf := u8 a]> m)).
    rewrite (bind_ok _ _ _ tt m') by (rewrite store8_ok; [done|]; by rewrite lookup_insert_ne by lia).
    exists m'. split_and!; [done| |apply mem_at_nil|].
    + injection Ht as <-. destruct (Z.eqb_spec (u8 a) 0) as [E0|].
      * apply cstr_nil. unfold m'. rewrite E0, lookup_insert_ne by lia. apply lookup_insert_eq.
      * apply cstr_cons. split_and!; [|lia|lia|apply cstr_nil, lookup_insert_eq].
        unfold m'. rewrite lookup_insert_ne by lia. apply lookup_insert_eq.
    + change m' with (write_bytes buf [u8 a; 0] m). apply changes_write; [|simpl; lia].
      eapply mapped_sub; [exact Hb|simpl; lia..].
  - cbn [prefix Z.eqb length] in *. rewrite Z.add_0_r. destruct (Z.eqb_spec a 0) as [->|Hnz]; cbn [negb].
    + injection Ht as <-. change null_str with (take 6 null_str ++ [0]).
      assert (mapped m buf 7) by (eapply mapped_sub; [exact Hb|lia..]).
      rewrite (bind_ok _ _ _ tt (write_bytes buf (take 6 null_str ++ [0]) m)).
      2:{ apply store_chars_ok; [done|]. unfold byte. by_decide. }
      assert (chars (take 6 null_str)) by by_decide.
      eexists. split_and!; [done|by apply Hcs|apply mem_at_nil|apply Hw; [done|by apply Hcs]].
    + specialize (Hs _ _ Ht). pose proof Hs as [_ Hch].
      assert (ascending buf a (Z.of_nat (length t) + 1)) as Has.
      { unfold ascending. destruct (decide (buf ≤ a)); [by left|]. right.
        destruct (decide (a + (Z.of_nat (length t) + 1) ≤ buf)); [done|]. exfalso.
        eapply (strs_apart a t buf); [done|apply buf_in; lia|lia]. }
      rewrite (bind_ok _ _ _ tt (write_bytes buf (t ++ [0]) m)).
      2:{ rewrite (bind_ok _ _ _ buf (write_bytes buf (t ++ [0]) m)); [done|].
          apply strcpy_copy; [done| |done]. eapply mapped_sub; [exact Hb|lia..]. }
      eexists. split_and!; [done|by apply Hcs|apply mem_at_nil|apply Hw; [lia|by apply Hcs]].
  - cbn [prefix Z.eqb length] in *. rewrite Z.add_0_r. destruct (Z.eqb_spec (s64 a) (- 2 ^ 63)); [done|]. injection Ht as <-.
    destruct (itoa_ok (s64 a) buf m) as (m' & E & Hc & C1).
    { pose proof (swrap_bound 64 a ltac:(done)) as B. change (2 ^ (64 - 1)) with (2 ^ 63) in B. lia. }
    { eapply mapped_sub; [exact Hb|lia..]. }
    rewrite (bind_ok _ _ _ _ _ E). exists m'. split_and!; [done|done|apply mem_at_nil|].
    eapply changes_weaken; [|done]. simpl. lia.
  - injection Ht as <-. pose proof (wrap_bound 64 a ltac:(done)) as Ha.
    assert (∀ m1, mapped m1 buf 512 → ∃ m', _uitoa (u64 a) buf 16 m1 =
      Ok (Z.of_nat (length (digits (u64 a) 16)) + 1, m') ∧ cstr m' buf (digits (u64 a) 16) ∧
      changes (λ x, buf ≤ x < buf + 512) m1 m') as Hu.
    { intros m1 Hm1. destruct (uitoa_ok (u64 a) buf 16 m1) as (m' & E & Hc & C1); [by right|done| |].
      { eapply mapped_sub; [exact Hm1|lia..]. }
      exists m'. split_and!; [done|done|]. eapply changes_weaken; [|done]. simpl. lia. }
    unfold prefix in *. destruct (Z.eqb_spec conv 112) as [->|Hp]; cbn [length] in *.
    + assert (is_Some (m !! dst) ∧ is_Some (m !! (dst + 1))) as [D0 D1] by (split; apply Hd; lia).
      rewrite (bind_ok _ _ _ tt (<[dst := 48]> m)) by by rewrite store8_ok.
      set (m1 := write_bytes dst [48; 120] m).
      rewrite (bind_ok _ _ _ tt m1) by (rewrite store8_ok; [done|]; by rewrite lookup_insert_ne by lia).
      assert (changes (λ x, dst ≤ x < dst + 2) m m1) as C1 by by apply changes_write.
      destruct (Hu m1) as (m' & E & Hc & C2); [by eapply changes_mapped|].
      rewrite (bind_ok _ _ _ _ _ E). exists m'. split_and!; [done|done| |].
      * eapply changes_bytes; [apply write_bytes_at|done|]. simpl. lia.
      * eapply changes_trans; (eapply changes_weaken; [|done]); simpl; lia.
    + destruct (Hu m Hb) as (m' & E & Hc & C2). rewrite (bind_ok _ _ _ _ _ E). exists m'.
      rewrite Z.add_0_r. split_and!; [done|done|apply mem_at_nil|]. eapply changes_weaken; [|done]. simpl. lia.
Qed.

(** The part of a directive between the percent sign and the conversion. *)
Lemma directive_ok fl flag w conv m a : mem_at m a (fl ++ w ++ [conv]) →
  flag_of (hd 0 (fl ++ w ++ [conv])) = Some (flag, Z.of_nat (length fl)) →
  Forall (λ c, 0 ≤ char_value 10 c) w → number 10 0 w < 2 ^ 31 → is_conv conv = true →
  get_fmt_flag a m = Ok ((flag, Z.of_nat (length fl)), m) ∧
  _uatoi (a + Z.of_nat (length fl)) 10 m = Ok ((Z.of_nat (length w), number 10 0 w), m) ∧
  load8 (a + Z.of_nat (length fl) + Z.of_nat (length w)) m = Ok (conv, m).
Proof.
  intros Hm Hf Hw Hn Hc. pose proof Hm as [_ Hm2]%mem_at_app. split_and!.
  - unfold get_fmt_flag. rewrite (bind_ok _ _ _ (hd 0 (fl ++ w ++ [conv])) m).
    + by rewrite Hf.
    + apply load8_ok. destruct (fl ++ w ++ [conv]) as [|c l] eqn:E; [by destruct fl, w|].
      by apply mem_at_cons in Hm as [? _].
  - apply (uatoi_ok w _ _ _ conv); [by left|done| |done|lia].
    unfold is_conv in Hc. rewrite !orb_true_iff, !Z.eqb_eq in Hc.
    destruct Hc as [[[[[-> | ->] | ->] | ->] | ->] | ->]; by vm_compute.
  - apply mem_at_app in Hm2 as [_ [Hl _]%mem_at_cons]. by apply load8_ok.
Qed.

Lemma number_nonneg l acc : 0 ≤ acc → Forall (λ c, 0 ≤ char_value 10 c) l → 0 ≤ number 10 acc l.
Proof.
  revert acc. induction l as [|c l IH]; intros acc Ha Hl; [done|]. apply Forall_cons in Hl as [Hc Hl].
  apply (IH (acc * 10 + char_value 10 c)); [lia|done].
Qed.

Local Abbreviation written dst n := (λ x, dst ≤ x < dst + n ∨ buf ≤ x < buf + 512).

Lemma vsprintf_loop_ok f ap s : formats strs f ap s → ∀ m dst fmt fuel, env m → cstr m fmt f →
  (∀ x, P x → ¬ (fmt ≤ x < fmt + Z.of_nat (length f) + 1)) →
  mapped m dst (Z.of_nat (length s) + 1) → (∀ x, dst ≤ x < dst + Z.of_nat (length s) + 1 → P x) →
  (dst + Z.of_nat (length s) + 1 ≤ buf ∨ buf + 512 ≤ dst) → (length f < fuel)%nat →
  ∃ m', vsprintf_loop fuel dst fmt buf ap m = Ok (dst + Z.of_nat (length s), m') ∧ mem_at m' dst s ∧
    changes (written dst (Z.of_nat (length s) + 1)) m m'.
Proof.
  induction 1 as [ap|c f ap s Hc Hcr Hf IH|fl flag w conv f a ap t s Hfl Hw Hn Hcv Ht Hlt Hf IH];
    intros m dst fmt [|fuel] He Hs Hfa Hm HP Hd Hfu; try lia; cbn [vsprintf_loop].
  - apply cstr_nil in Hs. rewrite (bind_ok _ _ _ _ _ (load8_ok _ _ _ Hs)). cbn [Z.eqb].
    exists m. split_and!; [by simpl; rewrite Z.add_0_r|apply mem_at_nil|done..].
  - apply cstr_cons in Hs as (Hl & _ & Hs). rewrite (bind_ok _ _ _ _ _ (load8_ok _ _ _ Hl)).
    rewrite (proj2 (Z.eqb_neq c 0)), (proj2 (Z.eqb_neq c 37)) by lia. cbn [length] in *.
    assert (changes (λ x, dst ≤ x < dst + 1) m (<[dst := c]> m)) as C1.
    { change (<[dst := c]> m) with (write_bytes dst [c] m). apply changes_write; [|simpl; lia].
      eapply mapped_sub; [done|simpl; lia..]. }
    rewrite (bind_ok _ _ _ tt (<[dst := c]> m)).
    2:{ rewrite store8_ok by (apply Hm; lia). by rewrite Z.mod_small by lia. }
    assert (changes P m (<[dst := c]> m)) as CP.
    { eapply changes_weaken; [|done]. simpl. intros x Hx. apply HP. lia. }
    destruct (IH (<[dst := c]> m) (dst + 1) (fmt + 1) fuel) as (m' & E & Hm' & C2); try lia.
    + by eapply env_changes.
    + eapply changes_cstr; [done..|]. intros x Hx%Hfa. lia.
    + intros x Hx%Hfa. lia.
    + eapply changes_mapped; [done|]. eapply mapped_sub; [done|lia..].
    + intros x Hx. apply HP. lia.
    + exists m'. rewrite E. split_and!; [do 2 f_equal; lia| |].
      * apply mem_at_cons. split; [|done]. destruct C2 as [_ C2]. rewrite C2 by (simpl; lia). apply lookup_insert_eq.
      * eapply changes_trans; [eapply changes_weaken; [|exact C1]|eapply changes_weaken; [|exact C2]]; simpl; lia.
  - apply cstr_cons in Hs as (Hl & _ & Hs). rewrite (bind_ok _ _ _ _ _ (load8_ok _ _ _ Hl)).
    change (37 =? 0) with false. change (37 =? 37) with true. cbv zeta iota.
    rewrite cons_middle, !app_assoc in Hs. rewrite <- (app_assoc fl) in Hs.
    apply cstr_app in Hs as (Hdir & _ & Hs).
    destruct (directive_ok _ _ _ _ _ _ Hdir Hfl Hw Hn Hcv) as (E1 & E2 & E3).
    rewrite (bind_ok _ _ _ _ _ E1), (bind_ok _ _ _ _ _ E2), (bind_ok _ _ _ _ _ E3), Hcv. cbn [negb].
    set (np := Z.of_nat (length (prefix conv))) in *.
    set (width := number 10 0 w) in *. pose proof (number_nonneg w 0 ltac:(done) Hw : 0 ≤ width) as Hw0.
    set (lp := Z.of_nat (length (pad flag width t))) in *.
    assert (Z.of_nat (length (prefix conv ++ pad flag width t ++ s)) = np + lp + Z.of_nat (length s)) as El.
    { rewrite !length_app. unfold np, lp. lia. }
    rewrite El in Hm, HP, Hd |- *. cbn [length] in Hfa, Hfu. rewrite !length_app in Hfa, Hfu, Hs. cbn [length] in Hfa, Hfu, Hs.
    pose proof (length_pad flag width t) as Elp. fold lp in Elp.
    destruct (convert_ok conv dst a ap t m He Ht Hcv Hlt) as (m1 & E4 & Hc1 & Hp1 & C1);
      [eapply mapped_sub; [done|unfold np; lia..]|unfold np in *; lia|].
    fold np in E4, C1. rewrite (bind_ok _ _ _ _ _ E4). cbn beta iota.
    assert (s32 width = width) as -> by (apply swrap_id; [done|]; change (2 ^ (32 - 1)) with (2 ^ 31); lia).
    destruct (copy_fmt_ok m1 (dst + np) buf flag width t Hc1) as (m2 & E5 & Hp2 & C2).
    { fold lp. eapply changes_mapped; [done|]. eapply mapped_sub; [done|unfold np; lia..]. }
    { fold lp. unfold np in *. lia. }
    fold lp in E5, C2. rewrite (bind_ok _ _ _ _ _ E5).
    assert (changes (written dst (np + lp + 1)) m m2) as C12.
    { eapply changes_trans; [eapply changes_weaken; [|exact C1]|eapply changes_weaken; [|exact C2]];
        unfold np; simpl; lia. }
    assert (changes P m m2) as CP.
    { eapply changes_weaken; [|done]. simpl. intros x [Hx|Hx]; [apply HP; unfold np, lp in *; lia|by apply buf_in]. }
    destruct (IH m2 (dst + np + lp) (fmt + 1 + Z.of_nat (length fl) + Z.of_nat (length w) + 1) fuel)
      as (m' & E & Hm' & C3).
    + by eapply env_changes.
    + eapply changes_cstr; [|done|]; [|intros x Hx%Hfa; lia].
      replace (_ + 1) with (fmt + 1 + Z.of_nat (length fl + (length w + 1))) by lia. done.
    + intros x Hx%Hfa. lia.
    + eapply changes_mapped; [done|]. eapply mapped_sub; [done|unfold np, lp; lia..].
    + intros x Hx. apply HP. unfold np, lp in *. lia.
    + unfold np, lp in *. lia.
    + lia.
    + exists m'. rewrite E. split_and!; [do 2 f_equal; lia| |].
      * apply mem_at_app. split.
        { eapply changes_bytes; [|done|simpl; unfold np, lp in *; lia].
          eapply changes_bytes; [done|done|simpl; unfold np, lp in *; lia]. }
        fold np. apply mem_at_app. split; [|done].
        eapply changes_bytes; [done|done|simpl; unfold np, lp in *; lia].
      * eapply changes_trans; [eapply changes_weaken; [|exact C12]|eapply changes_weaken; [|exact C3]];
          unfold np, lp; simpl; lia.
Qed.

(** C32: [vsprintf] writes the text its format string stands for.  With [formats strs f ap s], the
    format at [fmt] and the string arguments in memory outside what the call writes, a field of
    at most 511 characters each, and room at [out] that does not overlap the local buffer: the
    result is the length of [s] and its NUL, [out] holds [s], and nothing else but [buf]
    changes.  [%u] prints in hexadecimal, as [formats] says, and the least integer has no
    decimal text. *)
Theorem vsprintf_correct f ap s out fmt m : formats strs f ap s → env m → cstr m fmt f →
  (∀ x, P x → ¬ (fmt ≤ x < fmt + Z.of_nat (length f) + 1)) →
  mapped m out (Z.of_nat (length s) + 1) → (∀ x, out ≤ x < out + Z.of_nat (length s) + 1 → P x) →
  (out + Z.of_nat (length s) + 1 ≤ buf ∨ buf + 512 ≤ out) →
  ∃ m', vsprintf buf out fmt ap m = Ok (Z.of_nat (length s) + 1, m') ∧
    mem_at m' out (s ++ [0]) ∧ changes (written out (Z.of_nat (length s) + 1)) m m'.
Proof.
  intros Hf He Hc Hfa Hm HP Hd. unfold vsprintf. rewrite (bind_ok _ _ _ (fuel_of m) m) by done.
  destruct (vsprintf_loop_ok f ap s Hf m out fmt (fuel_of m)) as (m1 & E & H1 & C1); try done.
  { by eapply cstr_fuel. }
  rewrite (bind_ok _ _ _ _ _ E). set (e := out + Z.of_nat (length s)) in *.
  assert (is_Some (m1 !! e)) as Hz by (eapply (changes_mapped _ _ _ _ _ C1 Hm); lia).
  rewrite (bind_ok _ _ _ tt (<[e := 0]> m1)) by by rewrite store8_ok.
  exists (<[e := 0]> m1). split_and!; [unfold mret, M_ret; do 2 f_equal; lia| |].
  - apply mem_at_app. fold e. split.
    + intros i b Hi. rewrite lookup_insert_ne; [by apply H1|]. apply lookup_lt_Some in Hi. lia.
    + apply mem_at_cons. split; [apply lookup_insert_eq|apply mem_at_nil].
  - eapply changes_trans; [done|]. change (<[e := 0]> m1) with (write_bytes e [0] m1).
    apply changes_write; [|simpl; lia]. intros x Hx. simpl in Hx. by replace x with e by lia.
Qed.
End vsprintf.

(** ** Witnesses *)
Definition ex_room : mem := write_bytes 1000 (replicate 22 1) ∅.

Lemma itoa_round_trip_witness :
  (∃ m', _uitoa 0xBEEF 1000 16 ex_room = Ok (5, m') ∧ cstr m' 1000 [66; 69; 69; 70] ∧
    _uatoi 1000 16 m' = Ok ((4, 0xBEEF), m')) ∧
  ∃ m', _itoa (- (2 ^ 63 - 1)) 1000 10 ex_room = Ok (21, m') ∧ _uatoi 1001 10 m' = Ok ((19, 2 ^ 63 - 1), m').
Proof.
  assert (mapped ex_room 1000 22) as Hm by by_mapped 22%nat.
  split.
  - destruct (itoa_round_trip 0xBEEF 1000 16 ex_room) as [(m' & E & Hc & _ & E') _]; [by right|lia|done|].
    exists m'. split_and!; [exact E|exact Hc|exact E'].
  - destruct (itoa_round_trip (2 ^ 63 - 1) 1000 10 ex_room) as (_ & H & _); [by left|lia|done|].
    destruct (H ltac:(lia)) as (m' & E & _ & _ & E'). exists m'. split; [exact E|exact E'].
Defined.

Definition ex_format : list Z :=
  [112; 105; 100; 32; 37; 53; 100; 58; 32; 37; 45; 54; 115; 124; 37; 112; 32; 37; 117; 10].
Definition ex_string : list Z := [108; 111; 111; 115].
Definition ex_text : list Z :=
  [112; 105; 100; 32; 32; 32; 32; 45; 55; 58; 32; 108; 111; 111; 115; 32; 32; 124; 48; 120; 49; 70;
   32; 70; 70; 10].
Definition ex_strs (p : Z) : option (list Z) := if p =? 100 then Some ex_string else None.
Definition ex_memory : mem :=
  write_bytes 0 (ex_format ++ [0]) (write_bytes 100 (ex_string ++ [0])
    (write_bytes 200 (replicate 100 1) (write_bytes 300 (replicate 512 1) ∅))).

(** ["pid %5d: %-6s|%p %u\n"] with -7, "loos", 0x1f, 255: "%u" prints FF. *)
Lemma ex_formats : formats ex_strs ex_format [2 ^ 64 - 7; 100; 0x1F; 255] ex_text.
Proof.
  assert (∀ c f ap s, (c ≠ 37 ∧ 0 < c < 256) → formats ex_strs f ap s → formats ex_strs (c :: f) ap (c :: s))
    as ch by (intros c f ap s [? ?]; by apply formats_char).
  pose proof (formats_end ex_strs []) as F. apply (ch 10) in F; [|lia].
  apply (formats_conv _ [] FLAG_NOP [] 117 _ 255 _ [70; 70]) in F; [|by vm_compute..|simpl; lia].
  apply (ch 32) in F; [|lia].
  apply (formats_conv _ [] FLAG_NOP [] 112 _ 0x1F _ [49; 70]) in F; [|by vm_compute..|simpl; lia].
  apply (ch 124) in F; [|lia].
  apply (formats_conv _ [45] FLAG_LEFT [54] 115 _ 100 _ ex_string) in F; [|done|by_decide|done..|simpl; lia].
  apply (ch 32), (ch 58) in F; [|lia..].
  apply (formats_conv _ [] FLAG_NOP [53] 100 _ (2 ^ 64 - 7) _ [45; 55]) in F; [|done|by_decide|by vm_compute..|simpl; lia].
  apply (ch 32), (ch 100), (ch 105), (ch 112) in F; [|lia..]. exact F.
Qed.

Lemma vsprintf_correct_witness :
  ∃ m', vsprintf 300 200 0 [2 ^ 64 - 7; 100; 0x1F; 255] ex_memory = Ok (27, m') ∧
    mem_at m' 200 (ex_text ++ [0]) ∧
    changes (λ x, 200 ≤ x < 227 ∨ 300 ≤ x < 812) ex_memory m'.
Proof.
  refine (vsprintf_correct ex_strs 300 (λ x, 200 ≤ x < 812) _ _ ex_format _ ex_text 200 0 ex_memory
    _ _ _ _ _ _ _); try lia.
  - intros p t x. unfold ex_strs. destruct (Z.eqb_spec p 100) as [->|]; [|done]. intros [= <-]. simpl. lia.
  - apply ex_formats.
  - split; [by_mapped 512%nat|]. intros p t. unfold ex_strs. destruct (Z.eqb_spec p 100) as [->|]; [|done].
    intros [= <-]. split; [|by_decide]. by apply (read_bytes_Some 5); vm_compute.
  - split; [|by_decide]. by apply (read_bytes_Some 21); vm_compute.
  - simpl. lia.
  - by_mapped 27%nat.
  - simpl. lia.
  - simpl. lia.
Defined.
