(* ===== verification/Fs.v ===== *)
(** * fs/ext2_fs.c: file descriptors

    Two levels of tables: a process has a table of [struct fdtable] entries
    (one page), each of which names a slot of the kernel's array [fds] of open
    files.  A table is known by its address, so that two processes can share
    one.  The functions take the table of the current process
    ([my_proc()->fdtable]) as an argument; the disk, the page allocator and
    the console are those of [Ext2], [PageAlloc] and [Uart].  [NULL] is 0. *)

From S2P Require Import Prelude Mem CString PageAlloc Ext2 Uart.

(** ** include/fs.h *)
Definition MAX_FILES := 256.
Definition MAX_FDTABLE := 256.
Definition STDIN := 0.
Definition STDOUT := 1.
Definition STDERR := 2.
Definition F_DUPFD := 0.
Definition F_GETFD := 1.
Definition F_SETFD := 2.
Definition F_SETLKW := 7.
Definition O_CLOEXEC := 0x80000.
Definition FD_CLOEXEC := 1.
Definition FILE_PIPE_FLAGS := 0x8.

Record ext2_file := { f_inode : Z; f_pos : Z; f_flags : Z; refcount : Z; alloc : Z }.
Record fdentry := { fds_index : Z; busy : Z }.

Definition file0 : ext2_file := {| f_inode := 0; f_pos := 0; f_flags := 0; refcount := 0; alloc := 0 |}.
Definition set_alloc (a : Z) (f : ext2_file) : ext2_file :=
  {| f_inode := f_inode f; f_pos := f_pos f; f_flags := f_flags f; refcount := refcount f; alloc := a |}.
Definition set_refcount (r : Z) (f : ext2_file) : ext2_file :=
  {| f_inode := f_inode f; f_pos := f_pos f; f_flags := f_flags f; refcount := r; alloc := alloc f |}.
Definition set_busy (b : Z) (e : fdentry) : fdentry := {| fds_index := fds_index e; busy := b |}.

(** The inodes [open] copies to pages of their own are kept decoded, by page address. *)
Record fs_state (A : Type) := {
  fds : list ext2_file;
  tables : gmap Z (list fdentry);
  inodes : gmap Z ext2_inode;
  pages : mem * A;
  console : uart
}.
Arguments fds {A} _.
Arguments tables {A} _.
Arguments inodes {A} _.
Arguments pages {A} _.
Arguments console {A} _.

Section program.
Context {A : Type} `{PageAllocator A}.
Context (sector : Z → list Z) (e2fs : ext2_fs).
Abbreviation F := (M (fs_state A)).

Definition set_fds (l : list ext2_file) (s : fs_state A) : fs_state A :=
  {| fds := l; tables := tables s; inodes := inodes s; pages := pages s; console := console s |}.
Definition set_tables (t : gmap Z (list fdentry)) (s : fs_state A) : fs_state A :=
  {| fds := fds s; tables := t; inodes := inodes s; pages := pages s; console := console s |}.
Definition set_inode (p : Z) (i : ext2_inode) (s : fs_state A) : fs_state A :=
  {| fds := fds s; tables := tables s; inodes := <[p := i]> (inodes s); pages := pages s;
     console := console s |}.
Definition in_pages {B} : M (mem * A) B → F B :=
  zoom pages (λ p s, {| fds := fds s; tables := tables s; inodes := inodes s; pages := p;
                        console := console s |}).
Definition in_console {B} : M uart B → F B :=
  zoom console (λ u s, {| fds := fds s; tables := tables s; inodes := inodes s; pages := pages s;
                          console := u |}).

(** [proc->fdtable[fd]] and [fds[i]]; an index outside the array is a [Fault]. *)
Definition nth_at {B} (l : list B) (i : Z) : option B :=
  if 0 <=? i then l !! Z.to_nat i else None.

Definition entry (t fd : Z) : F fdentry := λ s,
  match tables s !! t with
  | Some l => match nth_at l fd with Some e => Ok (e, s) | None => Err (Fault fd) end
  | None => Err (Fault t)
  end.
Definition set_entry (t fd : Z) (e : fdentry) : F unit := λ s,
  match tables s !! t with
  | Some l => match nth_at l fd with
              | Some _ => Ok (tt, set_tables (<[t := <[Z.to_nat fd := e]> l]> (tables s)) s)
              | None => Err (Fault fd)
              end
  | None => Err (Fault t)
  end.
Definition file (i : Z) : F ext2_file := λ s,
  match nth_at (fds s) i with Some f => Ok (f, s) | None => Err (Fault i) end.
Definition set_file (i : Z) (f : ext2_file) : F unit := λ s,
  match nth_at (fds s) i with
  | Some _ => Ok (tt, set_fds (<[Z.to_nat i := f]> (fds s)) s)
  | None => Err (Fault i)
  end.

Definition fs_init : F unit := λ s,
  let fds := replicate (Z.to_nat MAX_FILES) file0 in
  let fds := <[Z.to_nat STDIN := set_alloc 1 file0]> fds in
  let fds := <[Z.to_nat STDOUT := set_alloc 1 file0]> fds in
  Ok (tt, set_fds (<[Z.to_nat STDERR := set_alloc 1 file0]> fds) s).

(** The slot of [fds] behind a descriptor. *)
Definition fd_to_fds (t fd : Z) : F Z :=
  e ← entry t fd;
  if busy e =? 0 then panic else e ← entry t fd; mret (fds_index e).

Fixpoint first_free (l : list ext2_file) (i : Z) : option Z :=
  match l with [] => None | f :: l => if alloc f =? 0 then Some i else first_free l (i + 1) end.

Definition alloc_fds : F Z :=
  l ← gets fds;
  match first_free l 0 with
  | Some i => f ← file i; set_file i (set_alloc 1 f);; mret i
  | None => panic
  end.

Definition free_fds (index : Z) : F unit :=
  f ← file index;
  if negb (alloc f =? 1) then panic else set_file index (set_alloc 0 f).

(** The first descriptor of the table that is not in use, from [i] on. *)
Fixpoint find_fd (n : nat) (t i : Z) : F (option Z) :=
  match n with
  | O => mret None
  | S n => e ← entry t i; if busy e =? 0 then mret (Some i) else find_fd n t (i + 1)
  end.

Definition open (t : Z) (pathname : list Z) (flags : Z) : F Z :=
  r ← lift (ext2_path_lookup sector e2fs pathname);
  match r with
  | (0, Some inode) =>
      i ← find_fd (Z.to_nat MAX_FDTABLE) t 0;
      match i with
      | None => mret (-1)
      | Some i =>
          e ← entry t i; set_entry t i (set_busy 1 e);;
          idx ← alloc_fds;
          e ← entry t i; set_entry t i {| fds_index := idx; busy := busy e |};;
          p ← in_pages (page_alloc sizeof_inode);
          modify (set_inode p inode);;
          f ← file idx;
          set_file idx {| f_inode := p; f_pos := 0; f_flags := u32 flags;
                          refcount := refcount f; alloc := alloc f |};;
          mret i
      end
  | _ => mret (-1)
  end.

Definition openat (t dirfd : Z) (pathname : list Z) (flags : Z) : F Z := open t pathname flags.

Definition fd_invaild (t fd : Z) : F bool :=
  if (fd <? 0) || (MAX_FDTABLE <=? fd) then mret true
  else e ← entry t fd; mret (busy e =? 0).

Definition close (t fd : Z) : F Z :=
  bad ← fd_invaild t fd;
  if bad : bool then mret (-1)
  else
    i ← fd_to_fds t fd; f ← file i; set_file i (set_refcount (s32 (refcount f - 1)) f);;
    i ← fd_to_fds t fd; f ← file i;
    (if refcount f =? 0
     then i ← fd_to_fds t fd; f ← file i;
          if negb (Z.land (f_flags f) FILE_PIPE_FLAGS =? 0) then mret tt
          else e ← entry t fd; free_fds (fds_index e)
     else mret tt);;
    e ← entry t fd; set_entry t fd (set_busy 0 e);;
    mret 0.

Definition close_fd (t fd : Z) : F Z :=
  bad ← fd_invaild t fd;
  if bad : bool then mret (-1)
  else
    i ← fd_to_fds t fd; f ← file i; set_file i (set_refcount (s32 (refcount f - 1)) f);;
    i ← fd_to_fds t fd; f ← file i;
    (if refcount f =? 0 then e ← entry t fd; free_fds (fds_index e) else mret tt);;
    e ← entry t fd; set_entry t fd (set_busy 0 e);;
    mret 0.

Definition lseek (t fd offset whence : Z) : F Z :=
  bad ← fd_invaild t fd; if bad : bool then mret (-1) else mret (-1).

(** The buffers of [read] and [write] are pointers of the current address space:
    [vaddr m p] is the address of the byte [p] refers to. *)
Context (vaddr : mem → Z → option Z).
Definition through {B} (p : Z) (c : Z → M mem B) : M mem B := λ m,
  match vaddr m p with Some a => c a m | None => Err (Fault p) end.

(** Store bytes at [p], from the lowest address on. *)
Fixpoint store_bytes (p : Z) (l : list Z) : M mem unit :=
  match l with [] => mret tt | b :: l => through p (λ a, store8 a b);; store_bytes (p + 1) l end.

Definition read (t fd buf count : Z) : F Z :=
  bad ← fd_invaild t fd;
  if bad : bool then mret (u64 (-1))
  else
    i ← fd_to_fds t fd;
    if i =? STDIN then
      str ← in_console (getstr count);
      let str := c_str str in
      in_pages (in_mem (store_bytes buf str));;
      mret (Z.of_nat (length str))
    else
      i ← fd_to_fds t fd; f ← file i;
      ino ← gets inodes;
      match ino !! f_inode f with
      | None => fail (Fault (f_inode f))
      | Some inode =>
          l ← lift (ext2_fread sector e2fs inode (u32 count));
          in_pages (in_mem (store_bytes buf l));;
          mret (Z.of_nat (length l))
      end.

Fixpoint write_console (n : nat) (buf : Z) : F unit :=
  match n with
  | O => mret tt
  | S n => c ← in_pages (in_mem (through buf load8)); in_console (putch c);; write_console n (buf + 1)
  end.

Definition write (t fd buf count : Z) : F Z :=
  bad ← fd_invaild t fd;
  if bad : bool then mret (u64 (-1))
  else
    i ← fd_to_fds t fd;
    out ← (if i =? STDOUT then mret true else i ← fd_to_fds t fd; mret (i =? STDERR));
    if out : bool then write_console (Z.to_nat count) buf;; mret count else mret 0.

Definition fcntl (t fd cmd arg : Z) : F Z :=
  bad ← fd_invaild t fd;
  if bad : bool then mret (-1)
  else if cmd =? F_DUPFD then
    i ← find_fd (Z.to_nat (MAX_FILES - arg)) t arg;
    match i with
    | Some i => e ← entry t fd; set_entry t i e;; mret i
    | None => mret (-1)
    end
  else if cmd =? F_GETFD then e ← entry t fd; mret (busy e)
  else if cmd =? F_SETFD then e ← entry t fd; set_entry t fd (set_busy arg e);; mret 0
  else if (3 <=? cmd) && (cmd <=? F_SETLKW) then mret 0
  else mret (-1).

Definition dup (t oldfd : Z) : F Z :=
  bad ← fd_invaild t oldfd;
  if bad : bool then panic
  else
    i ← find_fd (Z.to_nat MAX_FDTABLE) t 0;
    match i with
    | None => mret (-1)
    | Some i =>
        o ← entry t oldfd; e ← entry t i; set_entry t i {| fds_index := fds_index o; busy := busy e |};;
        e ← entry t i; set_entry t i (set_busy 1 e);;
        idx ← fd_to_fds t oldfd; f ← file idx; set_file idx (set_refcount (s32 (refcount f + 1)) f);;
        mret i
    end.

Definition dup3 (t oldfd newfd flags : Z) : F Z :=
  if oldfd =? newfd then mret newfd
  else
    bad ← fd_invaild t oldfd;
    if bad : bool then panic
    else
      e ← entry t newfd;
      (if busy e =? 1 then close t newfd;; mret tt else mret tt);;
      e ← entry t newfd; set_entry t newfd (set_busy 1 e);;
      o ← entry t oldfd; e ← entry t newfd;
      set_entry t newfd {| fds_index := fds_index o; busy := busy e |};;
      idx ← fd_to_fds t oldfd; f ← file idx; set_file idx (set_refcount (s32 (refcount f + 1)) f);;
      if negb (Z.land flags O_CLOEXEC =? 0)
      then flags_newfd ← fcntl t newfd F_GETFD 0;
           if flags_newfd =? -1 then mret (-1)
           else r ← fcntl t newfd F_SETFD (Z.lor flags_newfd FD_CLOEXEC);
                if r =? -1 then mret (-1) else mret newfd
      else mret newfd.

Definition mkdir (dirfd mode : Z) : F Z := mret 0.
Definition unlinkat (dirfd flags : Z) : F Z := mret (-1).

(** core/proc.c: a table with the three standard descriptors on a page of its own, and the
    copy of one, which counts a reference for every open descriptor. *)
Definition entry0 : fdentry := {| fds_index := 0; busy := 0 |}.
Definition fdtable_alloc : F Z :=
  result ← in_pages (p ← page_alloc PGSIZE; in_mem (memset p 0 PGSIZE);; mret p);
  let l := replicate (Z.to_nat (PGSIZE / 8)) entry0 in
  let l := <[Z.to_nat STDIN := {| fds_index := STDIN; busy := 1 |}]> l in
  let l := <[Z.to_nat STDOUT := {| fds_index := STDOUT; busy := 1 |}]> l in
  let l := <[Z.to_nat STDERR := {| fds_index := STDERR; busy := 1 |}]> l in
  modify (λ s, set_tables (<[result := l]> (tables s)) s);;
  mret result.

Fixpoint count_refs (n : nat) (t i : Z) : F unit :=
  match n with
  | O => mret tt
  | S n =>
      e ← entry t i;
      (if busy e =? 1
       then e ← entry t i; f ← file (fds_index e);
            set_file (fds_index e) (set_refcount (s32 (refcount f + 1)) f)
       else mret tt);;
      count_refs n t (i + 1)
  end.

Definition fdtable_copy (t : Z) : F Z :=
  result ← in_pages (page_alloc PGSIZE);
  count_refs (Z.to_nat MAX_FDTABLE) t 0;;
  ts ← gets tables;
  match ts !! t with
  | Some l => modify (λ s, set_tables (<[result := l]> (tables s)) s);; mret result
  | None => fail (Fault t)
  end.
End program.

(** ** The functions on an explicit state *)
Section exact.
Context {A : Type} `{PageAllocator A}.
Context (sector : Z → list Z) (e2fs : ext2_fs).
Implicit Types (s : fs_state A) (l : list fdentry) (fl : list ext2_file).

(** [s] with the table [l] at [t] and the open files [fl]. *)
Definition at_ s (t : Z) l fl : fs_state A :=
  {| fds := fl; tables := <[t := l]> (tables s); inodes := inodes s; pages := pages s;
     console := console s |}.

Lemma at_id s t l : tables s !! t = Some l → s = at_ s t l (fds s).
Proof. destruct s. intros Hl. unfold at_. simpl in *. by rewrite insert_id. Qed.

Lemma entry_at s t l fl fd e : nth_at l fd = Some e → entry t fd (at_ s t l fl) = Ok (e, at_ s t l fl).
Proof. intros E. unfold entry. simpl. by rewrite lookup_insert_eq, E. Qed.

Lemma set_entry_at s t l fl fd e e' : nth_at l fd = Some e →
  set_entry t fd e' (at_ s t l fl) = Ok (tt, at_ s t (<[Z.to_nat fd := e']> l) fl).
Proof.
  intros E. unfold set_entry. simpl. rewrite lookup_insert_eq, E.
  unfold at_, set_tables. simpl. by rewrite insert_insert_eq.
Qed.

Lemma file_at s t l fl i f : nth_at fl i = Some f → file i (at_ s t l fl) = Ok (f, at_ s t l fl).
Proof. intros E. unfold file. simpl. by rewrite E. Qed.

Lemma set_file_at s t l fl i f f' : nth_at fl i = Some f →
  set_file i f' (at_ s t l fl) = Ok (tt, at_ s t l (<[Z.to_nat i := f']> fl)).
Proof. intros E. unfold set_file. simpl. by rewrite E. Qed.

Lemma nth_at_insert {B} (l : list B) i x y : nth_at l i = Some x → nth_at (<[Z.to_nat i := y]> l) i = Some y.
Proof.
  unfold nth_at. destruct (Z.leb_spec 0 i); [|done]. intros E.
  by rewrite list_lookup_insert_eq by (by eapply lookup_lt_Some).
Qed.

Lemma nth_at_insert_ne {B} (l : list B) i j y : 0 ≤ i → i ≠ j → nth_at (<[Z.to_nat i := y]> l) j = nth_at l j.
Proof.
  intros Hi Hne. unfold nth_at. destruct (Z.leb_spec 0 j); [|done].
  by rewrite list_lookup_insert_ne by lia.
Qed.

Lemma nth_at_lt {B} (l : list B) i x : nth_at l i = Some x → 0 ≤ i < Z.of_nat (length l).
Proof. unfold nth_at. destruct (Z.leb_spec 0 i); [|done]. intros E%lookup_lt_Some. lia. Qed.

Lemma nth_at_is_Some {B} (l : list B) i : 0 ≤ i < Z.of_nat (length l) → ∃ x, nth_at l i = Some x.
Proof.
  intros Hi. unfold nth_at. destruct (Z.leb_spec 0 i); [|lia]. apply lookup_lt_is_Some_2. lia.
Qed.

Lemma insert_insert_at {B} (l : list B) i x y : <[i := x]> (<[i := y]> l) = <[i := x]> l.
Proof. apply list_insert_insert_eq. Qed.

(** A descriptor in use, and the open file behind it. *)
Record in_use l fl (fd : Z) (e : fdentry) (f : ext2_file) : Prop := {
  iu_fd : 0 ≤ fd < MAX_FDTABLE;
  iu_entry : nth_at l fd = Some e;
  iu_busy : busy e ≠ 0;
  iu_file : nth_at fl (fds_index e) = Some f
}.

Lemma fd_invaild_at s t l fl fd e : 0 ≤ fd < MAX_FDTABLE → nth_at l fd = Some e →
  fd_invaild t fd (at_ s t l fl) = Ok (busy e =? 0, at_ s t l fl).
Proof.
  intros Hfd He. unfold fd_invaild.
  destruct (Z.ltb_spec fd 0), (Z.leb_spec MAX_FDTABLE fd); try lia. simpl.
  by rewrite (bind_ok _ _ _ _ _ (entry_at s t l fl fd e He)).
Qed.

Lemma fd_to_fds_at s t l fl fd e : nth_at l fd = Some e → busy e ≠ 0 →
  fd_to_fds t fd (at_ s t l fl) = Ok (fds_index e, at_ s t l fl).
Proof.
  intros He Hb. unfold fd_to_fds. rewrite (bind_ok _ _ _ _ _ (entry_at s t l fl fd e He)).
  destruct (Z.eqb_spec (busy e) 0); [done|].
  by rewrite (bind_ok _ _ _ _ _ (entry_at s t l fl fd e He)).
Qed.

(** [close] of a descriptor in use: one reference less; the slot is freed at 0. *)
Definition released (f : ext2_file) : res ext2_file :=
  let f1 := set_refcount (s32 (refcount f - 1)) f in
  if (refcount f1 =? 0) && (Z.land (f_flags f1) FILE_PIPE_FLAGS =? 0)
  then if alloc f1 =? 1 then Ok (set_alloc 0 f1) else Err Halt
  else Ok f1.

Lemma close_at s t l fl fd e f : in_use l fl fd e f →
  close t fd (at_ s t l fl) =
    match released f with
    | Ok f' => Ok (0, at_ s t (<[Z.to_nat fd := set_busy 0 e]> l) (<[Z.to_nat (fds_index e) := f']> fl))
    | Err err => Err err
    end.
Proof.
  intros [Hfd He Hb Hf]. unfold close.
  rewrite (bind_ok _ _ _ _ _ (fd_invaild_at s t l fl fd e Hfd He)).
  destruct (Z.eqb_spec (busy e) 0); [done|]. set (i := fds_index e) in *.
  set (f1 := set_refcount (s32 (refcount f - 1)) f). set (fl1 := <[Z.to_nat i := f1]> fl).
  assert (nth_at fl1 i = Some f1) as Hf1 by (by eapply nth_at_insert).
  rewrite (bind_ok _ _ _ _ _ (fd_to_fds_at s t l fl fd e He Hb)).
  rewrite (bind_ok _ _ _ _ _ (file_at s t l fl i f Hf)).
  rewrite (bind_ok _ _ _ _ _ (set_file_at s t l fl i f f1 Hf)). fold fl1.
  rewrite (bind_ok _ _ _ _ _ (fd_to_fds_at s t l fl1 fd e He Hb)).
  rewrite (bind_ok _ _ _ _ _ (file_at s t l fl1 i f1 Hf1)).
  assert (∀ fl2, (e0 ← entry t fd; set_entry t fd (set_busy 0 e0);; mret 0) (at_ s t l fl2) =
    Ok (0, at_ s t (<[Z.to_nat fd := set_busy 0 e]> l) fl2)) as Hend.
  { intros fl2. rewrite (bind_ok _ _ _ _ _ (entry_at s t l fl2 fd e He)).
    by rewrite (bind_ok _ _ _ _ _ (set_entry_at s t l fl2 fd e _ He)). }
  unfold released. fold f1. destruct (refcount f1 =? 0); cbn [andb].
  2: { rewrite (bind_ok _ _ _ tt (at_ s t l fl1)) by done. apply Hend. }
  assert ((i0 ← fd_to_fds t fd; f0 ← file i0;
           if negb (Z.land (f_flags f0) FILE_PIPE_FLAGS =? 0) then mret tt
           else e0 ← entry t fd; free_fds (fds_index e0)) (at_ s t l fl1) =
          if Z.land (f_flags f1) FILE_PIPE_FLAGS =? 0
          then if alloc f1 =? 1 then Ok (tt, at_ s t l (<[Z.to_nat i := set_alloc 0 f1]> fl)) else Err Halt
          else Ok (tt, at_ s t l fl1)) as E.
  { rewrite (bind_ok _ _ _ _ _ (fd_to_fds_at s t l fl1 fd e He Hb)).
    rewrite (bind_ok _ _ _ _ _ (file_at s t l fl1 i f1 Hf1)).
    destruct (Z.land (f_flags f1) FILE_PIPE_FLAGS =? 0); [|done].
    cbn [negb]. rewrite (bind_ok _ _ _ _ _ (entry_at s t l fl1 fd e He)). unfold free_fds.
    rewrite (bind_ok _ _ _ _ _ (file_at s t l fl1 i f1 Hf1)).
    destruct (alloc f1 =? 1); [|done]. cbn [negb].
    rewrite (set_file_at s t l fl1 i f1 _ Hf1). unfold fl1. by rewrite insert_insert_at. }
  destruct (Z.land (f_flags f1) FILE_PIPE_FLAGS =? 0).
  - destruct (alloc f1 =? 1); [|by apply bind_err]. rewrite (bind_ok _ _ _ _ _ E). apply Hend.
  - rewrite (bind_ok _ _ _ _ _ E). apply Hend.
Qed.

(** The search for a free descriptor. *)
Fixpoint first_idle (n : nat) l (i : Z) : option Z :=
  match n with
  | O => None
  | S n => match nth_at l i with
           | Some e => if busy e =? 0 then Some i else first_idle n l (i + 1)
           | None => None
           end
  end.

Lemma find_fd_at s t l fl n i : 0 ≤ i → i + Z.of_nat n ≤ Z.of_nat (length l) →
  find_fd n t i (at_ s t l fl) = Ok (first_idle n l i, at_ s t l fl).
Proof.
  revert i. induction n as [|n IH]; intros i Hi Hn; [done|]. simpl.
  destruct (nth_at_is_Some l i) as [e He]; [lia|]. rewrite He.
  rewrite (bind_ok _ _ _ _ _ (entry_at s t l fl i e He)). destruct (busy e =? 0); [done|]. apply IH; lia.
Qed.

Lemma first_idle_Some n l i j : first_idle n l i = Some j →
  i ≤ j < i + Z.of_nat n ∧ (∃ e, nth_at l j = Some e ∧ busy e = 0) ∧
  (∀ k e, i ≤ k < j → nth_at l k = Some e → busy e ≠ 0).
Proof.
  revert i. induction n as [|n IH]; intros i Hs; [done|]. simpl in Hs.
  destruct (nth_at l i) as [e|] eqn:He; [|done]. destruct (Z.eqb_spec (busy e) 0).
  - injection Hs as <-. split_and!; [lia|lia|eauto|]. intros k e' Hk. lia.
  - apply IH in Hs as (? & ? & Hb). split_and!; [lia|lia|done|]. intros k e' Hk He'.
    destruct (decide (k = i)) as [->|]; [congruence|]. apply (Hb k); [lia|done].
Qed.

(** [dup] of a descriptor in use: the lowest free descriptor shares its slot. *)
Lemma dup_at s t l fl fd e f i e0 : in_use l fl fd e f → MAX_FDTABLE ≤ Z.of_nat (length l) →
  first_idle (Z.to_nat MAX_FDTABLE) l 0 = Some i → nth_at l i = Some e0 →
  dup t fd (at_ s t l fl) =
    Ok (i, at_ s t (<[Z.to_nat i := {| fds_index := fds_index e; busy := 1 |}]> l)
             (<[Z.to_nat (fds_index e) := set_refcount (s32 (refcount f + 1)) f]> fl)).
Proof.
  intros [Hfd He Hb Hf] Hlen Hi He0. unfold dup.
  rewrite (bind_ok _ _ _ _ _ (fd_invaild_at s t l fl fd e Hfd He)).
  destruct (Z.eqb_spec (busy e) 0); [done|].
  rewrite (bind_ok _ _ _ _ _ (find_fd_at s t l fl (Z.to_nat MAX_FDTABLE) 0 ltac:(done) Hlen)), Hi.
  destruct (first_idle_Some _ _ _ _ Hi) as (Hir & (e1 & He1 & Hb1) & _).
  assert (i ≠ fd) as Hne by (intros ->; congruence).
  rewrite (bind_ok _ _ _ _ _ (entry_at s t l fl fd e He)).
  rewrite (bind_ok _ _ _ _ _ (entry_at s t l fl i e0 He0)).
  rewrite (bind_ok _ _ _ _ _ (set_entry_at s t l fl i e0 _ He0)).
  set (e2 := {| fds_index := fds_index e; busy := busy e0 |}). set (l1 := <[Z.to_nat i := e2]> l).
  assert (nth_at l1 i = Some e2) as He2 by (by eapply nth_at_insert).
  rewrite (bind_ok _ _ _ _ _ (entry_at s t l1 fl i e2 He2)).
  rewrite (bind_ok _ _ _ _ _ (set_entry_at s t l1 fl i e2 _ He2)).
  unfold l1. rewrite insert_insert_at. set (l2 := <[Z.to_nat i := set_busy 1 e2]> l).
  assert (nth_at l2 fd = Some e) as He' by (unfold l2; by rewrite nth_at_insert_ne by lia).
  rewrite (bind_ok _ _ _ _ _ (fd_to_fds_at s t l2 fl fd e He' Hb)).
  rewrite (bind_ok _ _ _ _ _ (file_at s t l2 fl _ f Hf)).
  by rewrite (bind_ok _ _ _ _ _ (set_file_at s t l2 fl _ f _ Hf)).
Qed.
End exact.

(** ** Properties *)
Section properties.
Context {A : Type} `{PageAllocator A}.
Context (sector : Z → list Z) (e2fs : ext2_fs).
Implicit Types (s : fs_state A) (l : list fdentry) (fl : list ext2_file).

(** Every descriptor in use names a slot of [fds]. *)
Definition fds_ok l fl : Prop :=
  MAX_FDTABLE ≤ Z.of_nat (length l) ∧ Z.of_nat (length fl) = MAX_FILES ∧
  ∀ i e, nth_at l i = Some e → busy e ≠ 0 → 0 ≤ fds_index e < MAX_FILES.

(** A run that ends in [panic], or in a state whose tables are well formed again. *)
Definition safe {B} s t (r : res (B * fs_state A)) : Prop :=
  match r with
  | Ok (_, s') => ∃ l' fl', s' = at_ s t l' fl' ∧ fds_ok l' fl'
  | Err e => e = Halt
  end.

Lemma fds_ok_entry l fl i e : fds_ok l fl → 0 ≤ i → (busy e ≠ 0 → 0 ≤ fds_index e < MAX_FILES) →
  fds_ok (<[Z.to_nat i := e]> l) fl.
Proof.
  intros (H1 & H2 & H3) Hi He. split_and!; [by rewrite length_insert|done|]. intros j e' Hj Hb.
  destruct (decide (i = j)) as [<-|Hne].
  - pose proof (nth_at_lt _ _ _ Hj) as Hlt. rewrite length_insert in Hlt.
    destruct (nth_at_is_Some l i Hlt) as [x Hx]. rewrite (nth_at_insert _ _ _ _ Hx) in Hj.
    injection Hj as <-. by apply He.
  - rewrite nth_at_insert_ne in Hj by done. by eapply H3.
Qed.

Lemma fds_ok_file l fl i f : fds_ok l fl → fds_ok l (<[i := f]> fl).
Proof. intros (H1 & H2 & H3). split_and!; [done|by rewrite length_insert|done]. Qed.

Lemma at_at s t l fl l' fl' : at_ (at_ s t l fl) t l' fl' = at_ s t l' fl'.
Proof. unfold at_. simpl. by rewrite insert_insert_eq. Qed.

(** A descriptor is invalid or in use. *)
Lemma descriptor_cases s t l fl fd : fds_ok l fl →
  fd_invaild t fd (at_ s t l fl) = Ok (true, at_ s t l fl) ∨
  ∃ e f, in_use l fl fd e f ∧ fd_invaild t fd (at_ s t l fl) = Ok (false, at_ s t l fl).
Proof.
  intros (H1 & H2 & H3). destruct (decide (0 ≤ fd < MAX_FDTABLE)) as [Hfd|Hfd].
  - destruct (nth_at_is_Some l fd) as [e He]; [lia|].
    rewrite (fd_invaild_at s t l fl fd e Hfd He).
    destruct (Z.eqb_spec (busy e) 0) as [Hb|Hb]; [by left|right].
    destruct (nth_at_is_Some fl (fds_index e)) as [f Hf]; [rewrite H2; by eapply H3|].
    exists e, f. split; [by constructor|done].
  - left. unfold fd_invaild. destruct (Z.ltb_spec fd 0), (Z.leb_spec MAX_FDTABLE fd); simpl; done || lia.
Qed.

Lemma safe_at {B} s t l fl (b : B) : fds_ok l fl → safe s t (Ok (b, at_ s t l fl)).
Proof. intros Hok. exists l, fl. done. Qed.

Lemma close_safe s t l fl fd : fds_ok l fl → safe s t (close t fd (at_ s t l fl)).
Proof.
  intros Hok. destruct (descriptor_cases s t l fl fd Hok) as [E|(e & f & Hu & _)].
  - unfold close. rewrite (bind_ok _ _ _ _ _ E). by apply safe_at.
  - rewrite (close_at s t l fl fd e f Hu). destruct (released f) as [f'|err] eqn:E.
    + apply safe_at, fds_ok_file. apply fds_ok_entry; [done|apply Hu|]. simpl. lia.
    + unfold released in E. repeat case_match; by simplify_eq.
Qed.

Lemma dup_safe s t l fl fd : fds_ok l fl → safe s t (dup t fd (at_ s t l fl)).
Proof.
  intros Hok. destruct (descriptor_cases s t l fl fd Hok) as [E|(e & f & Hu & E)].
  - unfold dup. by rewrite (bind_ok _ _ _ _ _ E).
  - pose proof Hok as (H1 & H2 & H3).
    destruct (first_idle (Z.to_nat MAX_FDTABLE) l 0) as [i|] eqn:Hi.
    + destruct (first_idle_Some _ _ _ _ Hi) as (Hir & (e0 & He0 & _) & _).
      rewrite (dup_at s t l fl fd e f i e0 Hu H1 Hi He0).
      apply safe_at, fds_ok_file, fds_ok_entry; [done|lia|].
      intros _. simpl. eapply H3; apply Hu.
    + unfold dup. rewrite (bind_ok _ _ _ _ _ E).
      rewrite (bind_ok _ _ _ _ _ (find_fd_at s t l fl (Z.to_nat MAX_FDTABLE) 0 ltac:(done) H1)), Hi.
      by apply safe_at.
Qed.

Lemma fcntl_safe s t l fl fd cmd arg : fds_ok l fl → (cmd = F_DUPFD → 0 ≤ arg) →
  safe s t (fcntl t fd cmd arg (at_ s t l fl)).
Proof.
  intros Hok Harg. unfold fcntl.
  destruct (descriptor_cases s t l fl fd Hok) as [E|(e & f & Hu & E)];
    rewrite (bind_ok _ _ _ _ _ E); [by apply safe_at|].
  pose proof Hok as (H1 & H2 & H3). pose proof Hu as [Hfd He Hb _].
  assert (0 ≤ fds_index e < MAX_FILES) as Hr by (by eapply H3).
  destruct (Z.eqb_spec cmd F_DUPFD) as [Hc|_].
  - specialize (Harg Hc).
    assert (arg + Z.of_nat (Z.to_nat (MAX_FILES - arg)) ≤ Z.of_nat (length l) ∨ MAX_FILES - arg ≤ 0)
      as [Hn|Hn] by (unfold MAX_FILES, MAX_FDTABLE in *; lia).
    2: { replace (Z.to_nat (MAX_FILES - arg)) with 0%nat by lia. by apply safe_at. }
    rewrite (bind_ok _ _ _ _ _ (find_fd_at s t l fl _ arg Harg Hn)).
    destruct (first_idle _ l arg) as [i|] eqn:Hi; [|by apply safe_at].
    destruct (first_idle_Some _ _ _ _ Hi) as (Hir & (e0 & He0 & _) & _).
    rewrite (bind_ok _ _ _ _ _ (entry_at s t l fl fd e He)).
    rewrite (bind_ok _ _ _ _ _ (set_entry_at s t l fl i e0 e He0)).
    apply safe_at, fds_ok_entry; [done|lia|done].
  - destruct (cmd =? F_GETFD).
    { rewrite (bind_ok _ _ _ _ _ (entry_at s t l fl fd e He)). by apply safe_at. }
    destruct (cmd =? F_SETFD).
    { rewrite (bind_ok _ _ _ _ _ (entry_at s t l fl fd e He)).
      rewrite (bind_ok _ _ _ _ _ (set_entry_at s t l fl fd e _ He)).
      apply safe_at, fds_ok_entry; [done|lia|done]. }
    destruct (_ && _); by apply safe_at.
Qed.

(** [dup3] first closes [newfd]; the entry of another descriptor stays. *)
Lemma close_if_busy s t l fl oldfd newfd e en : fds_ok l fl → 0 ≤ newfd < MAX_FDTABLE →
  oldfd ≠ newfd → nth_at l oldfd = Some e → nth_at l newfd = Some en →
  let r := (if busy en =? 1 then close t newfd;; mret tt else mret tt) (at_ s t l fl) in
  (∃ l1 fl1, r = Ok (tt, at_ s t l1 fl1) ∧ fds_ok l1 fl1 ∧ nth_at l1 oldfd = Some e) ∨ r = Err Halt.
Proof.
  intros Hok Hn Hne He Hen. pose proof Hok as (H1 & H2 & H3).
  destruct (Z.eqb_spec (busy en) 1) as [Hb1|]; [|left; by exists l, fl].
  destruct (nth_at_is_Some fl (fds_index en)) as [fn Hfn]; [rewrite H2; eapply H3; [done|lia]|].
  assert (in_use l fl newfd en fn) as Hun by (constructor; try done; lia).
  pose proof (close_safe s t l fl newfd Hok) as Hs.
  pose proof (close_at s t l fl newfd en fn Hun) as Ec.
  destruct (released fn) as [f'|err] eqn:Er.
  - left. eexists _, _. split_and!.
    + by rewrite (bind_ok _ _ _ _ _ Ec).
    + apply fds_ok_file, fds_ok_entry; [done|lia|]. simpl. lia.
    + by rewrite nth_at_insert_ne by lia.
  - right. apply bind_err. rewrite Ec in Hs |- *. simpl in Hs. by subst.
Qed.

(** What [dup3] does with [O_CLOEXEC] at the end. *)
Lemma cloexec_safe s t l fl newfd flags : fds_ok l fl →
  safe s t ((if negb (Z.land flags O_CLOEXEC =? 0)
             then flags_newfd ← fcntl t newfd F_GETFD 0;
                  if flags_newfd =? -1 then mret (-1)
                  else r ← fcntl t newfd F_SETFD (Z.lor flags_newfd FD_CLOEXEC);
                       if r =? -1 then mret (-1) else mret newfd
             else mret newfd) (at_ s t l fl)).
Proof.
  intros Hok. destruct (negb _); [|by apply safe_at].
  pose proof (fcntl_safe s t l fl newfd F_GETFD 0 Hok ltac:(done)) as Hg.
  destruct (fcntl t newfd F_GETFD 0 (at_ s t l fl)) as [[g s4]|err] eqn:Eg;
    [|by rewrite (bind_err _ _ _ _ Eg)].
  destruct Hg as (l4 & fl4 & -> & Hok4). rewrite (bind_ok _ _ _ _ _ Eg).
  destruct (g =? -1); [by apply safe_at|].
  pose proof (fcntl_safe s t l4 fl4 newfd F_SETFD (Z.lor g FD_CLOEXEC) Hok4 ltac:(done)) as Hs.
  destruct (fcntl t newfd F_SETFD (Z.lor g FD_CLOEXEC) (at_ s t l4 fl4)) as [[r s5]|err] eqn:Es;
    [|by rewrite (bind_err _ _ _ _ Es)].
  destruct Hs as (l5 & fl5 & -> & Hok5). rewrite (bind_ok _ _ _ _ _ Es).
  destruct (r =? -1); by apply safe_at.
Qed.

Lemma dup3_safe s t l fl oldfd newfd flags : fds_ok l fl → 0 ≤ newfd < MAX_FDTABLE →
  safe s t (dup3 t oldfd newfd flags (at_ s t l fl)).
Proof.
  intros Hok Hn. unfold dup3. destruct (Z.eqb_spec oldfd newfd) as [|Hne]; [by apply safe_at|].
  destruct (descriptor_cases s t l fl oldfd Hok) as [E|(e & f & Hu & E)];
    rewrite (bind_ok _ _ _ _ _ E); [done|].
  pose proof Hok as (H1 & H2 & H3). pose proof Hu as [Hfd He Hb Hf].
  destruct (nth_at_is_Some l newfd) as [en Hen]; [lia|].
  rewrite (bind_ok _ _ _ _ _ (entry_at s t l fl newfd en Hen)).
  destruct (close_if_busy s t l fl oldfd newfd e en Hok Hn Hne He Hen)
    as [(l1 & fl1 & E1 & Hok1 & He1)|E1]; [rewrite (bind_ok _ _ _ _ _ E1)|by rewrite (bind_err _ _ _ _ E1)].
  pose proof Hok1 as (K1 & K2 & K3).
  destruct (nth_at_is_Some l1 newfd) as [en1 Hen1]; [lia|].
  rewrite (bind_ok _ _ _ _ _ (entry_at s t l1 fl1 newfd en1 Hen1)).
  rewrite (bind_ok _ _ _ _ _ (set_entry_at s t l1 fl1 newfd en1 _ Hen1)).
  set (l2 := <[Z.to_nat newfd := set_busy 1 en1]> l1).
  assert (nth_at l2 oldfd = Some e) as He2 by (unfold l2; by rewrite nth_at_insert_ne by lia).
  assert (nth_at l2 newfd = Some (set_busy 1 en1)) as Hen2 by (by eapply nth_at_insert).
  rewrite (bind_ok _ _ _ _ _ (entry_at s t l2 fl1 oldfd e He2)).
  rewrite (bind_ok _ _ _ _ _ (entry_at s t l2 fl1 newfd _ Hen2)).
  rewrite (bind_ok _ _ _ _ _ (set_entry_at s t l2 fl1 newfd _ _ Hen2)).
  unfold l2. rewrite insert_insert_at.
  set (en3 := {| fds_index := fds_index e; busy := busy (set_busy 1 en1) |}).
  set (l3 := <[Z.to_nat newfd := en3]> l1).
  assert (nth_at l3 oldfd = Some e) as He3 by (unfold l3; by rewrite nth_at_insert_ne by lia).
  rewrite (bind_ok _ _ _ _ _ (fd_to_fds_at s t l3 fl1 oldfd e He3 Hb)).
  assert (0 ≤ fds_index e < MAX_FILES) as Hr by (by eapply H3).
  destruct (nth_at_is_Some fl1 (fds_index e)) as [f1 Hf1]; [lia|].
  rewrite (bind_ok _ _ _ _ _ (file_at s t l3 fl1 _ f1 Hf1)).
  rewrite (bind_ok _ _ _ _ _ (set_file_at s t l3 fl1 _ f1 _ Hf1)).
  set (fl3 := <[Z.to_nat (fds_index e) := _]> fl1).
  assert (fds_ok l3 fl3) as Hok3.
  { unfold l3, fl3. apply fds_ok_file, fds_ok_entry; [done|lia|done]. }
  by apply cloexec_safe.
Qed.

(** C26: the descriptor functions keep the tables well formed.  From any state in which every
    descriptor in use names one of the 256 slots, [close], [dup], [dup3] and [fcntl], for any
    descriptor numbers (the target of [dup3] must be in the table, the argument of [F_DUPFD] not
    negative, the two bounds the code does not check), end in such a state or in [panic]: they
    never leave the arrays. *)
Theorem descriptor_ops_safe s t l fd newfd flags cmd arg : tables s !! t = Some l →
  fds_ok l (fds s) → 0 ≤ newfd < MAX_FDTABLE → (cmd = F_DUPFD → 0 ≤ arg) →
  safe s t (close t fd s) ∧ safe s t (dup t fd s) ∧ safe s t (dup3 t fd newfd flags s) ∧
  safe s t (fcntl t fd cmd arg s).
Proof.
  intros Hl Hok Hn Harg. rewrite (at_id s t l Hl). set (fl := fds s) in *.
  assert (∀ B (r : res (B * fs_state A)), safe s t r → safe (at_ s t l fl) t r) as Hs.
  { intros B [[b s']|e]; [|done]. intros (l' & fl' & -> & Hok'). exists l', fl'. by rewrite at_at. }
  split_and!; apply Hs; [by apply close_safe|by apply dup_safe|by apply dup3_safe|by apply fcntl_safe].
Qed.

(** A slot of [fds] is lost by every [open] and [close].  [open] leaves the reference count
    at 0, so the matching [close] makes it -1 and never frees the slot; once no slot is left
    the next [open] of an existing file ends in [panic]. *)
Theorem close_never_frees s t l fd e f : tables s !! t = Some l → in_use l (fds s) fd e f →
  refcount f = 0 →
  close t fd s = Ok (0, at_ s t (<[Z.to_nat fd := set_busy 0 e]> l)
                          (<[Z.to_nat (fds_index e) := set_refcount (-1) f]> (fds s))) ∧
  (∀ fl path inode i e', Forall (λ f, alloc f ≠ 0) fl → 
     ext2_path_lookup sector e2fs path = Ok (0, Some inode) →
     MAX_FDTABLE ≤ Z.of_nat (length l) → first_idle (Z.to_nat MAX_FDTABLE) l 0 = Some i → nth_at l i = Some e' →
     ∀ flags, open sector e2fs t path flags (at_ s t l fl) = Err Halt).
Proof.
  intros Hl Hu Hr. split.
  - rewrite (at_id s t l Hl) at 1. rewrite (close_at s t l (fds s) fd e f Hu).
    unfold released. rewrite Hr. done.
  - intros fl path inode i e' Hall Hlk Hlen Hi He' flags. unfold open.
    rewrite (bind_ok _ _ _ (0, Some inode) (at_ s t l fl)) by (unfold lift; by rewrite Hlk).
    rewrite (bind_ok _ _ _ _ _ (find_fd_at s t l fl (Z.to_nat MAX_FDTABLE) 0 ltac:(done) Hlen)), Hi.
    rewrite (bind_ok _ _ _ _ _ (entry_at s t l fl i e' He')).
    rewrite (bind_ok _ _ _ _ _ (set_entry_at s t l fl i e' _ He')).
    apply bind_err. unfold alloc_fds. rewrite (bind_ok _ _ _ fl (at_ s t (<[Z.to_nat i := set_busy 1 e']> l) fl)) by done.
    assert (∀ k, first_free fl k = None) as ->; [|done].
    clear - Hall. induction Hall as [|f fl Hf _ IH]; intros k; [done|]. simpl.
    destruct (Z.eqb_spec (alloc f) 0); [done|]. apply IH.
Qed.

(** [dup] followed by [close] of either descriptor frees the slot that the other one still
    names.  For a file just opened (reference count 0, no pipe flag) the count is 1 after
    [dup], 0 after [close], and the slot is marked free although a descriptor in use refers
    to it, so the next [open] can take it over. *)
Theorem dup_close_dangling s t l fd e f i e0 : tables s !! t = Some l → in_use l (fds s) fd e f →
  refcount f = 0 → alloc f = 1 → Z.land (f_flags f) FILE_PIPE_FLAGS = 0 →
  MAX_FDTABLE ≤ Z.of_nat (length l) →
  first_idle (Z.to_nat MAX_FDTABLE) l 0 = Some i → nth_at l i = Some e0 →
  ∃ s1 s2 l2 f2, dup t fd s = Ok (i, s1) ∧ close t i s1 = Ok (0, s2) ∧
    tables s2 !! t = Some l2 ∧ nth_at l2 fd = Some e ∧ busy e ≠ 0 ∧
    nth_at (fds s2) (fds_index e) = Some f2 ∧ alloc f2 = 0.
Proof.
  intros Hl Hu Hr Hal Hfl Hlen Hi He0. pose proof Hu as [Hfd He Hb Hf].
  destruct (first_idle_Some _ _ _ _ Hi) as (Hir & (e1 & He1 & Hb1) & _).
  assert (i ≠ fd) as Hne by (intros ->; congruence).
  pose proof (dup_at s t l (fds s) fd e f i e0 Hu Hlen Hi He0) as Ed. rewrite <- (at_id s t l Hl) in Ed.
  set (e' := {| fds_index := fds_index e; busy := 1 |}) in *.
  set (f' := set_refcount (s32 (refcount f + 1)) f) in *.
  set (l1 := <[Z.to_nat i := e']> l) in *. set (fl1 := <[Z.to_nat (fds_index e) := f']> (fds s)) in *.
  assert (in_use l1 fl1 i e' f') as Hu1.
  { constructor; [lia|by eapply nth_at_insert|done|by eapply nth_at_insert]. }
  pose proof (close_at s t l1 fl1 i e' f' Hu1) as Ec.
  assert (released f' = Ok (set_alloc 0 (set_refcount (s32 (refcount f' - 1)) f'))) as Er.
  { unfold released, f'. simpl. rewrite Hr, Hfl, Hal. done. }
  rewrite Er in Ec. eexists _, _, _, _. split_and!; [done|exact Ec| | |done| |].
  - simpl. by rewrite lookup_insert_eq.
  - rewrite nth_at_insert_ne by lia. unfold l1. by rewrite nth_at_insert_ne by lia.
  - simpl. eapply nth_at_insert. by eapply nth_at_insert.
  - done.
Qed.
End properties.

(** A table with the standard descriptors and one file, in slot 3. *)
Definition sample_state : fs_state Z := {|
  fds := <[3%nat := {| f_inode := 0x9000000090004000; f_pos := 0; f_flags := 0; refcount := 0; alloc := 1 |}]>
           (replicate 256 (set_alloc 1 file0));
  tables := {[ 64 := <[3%nat := {| fds_index := 3; busy := 1 |}]> (replicate 256 entry0) ]};
  inodes := ∅; pages := (∅, 0); console := {| rx := []; tx := []; getstr_buf := replicate 128 0 |}
|}.
Definition sample_entries : list fdentry := <[3%nat := {| fds_index := 3; busy := 1 |}]> (replicate 256 entry0).

Lemma sample_in_use : in_use sample_entries (fds sample_state) 3 {| fds_index := 3; busy := 1 |}
  {| f_inode := 0x9000000090004000; f_pos := 0; f_flags := 0; refcount := 0; alloc := 1 |}.
Proof. by constructor. Qed.

Lemma descriptor_ops_safe_witness : safe sample_state 64 (dup3 64 3 200 0 sample_state).
Proof.
  apply (descriptor_ops_safe sample_state 64 sample_entries 3 200 0 F_GETFD 0).
  - done.
  - split_and!; [done|by vm_compute|]. intros i e Hi Hb. unfold nth_at, sample_entries in Hi.
    destruct (0 <=? i); [|done]. apply list_lookup_insert_Some in Hi as [(_ & <- & _)|[_ Hi]]; [done|].
    by apply lookup_replicate in Hi as [-> _].
  - done.
  - done.
Defined.

Lemma close_never_frees_witness : ∃ s', close 64 3 sample_state = Ok (0, s') ∧
  alloc <$> fds s' !! 3%nat = Some 1.
Proof.
  destruct (close_never_frees (λ _, replicate 512 0) sample_fs sample_state 64 sample_entries 3
    {| fds_index := 3; busy := 1 |} _ eq_refl sample_in_use eq_refl) as [E _].
  eexists. split; [exact E|]. by vm_compute.
Defined.

Lemma dup_close_dangling_witness : ∃ s1 s2, dup 64 3 sample_state = Ok (0, s1) ∧ close 64 0 s1 = Ok (0, s2).
Proof.
  destruct (dup_close_dangling sample_state 64 sample_entries 3 {| fds_index := 3; busy := 1 |} _ 0 entry0
    eq_refl sample_in_use eq_refl eq_refl eq_refl) as (s1 & s2 & _ & _ & E1 & E2 & _); [done..|].
  exists s1, s2. split; [exact E1|exact E2].
Defined.
