(* ===== verification/Proc.v ===== *)
(** * include/proc.h, core/proc.c: the process table

    The state of the kernel ([kstate]) is the 64 slots of [proc], the statics
    of [core/], the links of the [children] and [tasks] lists, the file
    tables of [Fs] (which hold memory and page allocator) and the heap of
    [Malloc].  A [struct task_struct *] is the index of its slot, [NULL] is
    [None].  [swtch] (assembly) saves and loads the registers; a function
    that reaches it stops there and returns the point at which the process
    goes on ([control]). *)

From S2P Require Import Prelude Mem CString KList PageAlloc Vm Malloc MList AddrSpace Ext2 Uart Fs.

Definition PROC_MAX : nat := 64.
Definition ARGS_MAX := 8.
Definition ENVS_MAX := 16.

Inductive alloc_state := UNUSED | USED.
Inductive proc_state := TASK_RUNNING | TASK_RUNABLE | TASK_ZOMBIE | TASK_KILLED.

#[export] Instance alloc_state_eq_dec : EqDecision alloc_state.
Proof. solve_decision. Defined.
#[export] Instance proc_state_eq_dec : EqDecision proc_state.
Proof. solve_decision. Defined.

Record task_struct := {
  pid : Z; parent : option nat; state : proc_state; allocs : alloc_state; context : Z;
  trapframe : Z; fdtable : Z; bss : Z; name : list Z; cwd : list Z; pgtbl : Z;
  mapping_list : Z; callback : Z; timer_call_time : Z; exit_code : Z
}.

(** The two list nodes inside slot [i]. *)
Inductive node := children (i : nat) | tasks (i : nat).
#[export] Instance node_eq_dec : EqDecision node.
Proof. solve_decision. Defined.
#[export] Program Instance node_countable : Countable node :=
  inj_countable' (λ n, match n with children i => inl i | tasks i => inr i end)
    (λ s, match s with inl i => children i | inr i => tasks i end) _.
Next Obligation. by intros []. Qed.

(** What the kernel takes from outside the C code: the address at which the MMU finds the byte
    a C pointer refers to (from the memory, the page table register and the pointer; [None]:
    the access traps), the addresses of [elf_buf], of [exec_helper] and of the locals of
    [fork] and [exec], the disk, what a signal handler of the user does to memory, and a bound
    on the rounds of the loop of [sys_sendfile]. *)
Class Machine := {
  translate : mem → Z → Z → option Z;
  elf_buf : Z;
  exec_helper : Z;
  frame : Z;
  sector : Z → list Z;
  run_handler : Z → Z → M mem unit;
  patience : nat
}.

(** ** Field assignments *)
Definition set_pid (v : Z) (p : task_struct) : task_struct :=
  let '(Build_task_struct _ b c d e f g h i j k l m n o) := p in
  Build_task_struct v b c d e f g h i j k l m n o.
Definition set_parent (v : option nat) (p : task_struct) : task_struct :=
  let '(Build_task_struct a _ c d e f g h i j k l m n o) := p in
  Build_task_struct a v c d e f g h i j k l m n o.
Definition set_state (v : proc_state) (p : task_struct) : task_struct :=
  let '(Build_task_struct a b _ d e f g h i j k l m n o) := p in
  Build_task_struct a b v d e f g h i j k l m n o.
Definition set_allocs (v : alloc_state) (p : task_struct) : task_struct :=
  let '(Build_task_struct a b c _ e f g h i j k l m n o) := p in
  Build_task_struct a b c v e f g h i j k l m n o.
Definition set_context (v : Z) (p : task_struct) : task_struct :=
  let '(Build_task_struct a b c d _ f g h i j k l m n o) := p in
  Build_task_struct a b c d v f g h i j k l m n o.
Definition set_trapframe (v : Z) (p : task_struct) : task_struct :=
  let '(Build_task_struct a b c d e _ g h i j k l m n o) := p in
  Build_task_struct a b c d e v g h i j k l m n o.
Definition set_fdtable (v : Z) (p : task_struct) : task_struct :=
  let '(Build_task_struct a b c d e f _ h i j k l m n o) := p in
  Build_task_struct a b c d e f v h i j k l m n o.
Definition set_bss (v : Z) (p : task_struct) : task_struct :=
  let '(Build_task_struct a b c d e f g _ i j k l m n o) := p in
  Build_task_struct a b c d e f g v i j k l m n o.
Definition set_name (v : list Z) (p : task_struct) : task_struct :=
  let '(Build_task_struct a b c d e f g h _ j k l m n o) := p in
  Build_task_struct a b c d e f g h v j k l m n o.
Definition set_cwd (v : list Z) (p : task_struct) : task_struct :=
  let '(Build_task_struct a b c d e f g h i _ k l m n o) := p in
  Build_task_struct a b c d e f g h i v k l m n o.
Definition set_pgtbl (v : Z) (p : task_struct) : task_struct :=
  let '(Build_task_struct a b c d e f g h i j _ l m n o) := p in
  Build_task_struct a b c d e f g h i j v l m n o.
Definition set_mapping_list (v : Z) (p : task_struct) : task_struct :=
  let '(Build_task_struct a b c d e f g h i j k _ m n o) := p in
  Build_task_struct a b c d e f g h i j k v m n o.
Definition set_callback (v : Z) (p : task_struct) : task_struct :=
  let '(Build_task_struct a b c d e f g h i j k l _ n o) := p in
  Build_task_struct a b c d e f g h i j k l v n o.
Definition set_timer_call_time (v : Z) (p : task_struct) : task_struct :=
  let '(Build_task_struct a b c d e f g h i j k l m _ o) := p in
  Build_task_struct a b c d e f g h i j k l m v o.
Definition set_exit_code (v : Z) (p : task_struct) : task_struct :=
  let '(Build_task_struct a b c d e f g h i j k l m n _) := p in
  Build_task_struct a b c d e f g h i j k l m n v.

(** Where a process goes on when it gets the processor again: at the end of the trap (user
    mode), after the [yield] of [kill] (a process that has exited), or after a [yield] in one
    of the two loops of [sys_wait4]. *)
Inductive resume :=
| InUser
| InExit
| InWaitAny (trapframe wstatus rusage : Z)
| InWaitPid (trapframe : Z) (pos : nat) (wstatus rusage : Z).

(** [ticks] counts timer interrupts (time.c), [tick] is a variable of syscall.c that nothing
    increments; [cur_sp] is the trap frame of the running process, [pgdl] the page table
    register, [seed] the state of [rand]; [points] is what
    [*p->context] holds for the process in each slot, as far as the C code can tell; [mount] is
    the static file system record of ext2.c. *)
Record kstate (A : Type) := {
  proc : list task_struct; last_pid : Z; cur_proc : option nat;
  links : gmap node (list_head node); fs : fs_state A; kheap : mheap;
  ticks : Z; tick : Z; cur_sp : Z; pgdl : Z; seed : Z; points : gmap nat resume;
  mount : ext2_fs
}.
Arguments proc {A} _.
Arguments last_pid {A} _.
Arguments cur_proc {A} _.
Arguments links {A} _.
Arguments fs {A} _.
Arguments kheap {A} _.
Arguments ticks {A} _.
Arguments tick {A} _.
Arguments cur_sp {A} _.
Arguments pgdl {A} _.
Arguments seed {A} _.
Arguments points {A} _.
Arguments mount {A} _.
Arguments Build_kstate {A} _ _ _ _ _ _ _ _ _ _ _ _ _.

(** A function that may reach [swtch]: it returns a value or stops in [yield]. *)
Inductive control := Return (v : Z) | Yield (k : resume).

Section program.
Context {A : Type} `{PageAllocator A} `{Machine}.
Abbreviation K := (M (kstate A)).

Definition with_proc (l : list task_struct) (s : kstate A) : kstate A :=
  Build_kstate l (last_pid s) (cur_proc s) (links s) (fs s) (kheap s) (ticks s) (tick s)
    (cur_sp s) (pgdl s) (seed s) (points s) (mount s).
Definition with_last_pid (v : Z) (s : kstate A) : kstate A :=
  Build_kstate (proc s) v (cur_proc s) (links s) (fs s) (kheap s) (ticks s) (tick s)
    (cur_sp s) (pgdl s) (seed s) (points s) (mount s).
Definition with_cur_proc (v : option nat) (s : kstate A) : kstate A :=
  Build_kstate (proc s) (last_pid s) v (links s) (fs s) (kheap s) (ticks s) (tick s)
    (cur_sp s) (pgdl s) (seed s) (points s) (mount s).
Definition with_links (v : gmap node (list_head node)) (s : kstate A) : kstate A :=
  Build_kstate (proc s) (last_pid s) (cur_proc s) v (fs s) (kheap s) (ticks s) (tick s)
    (cur_sp s) (pgdl s) (seed s) (points s) (mount s).
Definition with_fs (v : fs_state A) (s : kstate A) : kstate A :=
  Build_kstate (proc s) (last_pid s) (cur_proc s) (links s) v (kheap s) (ticks s) (tick s)
    (cur_sp s) (pgdl s) (seed s) (points s) (mount s).
Definition with_heap (v : mem * A * mheap) (s : kstate A) : kstate A :=
  Build_kstate (proc s) (last_pid s) (cur_proc s) (links s)
    {| fds := fds (fs s); tables := tables (fs s); inodes := inodes (fs s); pages := v.1;
       console := console (fs s) |} v.2 (ticks s) (tick s) (cur_sp s) (pgdl s) (seed s) (points s) (mount s).
Definition with_ticks (v : Z) (s : kstate A) : kstate A :=
  Build_kstate (proc s) (last_pid s) (cur_proc s) (links s) (fs s) (kheap s) v (tick s)
    (cur_sp s) (pgdl s) (seed s) (points s) (mount s).
Definition with_pgdl (v : Z) (s : kstate A) : kstate A :=
  Build_kstate (proc s) (last_pid s) (cur_proc s) (links s) (fs s) (kheap s) (ticks s) (tick s)
    (cur_sp s) v (seed s) (points s) (mount s).
Definition with_seed (v : Z) (s : kstate A) : kstate A :=
  Build_kstate (proc s) (last_pid s) (cur_proc s) (links s) (fs s) (kheap s) (ticks s) (tick s)
    (cur_sp s) (pgdl s) v (points s) (mount s).
Definition with_points (v : gmap nat resume) (s : kstate A) : kstate A :=
  Build_kstate (proc s) (last_pid s) (cur_proc s) (links s) (fs s) (kheap s) (ticks s) (tick s)
    (cur_sp s) (pgdl s) (seed s) v (mount s).
Definition with_cur_sp (v : Z) (s : kstate A) : kstate A :=
  Build_kstate (proc s) (last_pid s) (cur_proc s) (links s) (fs s) (kheap s) (ticks s) (tick s)
    v (pgdl s) (seed s) (points s) (mount s).

Definition with_mount (v : ext2_fs) (s : kstate A) : kstate A :=
  Build_kstate (proc s) (last_pid s) (cur_proc s) (links s) (fs s) (kheap s) (ticks s) (tick s)
    (cur_sp s) (pgdl s) (seed s) (points s) v.

Definition on_links {B} : M (gmap node (list_head node)) B → K B := zoom links with_links.
Definition on_fs {B} : M (fs_state A) B → K B := zoom fs with_fs.
Definition on_heap {B} : M (mem * A * mheap) B → K B :=
  zoom (λ s, (pages (fs s), kheap s)) with_heap.
Definition on_vm {B} (c : M (mem * A) B) : K B := on_heap (on_pages c).

Definition on_mem {B} (c : M mem B) : K B := on_vm (in_mem c).

(** Accesses through a pointer of the current address space; an aligned word lies in one
    page. *)
Definition user_addr (a : Z) : K Z := λ s,
  match translate (pages (fs s)).1 (pgdl s) a with Some x => Ok (x, s) | None => Err (Fault a) end.
Definition uload8 (a : Z) : K Z := x ← user_addr a; on_mem (load8 x).
Definition ustore8 (a v : Z) : K unit := x ← user_addr a; on_mem (store8 x v).
Definition uload64 (a : Z) : K Z := x ← user_addr a; on_mem (load64 x).
Definition ustore64 (a v : Z) : K unit := x ← user_addr a; on_mem (store64 x v).

Fixpoint uread (n : nat) (a : Z) : K (list Z) :=
  match n with O => mret [] | S n => c ← uload8 a; l ← uread n (u64 (a + 1)); mret (c :: l) end.
Fixpoint uwrite (a : Z) (l : list Z) : K unit :=
  match l with [] => mret tt | c :: l => ustore8 a c;; uwrite (u64 (a + 1)) l end.

(** The C string at [a], for a copy to a buffer of [n] bytes; a longer one overruns the
    buffer. *)
Fixpoint ustring (n : nat) (a : Z) : K (list Z) :=
  match n with
  | O => fail (Fault a)
  | S n => c ← uload8 a;
           if c =? 0 then mret [] else l ← ustring n (u64 (a + 1)); mret (c :: l)
  end.

(** A copy of the C string [l] to a buffer of [n] bytes. *)
Definition fits (n : Z) (l : list Z) : K (list Z) :=
  if Z.of_nat (length l) <? n then mret l else fail (Fault n).

Definition task (i : nat) : K task_struct := λ s,
  match proc s !! i with Some p => Ok (p, s) | None => Err (Fault (Z.of_nat i)) end.
Definition update (i : nat) (f : task_struct → task_struct) : K unit := λ s,
  match proc s !! i with
  | Some p => Ok (tt, with_proc (<[i := f p]> (proc s)) s)
  | None => Err (Fault (Z.of_nat i))
  end.

(** [proc[0]], the process of the scheduler. *)
Definition kproc : nat := 0.

Fixpoint find_from (f : task_struct → bool) (l : list task_struct) (i : nat) : option nat :=
  match l with
  | [] => None
  | p :: l => if f p then Some i else find_from f l (S i)
  end.

Definition has_pid (v : Z) (p : task_struct) : bool := bool_decide (allocs p = USED) && (pid p =? v).
Definition is_unused (p : task_struct) : bool := bool_decide (allocs p = UNUSED).

Definition proc_find (v : Z) : K (option nat) :=
  l ← gets proc; mret (find_from (has_pid v) l 0).

Definition my_proc : K nat :=
  c ← gets cur_proc; match c with None => panic | Some p => mret p end.

Definition get_proc_id : K Z := p ← my_proc; t ← task p; mret (pid t).
Definition set_proc_id (v : Z) : K Z := p ← my_proc; update p (set_pid v);; mret 0.

(** [strncpy] from [p->cwd] (a field of the table, so a value here) to [buf]. *)
Definition getcwd (buf size : Z) : K Z :=
  p ← my_proc; t ← task p;
  let s := firstn (Z.to_nat size) (cwd t) in
  uwrite buf (s ++ replicate (Z.to_nat size - length s) 0);;
  mret buf.
Definition chdir (path : Z) : K Z := mret 0.

Definition proc_alloc : K nat :=
  l ← gets proc;
  match find_from is_unused l 0 with
  | None => panic
  | Some i =>
      update i (set_context 0);;
      update i (set_trapframe 0);;
      t ← on_fs fdtable_alloc; update i (set_fdtable t);;
      v ← gets last_pid; modify (with_last_pid (s32 (v + 1)));; update i (set_pid v);;
      update i (set_allocs USED);;
      update i (set_bss 0);;
      g ← on_vm pgtbl_create; update i (set_pgtbl g);;
      m ← on_heap mlist_init; update i (set_mapping_list m);;
      update i (set_callback 0);;
      update i (set_timer_call_time (u64 (-1)));;
      on_links (init_list_head (children i));;
      on_links (init_list_head (tasks i));;
      mret i
  end.

Definition task0 : task_struct :=
  {| pid := 0; parent := None; state := TASK_RUNNING; allocs := UNUSED; context := 0;
     trapframe := 0; fdtable := 0; bss := 0; name := []; cwd := []; pgtbl := 0;
     mapping_list := 0; callback := 0; timer_call_time := 0; exit_code := 0 |}.

Definition sizeof_context := 248.

Definition kernel_proc_init : K unit :=
  k ← proc_alloc;
  update k (set_name [107]);;
  update k (set_pid 0);;
  on_links (init_list_head (children k));;
  on_links (init_list_head (tasks k));;
  update k (set_state TASK_RUNNING);;
  c ← on_vm (page_alloc sizeof_context); update k (set_context c);;
  t ← on_fs fdtable_alloc; update k (set_fdtable t).

(** The zeroed slots.  [proc_alloc] writes the links of a slot before anything reads them, so
    the [NULL]s there are not represented: a node that is not set up yet links to itself. *)
Definition links0 : gmap node (list_head node) :=
  list_to_map ((λ i, (children i, Build_list_head (children i) (children i))) <$> seq 0 PROC_MAX)
  ∪ list_to_map ((λ i, (tasks i, Build_list_head (tasks i) (tasks i))) <$> seq 0 PROC_MAX).

Definition proc_init : K unit :=
  modify (with_proc (replicate PROC_MAX (set_cwd [47] (set_allocs UNUSED task0))));;
  modify (with_links links0);;
  kernel_proc_init;;
  modify (with_cur_proc (Some kproc));;
  v ← gets last_pid; assert (v =? 1).

(** [pgtbl_free(proc)] uses [p->pgtbl] and [p->mapping_list]; then the pointers are freed. *)
Definition proc_free (p : nat) : K unit :=
  t ← task p; on_heap (pgtbl_free (pgtbl t) (mapping_list t));;
  t ← task p; on_heap (free (mapping_list t));;
  t ← task p; on_heap (free (context t));;
  t ← task p; on_heap (free (trapframe t));;
  t ← task p; on_heap (free (fdtable t));;
  on_links (list_del (children p));;
  on_links (list_del (tasks p));;
  update p (set_allocs UNUSED).

(** [yield] up to [swtch]. *)
Definition yield : K unit :=
  p ← my_proc;
  t ← task p;
  (if bool_decide (state t = TASK_RUNNING) then update p (set_state TASK_RUNABLE) else mret tt);;
  update kproc (set_state TASK_RUNNING).

Definition kill (p : nat) : K control :=
  update p (set_state TASK_ZOMBIE);;
  me ← my_proc;
  if decide (p = me) then yield;; mret (Yield InExit) else mret (Return (-1)).

Definition exit (code : Z) : K control :=
  p ← my_proc; update p (set_exit_code code);; kill p.

(** [switch_to] up to [swtch]. *)
Definition switch_to (before after : nat) : K unit :=
  modify (with_cur_proc (Some after));;
  t ← task after; modify (with_pgdl (pgtbl t)).

(** A slot that is there can be read. *)
Lemma task_run (s : kstate A) i t : proc s !! i = Some t → task i s = Ok (t, s).
Proof. unfold task. by intros ->. Qed.
End program.

(** ** Lemmas *)
Lemma find_from_ok f l k i : find_from f l k = Some i →
  ∃ j p, i = (k + j)%nat ∧ l !! j = Some p ∧ f p = true ∧
    ∀ j' p', (j' < j)%nat → l !! j' = Some p' → f p' = false.
Proof.
  revert k. induction l as [|p l IH]; intros k; simpl; [done|].
  destruct (f p) eqn:E.
  - intros [= <-]. exists 0%nat, p. split_and!; [lia|done|done|lia].
  - intros (j & q & -> & Hj & Hq & Hbefore)%IH. exists (S j), q. split_and!; [lia|done|done|].
    intros [|j'] p' Hlt Hp; [by simplify_eq/=|]. eapply Hbefore; [|done]. lia.
Qed.
