(* ===== verification/Exec.v ===== *)
(** * core/exec.c: loading programs, exec and fork

    [elf_loader] reads a file to [elf_buf] and maps its segments; [exec] builds
    a process with the arguments on its user stack; [fork] copies one.  The
    page tables and the copies are those of [Vm] and [AddrSpace]. *)

From S2P Require Import Prelude Mem CString KList PageAlloc Vm Malloc MList AddrSpace Ext2 Uart Fs Proc.

(** ** <elf.h> *)
Definition elf_magic : list Z := [0x7f; 69; 76; 70].
Definition EM_LOONGARCH := 258.
Definition ELFCLASS := 2.
Definition ET_EXEC := 2.
Definition ET_DYN := 3.
Definition PT_LOAD := 1.
Definition PF_W := 2.
Definition PF_R := 4.
Definition e_ident (h : Z) : Z := h.
Definition e_type (h : Z) : Z := h + 16.
Definition e_machine (h : Z) : Z := h + 18.
Definition e_entry (h : Z) : Z := h + 24.
Definition e_phoff (h : Z) : Z := h + 32.
Definition e_phnum (h : Z) : Z := h + 56.
Definition p_type (s : Z) : Z := s.
Definition p_flags (s : Z) : Z := s + 4.
Definition p_offset (s : Z) : Z := s + 8.
Definition p_vaddr (s : Z) : Z := s + 16.
Definition p_filesz (s : Z) : Z := s + 32.
Definition p_memsz (s : Z) : Z := s + 40.
Definition p_align (s : Z) : Z := s + 48.
Definition sizeof_phdr := 56.
Definition ELF_BUF_SIZE := 20 * 1024 * 1024.

Definition USER_STACK_TOP := 0x7FFF0000.
Definition USER_STACK_BOTTOM := 0x7FF00000.
Definition ALIGN (val to : Z) : Z := val / to * to.
Definition sizeof_trapframe := 264.
(** Offsets in [struct context] and [struct trapframe]. *)
Definition off_ra := 0.
Definition off_sp := 16.
Definition off_a0 := 24.
Definition off_prmd := 248.
Definition off_era := 256.

Section program.
Context {A : Type} `{PageAllocator A} `{Machine}.
Abbreviation K := (M (kstate A)).

(** [openat] and the calls on descriptors use the table of the running process. *)
Definition my_fdtable : K Z := p ← my_proc; t ← task p; mret (fdtable t).

Definition exec_perm : Z := Z.lor (Z.lor (Z.lor (Z.lor PTE_P PTE_W) PTE_MATL) PTE_D) PTE_V.

Definition alloc_vm_of (p : nat) (start end_ perm : Z) : K Z :=
  t ← task p; on_heap (alloc_vm (pgtbl t) (mapping_list t) start end_ perm).

(** One segment; [false] is [elf_loader]'s [return -1]. *)
Definition load_segment (p : nat) (segment : Z) : K bool :=
  dst ← on_mem (load64 (p_vaddr segment));
  off ← on_mem (load64 (p_offset segment));
  len ← on_mem (load64 (p_filesz segment));
  let src := u64 (elf_buf + off) in
  ty ← on_mem (load32 (p_type segment));
  if negb (ty =? PT_LOAD) then mret true
  else
    memsz ← on_mem (load64 (p_memsz segment));
    assert (len <=? memsz);;
    assert (negb (len =? 0));;
    align ← on_mem (load64 (p_align segment));
    let pg_size := if align <? PG_SIZE then PG_SIZE else align in
    let start := ALIGN dst pg_size in
    let end_ := u64 (ALIGN (u64 (u64 (dst + memsz) - 1)) pg_size + pg_size) in
    flags ← on_mem (load32 (p_flags segment));
    end_ ← (if negb (Z.land flags PF_R =? 0) && negb (Z.land flags PF_W =? 0)
            then update p (set_bss (u64 (dst + memsz)));; mret (u64 (end_ + 4 * PG_SIZE))
            else mret end_);
    alloc_vm_of p start end_ exec_perm;;
    t ← task p;
    on_vm (copy_to_va (pgtbl t) dst src len);;
    paddr ← on_vm (va_to_pa (pgtbl t) dst);
    mret (negb (paddr =? 0)).

Fixpoint load_segments (n : nat) (p : nat) (segment : Z) : K bool :=
  match n with
  | O => mret true
  | S n => ok ← load_segment p segment;
           if ok : bool then load_segments n p (segment + sizeof_phdr) else mret false
  end.

Fixpoint load_list (n : nat) (a : Z) : M mem (list Z) :=
  match n with O => mret [] | S n => c ← load8 a; l ← load_list n (a + 1); mret (c :: l) end.

(** [elf_loader] after the file was read. *)
Definition parse_and_load (p : nat) : K Z :=
  magic ← on_mem (load_list 4 (e_ident elf_buf));
  assert (bool_decide (magic = elf_magic));;
  machine ← on_mem (load16 (e_machine elf_buf));
  assert (machine =? EM_LOONGARCH);;
  class ← on_mem (load8 (e_ident elf_buf + 4));
  assert (class =? ELFCLASS);;
  type ← on_mem (load16 (e_type elf_buf));
  assert ((type =? ET_EXEC) || (type =? ET_DYN));;
  phoff ← on_mem (load64 (e_phoff elf_buf));
  phnum ← on_mem (load16 (e_phnum elf_buf));
  assert (negb (phnum =? 0));;
  ok ← load_segments (Z.to_nat phnum) p (u64 (elf_buf + phoff));
  if ok : bool then on_mem (load64 (e_entry elf_buf)) else mret (u64 (-1)).

(** The entry address, or [-1]. *)
Definition elf_loader (p : nat) (path : list Z) : K Z :=
  t ← my_fdtable;
  e2 ← gets mount;
  myfd ← on_fs (openat sector e2 t 0 path 0);
  if myfd =? -1 then mret (u64 (-1))
  else
    on_fs (read sector e2 (λ _ a, Some a) t myfd elf_buf ELF_BUF_SIZE);;
    on_fs (close t myfd);;
    parse_and_load p.

(** [copy_to_va] from a local variable of one word. *)
Definition copy_word (pgtbl dstva v : Z) : K Z :=
  on_mem (store64 frame v);; on_vm (copy_to_va pgtbl dstva frame 8).

(** [copy_to_va] whose source is a pointer of the current address space: page by page. *)
Fixpoint ucopy_loop (fuel : nat) (pgtbl dstva src len : Z) : K Z :=
  if 0 <? len
  then match fuel with
       | O => fail Fuel
       | S fuel =>
           let n := PGSIZE - src mod PGSIZE in
           let n := if len <? n then len else n in
           x ← user_addr src;
           r ← on_vm (copy_to_va pgtbl dstva x n);
           if r =? -1 then mret (-1)
           else ucopy_loop fuel pgtbl (u64 (dstva + n)) (u64 (src + n)) (len - n)
       end
  else mret 0.
Definition ucopy_to_va (pgtbl dstva src len : Z) : K Z :=
  ucopy_loop (copy_fuel len) pgtbl dstva src len.

(** [strlen] on such a pointer: a string that is too long for the user stack does not end
    before the stack does. *)
Definition ustrlen (a : Z) : K Z :=
  s ← ustring (Z.to_nat (USER_STACK_TOP - USER_STACK_BOTTOM)) a; mret (Z.of_nat (length s)).

(** The two loops of [exec] that copy [argv] and [envp]: at most [n] strings, their
    addresses stored from [slot] on, the bytes from [bp] on.  They return the number of
    strings and the new [bp]. *)
Fixpoint push_strings (n : nat) (pgtbl vec slot bp count : Z) : K (Z * Z) :=
  match n with
  | O => mret (count, bp)
  | S n =>
      s ← uload64 vec;
      if s =? 0 then mret (count, bp)
      else
        copy_word pgtbl slot bp;;
        len ← ustrlen s; let len := len + 1 in
        ucopy_to_va pgtbl bp s len;;
        push_strings n pgtbl (u64 (vec + 8)) (slot + 8) (bp + len) (count + 1)
  end.

(** [exec] from the loops on: the user stack. *)
Definition fill_stack (p : nat) (pg argv envp entry : Z) : K (option nat) :=
  let context := USER_STACK_TOP - sizeof_context in
  let ustack := context - 8 * (ARGS_MAX + 2 + ENVS_MAX + 1) in
  r ← push_strings (Z.to_nat ARGS_MAX) pg argv (ustack + 8) USER_STACK_BOTTOM 0;
  let '(argc, bp) := r in
  e ← uload64 (u64 (argv + 8 * argc));
  if negb (e =? 0) then panic
  else
    r ← push_strings (Z.to_nat ENVS_MAX) pg envp (ustack + 8 * (argc + 2)) bp 0;
    let '(envc, bp) := r in
    e ← uload64 (u64 (envp + 8 * envc));
    if negb (e =? 0) then panic
    else
      let trapframe := ustack - sizeof_trapframe in
      copy_word pg (ustack + 8 * (argc + 2 + envc)) 0;;
      copy_word pg (ustack + 8 * (argc + 1)) 0;;
      copy_word pg ustack argc;;
      copy_word pg (context + off_sp) trapframe;;
      copy_word pg (context + off_ra) exec_helper;;
      modify (λ s, with_points (<[p := InUser]> (points s)) s);;
      copy_word pg (trapframe + off_sp) ustack;;
      copy_word pg (trapframe + off_prmd) 4;;
      copy_word pg (trapframe + off_era) entry;;
      mret (Some p).

Definition exec (path : list Z) (argv envp : Z) : K (option nat) :=
  p ← proc_alloc;
  update p (set_parent (Some kproc));;
  update p (set_state TASK_RUNABLE);;
  c ← gets cur_proc;
  (match c with
   | Some 0%nat => mret tt
   | None => fail (Fault 0)
   | Some c => t ← task c; update p (set_fdtable (fdtable t))
   end);;
  a0 ← uload64 argv;
  nm ← (if a0 =? 0 then fits 32 path else ustring 32 a0);
  update p (set_name nm);;
  entry ← elf_loader p path;
  if entry =? u64 (-1) then proc_free p;; mret None
  else
    alloc_vm_of p USER_STACK_BOTTOM USER_STACK_TOP exec_perm;;
    t ← task p;
    let pg := pgtbl t in
    new_page ← on_vm (va_to_pa pg (USER_STACK_TOP - PG_SIZE));
    let new_page := PA2VA (u64 (new_page + PG_SIZE)) in
    update p (set_context (u64 (new_page - sizeof_context)));;
    fill_stack p pg argv envp entry.

Definition exec_file (path : list Z) (argv envp : Z) : K Z :=
  p ← exec path argv envp; match p with None => mret (-1) | Some _ => mret 0 end.

Definition fork (p : nat) : K nat :=
  np ← proc_alloc;
  t ← task p; n ← task np;
  l ← on_heap (copy_pagetable (pgtbl t) (mapping_list t) (pgtbl n) (mapping_list n));
  update p (set_mapping_list l);;
  on_links (list_add (children p) (tasks np));;
  update np (set_parent (Some p));;
  update np (set_state TASK_RUNABLE);;
  t ← task p; update np (set_bss (bss t));;
  t ← task p; update np (set_name (name t));;
  t ← task p; update np (set_fdtable (fdtable t));;
  t ← task p; update np (set_cwd (cwd t));;
  t ← task p; update np (set_callback (callback t));;
  t ← task p; update np (set_timer_call_time (timer_call_time t));;
  trapframe ← gets cur_sp;
  let context := USER_STACK_TOP - sizeof_context in
  n ← task np;
  let pg := pgtbl n in
  new_page ← on_vm (va_to_pa pg (USER_STACK_TOP - PG_SIZE));
  update np (set_context (u64 (PA2VA (u64 (new_page + PG_SIZE)) - sizeof_context)));;
  copy_word pg (trapframe + off_a0) 0;;
  copy_word pg (context + off_sp) trapframe;;
  copy_word pg (context + off_ra) exec_helper;;
  modify (λ s, with_points (<[np := InUser]> (points s)) s);;
  mret np.

(** core/user.c: [argv] is [{"sh", NULL}], [envp] is [{NULL}]. *)
Definition busybox : list Z := [47; 98; 105; 110; 47; 98; 117; 115; 121; 98; 111; 120].
Definition user_init (argv envp : Z) : K unit :=
  p ← exec busybox argv envp;
  match p with
  | None => panic
  | Some p => update p (set_cwd [47; 98; 105; 110])
  end.
End program.
