(* ===== verification/Load.v ===== *)
(** * core/exec.c: the segments of a program in memory

    [load_segments] is the loop of [elf_loader] over the program headers in
    [elf_buf].  [load_segments_ok]: the process sees the bytes of every
    loadable segment at its address and zeros on the rest of the segment's
    pages, and keeps the memory it had. *)

From S2P Require Import Prelude Mem CString PageAlloc Vm VmCopy Malloc Heap MList AddrSpace UserSpace Fork Ext2 Uart Fs Proc Exec.

(** ** Program headers *)
Record phdr := { ph_type : Z; ph_flags : Z; ph_offset : Z; ph_vaddr : Z; ph_filesz : Z; ph_memsz : Z; ph_align : Z }.

Definition phdr_at (m : mem) (s : Z) (r : phdr) : Prop :=
  word_at 4 m (p_type s) (ph_type r) ∧ word_at 4 m (p_flags s) (ph_flags r) ∧
  word64_at m (p_offset s) (ph_offset r) ∧ word64_at m (p_vaddr s) (ph_vaddr r) ∧
  word64_at m (p_filesz s) (ph_filesz r) ∧ word64_at m (p_memsz s) (ph_memsz r) ∧ word64_at m (p_align s) (ph_align r).

Definition writable (r : phdr) : bool :=
  negb (Z.land (ph_flags r) PF_R =? 0) && negb (Z.land (ph_flags r) PF_W =? 0).
Definition seg_align (r : phdr) : Z := if ph_align r <? PG_SIZE then PG_SIZE else ph_align r.
Definition seg_start (r : phdr) : Z := ALIGN (ph_vaddr r) (seg_align r).
Definition seg_end (r : phdr) : Z :=
  ALIGN (ph_vaddr r + ph_memsz r - 1) (seg_align r) + seg_align r + (if writable r then 4 * PG_SIZE else 0).
Definition seg_first (r : phdr) : Z := seg_start r / PGSIZE.
Definition seg_pages (r : phdr) : Z := (seg_end r - seg_start r) / PGSIZE.
Definition seg_range (r : phdr) (i : Z) : Prop := seg_first r ≤ i < seg_first r + seg_pages r.
Definition seg_task (r : phdr) (t : task_struct) : task_struct :=
  if (ph_type r =? PT_LOAD) && writable r then set_bss (ph_vaddr r + ph_memsz r) t else t.

(** A segment that can be loaded below the end of user space. *)
Record seg_ok (r : phdr) : Prop := {
  sg_size : 0 < ph_filesz r ≤ ph_memsz r;
  sg_vaddr : 0 ≤ ph_vaddr r;
  sg_align : seg_align r mod PGSIZE = 0;
  sg_end : seg_end r ≤ MAXVA
}.

Lemma align_bounds v to : 0 < to → 0 ≤ v → 0 ≤ ALIGN v to ≤ v ∧ v < ALIGN v to + to ∧ (to mod PGSIZE = 0 → ALIGN v to mod PGSIZE = 0).
Proof.
  intros Ht Hv. unfold ALIGN. pose proof (Z.div_mod v to ltac:(lia)). pose proof (Z.mod_pos_bound v to Ht).
  pose proof (Z.div_pos v to Hv Ht). split_and!; [nia|lia|lia|]. intros Hm. rewrite Z.mul_mod, Hm, Z.mul_0_r by (unfold PGSIZE; lia). done.
Qed.

Lemma seg_bounds r : seg_ok r → 0 < seg_align r ∧ 0 ≤ seg_start r ≤ ph_vaddr r ∧ ph_vaddr r + ph_memsz r ≤ seg_end r ∧
  seg_start r mod PGSIZE = 0 ∧ seg_end r mod PGSIZE = 0 ∧ ph_vaddr r + ph_memsz r ≤ MAXVA.
Proof.
  intros [Hz Hv Ha He]. assert (0 < seg_align r) as Hp.
  { unfold seg_align, PG_SIZE, PGSIZE. destruct (Z.ltb_spec (ph_align r) 16384); lia. }
  destruct (align_bounds (ph_vaddr r) (seg_align r) Hp Hv) as (H1 & H2 & H3).
  destruct (align_bounds (ph_vaddr r + ph_memsz r - 1) (seg_align r) Hp ltac:(lia)) as (H4 & H5 & H6).
  specialize (H3 Ha). specialize (H6 Ha). fold (seg_start r) in *.
  assert (seg_end r mod PGSIZE = 0 ∧ ph_vaddr r + ph_memsz r ≤ seg_end r) as [He1 He2].
  { unfold seg_end. set (e := ALIGN _ _) in *. destruct (writable r); unfold PG_SIZE, PGSIZE in *; zmod. }
  split_and!; lia || done.
Qed.

(** ** Memory beside the process *)
Section memory.
Context {A : Type} `{PageAllocator A}.
Implicit Types (m : mem) (a : A) (h : mheap) (U : gmap Z Z) (S : gset Z) (G l : list Z).
Implicit Types (T : gmap (list Z) Z) (F : gmap Z Z) (ms : list mapping).

(** Memory that no operation on the address space writes: the kernel's statics. *)
Definition quiet G U S l T F (x : Z) : Prop := ¬ touch G U S l T x ∧ not_user F x.

Lemma quiet_later k m G U S l T F m1 a1 h1 G1 U1 S1 l1 T1 F1 x : evolves k m G U S l T m1 G1 U1 S1 l1 T1 →
  heap_ok m1 a1 h1 G1 U1 l1 → (∀ i q, F1 !! i = Some q → F !! i = Some q ∨ q ∈ l) → quiet G U S l T F x →
  quiet G1 U1 S1 l1 T1 F1 x ∧ m1 !! x = m !! x.
Proof.
  intros Ev Hh HF [Ht Hn]. split; [split|by apply (ev_mem _ _ _ _ _ _ _ _ _ _ _ _ _ Ev)].
  - intros Hx. apply Ht. by eapply touch_later.
  - intros i q Hi Hx. destruct (HF i q Hi) as [Hq|Hq]; [by eapply Hn|]. apply Ht. right; right; left. by exists q.
Qed.

(** Writing to the frames of a process keeps it in order. *)
Definition user_cells F (x : Z) : Prop := ∃ i q, F !! i = Some q ∧ in_page q x.

Lemma process_write m a h G U S l root T F lst ms m' : process m a h G U S l root T F lst ms →
  changes (user_cells F) m m' → pt m' root T → umap m' T F → process m' a h G U S l root T F lst ms.
Proof.
  intros [Hh Hu Ha Hm Hr] C Hpt Hum.
  assert (∀ x g, user_cells F x → g ∈ G → ¬ in_page g x) as HG.
  { intros x g (i & q & Hq & Hx) Hg. destruct (owned_page m root T F q Hu) as [Hk _]; [right; by exists i|].
    destruct (Ha q) as [HqG _]; [right; by exists i|]. intros Hgx. by eapply (heap_page_cell m a h G U l g q x). }
  constructor; [|by split|done| |done].
  - eapply heap_update; [exact Hh|exact C| | |by intros r Hr'; apply (heap_page _ _ _ _ _ _ _ Hh Hr')].
    + intros x Hx. right. intros (g & Hg & Hgx). by eapply HG.
    + eapply avail_frame; [by eapply heap_avail|apply C|]. intros p x Hp Hx. apply C. intros (i & q & Hq & Hqx).
      destruct (owned_page m root T F q Hu) as [Hk _]; [right; by exists i|].
      destruct (Ha q) as [_ Hql]; [right; by exists i|]. destruct (free_page _ _ _ _ _ _ _ Hh Hp) as (Hpk & _).
      eapply (kpage_disjoint p q); [done..| |done|done]. by intros ->.
  - eapply mappings_frame; [exact Hm|exact C| |done]. intros x Hx (p & n & _ & HU & Hpx).
    destruct (block_arena _ _ _ _ _ _ x Hh) as (g & Hg & Hgx); [by exists p, n|]. by eapply HG.
Qed.

(** Old memory of a process that grows. *)
Lemma ubytes_grow m m' F F' va bs : ubytes m F va bs → F ⊆ F' → frames_same F m m' → ubytes m' F' va bs.
Proof.
  intros Hu HF Hs i b Hi. destruct (Hu i b Hi) as (q & Hq & Hb). exists q.
  split; [by eapply lookup_weaken|]. rewrite (Hs _ q _ Hq); [done|]. unfold in_page, PGSIZE. zmod.
Qed.

(** What the process sees of a segment with the file contents [data]. *)
Definition user_at m F (r : phdr) (data : list Z) : Prop :=
  ubytes m F (ph_vaddr r) data ∧
  ∀ y, seg_start r ≤ y < seg_end r → ¬ (ph_vaddr r ≤ y < ph_vaddr r + Z.of_nat (length data)) → ubytes m F y [0].

Lemma user_at_grow m m' F F' r data : user_at m F r data → F ⊆ F' → frames_same F m m' → user_at m' F' r data.
Proof. intros [Hd Hz] HF Hs. split; [by eapply ubytes_grow|]. intros y Hy Hn. eapply ubytes_grow; [by apply Hz|done..]. Qed.

(** The cells behind the user addresses from [dst] on. *)
Definition written F (dst len x : Z) : Prop := ∃ y q, dst ≤ y < dst + len ∧ F !! (y / PGSIZE) = Some q ∧ x = q + y mod PGSIZE.

Lemma written_user F dst len x : written F dst len x → user_cells F x.
Proof. intros (y & q & _ & Hq & ->). exists (y / PGSIZE), q. split; [done|]. unfold in_page, PGSIZE. zmod. Qed.

(** [copy_to_va] to mapped pages keeps a process in order and writes what it says. *)
Lemma copy_out_ok m a h G U S l root T F lst ms dst src data : process m a h G U S l root T F lst ms →
  mem_at m src data → bytes data → (∀ i, 0 ≤ i < Z.of_nat (length data) → not_user F (src + i)) →
  (∀ y, dst ≤ y < dst + Z.of_nat (length data) → in_user F y) → 0 ≤ dst → dst + Z.of_nat (length data) ≤ MAXVA →
  ∃ m', copy_to_va root dst src (Z.of_nat (length data)) (m, a) = Ok (0, (m', a)) ∧
    process m' a h G U S l root T F lst ms ∧ ubytes m' F dst data ∧ changes (written F dst (Z.of_nat (length data))) m m' ∧
    ∀ y b, ¬ (dst ≤ y < dst + Z.of_nat (length data)) → ubytes m F y [b] → ubytes m' F y [b].
Proof.
  intros Hpr Hat Hby Hsrc Hin Hd0 Hd1. pose proof Hpr as [_ [Hpt Hu] _ _ _].
  destruct (copy_to_va_loop_ok root T F (copy_fuel (Z.of_nat (length data))) m a dst src data []) as
    (m' & E & Hpt2 & Hu2 & Hub & Hd & Hs2); try (rewrite app_nil_r); try done.
  { split; [intros i Hi; apply Hin; lia|by left]. }
  { apply copy_fuel_enough. lia. }
  rewrite app_nil_r, decide_True in E by done.
  assert (changes (written F dst (Z.of_nat (length data))) m m') as C.
  { split; [done|]. intros x Hx. apply Hs2. intros i q Hi Hq ->. apply Hx. exists (dst + i), q. split_and!; [lia|lia|done|done]. }
  exists m'. split_and!; [exact E| |done|done|].
  - eapply process_write; [done| |done|done]. eapply changes_weaken; [|exact C]. intros x. apply written_user.
  - intros y b Hy Hyb [|i] b' Hi; [|done]. injection Hi as <-. destruct (Hyb 0%nat b eq_refl) as (q & Hq & Hb).
    rewrite Z.add_0_r in *. exists q. split; [done|]. rewrite <- Hb. apply C. intros (y' & q' & Hy' & Hq' & Heq).
    apply Hy. by rewrite (user_addr_inj m T F y y' q q').
Qed.

(** The copy of the file contents into fresh pages. *)
Lemma fill_pages_ok m m1 a h G U S l root T F F1 lst ms r data src : seg_ok r → process m1 a h G U S l root T F1 lst ms →
  more_pages m m1 F F1 (seg_first r) (seg_pages r) → mem_at m1 src data → bytes data →
  Z.of_nat (length data) = ph_filesz r → (∀ x, src ≤ x < src + ph_filesz r → not_user F1 x) →
  ∃ m2 pa, copy_to_va root (ph_vaddr r) src (ph_filesz r) (m1, a) = Ok (0, (m2, a)) ∧
    va_to_pa root (ph_vaddr r) (m2, a) = Ok (pa, (m2, a)) ∧ pa ≠ 0 ∧
    process m2 a h G U S l root T F1 lst ms ∧ user_at m2 F1 r data ∧
    changes (λ x, ∃ i q, seg_first r ≤ i < seg_first r + seg_pages r ∧ F1 !! i = Some q ∧ in_page q x) m1 m2.
Proof.
  intros Hok Hpr Hmp Hat Hby Hlen Hsrc.
  destruct (seg_bounds r Hok) as (_ & Hs & He & Hsm & Hem & Hmax). pose proof (sg_size _ Hok) as Hz.
  assert (∀ y, seg_start r ≤ y < seg_end r → seg_first r ≤ y / PGSIZE < seg_first r + seg_pages r) as Hpage.
  { intros y Hy. unfold seg_first, seg_pages, PGSIZE in *. zmod. }
  assert (∀ y, seg_start r ≤ y < seg_end r → in_user F1 y) as Hin.
  { intros y Hy. apply (mp_new _ _ _ _ _ _ Hmp). right. by apply Hpage. }
  destruct (copy_out_ok m1 a h G U S l root T F1 lst ms (ph_vaddr r) src data Hpr Hat Hby) as (m2 & E & Hpr2 & Hub & C & Hk);
    [intros i Hi; apply Hsrc; lia|intros y Hy; apply Hin; lia|lia|lia|]. rewrite Hlen in E, C, Hk.
  pose proof Hpr2 as [_ [Hpt2 Hu2] _ _ _].
  destruct (Hin (ph_vaddr r)) as [q Hq]; [lia|]. destruct (um_leaf _ _ _ Hu2 _ _ Hq) as (e & Hlf & Heq & HV).
  rewrite page_base in Hlf. apply (proj1 (leaf_round _ _ _ _)) in Hlf.
  destruct (um_range _ _ _ Hu2 _ _ Hq) as (_ & Hkp & _). pose proof (PTE2PA_bound e) as [Hb _].
  rewrite PA2VA_eq in Heq by (unfold PGSIZE in *; lia).
  exists m2, (PTE2PA e + ph_vaddr r mod PGSIZE). split_and!; [exact E| | |exact Hpr2| |].
  - rewrite (va_to_pa_ok m2 a root T _ e Hpt2); [|lia|done]. change MAXVA with (2 ^ 47) in *.
    destruct (Z.leb_spec (2 ^ 47) (ph_vaddr r)); [lia|]. unfold Vm.translate. by destruct (Z.eqb_spec (Z.land e PTE_V) 0).
  - destruct Hkp as (_ & Hkp & _). assert (0 ≤ ph_vaddr r mod PGSIZE) by (unfold PGSIZE; zmod). lia.
  - split; [done|]. intros y Hy Hny. rewrite Hlen in Hny. apply Hk; [done|]. intros i b Hi. destruct i as [|i]; [|done].
    injection Hi as <-. rewrite Z.add_0_r. destruct (Hin y Hy) as [p Hp]. exists p. split; [done|].
    eapply (mp_zero _ _ _ _ _ _ Hmp); [by apply Hpage|done|unfold in_page, PGSIZE; zmod].
  - eapply changes_weaken; [|exact C]. intros x (y & p & Hy & Hp & ->). exists (y / PGSIZE), p.
    split_and!; [apply Hpage; lia|apply Hpage; lia|done|unfold in_page, PGSIZE; zmod].
Qed.
End memory.

(** ** One segment *)
Section segments.
Context {A : Type} `{PageAllocator A} `{Machine}.
Implicit Types (m : mem) (a : A) (h : mheap) (U : gmap Z Z) (S : gset Z) (G l : list Z) (s : kstate A).
Implicit Types (T : gmap (list Z) Z) (F : gmap Z Z) (ms : list mapping).

(** The part of the kernel's state that memory operations see. *)
Definition memory s : mem * A * mheap := (pages (fs s), kheap s).

Lemma with_heap_id s : with_heap (memory s) s = s.
Proof. by destruct s as [? ? ? ? [] ? ? ? ? ? ? ? ?]. Qed.

Lemma on_heap_run {B} (c : M (mem * A * mheap) B) s v st : c (memory s) = Ok (v, st) → on_heap c s = Ok (v, with_heap st s).
Proof. intros E. unfold on_heap, zoom. unfold memory in E. by rewrite E. Qed.

Lemma on_vm_run {B} (c : M (mem * A) B) s v m a h m' a' : memory s = (m, a, h) → c (m, a) = Ok (v, (m', a')) →
  on_vm c s = Ok (v, with_heap (m', a', h) s).
Proof. intros Hs E. unfold on_vm. apply on_heap_run. rewrite Hs. by apply on_pages_ok. Qed.

Lemma on_mem_load {B} (c : M mem B) s v m a h : memory s = (m, a, h) → c m = Ok (v, m) → on_mem c s = Ok (v, s).
Proof.
  intros Hs E. unfold on_mem. rewrite (on_vm_run _ s v m a h m a Hs) by by apply in_mem_ok. by rewrite <- Hs, with_heap_id.
Qed.

(** The state after a segment was loaded. *)
Definition after (p : nat) (t : task_struct) (st : mem * A * mheap) s : kstate A :=
  with_heap st (with_proc (<[p := t]> (proc s)) s).

Lemma seg_task_table r t : pgtbl (seg_task r t) = pgtbl t ∧ mapping_list (seg_task r t) = mapping_list t.
Proof. unfold seg_task. destruct (_ && _); [by destruct t|done]. Qed.

Lemma after_id p t s : proc s !! p = Some t → after p t (memory s) s = s.
Proof.
  intros Hp. unfold after. rewrite list_insert_id by done.
  replace (with_proc (proc s) s) with s by by destruct s. apply with_heap_id.
Qed.

Lemma after_after p t t' st st' s : after p t' st' (after p t st s) = after p t' st' s.
Proof. unfold after. simpl. by rewrite list_insert_insert_eq. Qed.

Lemma after_proc p t t' st s : proc s !! p = Some t → proc (after p t' st s) !! p = Some t'.
Proof. intros E. apply list_lookup_insert_eq. by eapply lookup_lt_Some. Qed.

(** What [elf_loader] reads of a header. *)
Lemma segment_end r : seg_ok r →
  u64 (ALIGN (u64 (u64 (ph_vaddr r + ph_memsz r) - 1)) (seg_align r) + seg_align r) =
    seg_end r - (if writable r then 4 * PG_SIZE else 0) ∧
  u64 (ph_vaddr r + ph_memsz r) = ph_vaddr r + ph_memsz r ∧
  u64 (seg_end r - (if writable r then 4 * PG_SIZE else 0) + 4 * PG_SIZE) =
    seg_end r - (if writable r then 4 * PG_SIZE else 0) + 4 * PG_SIZE.
Proof.
  intros Hok. destruct (seg_bounds r Hok) as (Hp & Hs & He & _ & _ & Hmax). pose proof (sg_size _ Hok).
  pose proof (sg_end _ Hok) as Hend. change MAXVA with (2 ^ 47) in *.
  destruct (align_bounds (ph_vaddr r + ph_memsz r - 1) (seg_align r) Hp ltac:(lia)) as (Hal1 & _).
  unfold seg_end in *. set (e := ALIGN (ph_vaddr r + ph_memsz r - 1) (seg_align r)) in *.
  assert (0 ≤ (if writable r then 4 * PG_SIZE else 0) ≤ 65536) by (unfold PG_SIZE; destruct (writable r); lia).
  rewrite !(wrap_id 64 (ph_vaddr r + ph_memsz r)) by lia.
  rewrite (wrap_id 64 (ph_vaddr r + ph_memsz r - 1)) by lia. fold e.
  unfold PG_SIZE in *. split_and!; [rewrite wrap_id by lia; lia|done|]. rewrite wrap_id by lia. lia.
Qed.

(** A process in order that grew by the pages [P], for which at most [k] free pages were used. *)
Record grown (P : Z → Prop) (k : nat) root lst m G U S l T F m' a' h' G' U' S' l' T' F' ms' : Prop := {
  gr_process : process m' a' h' G' U' S' l' root T' F' lst ms';
  gr_step : evolves k m G U S l T m' G' U' S' l' T';
  gr_old : F ⊆ F';
  gr_dom : ∀ i, is_Some (F' !! i) ↔ is_Some (F !! i) ∨ P i;
  gr_new : ∀ i q, F' !! i = Some q → F !! i = Some q ∨ q ∈ l;
  gr_same : frames_same F m m'
}.
Arguments gr_process {P k root lst m G U S l T F m' a' h' G' U' S' l' T' F' ms'} _.
Arguments gr_step {P k root lst m G U S l T F m' a' h' G' U' S' l' T' F' ms'} _.
Arguments gr_dom {P k root lst m G U S l T F m' a' h' G' U' S' l' T' F' ms'} _ _.

(** The memory half of a segment: pages, then contents. *)
Lemma map_and_fill m a h G U S l root T F lst ms r data src : process m a h G U S l root T F lst ms → seg_ok r →
  mem_at m src data → bytes data → Z.of_nat (length data) = ph_filesz r →
  (∀ x, src ≤ x < src + ph_filesz r → quiet G U S l T F x) →
  (∀ i, seg_range r i → F !! i = None) → 5 * seg_pages r ≤ Z.of_nat (length l) →
  ∃ m1 a1 h1 m' pa G' U' S' l' T' F' ms', alloc_vm root lst (seg_start r) (seg_end r) exec_perm (m, a, h) = Ok (0, (m1, a1, h1)) ∧
    copy_to_va root (ph_vaddr r) src (ph_filesz r) (m1, a1) = Ok (0, (m', a1)) ∧
    va_to_pa root (ph_vaddr r) (m', a1) = Ok (pa, (m', a1)) ∧ pa ≠ 0 ∧
    grown (seg_range r) (5 * Z.to_nat (seg_pages r)) root lst m G U S l T F m' a1 h1 G' U' S' l' T' F' ms' ∧ user_at m' F' r data.
Proof.
  intros Hpr Hok Hat Hby Hlen Hq HF Hl. destruct (seg_bounds r Hok) as (Hp & Hs & He & Hsm & Hem & Hmax).
  pose proof (sg_size _ Hok) as Hz. pose proof (sg_end _ Hok) as Hend.
  assert (PGROUNDUP (seg_end r) = seg_end r) as Hup.
  { destruct (PGROUNDUP_spec (seg_end r)); [lia|change MAXVA with (2 ^ 47) in *; unfold PGSIZE; lia|]. unfold PGSIZE in *. zmod. }
  destruct (alloc_vm_run m a h G U S l root T F lst ms (seg_start r) (seg_end r) exec_perm Hpr) as
    (m1 & a1 & h1 & G1 & U1 & S1 & l1 & T1 & F1 & new & E1 & Hpr1 & Hmp & _ & Ev & Hnew);
    [by vm_compute|done|lia|done|by rewrite Hup|by rewrite Hup|].
  rewrite Hup in *. fold (seg_pages r) in *. fold (seg_first r) in *.
  assert (∀ x, src ≤ x < src + ph_filesz r → quiet G1 U1 S1 l1 T1 F1 x ∧ m1 !! x = m !! x) as Hq1.
  { intros x Hx. eapply quiet_later; [exact Ev|apply Hpr1|exact Hnew|by apply Hq]. }
  destruct (fill_pages_ok m m1 a1 h1 G1 U1 S1 l1 root T1 F F1 lst (new ++ ms) r data src Hok Hpr1 Hmp) as
    (m2 & pa & E2 & E3 & Hpa & Hpr2 & Hua & C); [|done|done|intros x Hx; by apply Hq1|].
  { intros i b Hi. pose proof (lookup_lt_Some _ _ _ Hi). destruct (Hq1 (src + Z.of_nat i)) as [_ ->]; [lia|]. by apply Hat. }
  exists m1, a1, h1, m2, pa, G1, U1, S1, l1, T1, F1, (new ++ ms). split_and!; [done|done|done|done| |done].
  assert (∀ i q, seg_first r ≤ i < seg_first r + seg_pages r → F1 !! i = Some q → q ∈ l) as Hfresh.
  { intros i q Hi Hi'. destruct (Hnew i q Hi') as [Hold|]; [|done]. by rewrite HF in Hold. }
  destruct Ev as [V1 V2 V3 V4 V5 V6 V7 V8]. constructor; [done| |apply Hmp|apply Hmp|done|].
  - constructor; auto. eapply changes_trans; [exact V8|]. eapply changes_weaken; [|exact C].
    intros x (i & q & Hi & Hi' & Hx). right; right; left. exists q. split; [by eapply Hfresh|done].
  - intros i q x Hi Hx. rewrite <- (mp_same _ _ _ _ _ _ Hmp i q x Hi Hx). apply C. intros (j & p & Hj & Hjp & Hpx).
    pose proof (Hfresh j p Hj Hjp) as Hpl. destruct Hpr as [Hh Hu Ha _ _].
    destruct (Ha q) as [_ Hql]; [by right; exists i|]. destruct (owned_page m root T F q Hu) as [Hqk _]; [by right; exists i|].
    destruct (free_page _ _ _ _ _ _ _ Hh Hpl) as (Hpk & _). eapply (kpage_disjoint q p); [done..| |done|done]. by intros ->.
Qed.

Lemma load_segment_ok p seg s t r m a h G U S l T F ms data : proc s !! p = Some t → memory s = (m, a, h) →
  process m a h G U S l (pgtbl t) T F (mapping_list t) ms → phdr_at m seg r → ph_type r = PT_LOAD → seg_ok r →
  mem_at m (u64 (elf_buf + ph_offset r)) data → bytes data → Z.of_nat (length data) = ph_filesz r →
  (∀ x, u64 (elf_buf + ph_offset r) ≤ x < u64 (elf_buf + ph_offset r) + ph_filesz r → quiet G U S l T F x) →
  (∀ i, seg_range r i → F !! i = None) → 5 * seg_pages r ≤ Z.of_nat (length l) →
  ∃ m' a' h' G' U' S' l' T' F' ms', load_segment p seg s = Ok (true, after p (seg_task r t) (m', a', h') s) ∧
    grown (seg_range r) (5 * Z.to_nat (seg_pages r)) (pgtbl t) (mapping_list t) m G U S l T F m' a' h' G' U' S' l' T' F' ms' ∧
    user_at m' F' r data.
Proof.
  intros Hp Hs Hpr (W1 & W2 & W3 & W4 & W5 & W6 & W7) Hty Hok Hat Hby Hlen Hq HF Hl.
  destruct (map_and_fill m a h G U S l (pgtbl t) T F (mapping_list t) ms r data _ Hpr Hok Hat Hby Hlen Hq HF Hl) as
    (m1 & a1 & h1 & m2 & pa & G' & U' & S' & l' & T' & F' & ms' & E1 & E2 & E3 & Hpa & Hgr & Hua).
  exists m2, a1, h1, G', U', S', l', T', F', ms'. split_and!; [|done|done].
  destruct (segment_end r Hok) as (Eend & Ebss & Ehack).
  pose proof (sg_size _ Hok) as Hz. destruct (seg_task_table r t) as [Epg Elst].
  assert (∀ n v x, word_at n m x v → on_mem (load n x) s = Ok (v, s)) as Hld.
  { intros n v x Hw. eapply on_mem_load; [done|]. by apply load_ok. }
  unfold load_segment. rewrite (bind_ok _ _ _ _ _ (Hld _ _ _ W4)), (bind_ok _ _ _ _ _ (Hld _ _ _ W3)), (bind_ok _ _ _ _ _ (Hld _ _ _ W5)).
  rewrite (bind_ok _ _ _ _ _ (Hld _ _ _ W1)), Hty, Z.eqb_refl. cbn [negb].
  rewrite (bind_ok _ _ _ _ _ (Hld _ _ _ W6)).
  destruct (Z.leb_spec (ph_filesz r) (ph_memsz r)); [|lia]. destruct (Z.eqb_spec (ph_filesz r) 0); [lia|].
  rewrite (bind_ok _ _ _ tt s), (bind_ok _ _ _ tt s), (bind_ok _ _ _ _ _ (Hld _ _ _ W7)) by done.
  fold (seg_align r). rewrite Eend, (bind_ok _ _ _ _ _ (Hld _ _ _ W2)). fold (writable r). rewrite Ebss.
  set (s1 := after p (seg_task r t) (memory s) s).
  rewrite (bind_ok _ _ _ (seg_end r) s1).
  2: { unfold s1, seg_task. rewrite Hty, Z.eqb_refl. cbn [andb]. destruct (writable r) eqn:Hw.
       - rewrite Ehack. rewrite (bind_ok _ _ _ tt (with_proc (<[p := set_bss (ph_vaddr r + ph_memsz r) t]> (proc s)) s)) by (unfold update; by rewrite Hp).
         replace (seg_end r - 4 * PG_SIZE + 4 * PG_SIZE) with (seg_end r) by lia.
         unfold after. by rewrite (with_heap_id (with_proc (<[p := set_bss (ph_vaddr r + ph_memsz r) t]> (proc s)) s)).
       - rewrite after_id by done. by rewrite Z.sub_0_r. }
  set (t' := seg_task r t) in *.
  assert (proc s1 !! p = Some t') as Hp1 by by eapply after_proc.
  assert (memory s1 = (m, a, h)) as Hs1 by (unfold s1; simpl; by rewrite <- Hs).
  set (s2 := with_heap (m1, a1, h1) s1).
  rewrite (bind_ok _ _ _ 0 s2).
  2: { unfold alloc_vm_of. rewrite (bind_ok _ _ _ _ _ (task_run s1 p t' Hp1)), Epg, Elst. apply on_heap_run. by rewrite Hs1. }
  assert (proc s2 !! p = Some t') as Hp2 by done.
  rewrite (bind_ok _ _ _ _ _ (task_run s2 p t' Hp2)), Epg.
  rewrite (bind_ok _ _ _ _ _ (on_vm_run _ s2 0 m1 a1 h1 m2 a1 eq_refl E2)).
  rewrite (bind_ok _ _ _ _ _ (on_vm_run _ (with_heap (m2, a1, h1) s2) pa m2 a1 h1 m2 a1 eq_refl E3)).
  destruct (Z.eqb_spec pa 0); [done|]. done.
Qed.

Lemma grown_refl root lst m a h G U S l T F ms : process m a h G U S l root T F lst ms →
  grown (λ _, False) 0 root lst m G U S l T F m a h G U S l T F ms.
Proof. intros Hpr. constructor; [done|apply evolves_refl|done|tauto|by left|by intros n p x]. Qed.

Lemma grown_trans P P' k k' root lst m G U S l T F m1 a1 h1 G1 U1 S1 l1 T1 F1 ms1 m2 a2 h2 G2 U2 S2 l2 T2 F2 ms2 :
  grown P k root lst m G U S l T F m1 a1 h1 G1 U1 S1 l1 T1 F1 ms1 →
  grown P' k' root lst m1 G1 U1 S1 l1 T1 F1 m2 a2 h2 G2 U2 S2 l2 T2 F2 ms2 →
  grown (λ i, P i ∨ P' i) (k + k') root lst m G U S l T F m2 a2 h2 G2 U2 S2 l2 T2 F2 ms2.
Proof.
  intros [X1 X2 X3 X4 X5 X6] [Y1 Y2 Y3 Y4 Y5 Y6]. constructor; [done| |by etrans| | |].
  - eapply evolves_trans; [done|apply X1|done].
  - intros i. rewrite Y4, X4. tauto.
  - intros i q [[?|?]%X5|?]%Y5; [by left|by right|right]. by eapply ev_free.
  - intros n p x Hp Hx. rewrite (Y6 n p x), (X6 n p x); [done|done|done| |done]. by eapply lookup_weaken.
Qed.

(** ** The loop *)
Definition is_load (r : phdr) : bool := ph_type r =? PT_LOAD.
Definition seg_data (image : list Z) (r : phdr) : list Z := take (Z.to_nat (ph_filesz r)) (drop (Z.to_nat (ph_offset r)) image).
Definition need (rs : list phdr) : Z := foldr (λ r n, (if is_load r then seg_pages r else 0) + n) 0 rs.
Definition covers (rs : list phdr) (i : Z) : Prop := ∃ r, r ∈ rs ∧ is_load r ∧ seg_range r i.

(** The file [image] is in [elf_buf], which no operation on the process writes. *)
Record buffered m G U S l T F (image : list Z) : Prop := {
  bf_bytes : mem_at m elf_buf image ∧ bytes image;
  bf_bound : 0 ≤ elf_buf ∧ elf_buf + Z.of_nat (length image) < 2 ^ 64;
  bf_quiet : ∀ x, elf_buf ≤ x < elf_buf + Z.of_nat (length image) → quiet G U S l T F x
}.

(** The headers [rs] lie in the file from [seg] on; the loadable ones describe parts of the file
    and pages that are neither mapped nor claimed twice. *)
Record program_ok m F (image : list Z) seg (rs : list phdr) : Prop := {
  po_headers : ∀ i r, rs !! i = Some r → phdr_at m (seg + sizeof_phdr * Z.of_nat i) r;
  po_place : elf_buf ≤ seg ∧ seg + sizeof_phdr * Z.of_nat (length rs) ≤ elf_buf + Z.of_nat (length image);
  po_segment : ∀ r, r ∈ rs → is_load r → seg_ok r ∧ 0 ≤ ph_offset r ∧
    ph_offset r + ph_filesz r ≤ Z.of_nat (length image) ∧ ∀ i, seg_range r i → F !! i = None;
  po_apart : ∀ i j r r' n, rs !! i = Some r → rs !! j = Some r' → is_load r → is_load r' →
    seg_range r n → seg_range r' n → i = j
}.

Lemma buffered_later P k root lst m G U S l T F m' a' h' G' U' S' l' T' F' ms' image :
  grown P k root lst m G U S l T F m' a' h' G' U' S' l' T' F' ms' → buffered m G U S l T F image →
  buffered m' G' U' S' l' T' F' image ∧
  ∀ x, elf_buf ≤ x < elf_buf + Z.of_nat (length image) → m' !! x = m !! x.
Proof.
  intros Hg [[Hat Hby] Hb Hq].
  assert (∀ x, elf_buf ≤ x < elf_buf + Z.of_nat (length image) → quiet G' U' S' l' T' F' x ∧ m' !! x = m !! x) as Hx.
  { intros x Hx. eapply quiet_later; [apply Hg|apply Hg|apply Hg|by apply Hq]. }
  split; [|intros x Hx'; by apply Hx]. constructor; [|done|intros x Hx'; by apply Hx]. split; [|done].
  intros i b Hi. pose proof (lookup_lt_Some _ _ _ Hi). destruct (Hx (elf_buf + Z.of_nat i)) as [_ ->]; [lia|]. by apply Hat.
Qed.

Lemma seg_data_at m image r : mem_at m elf_buf image → 0 ≤ ph_offset r → 0 ≤ ph_filesz r →
  ph_offset r + ph_filesz r ≤ Z.of_nat (length image) →
  mem_at m (elf_buf + ph_offset r) (seg_data image r) ∧ Z.of_nat (length (seg_data image r)) = ph_filesz r.
Proof.
  intros Hat Ho Hz Hle. split.
  - intros i b Hi. unfold seg_data in Hi. apply lookup_take_Some in Hi as [Hi _]. rewrite lookup_drop in Hi.
    replace (elf_buf + ph_offset r + Z.of_nat i) with (elf_buf + Z.of_nat (Z.to_nat (ph_offset r) + i)) by lia. by apply Hat.
  - unfold seg_data. rewrite length_take, length_drop. lia.
Qed.

Lemma phdr_at_same m m' x r : phdr_at m x r → (∀ y, x ≤ y < x + sizeof_phdr → m' !! y = m !! y) → phdr_at m' x r.
Proof.
  intros (W1 & W2 & W3 & W4 & W5 & W6 & W7) Hs. unfold p_type, p_flags, p_offset, p_vaddr, p_filesz, p_memsz, p_align, sizeof_phdr in *.
  unfold phdr_at, p_type, p_flags, p_offset, p_vaddr, p_filesz, p_memsz, p_align.
  split_and!; (eapply word_at_same; [eassumption|]; intros y Hy; apply Hs; lia).
Qed.

Lemma grown_iff P P' k k' root lst m G U S l T F m' a' h' G' U' S' l' T' F' ms' : (∀ i, P i ↔ P' i) → k = k' →
  grown P k root lst m G U S l T F m' a' h' G' U' S' l' T' F' ms' →
  grown P' k' root lst m G U S l T F m' a' h' G' U' S' l' T' F' ms'.
Proof. intros HP -> [? ? ? Hd ? ?]. constructor; [done..| |done|done]. intros i. by rewrite Hd, HP. Qed.

Lemma load_segment_skip p seg s r m a h : memory s = (m, a, h) → phdr_at m seg r → is_load r = false →
  load_segment p seg s = Ok (true, s).
Proof.
  intros Hs (W1 & _ & W3 & W4 & W5 & _) Hty.
  assert (∀ n v x, word_at n m x v → on_mem (load n x) s = Ok (v, s)) as Hld.
  { intros n v x Hw. eapply on_mem_load; [done|]. by apply load_ok. }
  unfold load_segment. rewrite (bind_ok _ _ _ _ _ (Hld _ _ _ W4)), (bind_ok _ _ _ _ _ (Hld _ _ _ W3)), (bind_ok _ _ _ _ _ (Hld _ _ _ W5)).
  rewrite (bind_ok _ _ _ _ _ (Hld _ _ _ W1)). unfold is_load in Hty. by rewrite Hty.
Qed.

(** One turn of the loop, for any header. *)
Lemma load_turn image p seg s t r rs m a h G U S l T F ms : proc s !! p = Some t → memory s = (m, a, h) →
  process m a h G U S l (pgtbl t) T F (mapping_list t) ms → buffered m G U S l T F image →
  program_ok m F image seg (r :: rs) → 5 * (if is_load r then seg_pages r else 0) ≤ Z.of_nat (length l) →
  ∃ m' a' h' G' U' S' l' T' F' ms', load_segment p seg s = Ok (true, after p (seg_task r t) (m', a', h') s) ∧
    grown (λ i, is_load r ∧ seg_range r i) (5 * Z.to_nat (if is_load r then seg_pages r else 0)) (pgtbl t) (mapping_list t)
      m G U S l T F m' a' h' G' U' S' l' T' F' ms' ∧
    (is_load r → user_at m' F' r (seg_data image r)).
Proof.
  intros Hp Hs Hpr [[Hat Hby] Hb Hq] [Hhd _ Hsg _] Hl.
  assert (phdr_at m seg r) as Hr by (specialize (Hhd 0%nat r eq_refl); simpl in Hhd; by rewrite Z.add_0_r in Hhd).
  destruct (is_load r) eqn:Hty.
  - destruct (Hsg r) as (Hok & Ho & Hle & HF); [by left|by rewrite Hty|]. pose proof (sg_size _ Hok) as Hz.
    destruct (seg_data_at m image r Hat Ho ltac:(lia) Hle) as [Hdat Hlen].
    rewrite <- (wrap_id 64 (elf_buf + ph_offset r)) in Hdat by lia.
    destruct (load_segment_ok p seg s t r m a h G U S l T F ms (seg_data image r) Hp Hs Hpr Hr) as
      (m' & a' & h' & G' & U' & S' & l' & T' & F' & ms' & E & Hg & Hu); try done.
    + unfold is_load in Hty. by apply Z.eqb_eq.
    + unfold seg_data. by apply Forall_take, Forall_drop.
    + rewrite wrap_id by lia. intros x Hx. apply Hq. lia.
    + exists m', a', h', G', U', S', l', T', F', ms'. split_and!; [done| |done]. eapply grown_iff; [|reflexivity|exact Hg].
      intros i. split; [by split|by intros [_ ?]].
  - exists m, a, h, G, U, S, l, T, F, ms. split_and!; [|by eapply grown_iff, grown_refl; [intros i; split; [done|by intros [? _]]| |]|done].
    rewrite (load_segment_skip p seg s r m a h) by done. unfold seg_task. unfold is_load in Hty. rewrite Hty. cbn [andb].
    by rewrite <- Hs, after_id.
Qed.

Lemma seg_pages_pos r : seg_ok r → 0 ≤ seg_pages r.
Proof.
  intros Hok. destruct (seg_bounds r Hok) as (_ & ? & ? & _). pose proof (sg_size _ Hok). unfold seg_pages, PGSIZE. zmod.
Qed.

Lemma need_pos rs : (∀ r, r ∈ rs → is_load r → seg_ok r) → 0 ≤ need rs.
Proof.
  induction rs as [|r rs IH]; intros Hok; [done|]. cbn [need foldr]. fold (need rs).
  assert (0 ≤ need rs) by (apply IH; intros r' Hr'; apply Hok; set_solver).
  destruct (is_load r) eqn:Hty; [|lia]. assert (0 ≤ seg_pages r) by (apply seg_pages_pos, Hok; [set_solver|by rewrite Hty]). lia.
Qed.

(** The headers after the first one. *)
Lemma program_tail k root lst m G U S l T F m' a' h' G' U' S' l' T' F' ms' image seg r rs :
  grown (λ i, is_load r ∧ seg_range r i) k root lst m G U S l T F m' a' h' G' U' S' l' T' F' ms' →
  (∀ x, elf_buf ≤ x < elf_buf + Z.of_nat (length image) → m' !! x = m !! x) →
  program_ok m F image seg (r :: rs) → program_ok m' F' image (seg + sizeof_phdr) rs.
Proof.
  intros Hg Hsame [P1 P2 P3 P4]. cbn [length] in P2. constructor.
  - intros i r' Hi. specialize (P1 (Datatypes.S i) r' Hi). pose proof (lookup_lt_Some _ _ _ Hi) as Hlt.
    replace (seg + sizeof_phdr + sizeof_phdr * Z.of_nat i) with (seg + sizeof_phdr * Z.of_nat (Datatypes.S i)) by (unfold sizeof_phdr; lia).
    eapply phdr_at_same; [exact P1|]. intros y Hy. apply Hsame. unfold sizeof_phdr in *. lia.
  - unfold sizeof_phdr in *. lia.
  - intros r' Hr' Hty. destruct (P3 r') as (? & ? & ? & HF); [by right|done|]. split_and!; [done..|]. intros i Hi.
    destruct (F' !! i) eqn:Hi1; [|done]. exfalso.
    destruct (proj1 (gr_dom Hg i)) as [[q Hq]|[Hty0 Hr0]]; [by eexists|by rewrite HF in Hq|].
    apply list_elem_of_lookup in Hr' as [j Hj]. by specialize (P4 0%nat (Datatypes.S j) r r' i eq_refl Hj Hty0 Hty Hr0 Hi).
  - intros i j r0 r' n Hi Hj H1' H2' H3 H4. by injection (P4 (Datatypes.S i) (Datatypes.S j) r0 r' n Hi Hj H1' H2' H3 H4).
Qed.

Lemma seg_tasks_table rs : ∀ t, pgtbl (foldl (λ t r, seg_task r t) t rs) = pgtbl t ∧
  mapping_list (foldl (λ t r, seg_task r t) t rs) = mapping_list t.
Proof.
  induction rs as [|r rs IH]; intros t; [done|]. cbn [foldl]. destruct (IH (seg_task r t)) as [-> ->]. apply seg_task_table.
Qed.

Lemma covers_cons r rs i : (is_load r ∧ seg_range r i) ∨ covers rs i ↔ covers (r :: rs) i.
Proof.
  split.
  - intros [[? ?]|(r' & ? & ?)]; [exists r; split; [by left|done]|exists r'; split; [by right|done]].
  - intros (r' & [->|Hr']%elem_of_cons & ?); [by left|right; by exists r'].
Qed.

(** The loop of [elf_loader] over the program headers: it succeeds; the process sees every
    loadable segment; [bss] is the end of the last writable one; only the pages of the segments
    are new; and the process stays in order. *)
Lemma load_segments_ok image p rs : ∀ seg s t m a h G U S l T F ms, proc s !! p = Some t → memory s = (m, a, h) →
  process m a h G U S l (pgtbl t) T F (mapping_list t) ms → buffered m G U S l T F image →
  program_ok m F image seg rs → 5 * need rs ≤ Z.of_nat (length l) →
  ∃ m' a' h' G' U' S' l' T' F' ms', load_segments (length rs) p seg s = Ok (true, after p (foldl (λ t r, seg_task r t) t rs) (m', a', h') s) ∧
    grown (covers rs) (5 * Z.to_nat (need rs)) (pgtbl t) (mapping_list t) m G U S l T F m' a' h' G' U' S' l' T' F' ms' ∧
    ∀ r, r ∈ rs → is_load r → user_at m' F' r (seg_data image r).
Proof.
  induction rs as [|r rs IH]; intros seg s t m a h G U S l T F ms Hp Hs Hpr Hbuf Hpo Hl.
  - exists m, a, h, G, U, S, l, T, F, ms. split_and!; [by rewrite <- Hs, <- (after_id p t s Hp) at 1| |by intros r ?%not_elem_of_nil].
    eapply grown_iff, grown_refl; [|done|done]. intros i. split; [done|]. by intros (r & ?%not_elem_of_nil & _).
  - assert (∀ r', r' ∈ r :: rs → is_load r' → seg_ok r') as Hok by (intros r' Hr' Hty; by destruct (po_segment _ _ _ _ _ Hpo r' Hr' Hty)).
    assert (0 ≤ need rs) as Hn2 by (apply need_pos; intros r' Hr'; apply Hok; by right).
    assert (0 ≤ if is_load r then seg_pages r else 0) as Hn1.
    { destruct (is_load r) eqn:Hty; [apply seg_pages_pos, Hok; [by left|by rewrite Hty]|lia]. }
    cbn [need foldr] in Hl |- *. fold (need rs) in Hl |- *.
    destruct (load_turn image p seg s t r rs m a h G U S l T F ms Hp Hs Hpr Hbuf Hpo) as
      (m1 & a1 & h1 & G1 & U1 & S1 & l1 & T1 & F1 & ms1 & E1 & Hg1 & Hu1); [lia|].
    destruct (buffered_later _ _ _ _ _ _ _ _ _ _ _ _ _ _ _ _ _ _ _ _ _ image Hg1 Hbuf) as [Hbuf1 Hsame].
    pose proof (ev_len _ _ _ _ _ _ _ _ _ _ _ _ _ (gr_step Hg1)) as Hlen. destruct (seg_task_table r t) as [Epg Elst].
    destruct (IH (seg + sizeof_phdr) (after p (seg_task r t) (m1, a1, h1) s) (seg_task r t) m1 a1 h1 G1 U1 S1 l1 T1 F1 ms1) as
      (m2 & a2 & h2 & G2 & U2 & S2 & l2 & T2 & F2 & ms2 & E2 & Hg2 & Hu2);
      [by eapply after_proc|done|rewrite Epg, Elst; apply Hg1|done|by eapply program_tail|lia|].
    rewrite Epg, Elst in Hg2. exists m2, a2, h2, G2, U2, S2, l2, T2, F2, ms2. split_and!.
    + cbn [length load_segments]. rewrite (bind_ok _ _ _ _ _ E1). cbn [foldl]. by rewrite E2, after_after.
    + eapply grown_iff; [| |eapply grown_trans; [exact Hg1|exact Hg2]]; [|lia]. intros i. apply covers_cons.
    + intros r' [->|Hr']%elem_of_cons Hty; [|by apply Hu2]. eapply user_at_grow; [by apply Hu1|apply Hg2|apply Hg2].
Qed.
End segments.

(** ** Blocks of a process that its address space does not use *)
Section blocks.
Context {A : Type} `{PageAllocator A}.
Implicit Types (m : mem) (a : A) (h : mheap) (U : gmap Z Z) (S : gset Z) (G l : list Z).
Implicit Types (T : gmap (list Z) Z) (F : gmap Z Z) (ms : list mapping).

Lemma block_quiet m a h G U S l root T F lst ms p n x : process m a h G U S l root T F lst ms →
  U !! p = Some n → p ∉ S → p ≤ x < p + n → quiet G U S l T F x.
Proof.
  intros [Hh Hu Ha Hm _] HU Hp Hx.
  assert (in_blocks U {[p]} x) as Hin by (exists p, n; split_and!; [set_solver|done|lia|lia]). split.
  - intros Ht. eapply (touch_blocks m a h G U S {[p]} l T x); [done| |set_solver|done|done].
    intros q Hq. destruct (owned_page _ _ _ _ _ Hu (or_introl Hq)). destruct (Ha q (or_introl Hq)). done.
  - intros i q Hi Hqx. assert (owns T F q) as Ho by (right; by exists i).
    destruct (owned_page _ _ _ _ _ Hu Ho) as [Hk _]. destruct (Ha q Ho) as [HqG _].
    destruct (block_arena m a h G U l x Hh) as (g & Hg & Hgx); [by exists p, n|]. by eapply (heap_page_cell m a h G U l g q x).
Qed.

(** A new block. *)
Lemma process_extends m a h G U S l root T F lst ms p n m' a' h' G' l' : process m a h G U S l root T F lst ms →
  extends m G U ∅ l p n m' a' h' G' l' →
  process m' a' h' G' (<[p := n]> U) S l' root T F lst ms ∧ p ∉ S ∧ (length l ≤ length l' + 1)%nat ∧ frames_same F m m'.
Proof.
  intros [Hh Hu Ha Hm Hr] X. pose proof X as (Hh' & Hp & _).
  pose proof (extends_evolves m a h G U ∅ l ∅ p n _ _ _ _ _ Hh X) as Ev.
  destruct (heap_step 1 m a h G U ∅ l T _ _ _ _ _ root F Hh Ev Hu Ha) as (Hu' & Ha' & Hs & _).
  assert (p ∉ S) as HpS by (intros Hin; destruct (mappings_dom _ _ _ _ _ _ Hm Hin) as [? HU]; congruence).
  split_and!; [|done|by apply (ev_len _ _ _ _ _ _ _ _ _ _ _ _ _ Ev)|intros i q x Hi Hx; eapply Hs; [by right; exists i|done]].
  constructor; [done..| |done]. eapply (mappings_evolves 1 m a h G U ∅ l ∅); [done| |exact Ev|set_solver|done].
  intros q [k Hk]. by rewrite lookup_empty in Hk.
Qed.

Lemma process_malloc m a h G U S l root T F lst ms n : process m a h G U S l root T F lst ms → Malloc.fits kernel_size n → 0 < n → l ≠ [] →
  ∃ p m' a' h' G' l', malloc n (m, a, h) = Ok (p, (m', a', h')) ∧
    process m' a' h' G' (<[p := n]> U) S l' root T F lst ms ∧ p ∉ S ∧ (length l ≤ length l' + 1)%nat.
Proof.
  intros Hpr Hf Hn Hl.
  destruct (heap_malloc m a h G U l n (pr_heap _ _ _ _ _ _ _ _ _ _ _ _ Hpr) Hf Hn Hl) as (p & m' & a' & h' & G' & l' & E & Hh' & Hp & Ht & C).
  exists p, m', a', h', G', l'. split; [done|].
  assert (extends m G U ∅ l p n m' a' h' G' l') as X by (split_and!; [done..|]; eapply changes_weaken; [|done]; by left).
  destruct (process_extends _ _ _ _ _ _ _ _ _ _ _ _ _ _ _ _ _ _ _ Hpr X) as (? & ? & ? & _). done.
Qed.

(** A write to quiet memory. *)
Lemma process_quiet P m a h G U S l root T F lst ms m' : process m a h G U S l root T F lst ms →
  (∀ x, P x → quiet G U S l T F x) → changes P m m' → process m' a h G U S l root T F lst ms.
Proof.
  intros [Hh Hu Ha Hm Hr] Hq C. constructor; [| |done| |done].
  - eapply heap_update; [done|exact C| | |by intros r Hr'; apply (heap_page _ _ _ _ _ _ _ Hh Hr')].
    + intros x Hx. destruct (block_dec U x) as [?|Hn]; [by left|right]. intros Hg. apply (proj1 (Hq x Hx)). by left.
    + eapply avail_frame; [by eapply heap_avail|apply C|]. intros q x Hq' Hx. apply C. intros Hpx.
      apply (proj1 (Hq x Hpx)). right; right; left. by exists q.
  - eapply uspace_frame; [done|exact C|]. intros x q [Ht|[i Hi]] Hx Hpx; destruct (Hq x Hpx) as [Hnt Hnu].
    + apply Hnt. right; right; right. by exists q.
    + by eapply Hnu.
  - eapply mappings_frame; [done|exact C| |done]. intros x Hpx Hx. apply (proj1 (Hq x Hpx)). by right; left.
Qed.

(** A free page that goes to somebody else. *)
Lemma heap_page_ok m a h G U q l m' a' : heap_ok m a h G U (q :: l) → avail m' a' l → changes (in_page q) m m' → heap_ok m' a' h G U l.
Proof.
  intros Hh Hav C. destruct (free_page _ _ _ _ _ _ q Hh ltac:(by left)) as (Hk & HG & _).
  eapply heap_update; [done|exact C| |done|].
  - intros x Hx. right. intros (g & Hg & Hgx). by eapply (heap_page_cell m a h G U (q :: l) g q x).
  - intros r Hr'. destruct (heap_page _ _ _ _ _ _ _ Hh Hr') as [Hn _]. set_solver.
Qed.

(** A process beside a step that is not its own. *)
Lemma process_beside k m a h G U R l T0 m' a' h' G' U' R' l' T0' S root T F lst ms : process m a h G U S l root T F lst ms →
  (∀ q, tree_page T0 q → kpage q ∧ q ∉ G) → (∀ p, owns T F p → ¬ tree_page T0 p) → R ## S →
  evolves k m G U R l T0 m' G' U' R' l' T0' → heap_ok m' a' h' G' U' l' →
  process m' a' h' G' U' S l' root T F lst ms ∧ frames_same F m m'.
Proof.
  intros [Hh Hu Ha Hm Hr] HT Hap HR Ev Hh'.
  destruct (uspace_evolves k m a h G U R l T0 m' G' U' R' l' T0' root T F) as (Hu' & Ha' & Hs); try done.
  { intros q Hq. by apply HT. }
  split; [|intros i q x Hi Hx; eapply Hs; [by right; exists i|done]].
  constructor; [done..| |done]. by eapply (mappings_evolves k m a h G U R l T0).
Qed.

Lemma process_page m a h G U S q l root T F lst ms m' a' : process m a h G U S (q :: l) root T F lst ms →
  avail m' a' l → changes (in_page q) m m' → process m' a' h G U S l root T F lst ms.
Proof.
  intros [Hh Hu Ha Hm Hr] Hav C. destruct (free_page _ _ _ _ _ _ q Hh ltac:(by left)) as (Hk & HG & _).
  constructor; [by eapply heap_page_ok| | | |done].
  - eapply uspace_frame; [done|exact C|]. intros x r Ho Hx Hqx. destruct (owned_page _ _ _ _ _ Hu Ho) as [Hrk _].
    destruct (Ha r Ho) as [_ Hn]. eapply (kpage_disjoint q r); [done|done| |done|done]. set_solver.
  - intros r Ho. destruct (Ha r Ho). set_solver.
  - eapply mappings_frame; [done|exact C| |done]. intros x Hx (r & n & _ & HU & Hrx).
    destruct (block_arena m a h G U (q :: l) x Hh) as (g & Hg & Hgx); [by exists r, n|].
    by eapply (heap_page_cell m a h G U (q :: l) g q x).
Qed.
End blocks.

Lemma mem_at_word n m x l i v : mem_at m x l → length (take n (drop i l)) = n → le_combine (take n (drop i l)) = v →
  word_at n m (x + Z.of_nat i) v.
Proof.
  intros Hm Hl Hv. exists (take n (drop i l)). split_and!; [done| |done]. intros j b Hj.
  apply lookup_take_Some in Hj as [Hj _]. rewrite lookup_drop in Hj.
  replace (x + Z.of_nat i + Z.of_nat j) with (x + Z.of_nat (i + j)) by lia. by apply Hm.
Qed.

(** A process beside a block of [k] bytes, with [n] free pages. *)
Lemma sample_block n k : Z.of_nat n < 1021 → 32 ≤ k < 0xa0 → k mod 16 = 0 → ∃ (p root lst : Z) (m : mem) (a : Z) h G U S l T,
  process m a h G U S l root T ∅ lst [] ∧ (n ≤ length l)%nat ∧ U !! p = Some k ∧ p ∉ S.
Proof.
  intros Hn Hk Hk16. destruct (sample_user (Datatypes.S n)) as (m & a & h & G & U & S & l & root & T & lst & Hpr & Hl); [lia|].
  destruct (process_malloc m a h G U S l root T ∅ lst [] k Hpr) as (p & m1 & a1 & h1 & G1 & l1 & _ & Hpr1 & Hp & Hl1).
  - apply good_fits; [exact _|]. right; right. done.
  - lia.
  - intros ->. simpl in Hl. lia.
  - exists p, root, lst, m1, a1, h1, G1, (<[p := k]> U), S, l1, T. split_and!; [done|lia|apply lookup_insert_eq|done].
Qed.
