(* ===== verification/Elf.v ===== *)
(** * core/exec.c: the program loader

    [elf_loader] from the path to the segments in memory: open, read to [elf_buf] and close
    ([open_at], [read_at], [close_at]), the checks of the ELF header, and the loop of [Load].
    [elf_loader_correct] composes the file system, the descriptors and the address space. *)

From S2P Require Import Prelude Mem PageAlloc Vm VmCopy Malloc Heap MList AddrSpace UserSpace Fork Ext2 Uart Fs Proc Exec Load.

(** ** A file as an executable *)

Definition phdr_of (image : list Z) (o : nat) : phdr :=
  {| ph_type := field 4 o image; ph_flags := field 4 (o + 4) image; ph_offset := field 8 (o + 8) image;
     ph_vaddr := field 8 (o + 16) image; ph_filesz := field 8 (o + 32) image; ph_memsz := field 8 (o + 40) image;
     ph_align := field 8 (o + 48) image |}.

Definition phoff (image : list Z) : Z := field 8 32 image.
Definition phnum (image : list Z) : Z := field 2 56 image.
Definition headers (image : list Z) : list phdr :=
  (λ i, phdr_of image (Z.to_nat (phoff image) + 56 * i)) <$> seq 0 (Z.to_nat (phnum image)).

(** What [elf_loader] asserts of a file, and segments it can load beside the pages [F]. *)
Record executable (F : gmap Z Z) (image : list Z) : Prop := {
  ex_bytes : bytes image;
  ex_ident : take 4 image = elf_magic ∧ field 1 4 image = ELFCLASS ∧ field 2 18 image = EM_LOONGARCH ∧
    (field 2 16 image = ET_EXEC ∨ field 2 16 image = ET_DYN);
  ex_headers : 0 < phnum image ∧ phoff image + sizeof_phdr * phnum image ≤ Z.of_nat (length image) ∧ 64 ≤ Z.of_nat (length image);
  ex_segments : ∀ r, r ∈ headers image → is_load r → seg_ok r ∧
    ph_offset r + ph_filesz r ≤ Z.of_nat (length image) ∧ ∀ i, seg_range r i → F !! i = None;
  ex_apart : ∀ i j r r' n, headers image !! i = Some r → headers image !! j = Some r' → is_load r → is_load r' →
    seg_range r n → seg_range r' n → i = j
}.

Lemma field_at n o m x image : mem_at m x image → (o + n ≤ length image)%nat → word_at n m (x + Z.of_nat o) (field n o image).
Proof. intros Hm Hl. eapply mem_at_word; [done| |done]. rewrite length_take, length_drop. lia. Qed.

Lemma field_pos n o image : bytes image → 0 ≤ field n o image.
Proof. intros Hb. apply le_combine_bound. by apply Forall_take, Forall_drop. Qed.

Lemma phdr_of_at m x image o : mem_at m x image → (o + 56 ≤ length image)%nat → phdr_at m (x + Z.of_nat o) (phdr_of image o).
Proof.
  intros Hm Hl. unfold phdr_at, p_type, p_flags, p_offset, p_vaddr, p_filesz, p_memsz, p_align. simpl.
  rewrite <- !Z.add_assoc. repeat match goal with |- context [Z.of_nat o + ?k] =>
    replace (Z.of_nat o + k) with (Z.of_nat (o + Z.to_nat k)) by lia end.
  split_and!; apply field_at; done || lia.
Qed.

Lemma length_headers image : length (headers image) = Z.to_nat (phnum image).
Proof. unfold headers. by rewrite length_fmap, length_seq. Qed.

(** The byte list at the start of the file. *)
Lemma load_list_ok m a l : mem_at m a l → load_list (length l) a m = Ok (l, m).
Proof.
  revert a. induction l as [|b l IH]; intros a Hm; [done|]. apply mem_at_cons in Hm as [Hb Hm].
  cbn [load_list length]. rewrite (bind_ok _ _ _ _ _ (load8_ok _ _ _ Hb)), (bind_ok _ _ _ _ _ (IH _ Hm)). done.
Qed.

(** ** The file system's part *)
Section files.
Context {A : Type} `{PageAllocator A}.
Context (sector : Z → list Z) (e2fs : ext2_fs).
Implicit Types (s : fs_state A) (l : list fdentry) (fl : list ext2_file).

Lemma first_free_Some fl i j : first_free fl i = Some j → 0 ≤ i → ∃ f, i ≤ j ∧ nth_at fl (j - i) = Some f ∧ alloc f = 0.
Proof.
  revert i. induction fl as [|f fl IH]; intros i Hs Hi; [done|]. simpl in Hs. destruct (Z.eqb_spec (alloc f) 0) as [Ha|Ha].
  - injection Hs as <-. exists f. rewrite Z.sub_diag. split_and!; [lia|done|done].
  - destruct (IH (i + 1) Hs ltac:(lia)) as (f' & ? & Hf & ?). exists f'. split_and!; [lia| |done].
    unfold nth_at in *. destruct (Z.leb_spec 0 (j - (i + 1))); [|done]. destruct (Z.leb_spec 0 (j - i)); [|lia].
    replace (Z.to_nat (j - i)) with (Datatypes.S (Z.to_nat (j - (i + 1)))) by lia. done.
Qed.

(** The state with other files, inodes and pages. *)
Definition files_at s t l fl inos pg : fs_state A :=
  {| fds := fl; tables := <[t := l]> (tables s); inodes := inos; pages := pg; console := console s |}.

(** The open file of a fresh descriptor. *)
Definition opened q flags (f : ext2_file) : ext2_file :=
  {| f_inode := q; f_pos := 0; f_flags := u32 flags; refcount := refcount f; alloc := 1 |}.

Lemma open_at s t l path flags inode fd e idx f q pg :
  ext2_path_lookup sector e2fs path = Ok (0, Some inode) → MAX_FDTABLE ≤ Z.of_nat (length l) →
  tables s !! t = Some l → first_idle (Z.to_nat MAX_FDTABLE) l 0 = Some fd → nth_at l fd = Some e →
  first_free (fds s) 0 = Some idx → nth_at (fds s) idx = Some f →
  page_alloc sizeof_inode (pages s) = Ok (q, pg) →
  open sector e2fs t path flags s = Ok (fd,
    files_at s t (<[Z.to_nat fd := {| fds_index := idx; busy := 1 |}]> l) (<[Z.to_nat idx := opened q flags f]> (fds s))
      (<[q := inode]> (inodes s)) pg).
Proof.
  intros Hlook Hlen Ht Hfd He Hidx Hf Hq. rewrite (at_id s t l Ht) at 1. set (fl := fds s) in *.
  unfold open. rewrite (bind_ok _ _ _ (0, Some inode) (at_ s t l fl)) by (unfold lift; by rewrite Hlook).
  rewrite (bind_ok _ _ _ _ _ (find_fd_at s t l fl (Z.to_nat MAX_FDTABLE) 0 ltac:(done) Hlen)), Hfd.
  rewrite (bind_ok _ _ _ _ _ (entry_at s t l fl fd e He)), (bind_ok _ _ _ _ _ (set_entry_at s t l fl fd e _ He)).
  set (l1 := <[Z.to_nat fd := set_busy 1 e]> l).
  assert (nth_at l1 fd = Some (set_busy 1 e)) as He1 by (by eapply nth_at_insert).
  set (f1 := set_alloc 1 f). set (fl1 := <[Z.to_nat idx := f1]> fl).
  assert (nth_at fl1 idx = Some f1) as Hf1 by (by eapply nth_at_insert).
  rewrite (bind_ok _ _ _ idx (at_ s t l1 fl1)).
  2: { unfold alloc_fds. rewrite (bind_ok _ _ _ fl (at_ s t l1 fl)) by done. rewrite Hidx.
       rewrite (bind_ok _ _ _ _ _ (file_at s t l1 fl idx f Hf)). by rewrite (bind_ok _ _ _ _ _ (set_file_at s t l1 fl idx f f1 Hf)). }
  rewrite (bind_ok _ _ _ _ _ (entry_at s t l1 fl1 fd _ He1)), (bind_ok _ _ _ _ _ (set_entry_at s t l1 fl1 fd _ _ He1)).
  unfold l1. rewrite insert_insert_at. cbn [busy set_busy].
  set (l2 := <[Z.to_nat fd := {| fds_index := idx; busy := 1 |}]> l).
  rewrite (bind_ok _ _ _ q (files_at s t l2 fl1 (inodes s) pg)) by (unfold in_pages, zoom; simpl; by rewrite Hq).
  rewrite (bind_ok _ _ _ tt (files_at s t l2 fl1 (<[q := inode]> (inodes s)) pg)) by done.
  rewrite (bind_ok _ _ _ f1 (files_at s t l2 fl1 (<[q := inode]> (inodes s)) pg)) by (unfold file; simpl; by rewrite Hf1).
  rewrite (bind_ok _ _ _ tt (files_at s t l2 (<[Z.to_nat idx := opened q flags f]> fl) (<[q := inode]> (inodes s)) pg)); [done|].
  unfold set_file. simpl. rewrite Hf1. unfold fl1, set_fds. simpl. by rewrite insert_insert_at.
Qed.

(** Storing bytes in the kernel's address space. *)
Lemma store_bytes_ok p (l : list Z) m : mapped m p (Z.of_nat (length l)) → bytes l →
  store_bytes (λ _ a, Some a) p l m = Ok (tt, write_bytes p l m).
Proof.
  revert p m. induction l as [|b l IH]; intros p m Hm Hb; [done|]. inversion Hb as [|? ? Hb0 Hb1]; subst.
  cbn [store_bytes write_bytes]. rewrite (bind_ok _ _ _ tt (<[p := b]> m)).
  - apply IH; [|done]. intros x Hx. destruct (decide (x = p)) as [->|]; [by rewrite lookup_insert_eq|].
    rewrite lookup_insert_ne by done. apply Hm. simpl. lia.
  - unfold through. rewrite store8_ok by (apply Hm; simpl; lia). unfold byte in Hb0. by rewrite Z.mod_small by lia.
Qed.

Lemma read_at s t fd buf count e f inode data m a l : tables s !! t = Some l → 0 ≤ fd < MAX_FDTABLE → nth_at l fd = Some e →
  busy e ≠ 0 → nth_at (fds s) (fds_index e) = Some f → fds_index e ≠ STDIN → inodes s !! f_inode f = Some inode →
  pages s = (m, a) → ext2_fread sector e2fs inode (u32 count) = Ok data → mapped m buf (Z.of_nat (length data)) → bytes data →
  read sector e2fs (λ _ a, Some a) t fd buf count s =
    Ok (Z.of_nat (length data), files_at s t l (fds s) (inodes s) (write_bytes buf data m, a)).
Proof.
  intros Ht Hfd He Hb Hf Hin Hino Hpg Hd Hm Hby. rewrite (at_id s t l Ht) at 1. set (fl := fds s) in *.
  unfold read.
  rewrite (bind_ok _ _ _ _ _ (fd_invaild_at s t l fl fd e Hfd He)). destruct (Z.eqb_spec (busy e) 0); [done|].
  rewrite (bind_ok _ _ _ _ _ (fd_to_fds_at s t l fl fd e He Hb)). destruct (Z.eqb_spec (fds_index e) STDIN); [done|].
  rewrite (bind_ok _ _ _ _ _ (fd_to_fds_at s t l fl fd e He Hb)), (bind_ok _ _ _ _ _ (file_at s t l fl _ f Hf)).
  rewrite (bind_ok _ _ _ (inodes s) (at_ s t l fl)) by done. rewrite Hino.
  rewrite (bind_ok _ _ _ data (at_ s t l fl)) by (unfold lift; by rewrite Hd).
  rewrite (bind_ok _ _ _ tt (files_at s t l fl (inodes s) (write_bytes buf data m, a))); [done|].
  unfold in_pages, zoom. simpl. rewrite Hpg. by rewrite (in_mem_ok _ _ _ _ _ (store_bytes_ok buf data m Hm Hby)).
Qed.

(** A path that leads to a file with the contents [data] (its first [count] bytes), a free
    descriptor [fd] in the table at [t] and a free slot [idx]. *)
Record readable s t path l fd idx inode count data : Prop := {
  rd_lookup : ext2_path_lookup sector e2fs path = Ok (0, Some inode);
  rd_data : ext2_fread sector e2fs inode (u32 count) = Ok data;
  rd_table : tables s !! t = Some l ∧ MAX_FDTABLE ≤ Z.of_nat (length l);
  rd_fd : first_idle (Z.to_nat MAX_FDTABLE) l 0 = Some fd;
  rd_slot : first_free (fds s) 0 = Some idx ∧ idx ≠ STDIN
}.

(** Open, read all, close: the file's bytes are at [buf], and the descriptor is free again. *)
Lemma fetch_ok s t path l fd idx inode count data buf q m a :
  readable s t path l fd idx inode count data → page_alloc sizeof_inode (pages s) = Ok (q, (m, a)) →
  mapped m buf (Z.of_nat (length data)) → bytes data →
  ∃ s1 s2 s3, openat sector e2fs t 0 path 0 s = Ok (fd, s1) ∧ fd ≠ -1 ∧
    read sector e2fs (λ _ a, Some a) t fd buf count s1 = Ok (Z.of_nat (length data), s2) ∧ close t fd s2 = Ok (0, s3) ∧
    pages s3 = (write_bytes buf data m, a) ∧ console s3 = console s ∧ inodes s3 = <[q := inode]> (inodes s) ∧
    tables s3 = <[t := <[Z.to_nat fd := {| fds_index := idx; busy := 0 |}]> l]> (tables s) ∧
    ∃ f, fds s3 = <[Z.to_nat idx := f]> (fds s).
Proof.
  intros [Hlook Hdata [Ht Hlen] Hfd [Hidx Hin]] Hq Hm Hby.
  destruct (first_idle_Some _ _ _ _ Hfd) as (Hr & (e & He & _) & _). rewrite Z.add_0_l in Hr.
  destruct (first_free_Some _ _ _ Hidx ltac:(done)) as (f & Hi & Hf & _). rewrite Z.sub_0_r in Hf.
  pose proof (open_at s t l path 0 inode fd e idx f q (m, a) Hlook Hlen Ht Hfd He Hidx Hf Hq) as E1.
  set (e1 := {| fds_index := idx; busy := 1 |}) in *. set (f1 := opened q 0 f) in *.
  set (l1 := <[Z.to_nat fd := e1]> l) in *. set (fl1 := <[Z.to_nat idx := f1]> (fds s)) in *.
  assert (nth_at l1 fd = Some e1) as He1 by (by eapply nth_at_insert).
  assert (nth_at fl1 idx = Some f1) as Hf1 by (by eapply nth_at_insert).
  assert (0 ≤ fd < MAX_FDTABLE) as Hfd' by (unfold MAX_FDTABLE in *; lia).
  set (inos := <[q := inode]> (inodes s)) in *.
  pose proof (read_at (files_at s t l1 fl1 inos (m, a)) t fd buf count e1 f1 inode data m a l1) as E2.
  simpl in E2. rewrite lookup_insert_eq in E2. unfold inos in E2 at 1. simpl in E2. rewrite lookup_insert_eq in E2.
  specialize (E2 eq_refl Hfd' He1 ltac:(done) Hf1 Hin eq_refl eq_refl Hdata Hm Hby).
  set (s2 := files_at (files_at s t l1 fl1 inos (m, a)) t l1 fl1 inos (write_bytes buf data m, a)) in *.
  assert (s2 = at_ s2 t l1 fl1) as Es2 by (apply at_id; simpl; by rewrite lookup_insert_eq).
  assert (in_use l1 fl1 fd e1 f1) as Hu by (by constructor).
  pose proof (close_at s2 t l1 fl1 fd e1 f1 Hu) as E3. rewrite <- Es2 in E3.
  assert (∃ f2, released f1 = Ok f2) as [f2 Ef2] by (unfold released, f1, opened; simpl; destruct (_ =? 0); simpl; eauto).
  rewrite Ef2 in E3. eexists _, s2, _. split_and!; [exact E1|lia|exact E2|exact E3|done|done|done| |].
  - simpl. unfold l1. by rewrite !insert_insert_eq, insert_insert_at.
  - exists f2. simpl. unfold fl1. by rewrite insert_insert_at.
Qed.
End files.

(** ** The loader *)
Section loader.
Context {A : Type} `{PageAllocator A} `{Machine}.
Implicit Types (m : mem) (a : A) (h : mheap) (U : gmap Z Z) (S : gset Z) (G l : list Z) (s : kstate A).
Implicit Types (T : gmap (list Z) Z) (F : gmap Z Z) (ms : list mapping).

(** [elf_buf] can take the file. *)
Definition room m G U S l T F (image : list Z) : Prop :=
  0 ≤ elf_buf ∧ elf_buf + Z.of_nat (length image) < 2 ^ 64 ∧ mapped m elf_buf (Z.of_nat (length image)) ∧
  ∀ x, elf_buf ≤ x < elf_buf + Z.of_nat (length image) → quiet G U S l T F x.

Lemma quiet_fewer G U S q l T F x : quiet G U S (q :: l) T F x → quiet G U S l T F x.
Proof.
  intros [Ht Hn]. split; [|done]. intros Hx. apply Ht. destruct Hx as [?|[?|[(r & ? & ?)|?]]]; [by left|by right; left| |by right; right; right].
  right; right; left. exists r. split; [by right|done].
Qed.

Lemma room_filled m a h G U S q l root T F lst ms m1 a1 image : process m a h G U S (q :: l) root T F lst ms →
  room m G U S (q :: l) T F image → bytes image → avail m1 a1 l → only q PGSIZE m m1 → dom m1 = dom m →
  mapped m1 elf_buf (Z.of_nat (length image)) ∧
  process (write_bytes elf_buf image m1) a1 h G U S l root T F lst ms ∧
  buffered (write_bytes elf_buf image m1) G U S l T F image ∧ frames_same F m (write_bytes elf_buf image m1).
Proof.
  intros Hpr (H1' & H2' & Hm & Hq) Hby Hav Ho Hd.
  assert (changes (in_page q) m m1) as C by (by split).
  assert (∀ x, elf_buf ≤ x < elf_buf + Z.of_nat (length image) → quiet G U S l T F x) as Hq'.
  { intros x Hx. by eapply quiet_fewer, Hq. }
  assert (mapped m1 elf_buf (Z.of_nat (length image))) as Hm1 by (by eapply mapped_dom).
  pose proof (changes_write (λ x, elf_buf ≤ x < elf_buf + Z.of_nat (length image)) elf_buf image m1 Hm1 (λ x Hx, Hx)) as C1.
  pose proof (process_page _ _ _ _ _ _ _ _ _ _ _ _ _ _ _ Hpr Hav C) as Hpr1.
  split_and!; [done|eapply process_quiet; [exact Hpr1|exact Hq'|exact C1]| |].
  - constructor; [split; [apply write_bytes_at|done]|done|done].
  - intros i p x Hi Hx. destruct Hpr as [Hh Hu Ha _ _]. rewrite (proj2 C1).
    + apply C. intros Hqx. destruct (Ha p) as [_ Hpl]; [by right; exists i|].
      destruct (owned_page m root T F p Hu) as [Hk _]; [by right; exists i|].
      destruct (free_page _ _ _ _ _ _ q Hh ltac:(by left)) as (Hqk & _).
      eapply (kpage_disjoint q p); [done|done| |done|done]. set_solver.
    + intros Hb. by eapply (proj2 (Hq' x Hb)).
Qed.

(** The checks of the header. *)
Lemma executable_program m F image : executable F image → mem_at m elf_buf image →
  program_ok m F image (elf_buf + phoff image) (headers image).
Proof.
  intros [Hb _ (Hn & Hl & _) Hs Ha] Hm. pose proof (field_pos 8 32 image Hb) as Hoff. fold (phoff image) in Hoff. unfold sizeof_phdr in *.
  constructor; [| | |done].
  - intros i r Hi. pose proof (lookup_lt_Some _ _ _ Hi) as Hlt. rewrite length_headers in Hlt.
    apply list_lookup_fmap_Some in Hi as (j & -> & Hj). apply lookup_seq in Hj as [-> _]. simpl.
    replace (elf_buf + phoff image + sizeof_phdr * Z.of_nat i) with (elf_buf + Z.of_nat (Z.to_nat (phoff image) + 56 * i)) by (unfold sizeof_phdr; lia).
    apply phdr_of_at; [done|]. lia.
  - rewrite length_headers. unfold sizeof_phdr. lia.
  - intros r Hr Hty. destruct (Hs r Hr Hty) as (? & ? & ?). split_and!; [done| |done|done].
    apply list_elem_of_fmap in Hr as (j & -> & _). apply field_pos, Hb.
Qed.

Lemma load_field n o s m a h image : memory s = (m, a, h) → mem_at m elf_buf image → (o + n ≤ length image)%nat →
  on_mem (load n (elf_buf + Z.of_nat o)) s = Ok (field n o image, s).
Proof. intros Hs Hm Hl. eapply on_mem_load; [done|]. by apply load_ok, field_at. Qed.

Definition loaded (rs : list phdr) (t : task_struct) : task_struct := foldl (λ t r, seg_task r t) t rs.

Lemma parse_and_load_ok image p s t m a h G U S l T F ms : proc s !! p = Some t → memory s = (m, a, h) →
  process m a h G U S l (pgtbl t) T F (mapping_list t) ms → buffered m G U S l T F image → executable F image →
  5 * need (headers image) ≤ Z.of_nat (length l) →
  ∃ m' a' h' G' U' S' l' T' F' ms', parse_and_load p s = Ok (field 8 24 image, after p (loaded (headers image) t) (m', a', h') s) ∧
    grown (covers (headers image)) (5 * Z.to_nat (need (headers image))) (pgtbl t) (mapping_list t) m G U S l T F m' a' h' G' U' S' l' T' F' ms' ∧
    ∀ r, r ∈ headers image → is_load r → user_at m' F' r (seg_data image r).
Proof.
  intros Hp Hs Hpr Hbuf Hex Hl. pose proof Hbuf as [[Hat Hby] [Hb0 Hb1] _].
  pose proof Hex as [_ (I1 & I2 & I3 & I4) (Hn & Hoff & Hlen) _ _]. pose proof (field_pos 8 32 image Hby) as Hoff0. fold (phoff image) in Hoff0.
  destruct (load_segments_ok image p (headers image) (elf_buf + phoff image) s t m a h G U S l T F ms Hp Hs Hpr Hbuf
    (executable_program m F image Hex Hat) Hl) as (m' & a' & h' & G' & U' & S' & l' & T' & F' & ms' & E & Hg & Hu).
  destruct (buffered_later _ _ _ _ _ _ _ _ _ _ _ _ _ _ _ _ _ _ _ _ _ image Hg Hbuf) as [[[Hat' _] _ _] _].
  exists m', a', h', G', U', S', l', T', F', ms'. split_and!; [|done|done].
  assert (∀ n o x, x = elf_buf + Z.of_nat o → (o + n ≤ length image)%nat → on_mem (load n x) s = Ok (field n o image, s)) as Hld.
  { intros n o x -> Ho. by eapply load_field. }
  unfold parse_and_load, e_ident, e_machine, e_type, e_phoff, e_phnum, e_entry.
  rewrite (bind_ok _ _ _ elf_magic s).
  2: { eapply on_mem_load; [done|]. apply (load_list_ok m elf_buf elf_magic). rewrite <- I1. intros i b Hi.
       apply lookup_take_Some in Hi as [Hi _]. by apply Hat. }
  rewrite bool_decide_true by done. cbn [assert]. rewrite (bind_ok _ _ _ tt s) by done.
  rewrite (bind_ok _ _ _ _ _ (Hld 2%nat 18%nat (elf_buf + 18) ltac:(lia) ltac:(lia))), I3. rewrite (bind_ok _ _ _ tt s) by done.
  rewrite (bind_ok _ _ _ _ _ (Hld 1%nat 4%nat (elf_buf + 4) ltac:(lia) ltac:(lia))), I2. rewrite (bind_ok _ _ _ tt s) by done.
  rewrite (bind_ok _ _ _ _ _ (Hld 2%nat 16%nat (elf_buf + 16) ltac:(lia) ltac:(lia))). rewrite (bind_ok _ _ _ tt s) by (by destruct I4 as [-> | ->]).
  rewrite (bind_ok _ _ _ _ _ (Hld 8%nat 32%nat (elf_buf + 32) ltac:(lia) ltac:(lia))). fold (phoff image).
  rewrite (bind_ok _ _ _ _ _ (Hld 2%nat 56%nat (elf_buf + 56) ltac:(lia) ltac:(lia))). fold (phnum image).
  rewrite (bind_ok _ _ _ tt s) by (destruct (Z.eqb_spec (phnum image) 0); [lia|done]).
  rewrite <- length_headers, (wrap_id 64 (elf_buf + phoff image)) by (unfold sizeof_phdr in *; lia). rewrite (bind_ok _ _ _ _ _ E).
  apply (load_field 8 24 _ m' a' h'); [done|exact Hat'|lia].
Qed.

Lemma my_fdtable_ok s c tc : cur_proc s = Some c → proc s !! c = Some tc → my_fdtable s = Ok (fdtable tc, s).
Proof.
  intros Hc Htc. unfold my_fdtable, my_proc. rewrite (bind_ok _ _ _ c s).
  - by rewrite (bind_ok _ _ _ _ _ (task_run s c tc Htc)).
  - by rewrite (bind_ok _ _ _ (Some c) s) by (unfold gets; by rewrite Hc).
Qed.

Lemma on_fs_ok {B} (c : M (fs_state A) B) s (b : B) f f' : fs s = f → c f = Ok (b, f') → on_fs c s = Ok (b, with_fs f' s).
Proof. intros <- E. unfold on_fs, zoom. by rewrite E. Qed.

(** The call as a whole, with what the steps after it need: quiet memory stays quiet, and only the
    buffer changes there. *)
Lemma elf_loader_ok p path s c tc t lf fd idx inode image m a h G U S q l T F ms :
  cur_proc s = Some c → proc s !! c = Some tc → proc s !! p = Some t → memory s = (m, a, h) →
  readable sector (mount s) (fs s) (fdtable tc) path lf fd idx inode ELF_BUF_SIZE image →
  process m a h G U S (q :: l) (pgtbl t) T F (mapping_list t) ms → room m G U S (q :: l) T F image →
  executable F image → 5 * need (headers image) ≤ Z.of_nat (length l) →
  ∃ f' m' a' h' G' U' S' l' T' F' ms', let t' := loaded (headers image) t in
    elf_loader p path s = Ok (field 8 24 image, with_heap (m', a', h') (with_proc (<[p := t']> (proc s)) (with_fs f' s))) ∧
    (tables f' = <[fdtable tc := <[Z.to_nat fd := {| fds_index := idx; busy := 0 |}]> lf]> (tables (fs s)) ∧
     console f' = console (fs s)) ∧
    (∀ r, r ∈ headers image → is_load r → user_at m' F' r (seg_data image r)) ∧
    ((∀ i, is_Some (F' !! i) ↔ is_Some (F !! i) ∨ covers (headers image) i) ∧
     (∀ i q, F' !! i = Some q → F !! i = Some q ∨ q ∈ l) ∧ F ⊆ F' ∧ frames_same F m m') ∧
    process m' a' h' G' U' S' l' (pgtbl t') T' F' (mapping_list t') ms' ∧
    (length l ≤ length l' + 5 * Z.to_nat (need (headers image)))%nat ∧ dom m' = dom m ∧
    ∀ x, quiet G U S (q :: l) T F x → quiet G' U' S' l' T' F' x ∧
      (¬ (elf_buf ≤ x < elf_buf + Z.of_nat (length image)) → m' !! x = m !! x).
Proof.
  intros Hc Htc Hp Hs Hrd Hpr Hroom Hex Hl. pose proof (ex_bytes _ _ Hex) as Hby.
  assert (pages (fs s) = (m, a)) as Hpg by (unfold memory in Hs; congruence).
  destruct (page_alloc_ok m a q l sizeof_inode (heap_avail _ _ _ _ _ _ (pr_heap _ _ _ _ _ _ _ _ _ _ _ _ Hpr))) as
    (m1 & a1 & Eq & Hav & Ho & Hd); [done|]. rewrite <- Hpg in Eq.
  destruct (room_filled m a h G U S q l _ T F _ ms m1 a1 image Hpr Hroom Hby Hav Ho Hd) as (Hm1 & Hpr1 & Hbuf & Hsame).
  destruct (fetch_ok sector (mount s) (fs s) _ path lf fd idx inode _ image elf_buf q m1 a1 Hrd Eq Hm1 Hby) as
    (f1 & f2 & f3 & E1 & Hfd & E2 & E3 & Hpg3 & Hcon & _ & Htab & _).
  destruct (parse_and_load_ok image p (with_fs f3 s) t (write_bytes elf_buf image m1) a1 h G U S l T F ms) as
    (m' & a' & h' & G' & U' & S' & l' & T' & F' & ms' & E & [X1 X2 X3 X4 X5 X6] & Hu); [done| |done..|].
  { unfold memory in *. simpl. rewrite Hpg3. by injection Hs as _ ->. }
  exists f3, m', a', h', G', U', S', l', T', F', ms'. split_and!; try done.
  - unfold elf_loader. rewrite (bind_ok _ _ _ _ _ (my_fdtable_ok s c tc Hc Htc)).
    rewrite (bind_ok _ _ _ (mount s) s) by done. rewrite (bind_ok _ _ _ _ _ (on_fs_ok _ s fd _ f1 eq_refl E1)).
    destruct (Z.eqb_spec fd (-1)); [done|].
    rewrite (bind_ok _ _ _ _ _ (on_fs_ok _ (with_fs f1 s) _ _ f2 eq_refl E2)).
    rewrite (bind_ok _ _ _ _ _ (on_fs_ok _ (with_fs f2 (with_fs f1 s)) _ _ f3 eq_refl E3)). exact E.
  - intros i x y Hi Hx. rewrite (X6 i x y Hi Hx). by eapply Hsame.
  - unfold loaded. destruct (seg_tasks_table (headers image) t) as [-> ->]. done.
  - apply X2.
  - transitivity (dom (write_bytes elf_buf image m1)); [apply X2|]. rewrite write_bytes_dom; [done|exact Hm1].
  - intros x Hx. assert (quiet G U S l T F x) as Hx1 by (by eapply quiet_fewer).
    assert (quiet G' U' S' l' T' F' x ∧ m' !! x = write_bytes elf_buf image m1 !! x) as [Hq' Hsm]
      by (eapply quiet_later; [exact X2|apply X1|exact X5|exact Hx1]).
    split; [done|]. intros Hne. rewrite Hsm, write_bytes_only by lia. apply Ho. intros Hqx. apply (proj1 Hx).
    right; right; left. exists q. split; [by left|unfold in_page; lia].
Qed.

(** C11: [elf_loader] from the path to the program in memory.  Let the path lead to a file whose
    first 20 MiB are an executable for this machine (magic number, class, machine and type are
    the asserted ones, the program headers and the loadable segments lie in the file, the
    segments lie below the end of user space and on pages that are neither mapped nor shared);
    let the current process have a free descriptor, [fds] a free slot, [elf_buf] room, and let
    there be a free page for the inode and five for each page of a segment.  Then [elf_loader]
    returns the entry address of the header.  The descriptor it used is free again, and the
    process sees every loadable segment at its address with zeros on the rest of its pages;
    exactly those pages are new, in frames that were free, the old ones keep frame and bytes,
    and heap, page table, mapping list and free pages are in order. *)
Theorem elf_loader_correct p path s c tc t lf fd idx inode image m a h G U S q l T F ms :
  cur_proc s = Some c → proc s !! c = Some tc → proc s !! p = Some t → memory s = (m, a, h) →
  readable sector (mount s) (fs s) (fdtable tc) path lf fd idx inode ELF_BUF_SIZE image →
  process m a h G U S (q :: l) (pgtbl t) T F (mapping_list t) ms → room m G U S (q :: l) T F image →
  executable F image → 5 * need (headers image) ≤ Z.of_nat (length l) →
  ∃ f' m' a' h' G' U' S' l' T' F' ms', let t' := loaded (headers image) t in
    elf_loader p path s = Ok (field 8 24 image, with_heap (m', a', h') (with_proc (<[p := t']> (proc s)) (with_fs f' s))) ∧
    tables f' = <[fdtable tc := <[Z.to_nat fd := {| fds_index := idx; busy := 0 |}]> lf]> (tables (fs s)) ∧
    console f' = console (fs s) ∧
    (∀ r, r ∈ headers image → is_load r → user_at m' F' r (seg_data image r)) ∧
    (∀ i, is_Some (F' !! i) ↔ is_Some (F !! i) ∨ covers (headers image) i) ∧
    (∀ i q, F' !! i = Some q → F !! i = Some q ∨ q ∈ l) ∧ F ⊆ F' ∧ frames_same F m m' ∧
    process m' a' h' G' U' S' l' (pgtbl t') T' F' (mapping_list t') ms'.
Proof.
  intros Hc Htc Hp Hs Hrd Hpr Hroom Hex Hl.
  destruct (elf_loader_ok p path s c tc t lf fd idx inode image m a h G U S q l T F ms Hc Htc Hp Hs Hrd Hpr Hroom Hex Hl) as
    (f' & m' & a' & h' & G' & U' & S' & l' & T' & F' & ms' & E & [? ?] & ? & (? & ? & ? & ?) & ? & _).
  by exists f', m', a', h', G', U', S', l', T', F', ms'.
Qed.
End loader.

(** ** A sample: the file "a" in the root directory of a disk, and a process that loads it *)
Definition sector_with (b : list Z) : list Z := take 512 (b ++ replicate 512 0).
Definition sample_elf : list Z :=
  elf_magic ++ [2] ++ replicate 11 0 ++ le_split 2 ET_EXEC ++ le_split 2 EM_LOONGARCH ++ le_split 4 1 ++ le_split 8 0x10010 ++
  le_split 8 64 ++ replicate 16 0 ++ le_split 2 1 ++ replicate 6 0 ++
  le_split 4 PT_LOAD ++ le_split 4 6 ++ le_split 8 120 ++ le_split 8 0x10010 ++ le_split 8 0 ++ le_split 8 4 ++ le_split 8 8 ++
  le_split 8 8 ++ [1; 2; 3; 4; 0; 0; 0; 0].
Definition sample_inodes : list Z :=
  replicate 128 0 ++ le_split 2 0x4000 ++ replicate 2 0 ++ le_split 4 1024 ++ replicate 32 0 ++ le_split 4 3 ++ replicate 84 0 ++
  le_split 2 0x8000 ++ replicate 2 0 ++ le_split 4 128 ++ replicate 32 0 ++ le_split 4 4 ++ replicate 84 0.
Definition sample_root : list Z := le_split 4 3 ++ le_split 2 1024 ++ [1; 1; 97].
Definition sample_elf_disk (s : Z) : list Z :=
  sector_with (if s =? 2 then replicate 8 0 ++ le_split 4 2
    else if s =? 4 then sample_inodes else if s =? 6 then sample_root else if s =? 8 then sample_elf else []).
Definition sample_mount : ext2_fs :=
  {| sb := superblock_of (le_split 4 16 ++ replicate 36 0 ++ le_split 4 16 ++ replicate 44 0 ++ le_split 2 128);
     gd := group_desc_of []; block_size := 1024 |}.
Definition sample_interface (p : Z) : Machine := {|
  translate := λ _ _ a, Some a; elf_buf := p; exec_helper := 0; frame := 0; sector := sample_elf_disk;
  run_handler := λ _ _, mret tt; patience := 0
|}.
Definition sample_starting (root lst : Z) (m : mem) (a : Z) (h : mheap) : kstate Z :=
  Build_kstate [set_fdtable 64 (set_pgtbl root (set_mapping_list lst task0))] 1 (Some 0%nat) ∅
    {| fds := set_alloc 1 file0 :: replicate 3 file0; tables := {[ 64 := replicate 256 entry0 ]}; inodes := ∅; pages := (m, a);
       console := {| rx := []; tx := []; getstr_buf := [] |} |}
    h 0 0 0 0 0 ∅ sample_mount.

Example sample_lookup : ext2_path_lookup sample_elf_disk sample_mount [47; 97] = Ok (0, Some (inode_of (drop 256 sample_inodes))).
Proof. by vm_compute. Qed.
Example sample_contents : ext2_fread sample_elf_disk sample_mount (inode_of (drop 256 sample_inodes)) (u32 ELF_BUF_SIZE) = Ok sample_elf.
Proof. by vm_compute. Qed.

Lemma sample_elf_bytes : bytes sample_elf.
Proof. unfold sample_elf. rewrite !Forall_app. split_and!; try apply le_split_bytes; by repeat constructor. Qed.

Example sample_headers : headers sample_elf =
  [{| ph_type := PT_LOAD; ph_flags := 6; ph_offset := 120; ph_vaddr := 0x10010; ph_filesz := 4; ph_memsz := 8; ph_align := 8 |}].
Proof. by vm_compute. Qed.

Lemma sample_executable : executable ∅ sample_elf.
Proof.
  constructor.
  - apply sample_elf_bytes.
  - split_and!; [done..|by left].
  - by_decide.
  - rewrite sample_headers. intros r ->%list_elem_of_singleton _. split_and!; [constructor; by vm_compute|by vm_compute|done].
  - rewrite sample_headers. by intros [|i] [|j] r r' n Hr Hr' _ _ _ _.
Qed.

Lemma elf_loader_correct_witness : ∃ (p root lst : Z) (m : mem) (a : Z) h s' m' F',
  elf_loader (H0 := sample_interface p) 0 [47; 97] (sample_starting root lst m a h) = Ok (0x10010, s') ∧
  ubytes m' F' 0x10010 [1; 2; 3; 4] ∧ ubytes m' F' 0x10014 [0].
Proof.
  destruct (sample_block 26 128) as (p & root & lst & m & a & h & G & U & S & [|q l] & T & Hpr & Hl & HU & Hp); [done..|simpl in Hl; lia|].
  destruct (heap_block _ _ _ _ _ _ _ _ (pr_heap _ _ _ _ _ _ _ _ _ _ _ _ Hpr) HU) as (_ & ? & ? & Hm & _).
  destruct (elf_loader_correct (H0 := sample_interface p) 0 [47; 97] (sample_starting root lst m a h) 0 _ _ (replicate 256 entry0) 0 1
    (inode_of (drop 256 sample_inodes)) sample_elf m a h G U S q l T ∅ [] eq_refl eq_refl eq_refl eq_refl) as
    (f' & m' & a' & h' & _ & _ & _ & _ & _ & F' & _ & E & _ & _ & Hu & _).
  - constructor; [apply sample_lookup|apply sample_contents|split; [done|done]|done|done].
  - exact Hpr.
  - split_and!; [simpl; lia|simpl; lia|exact Hm|]. intros x Hx. eapply block_quiet; [done..|exact Hx].
  - apply sample_executable.
  - rewrite sample_headers. change (need _) with 5. simpl in Hl. lia.
  - eexists p, root, lst, m, a, h, _, m', F'. rewrite sample_headers in Hu.
    destruct (Hu _ ltac:(by left) ltac:(done)) as [Hd Hz]. clear -E Hd Hz.
    split_and!; [exact E|exact Hd|]. apply (Hz 0x10014).
    + by_decide.
    + by_decide.
Defined.
