(* ===== verification/ForkProc.v ===== *)
(** * core/proc.c, core/exec.c: a new process

    [proc_alloc] and [fork] as a whole, on the state of the kernel: the slot, the descriptor
    table, the page table, the mapping list, the copy of the memory, the words of the trap frame
    and of the context, and the list of children. *)

From S2P Require Import Prelude Mem CString KList PageAlloc Vm VmCopy Malloc Heap MList AddrSpace UserSpace Fork Ext2 Uart Fs Proc Exec Load.

(** ** The state, field by field *)
Section state.
Context {A : Type} `{PageAllocator A} `{Machine}.
Implicit Types (s : kstate A).

(** The parts that [fork] changes. *)
Definition st s (l : list task_struct) (v : Z) (lk : gmap node (list_head node)) (f : fs_state A) (h : mheap)
  (pts : gmap nat resume) : kstate A :=
  Build_kstate l v (cur_proc s) lk f h (ticks s) (tick s) (cur_sp s) (pgdl s) (seed s) pts (mount s).

Lemma st_id s : s = st s (proc s) (last_pid s) (links s) (fs s) (kheap s) (points s).
Proof. by destruct s. Qed.

Lemma update_st s l v lk f h pts i x g : l !! i = Some x →
  update i g (st s l v lk f h pts) = Ok (tt, st s (<[i := g x]> l) v lk f h pts).
Proof. intros E. unfold update. simpl. by rewrite E. Qed.

Lemma update_again s l v lk f h pts i x y g : l !! i = Some y →
  update i g (st s (<[i := x]> l) v lk f h pts) = Ok (tt, st s (<[i := g x]> l) v lk f h pts).
Proof.
  intros E. rewrite (update_st _ _ _ _ _ _ _ _ x) by (apply list_lookup_insert_eq; by eapply lookup_lt_Some).
  by rewrite list_insert_insert_eq.
Qed.

Lemma task_st s l v lk f h pts i x : l !! i = Some x → task i (st s l v lk f h pts) = Ok (x, st s l v lk f h pts).
Proof. intros E. unfold task. simpl. by rewrite E. Qed.

(** [f] with other pages. *)
Definition with_pages (pg : mem * A) (f : fs_state A) : fs_state A :=
  {| fds := fds f; tables := tables f; inodes := inodes f; pages := pg; console := console f |}.

Lemma on_heap_st {B} (c : M (mem * A * mheap) B) s l v lk f h pts (b : B) pg h' : c (pages f, h) = Ok (b, (pg, h')) →
  on_heap c (st s l v lk f h pts) = Ok (b, st s l v lk (with_pages pg f) h' pts).
Proof. intros E. unfold on_heap, zoom. simpl. by rewrite E. Qed.

Lemma on_links_st {B} (c : M (gmap node (list_head node)) B) s l v lk f h pts (b : B) lk' : c lk = Ok (b, lk') →
  on_links c (st s l v lk f h pts) = Ok (b, st s l v lk' f h pts).
Proof. intros E. unfold on_links, zoom. simpl. by rewrite E. Qed.

Lemma on_fs_st {B} (c : M (fs_state A) B) s l v lk f h pts (b : B) f' : c f = Ok (b, f') →
  on_fs c (st s l v lk f h pts) = Ok (b, st s l v lk f' h pts).
Proof. intros E. unfold on_fs, zoom. simpl. by rewrite E. Qed.

(** [fdtable_alloc]: a cleared page, with the three standard descriptors open. *)
Definition std_table : list fdentry :=
  <[Z.to_nat STDERR := {| fds_index := STDERR; busy := 1 |}]>
    (<[Z.to_nat STDOUT := {| fds_index := STDOUT; busy := 1 |}]>
      (<[Z.to_nat STDIN := {| fds_index := STDIN; busy := 1 |}]> (replicate (Z.to_nat (PGSIZE / 8)) entry0))).

Lemma fdtable_alloc_ok f m a q l : pages f = (m, a) → avail m a (q :: l) →
  ∃ m' a', fdtable_alloc f = Ok (q, {| fds := fds f; tables := <[q := std_table]> (tables f); inodes := inodes f;
      pages := (m', a'); console := console f |}) ∧ avail m' a' l ∧ changes (in_page q) m m'.
Proof.
  intros Hpg Hav. destruct (avail_pages _ _ _ Hav) as [Hnd Hk].
  destruct (page_alloc_ok m a q l PGSIZE Hav) as (m1 & a1 & E & Hav1 & Ho & Hd); [done|].
  destruct (Hk q ltac:(by left)) as [Hqk Hqm].
  assert (mapped m1 q PGSIZE) as Hm1 by (by eapply mapped_dom).
  set (z := replicate (Z.to_nat PGSIZE) (u8 0)).
  assert (Z.of_nat (length z) = PGSIZE) as Hz by (unfold z; by rewrite length_replicate).
  assert (changes (in_page q) m1 (write_bytes q z m1)) as C1.
  { apply changes_write; rewrite Hz; [done|]. intros x Hx. unfold in_page. lia. }
  exists (write_bytes q z m1), a1. split_and!.
  - unfold fdtable_alloc. set (f1 := {| fds := fds f; tables := tables f; inodes := inodes f;
      pages := (write_bytes q z m1, a1); console := console f |}).
    assert ((p ← page_alloc PGSIZE; in_mem (memset p 0 PGSIZE);; mret p) (m, a) = Ok (q, (write_bytes q z m1, a1))) as E2.
    { rewrite (bind_ok _ _ _ _ _ E). by rewrite (bind_ok _ _ _ _ _ (in_mem_ok _ _ _ _ _ (memset_ok q 0 PGSIZE m1 ltac:(done) Hm1))). }
    rewrite (bind_ok _ _ _ q f1); [done|]. unfold in_pages, zoom. by rewrite Hpg, E2.
  - eapply avail_frame; [done|apply C1|]. intros p x Hp Hx. apply C1. apply NoDup_cons in Hnd as [Hnq _].
    intros Hqx. destruct (Hk p ltac:(by right)) as [Hpk _].
    assert (q ≠ p) as Hne by congruence. by eapply (kpage_disjoint q p).
  - eapply changes_trans; [|exact C1]. by split.
Qed.
End state.

(** ** The memory of a new process *)
Section memory.
Context {A : Type} `{PageAllocator A}.
Implicit Types (m : mem) (a : A) (h : mheap) (U : gmap Z Z) (S : gset Z) (G l : list Z).
Implicit Types (T : gmap (list Z) Z) (F : gmap Z Z) (ms : list mapping).

(** [proc_alloc] after its page for the descriptors: the page table and the mapping list. *)
Lemma new_process_ok m a h G U q1 q2 l m1 a1 : heap_ok m a h G U (q1 :: q2 :: l) → avail m1 a1 (q2 :: l) →
  changes (in_page q1) m m1 → l ≠ [] →
  ∃ m2 a2 nlst m3 a3 h3 G3 l3 U3, let nT := {[ [] := q2 ]} in
    on_pages pgtbl_create (m1, a1, h) = Ok (q2, (m2, a2, h)) ∧ mlist_init (m2, a2, h) = Ok (nlst, (m3, a3, h3)) ∧
    process m3 a3 h3 G3 U3 {[nlst]} l3 q2 nT ∅ nlst [] ∧ U !! nlst = None ∧
    (length l ≤ length l3 + 1)%nat ∧ evolves 3 m G U ∅ (q1 :: q2 :: l) ∅ m3 G3 U3 {[nlst]} l3 nT.
Proof.
  intros Hh Hav C1 Hl. set (nT := {[ [] := q2 ]} : gmap (list Z) Z).
  pose proof (heap_page_ok _ _ _ _ _ _ _ _ _ Hh Hav C1) as Hh1.
  destruct (new_table m1 a1 h G U q2 l Hh1) as (m2 & a2 & E2 & Hh2 & Hc2 & Hca2 & C2).
  destruct (mlist_init_ok m2 a2 h G U l Hh2 Hl) as (nlst & m3 & a3 & h3 & G3 & l3 & E3 & X & Hm3).
  pose proof X as (Hh3 & Hn & _). pose proof (extends_evolves m2 a2 h G U ∅ l ∅ nlst 16 _ _ _ _ _ Hh2 X) as Ev3.
  rewrite union_empty_r_L in Ev3.
  destruct (heap_step 1 m2 a2 h G U ∅ l nT _ _ _ _ _ q2 ∅ Hh2 Ev3 Hc2 Hca2) as (Hc3 & Hca3 & _).
  exists m2, a2, nlst, m3, a3, h3, G3, l3, (<[nlst := 16]> U).
  split_and!; [done|done| |done|by apply (ev_len _ _ _ _ _ _ _ _ _ _ _ _ _ Ev3)|].
  - constructor; [done..| |].
    + exists [], {[nlst]}. split_and!; [done|simpl; by rewrite union_empty_r_L|by apply NoDup_nil_2|by constructor].
    + constructor; [by apply NoDup_nil_2|by intros r Hr%not_elem_of_nil|]. intros n q. by rewrite lookup_empty.
  - change 3%nat with (1 + (1 + 1))%nat. eapply evolves_trans; [by apply page_evolves|exact Hh1|].
    assert (evolves 2 m1 G U ∅ (q2 :: l) ∅ m3 G3 (<[nlst := 16]> U) {[nlst]} l3 ∅) as [V1 V2 V3 V4 V5 V6 V7 V8].
    { change 2%nat with (1 + 1)%nat. eapply evolves_trans; [by apply page_evolves|exact Hh2|done]. }
    constructor; [done..| |done]. intros p [k [_ <-]%lookup_singleton_Some]. right. by left.
Qed.

(** Another process beside the new one. *)
Lemma new_process_beside m a h G U S q1 q2 l root T F lst ms nlst m3 a3 h3 G3 U3 l3 : let nT := {[ [] := q2 ]} in
  process m a h G U S (q1 :: q2 :: l) root T F lst ms → process m3 a3 h3 G3 U3 {[nlst]} l3 q2 nT ∅ nlst [] → U !! nlst = None →
  evolves 3 m G U ∅ (q1 :: q2 :: l) ∅ m3 G3 U3 {[nlst]} l3 nT →
  process m3 a3 h3 G3 U3 S l3 root T F lst ms ∧ S ## {[nlst]} ∧ (∀ p, owns T F p → ¬ owns nT ∅ p) ∧ frames_same F m m3 ∧
  evolves 3 m G U S (q1 :: q2 :: l) ∅ m3 G3 U3 (S ∪ {[nlst]}) l3 nT.
Proof.
  intros nT Hpr Hnew Hn Ev.
  destruct (process_beside 3 m a h G U ∅ _ ∅ m3 a3 h3 G3 U3 {[nlst]} l3 nT S root T F lst ms Hpr) as [Hpr3 Hs3];
    [by intros q ?%empty_tables|by intros p _ ?%empty_tables|set_solver|done|apply Hnew|].
  split_and!; [done| | |done|].
  - intros x Hx ->%elem_of_singleton. destruct (mappings_dom _ _ _ _ _ _ (pr_list _ _ _ _ _ _ _ _ _ _ _ _ Hpr) Hx). congruence.
  - intros p Hp [[k [_ <-]%lookup_singleton_Some]|[i Hi]]; [|by rewrite lookup_empty in Hi].
    destruct (pr_away _ _ _ _ _ _ _ _ _ _ _ _ Hpr _ Hp) as [_ Hn2]. set_solver.
  - eapply evolves_wider; [exact Ev|clear; set_solver|clear; set_solver].
Qed.
End memory.

(** ** [proc_alloc] *)
Section alloc.
Context {A : Type} `{PageAllocator A} `{Machine}.
Implicit Types (m : mem) (a : A) (h : mheap) (U : gmap Z Z) (S : gset Z) (G l : list Z) (s : kstate A).
Implicit Types (T : gmap (list Z) Z) (F : gmap Z Z) (ms : list mapping).

(** The slot that [proc_alloc] hands out: what the last process left in [parent], [state], [name],
    [cwd] and [exit_code] is still there. *)
Definition allocated (x : task_struct) (v tb g ml : Z) : task_struct :=
  {| pid := v; parent := parent x; state := state x; allocs := USED; context := 0; trapframe := 0; fdtable := tb; bss := 0;
     name := name x; cwd := cwd x; pgtbl := g; mapping_list := ml; callback := 0; timer_call_time := u64 (-1);
     exit_code := exit_code x |}.

Definition with_table (q : Z) (pg : mem * A) (f : fs_state A) : fs_state A :=
  {| fds := fds f; tables := <[q := std_table]> (tables f); inodes := inodes f; pages := pg; console := console f |}.

(** Two nodes set up. *)
Lemma links_init (lk : gmap node (list_head node)) i : children i ∈ dom lk → tasks i ∈ dom lk →
  ∃ lk1 lk2, init_list_head (children i) lk = Ok (tt, lk1) ∧ init_list_head (tasks i) lk1 = Ok (tt, lk2) ∧
    dom lk2 = dom lk ∧ circ lk2 (children i) [] ∧ ∀ x, x ≠ children i → x ≠ tasks i → lk2 !! x = lk !! x.
Proof.
  intros Hc Ht. destruct (init_ok lk (children i) Hc) as (lk1 & E1 & Hc1 & D1 & O1).
  destruct (init_ok lk1 (tasks i)) as (lk2 & E2 & _ & D2 & O2); [by rewrite D1|].
  exists lk1, lk2. split_and!; [done|done|congruence| |].
  - eapply circ_same; [done|]. intros x ->%list_elem_of_singleton. apply O2. by intros ?%list_elem_of_singleton.
  - intros x Hx Hx'. rewrite O2, O1; [done|by intros ?%list_elem_of_singleton..].
Qed.

Lemma proc_alloc_ok s i x m a h G U q1 q2 l : find_from is_unused (proc s) 0 = Some i → proc s !! i = Some x →
  memory s = (m, a, h) → heap_ok m a h G U (q1 :: q2 :: l) → l ≠ [] → children i ∈ dom (links s) → tasks i ∈ dom (links s) →
  ∃ nlst m3 a3 h3 G3 l3 U3 lk, let nT := {[ [] := q2 ]} in
    proc_alloc s = Ok (i, st s (<[i := allocated x (last_pid s) q1 q2 nlst]> (proc s)) (s32 (last_pid s + 1)) lk (with_table q1 (m3, a3) (fs s)) h3 (points s)) ∧
    (dom lk = dom (links s) ∧ circ lk (children i) [] ∧ ∀ x, x ≠ children i → x ≠ tasks i → lk !! x = links s !! x) ∧
    process m3 a3 h3 G3 U3 {[nlst]} l3 q2 nT ∅ nlst [] ∧ U !! nlst = None ∧
    (length l ≤ length l3 + 1)%nat ∧ evolves 3 m G U ∅ (q1 :: q2 :: l) ∅ m3 G3 U3 {[nlst]} l3 nT.
Proof.
  intros Hfind Hx Hs Hheap Hl Hc Ht. unfold memory in Hs. assert (pages (fs s) = (m, a)) as Hpg by congruence.
  assert (kheap s = h) as Hh by congruence.
  destruct (fdtable_alloc_ok (fs s) m a q1 (q2 :: l) Hpg (heap_avail _ _ _ _ _ _ Hheap)) as (m1 & a1 & E1 & Hav & C1).
  destruct (new_process_ok m a h G U q1 q2 l m1 a1 Hheap Hav C1 Hl) as
    (m2 & a2 & nlst & m3 & a3 & h3 & G3 & l3 & U3 & E2 & E3 & Hrest).
  destruct (links_init (links s) i Hc Ht) as (lk1 & lk & L1 & L2 & Hlk).
  exists nlst, m3, a3, h3, G3, l3, U3, lk. split; [|done].
  unfold proc_alloc. rewrite (bind_ok _ _ _ (proc s) s) by done. rewrite Hfind.
  rewrite (st_id s), Hh. set (v := s32 (last_pid s + 1)). set (ps := proc s) in *.
  set (f1 := {| fds := fds (fs s); tables := <[q1:=std_table]> (tables (fs s)); inodes := inodes (fs s); pages := (m1, a1); console := console (fs s) |}) in *.
  rewrite (bind_ok _ _ _ _ _ (update_st _ ps _ _ _ _ _ i x _ Hx)).
  rewrite (bind_ok _ _ _ _ _ (update_again _ ps _ _ _ _ _ i _ x _ Hx)).
  rewrite (bind_ok _ _ _ _ _ (on_fs_st _ _ _ _ _ _ _ _ _ _ E1)).
  rewrite (bind_ok _ _ _ _ _ (update_again _ ps _ _ _ _ _ i _ x _ Hx)).
  match goal with |- (_ ≫= _) (st ?s0 ?l0 _ ?lk0 ?f0 ?h0 ?p0) = _ =>
    rewrite (bind_ok _ _ _ (last_pid s) (st s0 l0 (last_pid s) lk0 f0 h0 p0)) by done;
    rewrite (bind_ok _ _ _ tt (st s0 l0 v lk0 f0 h0 p0)) by done end.
  rewrite !(bind_ok _ _ _ _ _ (update_again _ ps _ _ _ _ _ i _ x _ Hx)).
  rewrite (bind_ok _ _ _ _ _ (on_heap_st _ _ _ _ _ f1 _ _ _ _ _ E2)).
  rewrite (bind_ok _ _ _ _ _ (update_again _ ps _ _ _ _ _ i _ x _ Hx)).
  rewrite (bind_ok _ _ _ _ _ (on_heap_st _ _ _ _ _ (with_pages (m2, a2) f1) _ _ _ _ _ E3)).
  rewrite !(bind_ok _ _ _ _ _ (update_again _ ps _ _ _ _ _ i _ x _ Hx)).
  rewrite (bind_ok _ _ _ _ _ (on_links_st _ _ _ _ _ _ _ _ _ _ L1)), (bind_ok _ _ _ _ _ (on_links_st _ _ _ _ _ _ _ _ _ _ L2)).
  by destruct x.
Qed.
End alloc.

(** ** Parent and child *)
Section family.
Context {A : Type} `{PageAllocator A} `{Machine}.
Implicit Types (m : mem) (a : A) (h : mheap) (U : gmap Z Z) (S : gset Z) (G l : list Z) (s : kstate A).
Implicit Types (T : gmap (list Z) Z) (F : gmap Z Z) (ms : list mapping).

(** Two processes in order that share no page and no block. *)
Record family m a h G U l root T F lst ms S1 nroot nT nF nlst nms S2 : Prop := {
  fa_parent : process m a h G U S1 l root T F lst ms;
  fa_child : process m a h G U S2 l nroot nT nF nlst nms;
  fa_blocks : S1 ## S2;
  fa_apart : ∀ p, owns T F p → ¬ owns nT nF p
}.

(** The local variables of [fork] and [exec] are beside both. *)
Definition beside m G U S1 S2 l T F nT nF : Prop :=
  mapped m frame 8 ∧ ∀ x, frame ≤ x < frame + 8 → quiet G U S1 l T F x ∧ quiet G U S2 l nT nF x.

(** One word of a process, from a local variable beside it. *)
Lemma copy_word_ok s m a h G U S l root T F lst ms dst v : memory s = (m, a, h) →
  process m a h G U S l root T F lst ms → mapped m frame 8 → (∀ x, frame ≤ x < frame + 8 → quiet G U S l T F x) →
  (∀ y, dst ≤ y < dst + 8 → in_user F y) → 0 ≤ dst → dst + 8 ≤ MAXVA →
  ∃ m', copy_word root dst v s = Ok (0, with_heap (m', a, h) s) ∧ process m' a h G U S l root T F lst ms ∧
    ubytes m' F dst (le_split 8 v) ∧ changes (λ x, frame ≤ x < frame + 8 ∨ user_cells F x) m m' ∧
    ∀ y b, ¬ (dst ≤ y < dst + 8) → ubytes m F y [b] → ubytes m' F y [b].
Proof.
  intros Hs Hpr Hm Hq Hin Hd0 Hd1. set (data := le_split 8 v).
  assert (length data = 8%nat) as Hlen by apply length_le_split.
  set (m1 := write_bytes frame data m).
  assert (changes (λ x, frame ≤ x < frame + 8) m m1) as C1.
  { unfold m1. apply changes_write; rewrite Hlen; [exact Hm|]. intros x Hx. lia. }
  pose proof (process_quiet _ _ _ _ _ _ _ _ _ _ _ _ _ _ Hpr Hq C1) as Hpr1.
  assert (∀ i q x, frame ≤ x < frame + 8 → F !! i = Some q → ¬ in_page q x) as Hno.
  { intros i q x Hx Hi. by apply (proj2 (Hq x Hx) i q). }
  destruct (copy_out_ok m1 a h G U S l root T F lst ms dst frame data Hpr1) as (m2 & E & Hpr2 & Hub & C2 & Hk);
    [apply write_bytes_at|apply le_split_bytes| |rewrite Hlen; apply Hin|done|rewrite Hlen; done|].
  { intros i Hi n q Hn. apply (Hno n q); [lia|done]. }
  rewrite Hlen in E, C2, Hk. change (Z.of_nat 8) with 8 in *.
  exists m2. split_and!; [|done|done| |].
  - unfold copy_word. rewrite (bind_ok _ _ _ tt (with_heap (m1, a, h) s)).
    + exact (on_vm_run (copy_to_va root dst frame 8) (with_heap (m1, a, h) s) 0 m1 a h m2 a eq_refl E).
    + eapply on_vm_run; [exact Hs|]. apply in_mem_ok. rewrite store_ok; [done|exact Hm].
  - eapply changes_trans; (eapply changes_weaken; [|eassumption]); intros x Hx; [by left|right; by eapply written_user].
  - intros y b Hy Hyb. apply Hk; [done|]. intros [|i] b' Hi; [|done]. injection Hi as <-.
    destruct (Hyb 0%nat b eq_refl) as (q & Hq' & Hb). rewrite Z.add_0_r in *. exists q. split; [done|].
    rewrite <- Hb. apply C1. intros Hx. eapply (Hno _ q); [exact Hx|exact Hq'|unfold in_page, PGSIZE; zmod].
Qed.

(** Writing to the child and to the locals. *)
Lemma family_child m a h G U l root T F lst ms S1 nroot nT nF nlst nms S2 m' :
  family m a h G U l root T F lst ms S1 nroot nT nF nlst nms S2 → beside m G U S1 S2 l T F nT nF →
  changes (λ x, frame ≤ x < frame + 8 ∨ user_cells nF x) m m' → process m' a h G U S2 l nroot nT nF nlst nms →
  family m' a h G U l root T F lst ms S1 nroot nT nF nlst nms S2 ∧ frames_same F m m'.
Proof.
  intros [Hp Hc HS Hap] [_ Hb] C Hc'. pose proof Hp as [Hh Hpu Hpa _ _]. pose proof Hc as [_ Hcu Hca _ _].
  assert (∀ x, frame ≤ x < frame + 8 ∨ user_cells nF x → quiet G U S1 l T F x) as Hq.
  { intros x [Hx|(i & q & Hi & Hx)]; [by apply Hb|]. assert (owns nT nF q) as Ho by (right; by exists i).
    destruct (owned_page _ _ _ _ _ Hcu Ho) as [Hk _]. destruct (Hca q Ho) as [HG Hl]. split.
    - eapply (touch_page m a h G U S1 l T q x); [done| |done|done|done| |done].
      + intros r Hr. by apply (user_tables m root T F).
      + intros Ht. by apply (Hap q); [left|].
    - intros j p Hj Hpx. assert (owns T F p) as Hop by (right; by exists j).
      destruct (owned_page _ _ _ _ _ Hpu Hop) as [Hpk _]. eapply (kpage_disjoint q p); [done|done| |done|done].
      intros ->. by apply (Hap p). }
  split.
  - constructor; [exact (process_quiet _ _ _ _ _ _ _ _ _ _ _ _ _ _ Hp Hq C)|done|done|done].
  - intros i p x Hi Hx. apply C. intros Hx'. by eapply (proj2 (Hq x Hx')).
Qed.

Lemma ubytes_keep m m' F dst va bs : (∀ y b, ¬ (dst ≤ y < dst + 8) → ubytes m F y [b] → ubytes m' F y [b]) →
  ubytes m F va bs → (va + Z.of_nat (length bs) ≤ dst ∨ dst + 8 ≤ va) → ubytes m' F va bs.
Proof.
  intros Hk Hu Hd i b Hi. pose proof (lookup_lt_Some _ _ _ Hi).
  assert (ubytes m' F (va + Z.of_nat i) [b]) as Hb.
  { apply Hk; [lia|]. intros [|j] b' Hj; [|done]. injection Hj as <-. rewrite Z.add_0_r. by apply Hu. }
  destruct (Hb 0%nat b eq_refl) as (q & Hq & Hqb). rewrite Z.add_0_r in *. by exists q.
Qed.

Lemma touch_wider G U S S' l T x : S ⊆ S' → touch G U S l T x → touch G U S' l T x.
Proof.
  intros HS [?|[(p & n & ? & ?)|?]]; [by left|right; left; exists p, n; split; [by apply HS|done]|by right; right].
Qed.

(** The locals stay beside the child that [copy_pagetable] makes. *)
Lemma beside_child k k' m G U S l0 T F m1 a1 h1 G1 U1 R l1 nT m2 a2 h2 G2 U2 R' l2 nT' S1 S2 nF :
  mapped m frame 8 → (∀ x, frame ≤ x < frame + 8 → quiet G U S l0 T F x) →
  evolves k m G U S l0 ∅ m1 G1 U1 R l1 nT → heap_ok m1 a1 h1 G1 U1 l1 →
  evolves k' m1 G1 U1 R l1 nT m2 G2 U2 R' l2 nT' → heap_ok m2 a2 h2 G2 U2 l2 → S1 ⊆ R' → S2 ⊆ R' →
  (∀ i q, nF !! i = Some q → q ∈ l1) → beside m2 G2 U2 S1 S2 l2 T F nT' nF.
Proof.
  intros Hm Hq Ev1 Hh1 Ev2 Hh2 HS1 HS2 HF. split.
  { eapply changes_mapped; [apply Ev2|]. eapply changes_mapped; [apply Ev1|done]. }
  intros x Hx. destruct (Hq x Hx) as [Ht Hn].
  assert (¬ touch G U S l0 ∅ x) as Ht0.
  { intros Hx'. apply Ht. destruct Hx' as [?|[?|[?|(p & [key Hp] & _)]]]; [by left|by right; left|by right; right; left|by rewrite lookup_empty in Hp]. }
  assert (¬ touch G2 U2 R' l2 nT' x) as Ht2.
  { intros Hx'. apply Ht0. eapply touch_later; [exact Ev1|done|]. eapply touch_later; [exact Ev2|done|done]. }
  split; split; [|done| |].
  - intros Hx'. assert (touch G2 U2 R' l2 T x) as [?|[?|[?|?]]] by (eapply touch_wider; [exact HS1|exact Hx']).
    + apply Ht2. by left.
    + apply Ht2. by right; left.
    + apply Ht2. by right; right; left.
    + apply Ht. by right; right; right.
  - intros Hx'. apply Ht2. by eapply touch_wider.
  - intros i q Hi Hx'. apply Ht0. right; right; left. exists q. split; [|done]. by eapply ev_free, HF.
Qed.
End family.

(** ** [fork] *)
Section fork.
Context {A : Type} `{PageAllocator A} `{Machine}.
Implicit Types (m : mem) (a : A) (h : mheap) (U : gmap Z Z) (S : gset Z) (G l : list Z) (s : kstate A).
Implicit Types (T : gmap (list Z) Z) (F : gmap Z Z) (ms : list mapping).

(** The context of the child at the top of its stack. *)
Definition child_context : Z := USER_STACK_TOP - sizeof_context.

(** The slot of the child of [t]. *)
Definition forked (t x : task_struct) (p : nat) (v g ml ctx : Z) : task_struct :=
  {| pid := v; parent := Some p; state := TASK_RUNABLE; allocs := USED; context := ctx; trapframe := 0; fdtable := fdtable t;
     bss := bss t; name := name t; cwd := cwd t; pgtbl := g; mapping_list := ml; callback := callback t;
     timer_call_time := timer_call_time t; exit_code := exit_code x |}.

(** What [fork] writes to the memory of the child. *)
Definition patched (tf y : Z) : Prop := tf + off_a0 ≤ y < tf + off_a0 + 8 ∨ child_context ≤ y < child_context + 8 ∨
  child_context + off_sp ≤ y < child_context + off_sp + 8.

(** A trap frame below the context, and the stack, are mapped. *)
Record fork_stack F (tf : Z) : Prop := {
  fs_place : 0 ≤ tf ∧ tf + sizeof_trapframe ≤ child_context;
  fs_frame : ∀ y, tf + off_a0 ≤ y < tf + off_a0 + 8 → in_user F y;
  fs_top : ∀ y, USER_STACK_TOP - PG_SIZE ≤ y < USER_STACK_TOP → in_user F y
}.

Lemma fork_words s m a h G U l root T F lst ms S1 nroot nT nF nlst nms S2 tf i : memory s = (m, a, h) →
  family m a h G U l root T F lst ms S1 nroot nT nF nlst nms S2 → beside m G U S1 S2 l T F nT nF → fork_stack nF tf →
  ∃ m', (copy_word nroot (tf + off_a0) 0;; copy_word nroot (child_context + off_sp) tf;;
      copy_word nroot (child_context + off_ra) exec_helper;;
      modify (λ s, with_points (<[i := InUser]> (points s)) s);; mret i) s =
    Ok (i, with_points (<[i := InUser]> (points s)) (with_heap (m', a, h) s)) ∧
    family m' a h G U l root T F lst ms S1 nroot nT nF nlst nms S2 ∧ frames_same F m m' ∧
    (ubytes m' nF (tf + off_a0) (le_split 8 0) ∧ ubytes m' nF (child_context + off_sp) (le_split 8 tf) ∧
     ubytes m' nF child_context (le_split 8 exec_helper)) ∧
    ∀ y b, ¬ patched tf y → ubytes m nF y [b] → ubytes m' nF y [b].
Proof.
  intros Hs Hf Hb [[Ht0 Ht1] Hfr Htop].
  assert (∀ o y, child_context + o ≤ y < child_context + o + 8 → 0 ≤ o ≤ 16 → in_user nF y) as Hctx.
  { intros o y Hy Ho. apply Htop. unfold child_context, USER_STACK_TOP, sizeof_context, PG_SIZE in *. lia. }
  unfold child_context, USER_STACK_TOP, sizeof_context, sizeof_trapframe, off_a0, off_sp, off_ra in *.
  pose proof Hb as [Hm Hq]. assert (∀ x, frame ≤ x < frame + 8 → quiet G U S2 l nT nF x) as Hq' by (intros x Hx; by apply Hq).
  destruct (copy_word_ok s m a h G U S2 l nroot nT nF nlst nms (tf + 24) 0 Hs (fa_child _ _ _ _ _ _ _ _ _ _ _ _ _ _ _ _ _ _ Hf) Hm Hq') as
    (m1 & E1 & Hp1 & W1 & C1 & K1); [done|lia|change MAXVA with (2 ^ 47); lia|].
  destruct (copy_word_ok (with_heap (m1, a, h) s) m1 a h G U S2 l nroot nT nF nlst nms (0x7FFF0000 - 248 + 16) tf eq_refl Hp1) as
    (m2 & E2 & Hp2 & W2 & C2 & K2); [exact (changes_mapped _ _ _ _ _ C1 Hm)|done|intros y Hy; by apply (Hctx 16)|lia|change MAXVA with (2 ^ 47); lia|].
  destruct (copy_word_ok (with_heap (m2, a, h) s) m2 a h G U S2 l nroot nT nF nlst nms (0x7FFF0000 - 248 + 0) exec_helper eq_refl Hp2) as
    (m3 & E3 & Hp3 & W3 & C3 & K3); [exact (changes_mapped _ _ _ _ _ C2 (changes_mapped _ _ _ _ _ C1 Hm))|done|intros y Hy; by apply (Hctx 0)|lia|change MAXVA with (2 ^ 47); lia|].
  destruct (family_child m a h G U l root T F lst ms S1 nroot nT nF nlst nms S2 m3 Hf Hb) as [Hf3 Hsame];
    [exact (changes_trans _ _ _ _ C1 (changes_trans _ _ _ _ C2 C3))|exact Hp3|].
  exists m3. split_and!; [|done|done|..].
  - by rewrite (bind_ok _ _ _ _ _ E1), (bind_ok _ _ _ _ _ E2), (bind_ok _ _ _ _ _ E3).
  - eapply ubytes_keep; [exact K3| |rewrite length_le_split; lia].
    eapply ubytes_keep; [exact K2|exact W1|rewrite length_le_split; lia].
  - eapply ubytes_keep; [exact K3|exact W2|rewrite length_le_split; lia].
  - exact W3.
  - intros y b Hy Hu. unfold patched, child_context, USER_STACK_TOP, sizeof_context, off_a0, off_sp in Hy.
    apply K3; [lia|]. apply K2; [lia|]. apply K1; [lia|done].
Qed.


(** [fork] up to the words, from the calls it makes. *)
Lemma fork_steps s p t i x v q1 q2 nlst lk3 lk f3 h3 pts plst pg4 h4 pa : proc s !! p = Some t → proc s !! i = Some x → p ≠ i →
  proc_alloc s = Ok (i, st s (<[i := allocated x (last_pid s) q1 q2 nlst]> (proc s)) v lk3 f3 h3 pts) →
  copy_pagetable (pgtbl t) (mapping_list t) q2 nlst (pages f3, h3) = Ok (plst, (pg4, h4)) →
  list_add (children p) (tasks i) lk3 = Ok (tt, lk) →
  va_to_pa q2 (USER_STACK_TOP - PG_SIZE) pg4 = Ok (pa, pg4) →
  fork p s = (copy_word q2 (cur_sp s + off_a0) 0;; copy_word q2 (child_context + off_sp) (cur_sp s);;
      copy_word q2 (child_context + off_ra) exec_helper;;
      modify (λ s, with_points (<[i := InUser]> (points s)) s);; mret i)
    (st s (<[i := forked t x p (last_pid s) q2 nlst (u64 (PA2VA (u64 (pa + PG_SIZE)) - sizeof_context))]>
      (<[p := set_mapping_list plst t]> (proc s))) v lk (with_pages pg4 f3) h4 pts).
Proof.
  intros Hp Hx Hpi E1 E2 E3 E4. set (x1 := allocated x (last_pid s) q1 q2 nlst) in *. set (f4 := with_pages pg4 f3).
  set (L1 := <[i := x1]> (proc s)) in *. set (t' := set_mapping_list plst t). set (L2 := <[p := t']> L1).
  assert (L1 !! p = Some t) as Hp1 by (unfold L1; by rewrite list_lookup_insert_ne).
  assert (L1 !! i = Some x1) as Hi1 by (apply list_lookup_insert_eq; by eapply lookup_lt_Some).
  assert (L2 !! i = Some x1) as Hi2 by (unfold L2; by rewrite list_lookup_insert_ne).
  assert (∀ z, <[i := z]> L2 !! p = Some t') as Hp2.
  { intros z. rewrite list_lookup_insert_ne by done. apply list_lookup_insert_eq. by eapply lookup_lt_Some. }
  unfold fork. rewrite (bind_ok _ _ _ _ _ E1).
  rewrite (bind_ok _ _ _ _ _ (task_st s L1 v lk3 f3 h3 pts p t Hp1)), (bind_ok _ _ _ _ _ (task_st s L1 v lk3 f3 h3 pts i _ Hi1)).
  rewrite (bind_ok _ _ _ _ _ (on_heap_st _ s L1 v lk3 f3 h3 pts _ _ _ E2)). fold f4.
  rewrite (bind_ok _ _ _ _ _ (update_st s L1 v lk3 f4 h4 pts p t _ Hp1)). fold t' L2.
  rewrite (bind_ok _ _ _ _ _ (on_links_st _ s L2 v lk3 f4 h4 pts _ _ E3)).
  rewrite (bind_ok _ _ _ _ _ (update_st s L2 v lk f4 h4 pts i _ _ Hi2)).
  rewrite (bind_ok _ _ _ _ _ (update_again s L2 v lk f4 h4 pts i _ _ _ Hi2)).
  do 6 (rewrite (bind_ok _ _ _ _ _ (task_st s (<[i := _]> L2) v lk f4 h4 pts p t' (Hp2 _)));
    rewrite (bind_ok _ _ _ _ _ (update_again s L2 v lk f4 h4 pts i _ _ _ Hi2))).
  match goal with |- (_ ≫= _) ?s0 = _ => rewrite (bind_ok _ _ _ (cur_sp s) s0) by done end.
  rewrite (bind_ok _ _ _ _ _ (task_st s _ v lk f4 h4 pts i _ (list_lookup_insert_eq _ _ _ (lookup_lt_Some _ _ _ Hi2)))).
  assert (on_pages (va_to_pa q2 (USER_STACK_TOP - PG_SIZE)) (pages f4, h4) = Ok (pa, (pg4, h4))) as E4'.
  { destruct pg4. by apply on_pages_ok. }
  unfold on_vm at 1. rewrite (bind_ok _ _ _ _ _ (on_heap_st _ s _ v lk f4 h4 pts _ _ _ E4')).
  rewrite (bind_ok _ _ _ _ _ (update_again s L2 v lk _ h4 pts i _ _ _ Hi2)).
  match goal with |- _ (st s ?y _ _ _ _ _) = _ (st s ?z _ _ _ _ _) => assert (y = z) as -> end; [|done].
  unfold L2, L1. rewrite (list_insert_insert_ne _ p i), list_insert_insert_eq by done. by destruct t.
Qed.

(** The kernel's address of the context. *)
Lemma context_addr pa q : PA2VA pa = q → 0 ≤ pa ≤ 2 ^ 50 - PGSIZE →
  u64 (PA2VA (u64 (pa + PG_SIZE)) - sizeof_context) = q + PGSIZE - sizeof_context.
Proof.
  intros Hpa Hpab. rewrite PA2VA_eq in Hpa by (unfold PGSIZE in *; lia). unfold PG_SIZE, PGSIZE, sizeof_context in *.
  rewrite (wrap_id 64 (pa + 16384)), PA2VA_eq, wrap_id by (unfold MAIN_KERNEL_DMW in *; lia). lia.
Qed.

Lemma free_slot (ps : list task_struct) i p t : find_from is_unused ps 0 = Some i → ps !! p = Some t → allocs t = USED → p ≠ i.
Proof.
  intros Hfind Hp Hused ->. apply find_from_ok in Hfind as (j & y & -> & Hj & Hun & _). simpl in *.
  assert (y = t) as -> by congruence. unfold is_unused in Hun. by rewrite Hused in Hun.
Qed.
End fork.

(** ** Properties *)
Section properties.
Context {A : Type} `{PageAllocator A} `{Machine}.
Implicit Types (m : mem) (a : A) (h : mheap) (U : gmap Z Z) (S : gset Z) (G l : list Z) (s : kstate A).
Implicit Types (T : gmap (list Z) Z) (F : gmap Z Z) (ms : list mapping).

(** C7: [fork] as a whole.  For a process [t] in order with its stack and trap frame mapped, a free
    slot, two pages for the descriptor table and the page table and seven for each page of the
    process, the call returns the first free slot.  The child has the next pid, the parent's
    descriptor table, [bss], names, handler and timer, is runnable and goes on at the context at
    the top of its own stack, which the kernel reaches at [context]; it is the first of the
    parent's children.  Both processes are in order and share no page and no block; the parent
    keeps its frames and their contents, and the child sees, at the same addresses, the parent's
    memory but for three words: [a0] of the trap frame is 0, and [sp] and [ra] of the context
    are the trap frame and [exec_helper]. *)
Theorem fork_correct s p t i x m a h G U S q1 q2 l T F ms kids : proc s !! p = Some t → allocs t = USED →
  find_from is_unused (proc s) 0 = Some i → proc s !! i = Some x → memory s = (m, a, h) →
  process m a h G U S (q1 :: q2 :: l) (pgtbl t) T F (mapping_list t) ms → frame_bytes m F →
  (7 * length ms + 2 ≤ length l)%nat → fork_stack F (cur_sp s) →
  mapped m frame 8 → (∀ x, frame ≤ x < frame + 8 → quiet G U S (q1 :: q2 :: l) T F x) →
  circ (links s) (children p) kids → (children i ∈ dom (links s) ∧ tasks i ∈ dom (links s)) →
  (children i ∉ children p :: kids ∧ tasks i ∉ children p :: kids) →
  ∃ plst nlst q lk m' a' h' G' U' S1 S2 l' nT nF nms,
    fork p s = Ok (i, st s (<[i := forked t x p (last_pid s) q2 nlst (q + PGSIZE - sizeof_context)]>
        (<[p := set_mapping_list plst t]> (proc s))) (s32 (last_pid s + 1)) lk (with_table q1 (m', a') (fs s)) h'
        (<[i := InUser]> (points s))) ∧
    family m' a' h' G' U' l' (pgtbl t) T F plst (rev ms) S1 q2 nT nF nlst nms S2 ∧
    nF !! ((USER_STACK_TOP - PG_SIZE) / PGSIZE) = Some q ∧ circ lk (children p) (tasks i :: kids) ∧
    (∀ n, is_Some (nF !! n) ↔ is_Some (F !! n)) ∧ frames_same F m m' ∧
    (ubytes m' nF (cur_sp s + off_a0) (le_split 8 0) ∧ ubytes m' nF (child_context + off_sp) (le_split 8 (cur_sp s)) ∧
     ubytes m' nF child_context (le_split 8 exec_helper)) ∧
    ∀ y b, ¬ patched (cur_sp s) y → ubytes m F y [b] → ubytes m' nF y [b].
Proof.
  intros Hp Hused Hfind Hx Hs Hpr Hby Hl [Hplace Hfr Htop] Hfm Hfq Hkids [Hdc Hdt] [Hnc Hnt].
  pose proof (free_slot _ _ _ _ Hfind Hp Hused) as Hpi.
  destruct (proc_alloc_ok s i x m a h G U q1 q2 l Hfind Hx Hs (pr_heap _ _ _ _ _ _ _ _ _ _ _ _ Hpr)) as
    (nlst & m3 & a3 & h3 & G3 & l3 & U3 & lk3 & E1 & (Hdlk & _ & Hlk) & Hnew & Hn & Hlen & Ev0);
    [intros ->; simpl in Hl; lia|done..|].
  destruct (new_process_beside _ _ _ _ _ _ _ _ _ _ _ _ _ _ _ _ _ _ _ _ _ Hpr Hnew Hn Ev0) as (Hpr3 & HS3 & Hap3 & Hs3 & Ev1).
  pose proof Hnew as [_ Hc3 Hca3 Hms3 _].
  pose proof (pr_heap _ _ _ _ _ _ _ _ _ _ _ _ Hpr3) as Hh3.
  destruct (copy_pagetable_run m3 a3 h3 G3 U3 S l3 (pgtbl t) T F (mapping_list t) ms q2 _ {[nlst]} nlst Hpr3 Hc3 Hca3 Hms3 HS3 Hap3) as
    (plst & m4 & a4 & h4 & G4 & U4 & S' & S1 & S2 & l4 & nT & nF & nms & E2 & Hp4 & Hc4 & (HS4 & HS1 & HS2) & Hap4 & _ & Hs4 & Hdom & Hfrom & Hcp & Ev2);
    [by eapply frames_bytes|lia|].
  assert (family m4 a4 h4 G4 U4 l4 (pgtbl t) T F plst (rev ms) S1 q2 nT nF nlst nms S2) as Hfam by done.
  assert (beside m4 G4 U4 S1 S2 l4 T F nT nF) as Hbes.
  { eapply (beside_child _ _ m G U S (q1 :: q2 :: l) T F m3 a3 h3 G3 U3 _ l3 _ m4 a4 h4 G4 U4 S'); try done. apply Hp4. }
  assert (∀ y, in_user F y → in_user nF y) as Hin by (intros y Hy; by apply Hdom).
  assert (fork_stack nF (cur_sp s)) as Hst by (constructor; [done|intros y Hy; by apply Hin, Hfr|intros y Hy; by apply Hin, Htop]).
  destruct (Hin (USER_STACK_TOP - PG_SIZE)) as [q Hq]; [apply Htop; unfold PG_SIZE; lia|].
  destruct (list_add_ok lk3 (children p) kids (tasks i)) as (lk & E3 & Hlk4 & _).
  { eapply circ_same; [exact Hkids|]. intros y Hy. apply Hlk; intros ->; done. }
  { by rewrite Hdlk. } { done. }
  destruct (page_pa m4 a4 q2 nT nF _ q (pr_user _ _ _ _ _ _ _ _ _ _ _ _ Hc4) Hq) as (pa & E4 & Hpa & Hpab).
  set (s4 := st s (<[i := forked t x p (last_pid s) q2 nlst (q + PGSIZE - sizeof_context)]> (<[p := set_mapping_list plst t]> (proc s))) (s32 (last_pid s + 1)) lk (with_table q1 (m4, a4) (fs s)) h4 (points s)).
  destruct (fork_words s4 m4 a4 h4 G4 U4 l4 (pgtbl t) T F plst (rev ms) S1 q2 nT nF nlst nms S2 (cur_sp s) i eq_refl Hfam Hbes Hst) as
    (m5 & E5 & Hfam5 & Hs5 & Hw & Hk5).
  exists plst, nlst, q, lk, m5, a4, h4, G4, U4, S1, S2, l4, nT, nF, nms. split_and!; [|done|done|done|done| |apply Hw..|].
  - erewrite (fork_steps s p t i x _ q1 q2 nlst lk3 lk _ h3 _ plst (m4, a4) h4 pa Hp Hx Hpi E1 E2 E3 E4), context_addr by done.
    exact E5.
  - eapply frames_same_trans; [exact Hs3|]. by eapply frames_same_trans.
  - intros y b Hy Hu. apply Hk5; [done|].
    exact (proj1 (copied_ubytes m m4 F nF y [b] (frames_same_trans F m m3 m4 Hs3 Hs4) Hcp Hdom) Hu).
Qed.
End properties.

(** ** A sample: a process with one page of stack, and a free slot *)
Definition sample_parent (root lst : Z) : task_struct :=
  set_pgtbl root (set_mapping_list lst (set_bss 7 (set_allocs USED task0))).
Definition sample_forking (root lst : Z) (m : mem) (a : Z) (h : mheap) : kstate Z :=
  Build_kstate [sample_parent root lst; task0] 1 (Some 0%nat)
    (list_to_map ((λ x, (x, Build_list_head x x)) <$> [children 0; children 1; tasks 1]))
    {| fds := []; tables := ∅; inodes := ∅; pages := (m, a); console := {| rx := []; tx := []; getstr_buf := [] |} |}
    h 0 0 (USER_STACK_TOP - 1000) 0 0 ∅ sample_fs.
Definition sample_locals (p : Z) : Machine := {|
  translate := λ _ _ a, Some a; elf_buf := 0; exec_helper := 0; frame := p; sector := λ _, []; run_handler := λ _ _, mret tt; patience := 0
|}.

Lemma sample_stack : ∃ (p root lst : Z) (m : mem) (a : Z) h G U S l T q r,
  process m a h G U S l root T {[ (USER_STACK_TOP - PG_SIZE) / PGSIZE := q ]} lst [r] ∧ (11 ≤ length l)%nat ∧
  frame_bytes m {[ (USER_STACK_TOP - PG_SIZE) / PGSIZE := q ]} ∧ mapped m p 8 ∧
  ∀ x, p ≤ x < p + 8 → quiet G U S l T {[ (USER_STACK_TOP - PG_SIZE) / PGSIZE := q ]} x.
Proof.
  destruct (sample_block 16 32) as (p & root & lst & m & a & h & G & U & S & l & T & Hpr & Hl & HU & Hp); [done..|].
  destruct (heap_block _ _ _ _ _ _ _ _ (pr_heap _ _ _ _ _ _ _ _ _ _ _ _ Hpr) HU) as (_ & _ & _ & Hm & _).
  destruct (alloc_vm_step 0 m a h G U S l root T ∅ lst [] ((USER_STACK_TOP - PG_SIZE) / PGSIZE) USER_STACK_TOP exec_perm Hpr) as
    (q & m1 & a1 & h1 & G1 & U1 & S1 & l1 & T1 & _ & Hpr1 & Ev & Hmp & Hql); [done|done|by vm_compute|lia|done|].
  pose proof (ev_len _ _ _ _ _ _ _ _ _ _ _ _ _ Ev).
  exists p, root, lst, m1, a1, h1, G1, U1, S1, l1, T1, q, (page_record ((USER_STACK_TOP - PG_SIZE) / PGSIZE) q exec_perm).
  rewrite insert_empty in *. split_and!; [done|lia| | |].
  - intros i p' x [<- <-]%lookup_singleton_Some Hx. exists 0. split; [|done].
    eapply (mp_zero _ _ _ _ _ _ Hmp); [|by rewrite lookup_singleton_eq|done]. lia.
  - eapply changes_mapped; [apply Ev|]. eapply mapped_sub; [exact Hm|lia|lia].
  - intros x Hx. eapply quiet_later; [exact Ev|apply Hpr1| |eapply (block_quiet m a h G U S l root T ∅); [done..|lia]].
    intros i q' [_ <-]%lookup_singleton_Some. by right.
Qed.

Lemma fork_correct_witness : ∃ (p root lst : Z) (m : mem) (a : Z) h s' m' nF,
  fork (H0 := sample_locals p) 0 (sample_forking root lst m a h) = Ok (1%nat, s') ∧
  ubytes m' nF (USER_STACK_TOP - 1000 + 24) (le_split 8 0) ∧ bss <$> proc s' !! 1%nat = Some 7.
Proof.
  destruct sample_stack as (p & root & lst & m & a & h & G & U & S & [|q1 [|q2 l]] & T & q & r & Hpr & Hl & Hby & Hm & Hq);
    [simpl in Hl; lia..|]. set (F := {[ _ := q ]}) in *.
  destruct (fork_correct (H0 := sample_locals p) (sample_forking root lst m a h) 0 (sample_parent root lst) 1 task0 m a h G U S q1 q2 l T F [r] [])
    as (plst & nlst & q' & lk & m' & a' & h' & _ & _ & _ & _ & _ & _ & nF & _ & E & _ & _ & _ & _ & _ & (Hw & _) & _).
  - done.
  - done.
  - done.
  - done.
  - done.
  - exact Hpr.
  - exact Hby.
  - simpl in *. lia.
  - assert (∀ y, USER_STACK_TOP - PG_SIZE ≤ y < USER_STACK_TOP → in_user F y) as Hin.
    { intros y Hy. exists q. unfold F. replace (y / PGSIZE) with ((USER_STACK_TOP - PG_SIZE) / PGSIZE);
        [by rewrite lookup_singleton_eq|]. unfold USER_STACK_TOP, PG_SIZE, PGSIZE in *. zmod. }
    constructor; [by_decide|intros y Hy; apply Hin; simpl in Hy; unfold USER_STACK_TOP, PG_SIZE, off_a0 in *; lia|done].
  - exact Hm.
  - exact Hq.
  - by_decide.
  - split; by_decide.
  - split; by_decide.
  - exists p, root, lst, m, a, h. eexists _, m', nF. split_and!; [exact E|exact Hw|done].
Defined.
