(* ===== verification/ArgStack.v ===== *)
(** * core/exec.c: the arguments of a program

    The second half of [exec]: the arguments and the environment are read through the pointers of
    the caller and copied, with the vectors of pointers, a trap frame and a context, to the stack
    of the new process. *)

From S2P Require Import Prelude Mem CString KList PageAlloc Vm VmCopy Malloc Heap MList AddrSpace UserSpace Fork Ext2 Uart Fs Proc Exec Load Elf ForkProc.

(** ** The caller's memory *)
Section caller.
Context {A : Type} `{PageAllocator A} `{Machine}.
Implicit Types (m : mem) (a : A) (h : mheap) (U : gmap Z Z) (S : gset Z) (G l : list Z) (s : kstate A).
Implicit Types (T : gmap (list Z) Z) (F C : gmap Z Z) (ms : list mapping).

(** [m0] is the memory at the start, [unmoved] the cells that [exec] leaves alone. *)
Context (m0 : mem) (unmoved : Z → Prop).

Definition unchanged m : Prop := ∀ x, unmoved x → m !! x = m0 !! x.

(** The caller sees the pages [C] through the page table register [pg]: the MMU finds them as long
    as the cells of [unmoved], its page tables among them, are what they were. *)
Record caller (pg : Z) C : Prop := {
  cl_walk : ∀ m va q, unchanged m → 0 ≤ va → C !! (va / PGSIZE) = Some q → translate m pg va = Some (q + va mod PGSIZE);
  cl_pages : ∀ n q x, C !! n = Some q → in_page q x → unmoved x
}.

(** A process that is being filled. *)
Record filling m a h G U S l root T F lst ms : Prop := {
  fi_process : process m a h G U S l root T F lst ms;
  fi_same : unchanged m;
  fi_quiet : ∀ x, unmoved x → quiet G U S l T F x;
  fi_frame : mapped m frame 8 ∧ ∀ x, frame ≤ x < frame + 8 → quiet G U S l T F x ∧ ¬ unmoved x
}.

Lemma filling_write m a h G U S l root T F lst ms m' : filling m a h G U S l root T F lst ms →
  changes (λ x, frame ≤ x < frame + 8 ∨ user_cells F x) m m' → process m' a h G U S l root T F lst ms →
  filling m' a h G U S l root T F lst ms.
Proof.
  intros [Hp Hs Hq [Hm Hf]] C Hp'. constructor; [done| |done|split; [by eapply changes_mapped|done]].
  intros x Hx. rewrite <- Hs by done. apply C. intros [Hx'|(i & q & Hi & Hqx)]; [by apply (Hf x Hx')|].
  by apply (proj2 (Hq x Hx) i q).
Qed.

(** A byte that the caller sees. *)
Lemma seen m pg C va bs i b : caller pg C → unchanged m → ubytes m0 C va bs → bs !! i = Some b → 0 ≤ va →
  ∃ q, C !! ((va + Z.of_nat i) / PGSIZE) = Some q ∧ translate m pg (va + Z.of_nat i) = Some (q + (va + Z.of_nat i) mod PGSIZE) ∧
    m !! (q + (va + Z.of_nat i) mod PGSIZE) = Some b.
Proof.
  intros Hc Hs Hu Hi Hva. destruct (Hu i b Hi) as (q & Hq & Hb). exists q. split_and!; [done|eapply cl_walk; [done..|lia|done]|].
  rewrite Hs; [done|]. eapply cl_pages; [done..|]. unfold in_page, PGSIZE. zmod.
Qed.

Lemma user_addr_ok s m a h pg va x : memory s = (m, a, h) → pgdl s = pg → translate m pg va = Some x → user_addr va s = Ok (x, s).
Proof. intros Hs <- E. unfold user_addr, memory in *. assert (pages (fs s) = (m, a)) as -> by congruence. simpl. by rewrite E. Qed.

(** Bytes of one page lie together. *)
Lemma seen_chunk m pg C va bs : caller pg C → unchanged m → ubytes m0 C va bs → 0 ≤ va → bs ≠ [] →
  va mod PGSIZE + Z.of_nat (length bs) ≤ PGSIZE →
  ∃ x q, translate m pg va = Some x ∧ mem_at m x bs ∧ C !! (va / PGSIZE) = Some q ∧ x = q + va mod PGSIZE.
Proof.
  intros Hc Hs Hu Hva Hne Hl. destruct bs as [|b0 bs]; [done|].
  destruct (seen m pg C va (b0 :: bs) 0 b0 Hc Hs Hu eq_refl Hva) as (q & Hq & Ht & _). rewrite Z.add_0_r in *.
  exists (q + va mod PGSIZE), q. split_and!; [done| |done|done]. intros i b Hi. pose proof (lookup_lt_Some _ _ _ Hi).
  destruct (seen m pg C va (b0 :: bs) i b Hc Hs Hu Hi Hva) as (q' & Hq' & _ & Hb).
  assert ((va + Z.of_nat i) / PGSIZE = va / PGSIZE ∧ (va + Z.of_nat i) mod PGSIZE = va mod PGSIZE + Z.of_nat i) as [E1 E2].
  { unfold PGSIZE in *. zmod. }
  rewrite E1 in Hq'. rewrite E2 in Hb. assert (q' = q) as -> by congruence. by rewrite Z.add_assoc in Hb.
Qed.

Lemma uload8_ok s m a h pg C va bs i b : memory s = (m, a, h) → pgdl s = pg → caller pg C → unchanged m →
  ubytes m0 C va bs → bs !! i = Some b → 0 ≤ va → uload8 (va + Z.of_nat i) s = Ok (b, s).
Proof.
  intros Hs Hpg Hc Hsm Hu Hi Hva. destruct (seen m pg C va bs i b Hc Hsm Hu Hi Hva) as (q & _ & Ht & Hb).
  unfold uload8. rewrite (bind_ok _ _ _ _ _ (user_addr_ok s m a h pg _ _ Hs Hpg Ht)).
  eapply on_mem_load; [done|]. by apply load8_ok.
Qed.

Lemma uload64_ok s m a h pg C va v : memory s = (m, a, h) → pgdl s = pg → caller pg C → unchanged m →
  ubytes m0 C va (le_split 8 v) → 0 ≤ va → va mod 8 = 0 → 0 ≤ v < 2 ^ 64 → uload64 va s = Ok (v, s).
Proof.
  intros Hs Hpg Hc Hsm Hu Hva Hal Hv.
  destruct (seen_chunk m pg C va (le_split 8 v) Hc Hsm Hu Hva) as (x & q & Ht & Hat & _); [done| |].
  { rewrite length_le_split. unfold PGSIZE. zmod. }
  unfold uload64. rewrite (bind_ok _ _ _ _ _ (user_addr_ok s m a h pg _ _ Hs Hpg Ht)).
  eapply on_mem_load; [done|]. apply load_ok. exists (le_split 8 v). split_and!; [by rewrite length_le_split|done|].
  rewrite le_combine_split. apply Z.mod_small. lia.
Qed.

(** The C string at [va]. *)
Lemma ustring_ok s m a h pg C str : ∀ va n, memory s = (m, a, h) → pgdl s = pg → caller pg C → unchanged m →
  ubytes m0 C va (str ++ [0]) → Forall (λ b, b ≠ 0) str → (length str < n)%nat → 0 ≤ va → va + Z.of_nat (length str) < 2 ^ 64 →
  ustring n va s = Ok (str, s).
Proof.
  induction str as [|b str IH]; intros va [|n] Hs Hpg Hc Hsm Hu Hnz Hn Hva Hhi; simpl in Hn; try lia; cbn [ustring].
  - rewrite <- (Z.add_0_r va). change 0 with (Z.of_nat 0) at 1. by rewrite (bind_ok _ _ _ _ _ (uload8_ok s m a h pg C va [0] 0 0 Hs Hpg Hc Hsm Hu eq_refl Hva)).
  - inversion Hnz; subst. assert (uload8 va s = Ok (b, s)) as E.
    { rewrite <- (Z.add_0_r va). change 0 with (Z.of_nat 0). by eapply (uload8_ok s m a h _ C va ((b :: str) ++ [0]) 0). }
    rewrite (bind_ok _ _ _ _ _ E). destruct (Z.eqb_spec b 0); [done|]. simpl in Hhi.
    rewrite wrap_id by lia. rewrite (bind_ok _ _ _ str s); [done|]. apply IH; try done; try lia.
    intros i c Hi. replace (va + 1 + Z.of_nat i) with (va + Z.of_nat (Datatypes.S i)) by lia. by apply Hu.
Qed.

(** A copy to a process that is being filled. *)
Record fills m a h G U S l root T F lst ms m' (P : Z → Prop) : Prop := {
  pu_filling : filling m' a h G U S l root T F lst ms;
  pu_keep : ∀ y b, ¬ P y → ubytes m F y [b] → ubytes m' F y [b]
}.

Lemma put_refl m a h G U S l root T F lst ms P : filling m a h G U S l root T F lst ms → fills m a h G U S l root T F lst ms m P.
Proof. by constructor. Qed.

Lemma put_trans m1 m2 m3 a h G U S l root T F lst ms P Q : fills m1 a h G U S l root T F lst ms m2 P →
  fills m2 a h G U S l root T F lst ms m3 Q → fills m1 a h G U S l root T F lst ms m3 (λ y, P y ∨ Q y).
Proof. intros [X1 X2] [Y1 Y2]. constructor; [done|]. intros y b Hy Hb. apply Y2; [tauto|]. apply X2; [tauto|done]. Qed.

Lemma put_weaken m a h G U S l root T F lst ms m' (P Q : Z → Prop) : (∀ y, P y → Q y) →
  fills m a h G U S l root T F lst ms m' P → fills m a h G U S l root T F lst ms m' Q.
Proof. intros HPQ [X1 X2]. constructor; [done|]. intros y b Hy. apply X2. auto. Qed.

Lemma put_ubytes m a h G U S l root T F lst ms m' P va bs : fills m a h G U S l root T F lst ms m' P →
  ubytes m F va bs → (∀ y, va ≤ y < va + Z.of_nat (length bs) → ¬ P y) → ubytes m' F va bs.
Proof.
  intros [_ Hk] Hu HP i b Hi. pose proof (lookup_lt_Some _ _ _ Hi).
  assert (ubytes m' F (va + Z.of_nat i) [b]) as Hb.
  { apply Hk; [apply HP; lia|]. intros [|j] b' Hj; [|done]. injection Hj as <-. rewrite Z.add_0_r. by apply Hu. }
  destruct (Hb 0%nat b eq_refl) as (q & Hq & Hqb). rewrite Z.add_0_r in *. by exists q.
Qed.

(** One piece, from kernel addresses. *)
Lemma put_bytes m a h G U S l root T F lst ms dst src data : filling m a h G U S l root T F lst ms →
  mem_at m src data → bytes data → (∀ i, 0 ≤ i < Z.of_nat (length data) → unmoved (src + i)) →
  (∀ y, dst ≤ y < dst + Z.of_nat (length data) → in_user F y) → 0 ≤ dst → dst + Z.of_nat (length data) ≤ MAXVA →
  ∃ m', copy_to_va root dst src (Z.of_nat (length data)) (m, a) = Ok (0, (m', a)) ∧ ubytes m' F dst data ∧
    fills m a h G U S l root T F lst ms m' (λ y, dst ≤ y < dst + Z.of_nat (length data)).
Proof.
  intros Hf Hat Hby Hsrc Hin Hd0 Hd1. pose proof Hf as [Hpr _ Hq _].
  destruct (copy_out_ok m a h G U S l root T F lst ms dst src data Hpr Hat Hby) as (m' & E & Hpr' & Hub & C & Hk); [|done..|].
  { intros i Hi. by apply Hq, Hsrc. }
  exists m'. split_and!; [done|done|]. constructor; [|done]. eapply filling_write; [done| |done].
  eapply changes_weaken; [|exact C]. intros x Hx. right. by eapply written_user.
Qed.

Lemma put_word s m a h G U S l root T F lst ms dst v : memory s = (m, a, h) → filling m a h G U S l root T F lst ms →
  (∀ y, dst ≤ y < dst + 8 → in_user F y) → 0 ≤ dst → dst + 8 ≤ MAXVA →
  ∃ m', copy_word root dst v s = Ok (0, with_heap (m', a, h) s) ∧ ubytes m' F dst (le_split 8 v) ∧
    fills m a h G U S l root T F lst ms m' (λ y, dst ≤ y < dst + 8).
Proof.
  intros Hs Hf Hin Hd0 Hd1. pose proof Hf as [Hpr _ _ [Hm Hq]].
  destruct (copy_word_ok s m a h G U S l root T F lst ms dst v Hs Hpr Hm) as (m' & E & Hpr' & Hub & C & Hk); [|done..|].
  { intros x Hx. by apply Hq. }
  exists m'. split_and!; [done|done|]. constructor; [by eapply filling_write|done].
Qed.

(** The copy of a string, page by page of the caller. *)
Lemma ucopy_loop_ok pg C fuel : ∀ s m a h G U S l root T F lst ms dst src bs, memory s = (m, a, h) → pgdl s = pg → caller pg C →
  filling m a h G U S l root T F lst ms → ubytes m0 C src bs → bytes bs →
  (∀ y, dst ≤ y < dst + Z.of_nat (length bs) → in_user F y) → 0 ≤ dst → dst + Z.of_nat (length bs) ≤ MAXVA →
  0 ≤ src → src + Z.of_nat (length bs) < 2 ^ 64 → Z.of_nat (length bs) ≤ Z.max 0 (Z.of_nat fuel * PGSIZE - src mod PGSIZE) →
  ∃ m', ucopy_loop fuel root dst src (Z.of_nat (length bs)) s = Ok (0, with_heap (m', a, h) s) ∧ ubytes m' F dst bs ∧
    fills m a h G U S l root T F lst ms m' (λ y, dst ≤ y < dst + Z.of_nat (length bs)).
Proof.
  induction fuel as [|fuel IH]; intros s m a h G U S l root T F lst ms dst src bs Hs Hpg Hc Hf Hu Hby Hin Hd0 Hd1 Hs0 Hs1 Hfuel;
    (destruct bs as [|b0 bs0]; [exists m; split_and!; [simpl; by rewrite <- Hs, with_heap_id|by intros i b Hi|by apply put_refl]|]);
    set (bs := b0 :: bs0) in *.
  { exfalso. unfold bs in Hfuel. simpl length in Hfuel. pose proof (Z.mod_pos_bound src PGSIZE ltac:(done)). lia. }
  assert (0 < Z.of_nat (length bs)) as Hpos by (unfold bs; simpl; lia). cbn [ucopy_loop].
  destruct (Z.ltb_spec 0 (Z.of_nat (length bs))); [|lia].
  set (n := if Z.of_nat (length bs) <? PGSIZE - src mod PGSIZE then Z.of_nat (length bs) else PGSIZE - src mod PGSIZE).
  assert (0 < n ≤ Z.of_nat (length bs) ∧ src mod PGSIZE + n ≤ PGSIZE ∧ (n = Z.of_nat (length bs) ∨ src mod PGSIZE + n = PGSIZE)) as (Hn & Hn1 & Hn2).
  { unfold n, PGSIZE in *. pose proof (Z.mod_pos_bound src 16384 ltac:(done)). destruct (Z.ltb_spec (Z.of_nat (length bs)) (16384 - src mod 16384)); lia. }
  set (c := take (Z.to_nat n) bs). set (r := drop (Z.to_nat n) bs).
  assert (bs = c ++ r) as Ebs by (symmetry; apply take_drop).
  assert (Z.of_nat (length c) = n) as Hlc by (unfold c; rewrite length_take; lia).
  assert (Z.of_nat (length r) = Z.of_nat (length bs) - n) as Hlr by (unfold r; rewrite length_drop; lia).
  assert (bytes c ∧ bytes r) as [Hbc Hbr] by (split; [by apply Forall_take|by apply Forall_drop]).
  assert (ubytes m0 C src c ∧ ubytes m0 C (src + n) r) as [Huc Hur].
  { split.
    - intros i b Hi. apply Hu. rewrite Ebs. by apply lookup_app_l_Some.
    - intros i b Hi. rewrite <- Z.add_assoc. replace (n + Z.of_nat i) with (Z.of_nat (length c + i)) by lia. apply Hu.
      rewrite Ebs, lookup_app_r by lia. by replace (length c + i - length c)%nat with i by lia. }
  pose proof Hf as [_ Hsm _ _].
  destruct (seen_chunk m pg C src c Hc Hsm Huc Hs0) as (x & q & Ht & Hat & HCq & Hx); [intros E; rewrite E in Hlc; simpl in Hlc; lia|lia|].
  rewrite (bind_ok _ _ _ _ _ (user_addr_ok s m a h pg _ _ Hs Hpg Ht)).
  destruct (put_bytes m a h G U S l root T F lst ms dst x c Hf Hat Hbc) as (m1 & E1 & Hub1 & Hp1);
    [|intros y Hy; apply Hin; lia|done|lia|].
  { intros i Hi. eapply cl_pages; [done|exact HCq|]. subst x. unfold in_page. pose proof (Z.mod_pos_bound src PGSIZE ltac:(done)). lia. }
  rewrite Hlc in E1, Hp1. set (s1 := with_heap (m1, a, h) s).
  rewrite (bind_ok _ _ _ 0 s1) by (by eapply on_vm_run). change (0 =? -1) with false. cbn iota.
  change MAXVA with (2 ^ 47) in *. rewrite (wrap_id 64 (dst + n)), (wrap_id 64 (src + n)), <- Hlr by lia.
  destruct (IH s1 m1 a h G U S l root T F lst ms (dst + n) (src + n) r) as (m2 & E2 & Hub2 & Hp2);
    [done|done|done|apply Hp1|done|done|intros y Hy; apply Hin; lia|lia|lia|lia|lia| |].
  { destruct Hn2 as [Hn2|Hn2]; [lia|]. unfold PGSIZE in *. replace ((src + n) mod 16384) with 0 by zmod. lia. }
  exists m2. split_and!; [exact E2| |].
  - rewrite Ebs. intros i b Hi. apply lookup_app_Some in Hi as [Hi|[Hge Hi]].
    + eapply (put_ubytes m1 a h G U S l root T F lst ms m2 _ dst c Hp2 Hub1); [|done]. intros y Hy. lia.
    + destruct (Hub2 _ b Hi) as (q2 & Hq2 & Hb2). exists q2. replace (dst + n + Z.of_nat (i - length c)) with (dst + Z.of_nat i) in * by lia. done.
  - eapply put_weaken; [|by eapply put_trans]. intros y [Hy|Hy]; lia.
Qed.

(** ** Vectors of strings *)
Definition words (l : list Z) : list Z := concat (le_split 8 <$> l).
Definition blob (strs : list (list Z)) : list Z := concat ((λ str, str ++ [0]) <$> strs).
(** Where the strings of [blob] are, from [bp] on. *)
Fixpoint addrs (bp : Z) (strs : list (list Z)) : list Z :=
  match strs with [] => [] | str :: strs => bp :: addrs (bp + (Z.of_nat (length str) + 1)) strs end.

Record string_at C (p : Z) (str : list Z) : Prop := {
  sa_place : 0 < p ∧ p + Z.of_nat (length str) + 1 < 2 ^ 64;
  sa_bytes : ubytes m0 C p (str ++ [0]) ∧ Forall (λ b, 0 < b < 256) str;
  sa_length : Z.of_nat (length str) < USER_STACK_TOP - USER_STACK_BOTTOM
}.

(** The pointers [ptrs] at [vec], with a [NULL] after them, to the strings [strs]. *)
Record vector C (vec : Z) (ptrs : list Z) (strs : list (list Z)) : Prop := {
  vc_place : 0 ≤ vec ∧ vec mod 8 = 0 ∧ vec + 8 * Z.of_nat (length strs) + 8 < 2 ^ 64;
  vc_words : ubytes m0 C vec (words ptrs ++ le_split 8 0);
  vc_strings : Forall2 (string_at C) ptrs strs
}.

Lemma length_words l : Z.of_nat (length (words l)) = 8 * Z.of_nat (length l).
Proof. induction l as [|v l IH]; [done|]. unfold words in *. rewrite fmap_cons. cbn [concat]. rewrite length_app, length_le_split. cbn [length]. lia. Qed.

Lemma length_addrs bp strs : length (addrs bp strs) = length strs.
Proof. revert bp. induction strs as [|str strs IH]; intros bp; [done|]. simpl. by rewrite IH. Qed.

Lemma ubytes_app_iff m F va l1 l2 : ubytes m F va (l1 ++ l2) ↔ ubytes m F va l1 ∧ ubytes m F (va + Z.of_nat (length l1)) l2.
Proof.
  split.
  - intros Hu. split; intros i b Hi; [apply Hu; by apply lookup_app_l_Some|].
    rewrite <- Z.add_assoc, <- Nat2Z.inj_add. apply Hu. rewrite lookup_app_r by lia. by replace (length l1 + i - length l1)%nat with i by lia.
  - intros [H1 H2] i b Hi. apply lookup_app_Some in Hi as [Hi|[Hge Hi]]; [by apply H1|].
    destruct (H2 _ b Hi) as (q & Hq & Hb). exists q.
    replace (va + Z.of_nat (length l1) + Z.of_nat (i - length l1)) with (va + Z.of_nat i) in * by lia. done.
Qed.

Lemma vector_end s m a h pg C vec ptrs strs : memory s = (m, a, h) → pgdl s = pg → caller pg C → unchanged m →
  vector C vec ptrs strs → uload64 (u64 (vec + 8 * Z.of_nat (length strs))) s = Ok (0, s).
Proof.
  intros Hs Hpg Hc Hsm [(Hv0 & Hv8 & Hv1) Hw Hst]. pose proof (Forall2_length _ _ _ Hst) as Hl.
  apply ubytes_app_iff in Hw as [_ Hw]. rewrite length_words, Hl in Hw.
  rewrite wrap_id by lia. eapply uload64_ok; [done|done|done|done|done|lia| |lia]. zmod.
Qed.

Lemma vector_cons s m a h pg C vec ptrs str strs : memory s = (m, a, h) → pgdl s = pg → caller pg C → unchanged m →
  vector C vec ptrs (str :: strs) → ∃ ptr ptrs', ptrs = ptr :: ptrs' ∧ uload64 vec s = Ok (ptr, s) ∧
    string_at C ptr str ∧ vector C (u64 (vec + 8)) ptrs' strs.
Proof.
  intros Hs Hpg Hc Hsm [(Hv0 & Hv8 & Hv1) Hw Hst]. inversion Hst as [|ptr ? ptrs' ? Hstr Hst' E1 E2]; subst.
  exists ptr, ptrs'. pose proof (sa_place _ _ _ Hstr). simpl length in Hv1.
  unfold words in Hw. rewrite fmap_cons in Hw. cbn [concat] in Hw. rewrite <- app_assoc in Hw. apply ubytes_app_iff in Hw as [Hw1 Hw2].
  rewrite length_le_split in Hw2. split_and!; [done| |done|].
  - eapply uload64_ok; [done|done|done|done|done|lia|lia|lia].
  - rewrite wrap_id by lia. constructor; [split_and!; [lia|zmod|lia]|exact Hw2|done].
Qed.

(** The loop over a vector. *)
Lemma push_strings_ok pg C strs : ∀ n s m a h G U S l root T F lst ms vec ptrs slot bp count, memory s = (m, a, h) → pgdl s = pg →
  caller pg C → filling m a h G U S l root T F lst ms → vector C vec ptrs strs → (length strs ≤ n)%nat →
  (∀ y, slot ≤ y < slot + 8 * Z.of_nat (length strs) → in_user F y) →
  (∀ y, bp ≤ y < bp + Z.of_nat (length (blob strs)) → in_user F y) →
  0 ≤ bp → bp + Z.of_nat (length (blob strs)) ≤ slot → slot + 8 * Z.of_nat (length strs) ≤ MAXVA →
  ∃ m', push_strings n root vec slot bp count s =
      Ok ((count + Z.of_nat (length strs), bp + Z.of_nat (length (blob strs))), with_heap (m', a, h) s) ∧
    ubytes m' F slot (words (addrs bp strs)) ∧ ubytes m' F bp (blob strs) ∧
    fills m a h G U S l root T F lst ms m' (λ y, slot ≤ y < slot + 8 * Z.of_nat (length strs) ∨ bp ≤ y < bp + Z.of_nat (length (blob strs))).
Proof.
  induction strs as [|str strs IH]; intros n s m a h G U S l root T F lst ms vec ptrs slot bp count Hs Hpg Hc Hf Hv Hn Hin1 Hin2 Hb0 Hb1 Hs1.
  - exists m. split_and!; [|by intros i b Hi|by intros i b Hi|by apply put_refl]. simpl. rewrite !Z.add_0_r.
    rewrite <- Hs, with_heap_id. destruct n as [|n]; [done|]. cbn [push_strings].
    pose proof (vector_end s m a h pg C vec ptrs [] Hs Hpg Hc (fi_same _ _ _ _ _ _ _ _ _ _ _ _ Hf) Hv) as E.
    destruct Hv as [(Hv0 & _ & Hv1) _ _]. simpl in E, Hv1. rewrite Z.add_0_r, wrap_id in E by lia.
    by rewrite (bind_ok _ _ _ _ _ E).
  - destruct n as [|n]; [simpl in Hn; lia|]. cbn [push_strings].
    set (len := Z.of_nat (length str) + 1).
    assert (Z.of_nat (length (str ++ [0])) = len) as Hlen by (rewrite length_app; simpl; unfold len; lia).
    assert (Z.of_nat (length (blob (str :: strs))) = len + Z.of_nat (length (blob strs))) as Hbl.
    { unfold blob. rewrite fmap_cons. cbn [concat]. rewrite length_app. lia. }
    cbn [length] in Hn, Hin1, Hs1 |- *. rewrite Hbl in *.
    destruct (vector_cons s m a h pg C vec ptrs str strs Hs Hpg Hc (fi_same _ _ _ _ _ _ _ _ _ _ _ _ Hf) Hv) as
      (ptr & ptrs' & -> & E1 & [Hpl [Hub Hnz] Hsl] & Hv').
    rewrite (bind_ok _ _ _ _ _ E1). destruct (Z.eqb_spec ptr 0); [lia|].
    destruct (put_word s m a h G U S l root T F lst ms slot bp Hs Hf) as (m1 & E2 & W1 & P1); [intros y Hy; apply Hin1; lia|lia|lia|].
    rewrite (bind_ok _ _ _ _ _ E2). set (s1 := with_heap (m1, a, h) s). pose proof (pu_filling _ _ _ _ _ _ _ _ _ _ _ _ _ _ P1) as Hf1.
    assert (ustrlen ptr s1 = Ok (Z.of_nat (length str), s1)) as E3.
    { unfold ustrlen. rewrite (bind_ok _ _ _ str s1); [done|].
      eapply (ustring_ok s1 m1 a h pg C); [done|done|done|apply Hf1|done| |lia|lia|lia].
      eapply Forall_impl; [exact Hnz|]. simpl. lia. }
    rewrite (bind_ok _ _ _ _ _ E3). fold len.
    destruct (ucopy_loop_ok pg C (copy_fuel len) s1 m1 a h G U S l root T F lst ms bp ptr (str ++ [0])) as (m2 & E4 & W2 & P2);
      [done|done|done|exact Hf1|done| |rewrite Hlen; intros y Hy; apply Hin2; lia|lia|rewrite Hlen; lia|lia|rewrite Hlen; unfold len; lia| |].
    { apply Forall_app. split; [eapply Forall_impl; [exact Hnz|]; unfold byte; simpl; lia|]. by repeat constructor. }
    { rewrite Hlen. apply copy_fuel_enough. unfold len. lia. }
    rewrite Hlen in E4, P2. change (ucopy_to_va root bp ptr len s1 = Ok (0, with_heap (m2, a, h) s1)) in E4.
    rewrite (bind_ok _ _ _ _ _ E4). set (s2 := with_heap (m2, a, h) s1).
    destruct (IH n s2 m2 a h G U S l root T F lst ms (u64 (vec + 8)) ptrs' (slot + 8) (bp + len) (count + 1)) as (m3 & E5 & W3 & W4 & P3);
      [done|done|done|apply P2|done|lia|intros y Hy; apply Hin1; lia|intros y Hy; apply Hin2; lia|unfold len; lia|lia|lia|].
    exists m3. split_and!.
    + rewrite E5. do 3 f_equal; lia.
    + unfold words. cbn [addrs]. rewrite fmap_cons. cbn [concat]. apply ubytes_app_iff. rewrite length_le_split. split; [|exact W3].
      eapply put_ubytes; [exact P3| |rewrite length_le_split; intros y Hy; unfold len; lia].
      eapply put_ubytes; [exact P2|exact W1|rewrite length_le_split; intros y Hy; unfold len; lia].
    + unfold blob. rewrite fmap_cons. cbn [concat]. apply ubytes_app_iff. rewrite Hlen. split; [|exact W4].
      eapply put_ubytes; [exact P3|exact W2|rewrite Hlen; intros y Hy; lia].
    + eapply put_weaken; [|eapply put_trans; [eapply put_trans; [exact P1|exact P2]|exact P3]]. intros y [[Hy|Hy]|[Hy|Hy]]; lia.
Qed.

(** ** The user stack *)
Definition user_stack : Z := child_context - 8 * (ARGS_MAX + 2 + ENVS_MAX + 1).
Definition first_frame : Z := user_stack - sizeof_trapframe.

(** What [exec] leaves on the stack: the strings from the bottom on; [argc], the two vectors and their
    ends; a context that starts in [exec_helper] on the trap frame; a trap frame that enters the
    program on the vectors, with 4 in [prmd]: previous level 0, interrupts on. *)
Definition bottom_envs (args : list (list Z)) : Z := USER_STACK_BOTTOM + Z.of_nat (length (blob args)).
Record stacked m F (args envs : list (list Z)) (entry : Z) : Prop := {
  sk_strings : ubytes m F USER_STACK_BOTTOM (blob args ++ blob envs);
  sk_vectors : ubytes m F user_stack (words (Z.of_nat (length args) :: addrs USER_STACK_BOTTOM args ++ 0 :: addrs (bottom_envs args) envs ++ [0]));
  sk_context : ubytes m F (child_context + off_sp) (le_split 8 first_frame) ∧ ubytes m F (child_context + off_ra) (le_split 8 exec_helper);
  sk_frame : ubytes m F (first_frame + off_sp) (le_split 8 user_stack) ∧ ubytes m F (first_frame + off_prmd) (le_split 8 4) ∧
    ubytes m F (first_frame + off_era) (le_split 8 entry)
}.

(** Several words, one after the other. *)
Definition copy_words (root : Z) (ws : list (Z * Z)) {B} (k : M (kstate A) B) : M (kstate A) B :=
  foldr (λ w k, copy_word root w.1 w.2;; k) k ws.
Fixpoint apart (ws : list (Z * Z)) : Prop :=
  match ws with [] => True | w :: ws => Forall (λ w', w'.1 + 8 ≤ w.1 ∨ w.1 + 8 ≤ w'.1) ws ∧ apart ws end.
Definition in_words (ws : list (Z * Z)) (y : Z) : Prop := Exists (λ w, w.1 ≤ y < w.1 + 8) ws.

Lemma copy_words_ok ws : ∀ s m a h G U S l root T F lst ms, memory s = (m, a, h) → filling m a h G U S l root T F lst ms →
  apart ws → Forall (λ w, 0 ≤ w.1 ∧ w.1 + 8 ≤ MAXVA ∧ ∀ y, w.1 ≤ y < w.1 + 8 → in_user F y) ws →
  ∃ m', (∀ B (k : M (kstate A) B), copy_words root ws k s = k (with_heap (m', a, h) s)) ∧
    Forall (λ w, ubytes m' F w.1 (le_split 8 w.2)) ws ∧ fills m a h G U S l root T F lst ms m' (in_words ws).
Proof.
  induction ws as [|w ws IH]; intros s m a h G U S l root T F lst ms Hs Hf Hap Hws.
  - exists m. split_and!; [intros B k; by rewrite <- Hs, with_heap_id|done|by apply put_refl].
  - destruct Hap as [Hw Hap]. inversion Hws as [|? ? (Hw0 & Hw1 & Hin) Hws']; subst.
    destruct (put_word s m a h G U S l root T F lst ms w.1 w.2 Hs Hf Hin Hw0 Hw1) as (m1 & E1 & W1 & P1).
    destruct (IH (with_heap (m1, a, h) s) m1 a h G U S l root T F lst ms eq_refl (pu_filling _ _ _ _ _ _ _ _ _ _ _ _ _ _ P1) Hap Hws')
      as (m2 & E2 & W2 & P2).
    exists m2. split_and!.
    + intros B k. unfold copy_words. cbn [foldr]. rewrite (bind_ok _ _ _ _ _ E1). apply E2.
    + constructor; [|done]. eapply put_ubytes; [exact P2|exact W1|]. rewrite length_le_split.
      intros y Hy Hiw. unfold in_words in Hiw. rewrite Exists_exists in Hiw. destruct Hiw as (w' & Hin' & Hy').
      rewrite Forall_forall in Hw. pose proof (Hw w' Hin'). lia.
    + eapply put_weaken; [|by eapply put_trans]. intros y [Hy|Hy]; [by left|by right].
Qed.

Lemma words_app l1 l2 : words (l1 ++ l2) = words l1 ++ words l2.
Proof. unfold words. by rewrite fmap_app, concat_app. Qed.
Lemma words_cons v l : words (v :: l) = le_split 8 v ++ words l.
Proof. done. Qed.

(** [fill_stack]. *)
Definition on_stack (y : Z) : Prop := USER_STACK_BOTTOM ≤ y < USER_STACK_TOP.

Lemma vectors_ok m F args envs : let argc := Z.of_nat (length args) in let envc := Z.of_nat (length envs) in
  ubytes m F user_stack (le_split 8 argc) → ubytes m F (user_stack + 8) (words (addrs USER_STACK_BOTTOM args)) →
  ubytes m F (user_stack + 8 * (argc + 1)) (le_split 8 0) →
  ubytes m F (user_stack + 8 * (argc + 2)) (words (addrs (bottom_envs args) envs)) →
  ubytes m F (user_stack + 8 * (argc + 2 + envc)) (le_split 8 0) →
  ubytes m F user_stack (words (argc :: addrs USER_STACK_BOTTOM args ++ 0 :: addrs (bottom_envs args) envs ++ [0])).
Proof.
  intros argc envc H1 H2 H3 H4 H5. rewrite words_cons, words_app, words_cons, words_app.
  rewrite !ubytes_app_iff, !length_words, !length_addrs, !length_le_split, words_cons, app_nil_r.
  split_and!; [exact H1|exact H2|eapply (eq_ind _ (λ x, ubytes m F x _) H3)|eapply (eq_ind _ (λ x, ubytes m F x _) H4)|
    eapply (eq_ind _ (λ x, ubytes m F x _) H5)]; lia.
Qed.

(** The vectors and the strings, without the ends of the vectors. *)
Record pushed m F (args envs : list (list Z)) : Prop := {
  ps_args : ubytes m F (user_stack + 8) (words (addrs USER_STACK_BOTTOM args));
  ps_strings : ubytes m F USER_STACK_BOTTOM (blob args) ∧ ubytes m F (bottom_envs args) (blob envs);
  ps_envs : ubytes m F (user_stack + 8 * (Z.of_nat (length args) + 2)) (words (addrs (bottom_envs args) envs))
}.

Definition vector_words argc envc : list (Z * Z) := [(user_stack + 8 * (argc + 2 + envc), 0); (user_stack + 8 * (argc + 1), 0);
  (user_stack, argc); (child_context + off_sp, first_frame); (child_context + off_ra, exec_helper)].
Definition frame_words entry : list (Z * Z) := [(first_frame + off_sp, user_stack); (first_frame + off_prmd, 4); (first_frame + off_era, entry)].

Lemma layout : user_stack = 0x7FFEFE30 ∧ first_frame = 0x7FFEFD28 ∧ child_context = 0x7FFEFF08.
Proof. done. Qed.

Lemma in_vector_words argc envc y : in_words (vector_words argc envc) y → user_stack ≤ y < user_stack + 8 ∨
  user_stack + 8 * (argc + 1) ≤ y < user_stack + 8 * (argc + 2) ∨
  user_stack + 8 * (argc + 2 + envc) ≤ y < user_stack + 8 * (argc + 2 + envc) + 8 ∨ child_context ≤ y < USER_STACK_TOP.
Proof.
  destruct layout as (Eu & Ef & Ec). unfold in_words, vector_words, USER_STACK_TOP, off_sp, off_ra. intros Hy.
  repeat (apply Exists_cons in Hy as [Hy|Hy]; [cbn [fst] in Hy; lia|]). by apply Exists_nil in Hy.
Qed.

Lemma in_frame_words entry y : in_words (frame_words entry) y → first_frame ≤ y < user_stack.
Proof.
  destruct layout as (Eu & Ef & Ec). unfold in_words, frame_words, off_sp, off_prmd, off_era. intros Hy.
  repeat (apply Exists_cons in Hy as [Hy|Hy]; [cbn [fst] in Hy; lia|]). by apply Exists_nil in Hy.
Qed.

Lemma apart_words argc envc entry : 0 ≤ argc ≤ ARGS_MAX → 0 ≤ envc ≤ ENVS_MAX → apart (vector_words argc envc) ∧ apart (frame_words entry) ∧
  (∀ w, w ∈ vector_words argc envc ++ frame_words entry → first_frame ≤ w.1 ∧ w.1 + 8 ≤ USER_STACK_TOP).
Proof.
  destruct layout as (Eu & Ef & Ec). unfold ARGS_MAX, ENVS_MAX, USER_STACK_TOP. intros Ha He. split_and!.
  - cbn [apart vector_words fst]. unfold off_sp, off_ra. split_and!; repeat first [apply Forall_cons; split | apply Forall_nil]; done || (cbn [fst]; lia).
  - cbn [apart frame_words fst]. unfold off_sp, off_prmd, off_era. split_and!; repeat first [apply Forall_cons; split | apply Forall_nil]; done || (cbn [fst]; lia).
  - unfold vector_words, frame_words, off_sp, off_ra, off_prmd, off_era. intros w Hw. cbn [app] in Hw.
    repeat (apply elem_of_cons in Hw as [->|Hw]; [cbn [fst]; lia|]). by apply not_elem_of_nil in Hw.
Qed.

Lemma stack_words_ok i s m a h G U S l root T F lst ms args envs entry : memory s = (m, a, h) → filling m a h G U S l root T F lst ms →
  pushed m F args envs → Z.of_nat (length args) ≤ ARGS_MAX → Z.of_nat (length envs) ≤ ENVS_MAX →
  bottom_envs args + Z.of_nat (length (blob envs)) ≤ first_frame → (∀ y, on_stack y → in_user F y) →
  ∃ m', copy_words root (vector_words (Z.of_nat (length args)) (Z.of_nat (length envs)))
      (modify (λ s, with_points (<[i := InUser]> (points s)) s);; copy_words root (frame_words entry) (mret (Some i))) s =
      Ok (Some i, with_points (<[i := InUser]> (points s)) (with_heap (m', a, h) s)) ∧
    stacked m' F args envs entry ∧ fills m a h G U S l root T F lst ms m' on_stack.
Proof.
  intros Hs Hf [V1 [B1 B2] V2] Ha He Hroom Hin. set (argc := Z.of_nat (length args)) in *. set (envc := Z.of_nat (length envs)) in *.
  destruct (apart_words argc envc entry) as (A1 & A2 & A3); [lia|lia|]. destruct layout as (Eu & Ef & Ec).
  assert (∀ w, w ∈ vector_words argc envc ++ frame_words entry → 0 ≤ w.1 ∧ w.1 + 8 ≤ MAXVA ∧ ∀ y, w.1 ≤ y < w.1 + 8 → in_user F y) as Hww.
  { intros w Hw%A3. change MAXVA with (2 ^ 47). unfold on_stack, USER_STACK_TOP, USER_STACK_BOTTOM in *.
    split_and!; [lia|lia|]. intros y Hy. apply Hin. lia. }
  destruct (copy_words_ok (vector_words argc envc) s m a h G U S l root T F lst ms Hs Hf A1) as (m1 & E1 & W1 & P1).
  { apply Forall_forall. intros w Hw. apply Hww, elem_of_app. by left. }
  set (s1 := with_points (<[i := InUser]> (points s)) (with_heap (m1, a, h) s)).
  destruct (copy_words_ok (frame_words entry) s1 m1 a h G U S l root T F lst ms eq_refl (pu_filling _ _ _ _ _ _ _ _ _ _ _ _ _ _ P1) A2)
    as (m2 & E2 & W2 & P2).
  { apply Forall_forall. intros w Hw. apply Hww, elem_of_app. by right. }
  exists m2. split; [|split].
  - rewrite E1, (bind_ok _ _ _ tt s1) by done. by rewrite E2.
  - assert (∀ va bs, ubytes m1 F va bs → va + Z.of_nat (length bs) ≤ first_frame ∨ user_stack ≤ va → ubytes m2 F va bs) as K2.
    { intros va bs Hb Hva. eapply put_ubytes; [exact P2|exact Hb|]. intros y Hy Hy'%in_frame_words. lia. }
    assert (∀ va bs, ubytes m F va bs → (∀ y, va ≤ y < va + Z.of_nat (length bs) → ¬ in_words (vector_words argc envc) y) → ubytes m1 F va bs) as K1.
    { intros va bs Hb Hva. by eapply put_ubytes. }
    unfold ARGS_MAX, ENVS_MAX, USER_STACK_TOP, bottom_envs, USER_STACK_BOTTOM in *.
    repeat apply Forall_cons in W1 as [? W1]. repeat apply Forall_cons in W2 as [? W2]. cbn [fst snd] in *.
    constructor.
    + apply ubytes_app_iff. split; (apply K2; [apply K1; [done|]|unfold USER_STACK_BOTTOM; lia]); intros y Hy [?|[?|[?|?]]]%in_vector_words; unfold USER_STACK_BOTTOM, USER_STACK_TOP in *; lia.
    + apply vectors_ok; unfold bottom_envs, USER_STACK_BOTTOM.
      * apply K2; [done|lia].
      * apply K2; [|lia]. apply K1; [done|]. rewrite length_words, length_addrs. intros y Hy [?|[?|[?|?]]]%in_vector_words; unfold USER_STACK_TOP in *; lia.
      * apply K2; [done|lia].
      * apply K2; [|lia]. apply K1; [done|]. rewrite length_words, length_addrs. intros y Hy [?|[?|[?|?]]]%in_vector_words; unfold USER_STACK_TOP in *; lia.
      * apply K2; [done|lia].
    + split; apply K2; [done| |done|]; unfold off_sp, off_ra; lia.
    + done.
  - eapply put_weaken; [|eapply put_trans; [exact P1|exact P2]]. unfold on_stack, USER_STACK_TOP, USER_STACK_BOTTOM, ARGS_MAX, ENVS_MAX in *.
    intros y [Hy%in_vector_words|Hy%in_frame_words]; unfold USER_STACK_TOP in *; lia.
Qed.

Lemma fill_stack_ok i pg C s m a h G U S l root T F lst ms argv envp aptrs eptrs args envs entry : memory s = (m, a, h) → pgdl s = pg →
  caller pg C → filling m a h G U S l root T F lst ms → vector C argv aptrs args → vector C envp eptrs envs →
  Z.of_nat (length args) ≤ ARGS_MAX → Z.of_nat (length envs) ≤ ENVS_MAX →
  bottom_envs args + Z.of_nat (length (blob envs)) ≤ first_frame → (∀ y, on_stack y → in_user F y) →
  ∃ m', fill_stack i root argv envp entry s = Ok (Some i, with_points (<[i := InUser]> (points s)) (with_heap (m', a, h) s)) ∧
    stacked m' F args envs entry ∧ fills m a h G U S l root T F lst ms m' on_stack.
Proof.
  intros Hs Hpg Hc Hf Hav Hev Hna Hne Hroom Hin. destruct layout as (Eu & Ef & Ec).
  set (argc := Z.of_nat (length args)). set (envc := Z.of_nat (length envs)).
  assert (0 ≤ argc ≤ 8 ∧ 0 ≤ envc ≤ 16) as (Ha & He) by (unfold ARGS_MAX, ENVS_MAX in *; lia).
  assert (∀ y, USER_STACK_BOTTOM ≤ y < USER_STACK_TOP → in_user F y) as Hin' by exact Hin.
  unfold bottom_envs, USER_STACK_TOP in *. set (bot := USER_STACK_BOTTOM) in *. assert (bot = 0x7FF00000) as Eb by done.
  destruct (push_strings_ok pg C args (Z.to_nat ARGS_MAX) s m a h G U S l root T F lst ms argv aptrs (user_stack + 8) bot 0 Hs Hpg Hc Hf Hav)
    as (m1 & E1 & V1 & B1 & P1); [lia|intros y Hy; apply Hin'; lia|intros y Hy; apply Hin'; lia|lia|lia|change MAXVA with (2 ^ 47); lia|].
  pose proof (pu_filling _ _ _ _ _ _ _ _ _ _ _ _ _ _ P1) as Hf1. set (s1 := with_heap (m1, a, h) s) in *.
  destruct (push_strings_ok pg C envs (Z.to_nat ENVS_MAX) s1 m1 a h G U S l root T F lst ms envp eptrs (user_stack + 8 * (argc + 2))
    (bot + Z.of_nat (length (blob args))) 0 eq_refl Hpg Hc Hf1 Hev)
    as (m2 & E2 & V2 & B2 & P2); [lia|intros y Hy; apply Hin'; lia|intros y Hy; apply Hin'; lia|lia|lia|change MAXVA with (2 ^ 47); lia|].
  pose proof (pu_filling _ _ _ _ _ _ _ _ _ _ _ _ _ _ P2) as Hf2. set (s2 := with_heap (m2, a, h) s1) in *.
  destruct (stack_words_ok i s2 m2 a h G U S l root T F lst ms args envs entry eq_refl Hf2) as (m3 & E3 & Hst & P3); [|done..|].
  { constructor; [|split|]; [|eapply (put_ubytes m1); [exact P2|exact B1|fold bot; intros y Hy [?|?]; lia]|done|done].
    eapply (put_ubytes m1); [exact P2|exact V1|]. rewrite length_words, length_addrs. intros y Hy [?|?]; lia. }
  exists m3. split_and!; [|done|].
  - unfold fill_stack. fold child_context. fold user_stack. fold first_frame.
    rewrite (bind_ok _ _ _ _ _ E1). cbn iota beta. rewrite Z.add_0_l.
    rewrite (bind_ok _ _ _ _ _ (vector_end s1 m1 a h pg C argv aptrs args eq_refl Hpg Hc (fi_same _ _ _ _ _ _ _ _ _ _ _ _ Hf1) Hav)).
    cbn [Z.eqb negb]. fold argc. rewrite (bind_ok _ _ _ _ _ E2). cbn iota beta. rewrite Z.add_0_l.
    rewrite (bind_ok _ _ _ _ _ (vector_end s2 m2 a h pg C envp eptrs envs eq_refl Hpg Hc (fi_same _ _ _ _ _ _ _ _ _ _ _ _ Hf2) Hev)).
    exact E3.
  - eapply put_weaken; [|eapply put_trans; [eapply put_trans; [exact P1|exact P2]|exact P3]].
    unfold on_stack, USER_STACK_TOP. fold bot. intros y [[[Hy|Hy]|[Hy|Hy]]|Hy]; lia.
Qed.
End caller.
