(* ===== verification/ExecProc.v ===== *)
(** * core/exec.c: exec as a whole

    The slot, the descriptor table, the program, the stack with the arguments ([ArgStack]), and
    what happens when the program cannot be loaded. *)

From S2P Require Import Prelude Mem CString KList PageAlloc Vm VmCopy Malloc Heap MList AddrSpace UserSpace Fork Ext2 Uart Fs Proc Exec Load Elf ForkProc Release ArgStack.

(** ** [exec], call by call *)
Section exec.
Context {A : Type} `{PageAllocator A} `{Machine}.
Implicit Types (m : mem) (a : A) (h : mheap) (U : gmap Z Z) (S : gset Z) (G l : list Z) (s : kstate A).
Implicit Types (T : gmap (list Z) Z) (F C : gmap Z Z) (ms : list mapping).

(** The slot before the program is loaded: of its last owner, [cwd] and [exit_code] are left. *)
Definition execed (x : task_struct) (v tb g ml : Z) (nm : list Z) : task_struct :=
  {| pid := v; parent := Some kproc; state := TASK_RUNABLE; allocs := USED; context := 0; trapframe := 0; fdtable := tb; bss := 0;
     name := nm; cwd := cwd x; pgtbl := g; mapping_list := ml; callback := 0; timer_call_time := u64 (-1); exit_code := exit_code x |}.

(** The caller's descriptors, but for the kernel's own process. *)
Definition exec_table (c : nat) (tc : task_struct) (q : Z) : Z := match c with O => q | _ => fdtable tc end.

Definition exec_name (path : list Z) (args : list (list Z)) : list Z := match args with [] => path | nm :: _ => nm end.

(** [exec] from the call of [elf_loader] on. *)
Definition exec_load (p : nat) (path : list Z) (argv envp : Z) : M (kstate A) (option nat) :=
  entry ← elf_loader p path;
  if entry =? u64 (-1) then proc_free p;; mret None
  else
    alloc_vm_of p USER_STACK_BOTTOM USER_STACK_TOP exec_perm;;
    t ← task p;
    new_page ← on_vm (va_to_pa (pgtbl t) (USER_STACK_TOP - PG_SIZE));
    update p (set_context (u64 (PA2VA (u64 (new_page + PG_SIZE)) - sizeof_context)));;
    fill_stack p (pgtbl t) argv envp entry.

(** [proc_free] after [free(proc->context)]. *)
Definition proc_free_rest (p : nat) : M (kstate A) unit :=
  t ← task p; on_heap (free (trapframe t));;
  t ← task p; on_heap (free (fdtable t));;
  on_links (list_del (children p));;
  on_links (list_del (tasks p));;
  update p (set_allocs UNUSED).

Lemma exec_start s i x c tc v q1 q2 nlst lk f h pts path argv envp arg0 nm : proc s !! i = Some x → cur_proc s = Some c →
  proc s !! c = Some tc → c ≠ i →
  proc_alloc s = Ok (i, st s (<[i := allocated x (last_pid s) q1 q2 nlst]> (proc s)) v lk f h pts) →
  (∀ ps, uload64 argv (st s ps v lk f h pts) = Ok (arg0, st s ps v lk f h pts)) →
  (∀ ps, (if arg0 =? 0 then Proc.fits 32 path else ustring 32 arg0) (st s ps v lk f h pts) = Ok (nm, st s ps v lk f h pts)) →
  exec path argv envp s = exec_load i path argv envp
    (st s (<[i := execed x (last_pid s) (exec_table c tc q1) q2 nlst nm]> (proc s)) v lk f h pts).
Proof.
  intros Hx Hc Htc Hci E1 E2 E3. unfold exec. rewrite (bind_ok _ _ _ _ _ E1).
  rewrite !(bind_ok _ _ _ _ _ (update_again _ _ _ _ _ _ _ i _ x _ Hx)).
  match goal with |- (_ ≫= _) ?s0 = _ => rewrite (bind_ok _ _ _ (Some c) s0) by (unfold gets; simpl; by rewrite Hc) end.
  match goal with |- (_ ≫= _) (st s (<[i := ?y]> _) _ _ _ _ _) = _ => rewrite (bind_ok _ _ _ tt
    (st s (<[i := match c with O => y | _ => set_fdtable (fdtable tc) y end]> (proc s)) v lk f h pts)) end.
  2: { destruct c as [|c]; [done|]. rewrite (bind_ok _ _ _ _ _ (task_st s _ v lk f h pts (Datatypes.S c) tc
         ltac:(rewrite list_lookup_insert_ne; done))). by rewrite (update_again _ _ _ _ _ _ _ i _ x _ Hx). }
  rewrite (bind_ok _ _ _ _ _ (E2 _)), (bind_ok _ _ _ _ _ (E3 _)), (bind_ok _ _ _ _ _ (update_again _ _ _ _ _ _ _ i _ x _ Hx)).
  unfold exec_load. by destruct c, x.
Qed.

(** The stack, after the program. *)
Lemma exec_stack s i t v lk f h pts ps path argv envp entry ps' f' h' m a h'' pa : ps' !! i = Some t → entry ≠ u64 (-1) →
  elf_loader i path (st s ps v lk f h pts) = Ok (entry, st s ps' v lk f' h' pts) →
  alloc_vm (pgtbl t) (mapping_list t) USER_STACK_BOTTOM USER_STACK_TOP exec_perm (pages f', h') = Ok (0, (m, a, h'')) →
  va_to_pa (pgtbl t) (USER_STACK_TOP - PG_SIZE) (m, a) = Ok (pa, (m, a)) →
  exec_load i path argv envp (st s ps v lk f h pts) = fill_stack i (pgtbl t) argv envp entry
    (st s (<[i := set_context (u64 (PA2VA (u64 (pa + PG_SIZE)) - sizeof_context)) t]> ps') v lk (with_pages (m, a) f') h'' pts).
Proof.
  intros Hi He E1 E2 E3. unfold exec_load. rewrite (bind_ok _ _ _ _ _ E1). destruct (Z.eqb_spec entry (u64 (-1))); [done|].
  set (s1 := st s ps' v lk (with_pages (m, a) f') h'' pts).
  rewrite (bind_ok _ _ _ 0 s1).
  2: { unfold alloc_vm_of. rewrite (bind_ok _ _ _ _ _ (task_st s ps' v lk f' h' pts i t Hi)). by apply on_heap_st. }
  rewrite (bind_ok _ _ _ t s1) by (by apply task_st).
  rewrite (bind_ok _ _ _ pa s1); [|exact (on_vm_run _ s1 pa m a h'' m a eq_refl E3)].
  unfold s1. by rewrite (bind_ok _ _ _ _ _ (update_st s ps' v lk _ h'' pts i t _ Hi)).
Qed.

(** ** The memory of the new process *)

(** What [exec] leaves alone: all but its heap and free pages, [elf_buf] and its local variables. *)
Definition spared G U l (image : list Z) (x : Z) : Prop :=
  ¬ touch G U ∅ l ∅ x ∧ ¬ (elf_buf ≤ x < elf_buf + Z.of_nat (length image)) ∧ ¬ (frame ≤ x < frame + 8).

Record statics m G U l (image : list Z) : Prop := {
  sc_buf : 0 ≤ elf_buf ∧ elf_buf + Z.of_nat (length image) < 2 ^ 64 ∧ mapped m elf_buf (Z.of_nat (length image));
  sc_frame : mapped m frame 8;
  sc_still : ∀ x, elf_buf ≤ x < elf_buf + Z.of_nat (length image) ∨ frame ≤ x < frame + 8 → ¬ touch G U ∅ l ∅ x
}.

Definition stack_page (i : Z) : Prop := USER_STACK_BOTTOM / PGSIZE ≤ i < USER_STACK_TOP / PGSIZE.

(** An executable file that leaves the stack free. *)
Record loadable (image : list Z) : Prop := {
  ld_executable : executable ∅ image;
  ld_stack : ∀ r, r ∈ headers image → is_load r → seg_end r ≤ USER_STACK_BOTTOM;
  ld_entry : field 8 24 image ≠ u64 (-1)
}.

Lemma covers_below image i : loadable image → covers (headers image) i → ¬ stack_page i.
Proof.
  intros [Hex Hb _] (r & Hr & Hl & Hi) Hs. destruct (ex_segments _ _ Hex r Hr Hl) as (Hok & _). pose proof (Hb r Hr Hl).
  destruct (seg_bounds r Hok) as (_ & ? & _ & ? & ? & _). unfold seg_range, seg_first, seg_pages, stack_page, PGSIZE, USER_STACK_BOTTOM in *. zmod.
Qed.

(** Memory that nothing touches stays quiet beside the new process. *)
Lemma quiet_start k m G U l m3 a3 h3 G3 U3 S3 l3 nT x : evolves k m G U ∅ l ∅ m3 G3 U3 S3 l3 nT → heap_ok m3 a3 h3 G3 U3 l3 →
  ¬ touch G U ∅ l ∅ x → quiet G3 U3 S3 l3 nT ∅ x ∧ m3 !! x = m !! x.
Proof. intros Ev Hh Hx. eapply quiet_later; [exact Ev|exact Hh| |]; [by intros i q ?%lookup_empty_Some|]. split; [done|]. by intros i q ?%lookup_empty_Some. Qed.

(** The program and the stack pages in a process that [proc_alloc] set up. *)
Lemma exec_memory i path s c tc t lf fd idx inode image m G U l nT m3 a3 h3 G3 U3 l3 nlst : cur_proc s = Some c → proc s !! c = Some tc →
  proc s !! i = Some t → memory s = (m3, a3, h3) → readable sector (mount s) (fs s) (fdtable tc) path lf fd idx inode ELF_BUF_SIZE image →
  process m3 a3 h3 G3 U3 {[nlst]} l3 (pgtbl t) nT ∅ (mapping_list t) [] → evolves 3 m G U ∅ l ∅ m3 G3 U3 {[nlst]} l3 nT →
  statics m G U l image → loadable image → 5 * need (headers image) + 301 ≤ Z.of_nat (length l3) →
  ∃ f' m4 a4 h4 m5 a5 h5 G5 U5 S5 l5 T5 F5 ms5 pa q, let t' := loaded (headers image) t in
    elf_loader i path s = Ok (field 8 24 image, with_heap (m4, a4, h4) (with_proc (<[i := t']> (proc s)) (with_fs f' s))) ∧
    (tables f' = <[fdtable tc := <[Z.to_nat fd := {| fds_index := idx; busy := 0 |}]> lf]> (tables (fs s)) ∧ console f' = console (fs s)) ∧
    alloc_vm (pgtbl t') (mapping_list t') USER_STACK_BOTTOM USER_STACK_TOP exec_perm (m4, a4, h4) = Ok (0, (m5, a5, h5)) ∧
    va_to_pa (pgtbl t') (USER_STACK_TOP - PG_SIZE) (m5, a5) = Ok (pa, (m5, a5)) ∧
    u64 (PA2VA (u64 (pa + PG_SIZE)) - sizeof_context) = q + PGSIZE - sizeof_context ∧
    F5 !! ((USER_STACK_TOP - PG_SIZE) / PGSIZE) = Some q ∧
    filling m (spared G U l image) m5 a5 h5 G5 U5 S5 l5 (pgtbl t) T5 F5 (mapping_list t) ms5 ∧
    (∀ r, r ∈ headers image → is_load r → user_at m5 F5 r (seg_data image r)) ∧
    ∀ n, is_Some (F5 !! n) ↔ covers (headers image) n ∨ stack_page n.
Proof.
  intros Hc Htc Hi Hs Hrd Hpr Ev [(Hb0 & Hb1 & Hbm) Hfm Hst] Hld Hlen. pose proof Hld as [Hex Hseg Hent].
  pose proof (pr_heap _ _ _ _ _ _ _ _ _ _ _ _ Hpr) as Hh3.
  pose proof (need_pos (headers image) (λ r Hr Hl, proj1 (ex_segments _ _ Hex r Hr Hl))) as Hneed.
  assert (∀ x, ¬ touch G U ∅ l ∅ x → quiet G3 U3 {[nlst]} l3 nT ∅ x ∧ m3 !! x = m !! x) as Hq3 by (intros x; by eapply quiet_start).
  destruct l3 as [|q0 l3]; [simpl in Hlen; lia|]. simpl in Hlen.
  destruct (elf_loader_ok i path s c tc t lf fd idx inode image m3 a3 h3 G3 U3 {[nlst]} q0 l3 nT ∅ [] Hc Htc Hi Hs Hrd Hpr) as
    (f' & m4 & a4 & h4 & G4 & U4 & S4 & l4 & T4 & F4 & ms4 & E4 & Hf' & Hu4 & (Hdom4 & _ & _ & _) & Hpr4 & Hl4 & Hd4 & Hq4); [|done|lia|].
  { split_and!; [done|done|eapply changes_mapped; [apply Ev|done]|]. intros x Hx. apply Hq3, Hst. by left. }
  unfold loaded in Hpr4, E4. destruct (seg_tasks_table (headers image) t) as [Et El]. fold (loaded (headers image) t) in *. rewrite Et, El in Hpr4.
  destruct (alloc_vm_run m4 a4 h4 G4 U4 S4 l4 (pgtbl t) T4 F4 (mapping_list t) ms4 USER_STACK_BOTTOM USER_STACK_TOP exec_perm Hpr4) as
    (m5 & a5 & h5 & G5 & U5 & S5 & l5 & T5 & F5 & new & E5 & Hpr5 & Hmp & _ & Ev5 & Hnew);
    [by vm_compute|done|done|by vm_compute| | |].
  { intros n Hn. apply eq_None_not_Some. intros [[? ?%lookup_empty_Some]|Hcov]%Hdom4; [done|]. by eapply covers_below. }
  { change (_ / _) with 60. lia. }
  destruct (proj2 (mp_new _ _ _ _ _ _ Hmp ((USER_STACK_TOP - PG_SIZE) / PGSIZE))) as [q Hq]; [by right|].
  destruct (page_pa m5 a5 (pgtbl t) T5 F5 _ q (pr_user _ _ _ _ _ _ _ _ _ _ _ _ Hpr5) Hq) as (pa & E6 & Hpa & Hpab).
  assert (∀ x, ¬ touch G U ∅ l ∅ x → quiet G5 U5 S5 l5 T5 F5 x ∧
    (¬ (elf_buf ≤ x < elf_buf + Z.of_nat (length image)) → m5 !! x = m !! x)) as Hq5.
  { intros x [Hx3 E3]%Hq3. destruct (Hq4 x Hx3) as [Hx4 E4'].
    destruct (quiet_later _ _ _ _ _ _ _ _ _ _ _ _ _ _ _ _ _ x Ev5 (pr_heap _ _ _ _ _ _ _ _ _ _ _ _ Hpr5) Hnew Hx4) as [Hx5 E5'].
    split; [done|]. intros Hne. by rewrite E5', E4'. }
  exists f', m4, a4, h4, m5, a5, h5, G5, U5, S5, l5, T5, F5, (new ++ ms4), pa, q. cbv zeta. rewrite Et, El.
  split_and!; [done|apply Hf'|apply Hf'|done|done|by apply context_addr|done| | |].
  - constructor; [done|..].
    + intros x (Hx & Hne & _). by apply Hq5.
    + intros x (Hx & _). by apply Hq5.
    + split; [|intros x Hx; split; [apply Hq5, Hst; by right|intros (_ & _ & Hn); done]].
      eapply changes_mapped; [apply Ev5|]. eapply mapped_dom; [symmetry; exact Hd4|]. eapply changes_mapped; [apply Ev|done].
  - intros r Hr Hl. eapply user_at_grow; [by apply Hu4|apply Hmp|]. intros n p x. apply Hmp.
  - intros n. rewrite (mp_new _ _ _ _ _ _ Hmp), Hdom4. split; [intros [[[? ?%lookup_empty_Some]|?]|?]|intros [?|?]]; auto; done.
Qed.

(** The arguments and the environment, as the caller sees them: what there is room for on the stack. *)
Record arguments m (P : Z → Prop) pg C argv envp (path : list Z) (args envs : list (list Z)) : Prop := {
  ar_caller : caller m P pg C;
  ar_args : (∃ ptrs, vector m C argv ptrs args) ∧ Z.of_nat (length args) ≤ ARGS_MAX;
  ar_envs : (∃ ptrs, vector m C envp ptrs envs) ∧ Z.of_nat (length envs) ≤ ENVS_MAX;
  ar_room : bottom_envs args + Z.of_nat (length (blob envs)) ≤ first_frame;
  ar_name : Z.of_nat (length (exec_name path args)) < 32
}.

(** [argv[0]] and the name that [exec] takes. *)
Lemma first_argument m0 P m a h pg C argv envp path args envs : arguments m0 P pg C argv envp path args envs → unchanged m0 P m →
  ∃ arg0, ∀ s, memory s = (m, a, h) → pgdl s = pg → uload64 argv s = Ok (arg0, s) ∧
    (if arg0 =? 0 then Proc.fits 32 path else ustring 32 arg0) s = Ok (exec_name path args, s).
Proof.
  intros [Hc [[ptrs Hv] _] _ _ Hnm] Hsm. destruct args as [|str args]; simpl in Hnm.
  - exists 0. intros s Hs Hpg. pose proof (vector_end m0 P s m a h pg C argv ptrs [] Hs Hpg Hc Hsm Hv) as E.
    destruct Hv as [(Hv0 & _ & Hv1) _ _]. simpl in E, Hv1. rewrite Z.add_0_r, wrap_id in E by lia. split; [done|].
    simpl. unfold Proc.fits. by destruct (Z.ltb_spec (Z.of_nat (length path)) 32); [|lia].
  - destruct ptrs as [|ptr ptrs]; [by apply vc_strings, Forall2_length in Hv|]. exists ptr. intros s Hs Hpg.
    destruct (vector_cons m0 P s m a h pg C argv _ str args Hs Hpg Hc Hsm Hv) as (? & ? & [= <- <-] & E & [Hpl [Hub Hnz] _] & _).
    split; [done|]. destruct (Z.eqb_spec ptr 0); [lia|]. change (exec_name path (str :: args)) with str.
    eapply (ustring_ok m0 P s m a h pg C); [done|done|done|done|done| |lia|lia|lia]. eapply Forall_impl; [exact Hnz|]. simpl. lia.
Qed.

(** A segment is not where [fill_stack] writes. *)
Lemma put_segment m0 P m a h G U S l root T F lst ms m' image r : fills m0 P m a h G U S l root T F lst ms m' on_stack → loadable image →
  r ∈ headers image → is_load r → user_at m F r (seg_data image r) → user_at m' F r (seg_data image r).
Proof.
  intros Hput [Hex Hb _] Hr Hl [Hd Hz]. destruct (ex_segments _ _ Hex r Hr Hl) as (Hok & Hlen & _). pose proof (Hb r Hr Hl) as Hend.
  destruct (seg_bounds r Hok) as (_ & Hs & He & _). pose proof (sg_size _ Hok). split.
  - eapply put_ubytes; [exact Hput|exact Hd|]. unfold seg_data. rewrite length_take, length_drop. unfold on_stack. intros y Hy Hy'. lia.
  - intros y Hy Hn. eapply pu_keep; [exact Hput|unfold on_stack; lia|]. by apply Hz.
Qed.

(** [exec] up to [elf_loader]: the slot, and the memory of a process without pages. *)
Lemma exec_begin s i x c tc m a h G U q1 q2 l C image path argv envp args envs :
  find_from is_unused (proc s) 0 = Some i → proc s !! i = Some x → cur_proc s = Some c → proc s !! c = Some tc → allocs tc = USED →
  (children i ∈ dom (links s) ∧ tasks i ∈ dom (links s)) →
  memory s = (m, a, h) → heap_ok m a h G U (q1 :: q2 :: l) → l ≠ [] →
  arguments m (spared G U (q1 :: q2 :: l) image) (pgdl s) C argv envp path args envs →
  ∃ nlst m3 a3 h3 G3 l3 U3 lk, let e := execed x (last_pid s) (exec_table c tc q1) q2 nlst (exec_name path args) in
    let s' := st s (<[i := e]> (proc s)) (s32 (last_pid s + 1)) lk (with_table q1 (m3, a3) (fs s)) h3 (points s) in
    exec path argv envp s = exec_load i path argv envp s' ∧ (proc s' !! c = Some tc ∧ proc s' !! i = Some e) ∧
    (dom lk = dom (links s) ∧ circ lk (children i) [] ∧ ∀ y, y ≠ children i → y ≠ tasks i → lk !! y = links s !! y) ∧
    process m3 a3 h3 G3 U3 {[nlst]} l3 q2 {[ [] := q2 ]} ∅ nlst [] ∧ (length l ≤ length l3 + 1)%nat ∧
    evolves 3 m G U ∅ (q1 :: q2 :: l) ∅ m3 G3 U3 {[nlst]} l3 {[ [] := q2 ]}.
Proof.
  intros Hfind Hx Hc Htc Hused [Hdc Hdt] Hs Hheap Hl Har. pose proof (free_slot _ _ _ _ Hfind Htc Hused) as Hci.
  destruct (proc_alloc_ok s i x m a h G U q1 q2 l Hfind Hx Hs Hheap Hl Hdc Hdt) as
    (nlst & m3 & a3 & h3 & G3 & l3 & U3 & lk & E1 & Hlk & Hnew & _ & Hl3 & Ev).
  assert (unchanged m (spared G U (q1 :: q2 :: l) image) m3) as Hsm3 by (intros y (Hy & _); by apply Ev).
  destruct (first_argument _ _ m3 a3 h3 (pgdl s) C argv envp path args envs Har Hsm3) as (arg0 & Harg).
  set (f3 := with_table q1 (m3, a3) (fs s)) in *. set (v := s32 (last_pid s + 1)) in *.
  exists nlst, m3, a3, h3, G3, l3, U3, lk. split_and!; [|by simpl; rewrite list_lookup_insert_ne| |apply Hlk..|done|done|done].
  - exact (exec_start s i x c tc v q1 q2 nlst lk f3 h3 (points s) path argv envp arg0 (exec_name path args) Hx Hc Htc Hci E1
      (λ ps, proj1 (Harg (st s ps v lk f3 h3 (points s)) eq_refl eq_refl)) (λ ps, proj2 (Harg (st s ps v lk f3 h3 (points s)) eq_refl eq_refl))).
  - apply list_lookup_insert_eq. by eapply lookup_lt_Some.
Qed.

(** [proc_free] up to the context, for a process with an address space. *)
Lemma proc_free_space s i t m a h G U S l T F ms : proc s !! i = Some t → memory s = (m, a, h) →
  process m a h G U S l (pgtbl t) T F (mapping_list t) ms →
  ∃ m1 a1 h1 l1 m2 h2, let s1 := with_heap (m1, a1, h1) s in let s2 := with_heap (m2, a1, h2) s in
    on_heap (pgtbl_free (pgtbl t) (mapping_list t)) s = Ok (tt, s1) ∧ avail m1 a1 l1 ∧
    (∀ p, p ∈ l1 ↔ p ∈ l ∨ owns T F p) ∧
    on_heap (free (mapping_list t)) s1 = Ok (tt, s2) ∧ proc_free i s = (on_heap (free (context t));; proc_free_rest i) s2 ∧ dom m2 = dom m.
Proof.
  intros Hi Hs Hpr.
  destruct (pgtbl_free_ok m a h G U S l _ T F _ ms Hpr) as (m1 & a1 & h1 & U1 & l1 & E1 & Hh1 & (es & S0 & Hml & _) & Hl1 & _ & C1).
  destruct (heap_free_runs m1 a1 h1 G U1 l1 _ 16 Hh1 (mls_list _ _ _ _ _ Hml)) as (m2 & h2 & E2 & Hd2).
  pose proof (on_heap_run (pgtbl_free (pgtbl t) (mapping_list t)) s tt (m1, a1, h1) ltac:(by rewrite Hs)) as E1'.
  pose proof (on_heap_run (free (mapping_list t)) (with_heap (m1, a1, h1) s) tt (m2, a1, h2) E2) as E2'.
  exists m1, a1, h1, l1, m2, h2. split_and!; [exact E1'|by eapply heap_avail|exact Hl1|exact E2'| |by rewrite Hd2, (proj1 C1)].
  unfold proc_free. rewrite (bind_ok _ _ _ _ _ (task_run s i t Hi)), (bind_ok _ _ _ _ _ E1').
  rewrite (bind_ok _ _ _ t (with_heap (m1, a1, h1) s)) by (by apply task_run). rewrite (bind_ok _ _ _ _ _ E2').
  by rewrite (bind_ok _ _ _ t (with_heap (m2, a1, h2) s)) by (by apply task_run).
Qed.

(** The header below address 0. *)
Lemma free_null s m a h : memory s = (m, a, h) → m !! (2 ^ 64 - 8) = None →
  on_heap (free 0) s = Err (Fault (2 ^ 64 - 8)).
Proof.
  intros Hs Hnull. unfold on_heap, zoom, free. change (pages (fs s), kheap s) with (memory s). rewrite Hs.
  rewrite (bind_err _ _ _ (Fault (2 ^ 64 - 8))); [done|]. unfold on_memory, on_pages, in_mem, zoom. simpl.
  by rewrite load_none.
Qed.
End exec.

(** ** Properties *)
Section properties.
Context {A : Type} `{PageAllocator A} `{Machine}.
Implicit Types (m : mem) (a : A) (h : mheap) (U : gmap Z Z) (S : gset Z) (G l : list Z) (s : kstate A).
Implicit Types (T : gmap (list Z) Z) (F C : gmap Z Z) (ms : list mapping).

(** C8: [exec] as a whole.  Let a slot be free, let the caller (the current process, or the kernel's
    own) see the vectors [argv] and [envp] of at most [ARGS_MAX] and [ENVS_MAX] strings that fit
    the stack, let the path lead to an executable that leaves the stack free, and let there be
    free pages: two for the descriptor table and the page table, five for each page of the program
    and of the stack, two more.  Then [exec] returns the first free slot.  Its process has the next
    pid, is a child of the kernel's, runnable, has the caller's descriptors (its own if the kernel
    calls) and the first argument for a name; heap, page table, mapping list and free pages are in
    order, and exactly the pages of the program and of the stack are mapped.  The process sees the
    segments of the file, and on its stack the strings, [argc] and the vectors with their [NULL]s,
    a context that the kernel reaches at [context] and that goes on in [exec_helper], and a trap
    frame that enters the program at [e_entry] with 4 in [prmd] and with [sp] on the vectors.  Memory outside
    the heap and the free pages, [elf_buf] and the locals is what it was: no other process is
    touched. *)
Theorem exec_correct s i x c tc m a h G U q1 q2 l C path lf fd idx inode image argv envp args envs :
  find_from is_unused (proc s) 0 = Some i → proc s !! i = Some x → cur_proc s = Some c → proc s !! c = Some tc → allocs tc = USED →
  (children i ∈ dom (links s) ∧ tasks i ∈ dom (links s)) →
  memory s = (m, a, h) → heap_ok m a h G U (q1 :: q2 :: l) → 5 * need (headers image) + 302 ≤ Z.of_nat (length l) →
  readable sector (mount s) (fs s) (fdtable tc) path lf fd idx inode ELF_BUF_SIZE image → fdtable tc ≠ q1 →
  statics m G U (q1 :: q2 :: l) image → loadable image →
  arguments m (spared G U (q1 :: q2 :: l) image) (pgdl s) C argv envp path args envs →
  ∃ nlst q lk f' m' a' h' G' U' S' l' T' F' ms',
    let t := loaded (headers image) (execed x (last_pid s) (exec_table c tc q1) q2 nlst (exec_name path args)) in
    exec path argv envp s = Ok (Some i, st s (<[i := set_context (q + PGSIZE - sizeof_context) t]> (proc s))
      (s32 (last_pid s + 1)) lk (with_pages (m', a') f') h' (<[i := InUser]> (points s))) ∧
    tables f' = <[fdtable tc := <[Z.to_nat fd := {| fds_index := idx; busy := 0 |}]> lf]> (<[q1 := std_table]> (tables (fs s))) ∧
    console f' = console (fs s) ∧
    (dom lk = dom (links s) ∧ circ lk (children i) [] ∧ ∀ y, y ≠ children i → y ≠ tasks i → lk !! y = links s !! y) ∧
    process m' a' h' G' U' S' l' q2 T' F' nlst ms' ∧
    (∀ n, is_Some (F' !! n) ↔ covers (headers image) n ∨ stack_page n) ∧
    F' !! ((USER_STACK_TOP - PG_SIZE) / PGSIZE) = Some q ∧
    (∀ r, r ∈ headers image → is_load r → user_at m' F' r (seg_data image r)) ∧
    stacked m' F' args envs (field 8 24 image) ∧
    ∀ y, spared G U (q1 :: q2 :: l) image y → m' !! y = m !! y.
Proof.
  intros Hfind Hx Hc Htc Hused Hlinks Hs Hheap Hlen Hrd Hne Hsc Hld Har.
  assert (l ≠ []) as Hl.
  { intros ->. pose proof (need_pos (headers image) (λ r Hr Hl, proj1 (ex_segments _ _ (ld_executable _ Hld) r Hr Hl))). simpl in Hlen. lia. }
  destruct (exec_begin s i x c tc m a h G U q1 q2 l C image path argv envp args envs Hfind Hx Hc Htc Hused Hlinks Hs Hheap Hl Har) as
    (nlst & m3 & a3 & h3 & G3 & l3 & U3 & lk & -> & [Htc4 Hi4] & Hlk & Hnew & Hl3 & Ev).
  set (f3 := with_table q1 (m3, a3) (fs s)) in *. set (v := s32 (last_pid s + 1)) in *.
  set (e := execed x (last_pid s) (exec_table c tc q1) q2 nlst (exec_name path args)) in *.
  set (s4 := st s (<[i := e]> (proc s)) v lk f3 h3 (points s)) in *.
  destruct (exec_memory i path s4 c tc e lf fd idx inode image m G U (q1 :: q2 :: l) {[ [] := q2 ]} m3 a3 h3 G3 U3 l3 nlst) as
    (f' & m4 & a4 & h4 & m5 & a5 & h5 & G5 & U5 & S5 & l5 & T5 & F5 & ms5 & pa & q & E4 & [Hf1 Hf2] & E5 & E6 & Hctx & Hq & Hfill & Hseg & Hdom);
    [done|done|done|done| |exact Hnew|exact Ev|exact Hsc|exact Hld|lia|].
  { destruct Hrd as [R1 R2 [R3 R3'] R4 R5]. constructor; [done|done|split; [|done]|done|done]. simpl. by rewrite lookup_insert_ne. }
  unfold s4 in E4 |- *.
  set (t := loaded (headers image) e) in *.
  rewrite (exec_stack s i t v lk f3 h3 (points s) (<[i := e]> (proc s)) path argv envp (field 8 24 image)
    (<[i := t]> (<[i := e]> (proc s))) (with_pages (m4, a4) f') h4 m5 a5 h5 pa) ; [|apply list_lookup_insert_eq; by eapply lookup_lt_Some|apply Hld|exact E4|exact E5|exact E6].
  assert (pgtbl t = q2) as -> by apply (seg_tasks_table (headers image) e).
  rewrite Hctx, !list_insert_insert_eq. set (s5 := st s _ v lk _ h5 (points s)).
  pose proof Har as [Hcl [[aptrs Hav] Hna] [[eptrs Hev] Hne'] Hroom _].
  destruct (fill_stack_ok _ _ i (pgdl s) C s5 m5 a5 h5 G5 U5 S5 l5 q2 T5 F5 nlst ms5 argv envp aptrs eptrs args envs (field 8 24 image) eq_refl eq_refl Hcl
    Hfill Hav Hev Hna Hne' Hroom) as (m6 & E7 & Hst & Hput).
  { intros y Hy. apply Hdom. right. unfold on_stack, stack_page, USER_STACK_TOP, USER_STACK_BOTTOM, PGSIZE in *. zmod. }
  pose proof (pu_filling _ _ _ _ _ _ _ _ _ _ _ _ _ _ _ _ Hput) as [Hpr6 Hsm6 _ _].
  exists nlst, q, lk, f', m6, a5, h5, G5, U5, S5, l5, T5, F5, ms5.
  split_and!; [exact E7|done|done|apply Hlk..|done|exact Hdom|done| |done|exact Hsm6].
  intros r Hr Hload. eapply put_segment; [exact Hput|done..|]. by apply Hseg.
Qed.

(** C9: [exec] of a path that leads nowhere.  [elf_loader] reports it, and [exec] calls
    [proc_free] on the new process, which is runnable and has neither context nor trap frame yet.
    The address space and the mapping list are given back ([s1] and [s2]): its page table is free
    again while the slot still is in use and names it.  Then [exec] goes on with [free(NULL)],
    which reads the word before address 0; where that is not memory, the access traps. *)
Theorem exec_missing s i x c tc m a h G U q1 q2 l C path r argv envp args envs :
  find_from is_unused (proc s) 0 = Some i → proc s !! i = Some x → cur_proc s = Some c → proc s !! c = Some tc → allocs tc = USED →
  (children i ∈ dom (links s) ∧ tasks i ∈ dom (links s)) →
  memory s = (m, a, h) → heap_ok m a h G U (q1 :: q2 :: l) → l ≠ [] →
  ext2_path_lookup sector (mount s) path = Ok r → (∀ inode, r ≠ (0, Some inode)) → m !! (2 ^ 64 - 8) = None →
  arguments m (spared G U (q1 :: q2 :: l) []) (pgdl s) C argv envp path args envs →
  ∃ nlst lk s0 s1 s2 l1,
    let t := execed x (last_pid s) (exec_table c tc q1) q2 nlst (exec_name path args) in
    (∃ f h0, s0 = st s (<[i := t]> (proc s)) (s32 (last_pid s + 1)) lk f h0 (points s)) ∧
    exec path argv envp s = (proc_free i;; mret None) s0 ∧
    on_heap (pgtbl_free q2 nlst) s0 = Ok (tt, s1) ∧ avail (memory s1).1.1 (memory s1).1.2 l1 ∧ q2 ∈ l1 ∧
    on_heap (free nlst) s1 = Ok (tt, s2) ∧ proc s2 = proc s0 ∧
    exec path argv envp s = ((on_heap (free 0);; proc_free_rest i);; mret None) s2 ∧
    on_heap (free 0) s2 = Err (Fault (2 ^ 64 - 8)).
Proof.
  intros Hfind Hx Hc Htc Hused Hlinks Hs Hheap Hl Hlook Hr Hnull Har.
  destruct (exec_begin s i x c tc m a h G U q1 q2 l C [] path argv envp args envs Hfind Hx Hc Htc Hused Hlinks Hs Hheap Hl Har) as
    (nlst & m3 & a3 & h3 & G3 & l3 & U3 & lk & E0 & [Htc4 Hi4] & _ & Hnew & _ & Ev).
  set (s4 := st s _ _ lk _ h3 _) in *.
  assert (exec path argv envp s = (proc_free i;; mret None) s4) as E.
  { rewrite E0. unfold exec_load. rewrite (bind_ok _ _ _ (u64 (-1)) s4), Z.eqb_refl; [done|].
    unfold elf_loader. rewrite (bind_ok _ _ _ _ _ (my_fdtable_ok s4 c tc Hc Htc4)), (bind_ok _ _ _ (mount s4) s4) by done.
    rewrite (bind_ok _ _ _ (-1) s4); [done|]. rewrite (on_fs_ok _ s4 (-1) _ (fs s4) eq_refl); [done|]. unfold openat, open.
    rewrite (bind_ok _ _ _ r (fs s4)) by (unfold lift; simpl; by rewrite Hlook). destruct r as [[|?|?] [inode|]]; try done. by destruct (Hr inode). }
  destruct (proc_free_space s4 i _ m3 a3 h3 G3 U3 _ l3 _ _ _ Hi4 eq_refl Hnew) as
    (m1 & a1 & h1 & l1 & m2 & h2 & E1 & Hav & Hl1 & E2 & E3 & Hd).
  exists nlst, lk, s4, (with_heap (m1, a1, h1) s4), (with_heap (m2, a1, h2) s4), l1.
  split_and!; [by eexists _, _|exact E|exact E1|exact Hav| |exact E2|done| |].
  - apply Hl1. right. left. exists []. apply lookup_singleton_eq.
  - rewrite E. unfold mbind at 1, M_bind at 1. by rewrite E3.
  - eapply free_null; [done|]. apply not_elem_of_dom. rewrite Hd.
    rewrite (proj1 (ev_mem _ _ _ _ _ _ _ _ _ _ _ _ _ Ev)). by apply not_elem_of_dom.
Qed.
End properties.

(** ** A sample: the file of [sample_elf_disk], the arguments in a page beside the heap *)

(** A free page that is taken and filled. *)
Lemma page_filled {A : Type} `{PageAllocator A} (m : mem) (a : A) h G U q l data : heap_ok m a h G U (q :: l) → Z.of_nat (length data) ≤ PGSIZE →
  ∃ m' a', heap_ok m' a' h G U l ∧ mem_at m' q data ∧ dom m' = dom m ∧ kpage q ∧ q ∉ G ∧ ∀ x, in_page q x → ¬ touch G U ∅ l ∅ x.
Proof.
  intros Hh Hlen. pose proof (heap_avail _ _ _ _ _ _ Hh) as Hav. destruct (avail_pages _ _ _ Hav) as [Hnd Hk].
  destruct (page_alloc_ok m a q l PGSIZE Hav) as (m1 & a1 & E & Hav1 & Ho & Hd); [done|].
  destruct (Hk q ltac:(by left)) as [Hqk Hqm]. apply NoDup_cons in Hnd as [Hnq _].
  assert (mapped m1 q (Z.of_nat (length data))) as Hm1 by (eapply mapped_sub; [by eapply mapped_dom|lia|lia]).
  assert (changes (in_page q) m1 (write_bytes q data m1)) as C1.
  { apply changes_write; [done|]. intros x Hx. unfold in_page. lia. }
  assert (heap_ok (write_bytes q data m1) a1 h G U l) as Hh1.
  { eapply heap_page_ok; [exact Hh| |eapply changes_trans; [by split|exact C1]].
    eapply avail_frame; [done|apply C1|]. intros p x Hp Hx. apply C1. intros Hqx. destruct (Hk p ltac:(by right)) as [Hpk _].
    eapply (kpage_disjoint q p); [done|done| |done|done]. by intros ->. }
  exists (write_bytes q data m1), a1. destruct (free_page _ _ _ _ _ _ q Hh ltac:(by left)) as (_ & HqG & _).
  split_and!; [done|apply write_bytes_at|rewrite write_bytes_dom; [done|exact Hm1]|done|done|].
  intros x Hx. eapply (touch_page _ _ _ _ _ _ _ _ q); [exact Hh1| |done|done|done|apply empty_tables|done].
  intros p Hp. by destruct (empty_tables p).
Qed.

Definition sample_machine (p : Z) : Machine := {|
  translate := λ _ _ a, Some a; elf_buf := p; exec_helper := 0; frame := p + 128; sector := sample_elf_disk;
  run_handler := λ _ _, mret tt; patience := 0
|}.
Definition sample_execing (m : mem) (a : Z) (h : mheap) : kstate Z :=
  Build_kstate [set_fdtable 64 (set_allocs USED task0); task0] 1 (Some 0%nat)
    (list_to_map ((λ x, (x, Build_list_head x x)) <$> [children 1; tasks 1]))
    {| fds := set_alloc 1 file0 :: replicate 3 file0; tables := {[ 64 := replicate 256 entry0 ]}; inodes := ∅; pages := (m, a);
       console := {| rx := []; tx := []; getstr_buf := [] |} |}
    h 0 0 0 0 0 ∅ sample_mount.

(** [argv] at [q], [envp] 16 bytes on, then the strings "sh" and "A=1". *)
Definition sample_args : list (list Z) := [[115; 104]].
Definition sample_envs : list (list Z) := [[65; 61; 49]].
Definition sample_data (q : Z) : list Z :=
  (words [q + 32] ++ le_split 8 0) ++ (words [q + 35] ++ le_split 8 0) ++ ([115; 104] ++ [0]) ++ ([65; 61; 49] ++ [0]).

Lemma sample_arguments path p q m P pg : mem_at m q (sample_data q) → kpage q → (∀ x, in_page q x → P x) →
  arguments (H0 := sample_machine p) m P pg {[ q / PGSIZE := q ]} q (q + 16) path sample_args sample_envs.
Proof.
  intros Hat (Hq0 & Hq1 & Hq2) HP. unfold MAIN_KERNEL_DMW, PGSIZE in *.
  assert (ubytes m {[ q / PGSIZE := q ]} q (sample_data q)) as Hu.
  { intros i b Hi. pose proof (lookup_lt_Some _ _ _ Hi) as Hlt. change (length (sample_data q)) with 39%nat in Hlt. exists q.
    replace ((q + Z.of_nat i) / PGSIZE) with (q / PGSIZE) by (unfold PGSIZE; zmod). rewrite lookup_singleton_eq. split; [done|].
    replace ((q + Z.of_nat i) mod PGSIZE) with (Z.of_nat i) by (unfold PGSIZE; zmod). by apply Hat. }
  unfold sample_data in Hu. apply ubytes_app_iff in Hu as [Hu1 Hu]. apply ubytes_app_iff in Hu as [Hu2 Hu].
  apply ubytes_app_iff in Hu as [Hu3 Hu4]. rewrite <- !Z.add_assoc in Hu4. simpl in Hu2, Hu3, Hu4. rewrite <- Z.add_assoc in Hu3. simpl in Hu3.
  constructor.
  - constructor.
    + intros m' va q' _ Hva [E <-]%lookup_singleton_Some. simpl. f_equal. unfold PGSIZE in *. zmod.
    + intros n q' x [_ <-]%lookup_singleton_Some Hx. by apply HP.
  - split; [|done]. exists [q + 32]. constructor; [simpl; split_and!; [lia|zmod|lia]|exact Hu1|]. constructor; [|constructor].
    constructor; [simpl; lia|split; [exact Hu3|by repeat constructor]|done].
  - split; [|done]. exists [q + 35]. constructor; [simpl; split_and!; [lia|zmod|lia]|exact Hu2|]. constructor; [|constructor].
    constructor; [simpl; lia|split; [exact Hu4|by repeat constructor]|done].
  - by_decide.
  - by_decide.
Qed.

Lemma exec_correct_witness : ∃ (p q : Z) (m : mem) (a : Z) h s' m' F',
  exec (H0 := sample_machine p) [47; 97] q (q + 16) (sample_execing m a h) = Ok (Some 1%nat, s') ∧
  name <$> proc s' !! 1%nat = Some [115; 104] ∧ ubytes m' F' 0x10010 [1; 2; 3; 4] ∧
  ubytes m' F' user_stack (words [1; USER_STACK_BOTTOM; 0; USER_STACK_BOTTOM + 3; 0]) ∧
  ubytes m' F' USER_STACK_BOTTOM [115; 104; 0; 65; 61; 49; 0].
Proof.
  destruct (sample_block 332 144) as (p & root & lst & m0 & a0 & h & G & U & S & [|q [|q1 [|q2 l]]] & T & Hpr & Hl & HU & Hp);
    [done..|simpl in Hl; lia|simpl in Hl; lia|simpl in Hl; lia|].
  pose proof (pr_heap _ _ _ _ _ _ _ _ _ _ _ _ Hpr) as Hh0.
  destruct (heap_block _ _ _ _ _ _ _ _ Hh0 HU) as (_ & Hp0 & Hp1 & Hm & g & Hg & Hpg).
  destruct (page_filled m0 a0 h G U q (q1 :: q2 :: l) (sample_data q) Hh0) as (m & a & Hh & Hat & Hd & Hqk & HqG & Hqt); [by_decide|].
  assert (in_page q1 q1 ∧ kpage q1) as [_ (_ & Hq1 & _)].
  { split; [unfold in_page, PGSIZE; lia|]. apply (avail_pages _ _ _ (heap_avail _ _ _ _ _ _ Hh)). by left. }
  assert (∀ x, in_page q x → ¬ (p ≤ x < p + 144)) as Hqp.
  { intros x Hx Hx'. eapply (heap_page_cell m a h G U _ g q x); [done|done|unfold in_page; lia|done|done|done]. }
  destruct (exec_correct (H0 := sample_machine p) (sample_execing m a h) 1 task0 0 (set_fdtable 64 (set_allocs USED task0)) m a h G U q1 q2 l
    {[ q / PGSIZE := q ]} [47; 97] (replicate 256 entry0) 0 1 (inode_of (drop 256 sample_inodes)) sample_elf q (q + 16) sample_args sample_envs) as
    (nlst & q' & lk & f' & m' & a' & h' & _ & _ & _ & _ & _ & F' & _ & E & _ & _ & _ & _ & _ & _ & Hu & Hst & _).
  - done.
  - done.
  - done.
  - done.
  - done.
  - split; by_decide.
  - done.
  - exact Hh.
  - rewrite sample_headers. change (need _) with 5. simpl in Hl. lia.
  - constructor; [apply sample_lookup|apply sample_contents|split; [done|done]|done|done].
  - simpl. unfold MAIN_KERNEL_DMW in Hq1. lia.
  - constructor.
    + simpl. split_and!; [lia|lia|]. eapply mapped_sub; [by eapply mapped_dom|lia|lia].
    + simpl. eapply mapped_sub; [by eapply mapped_dom|lia|lia].
    + simpl. intros x Hx Ht. eapply (touch_blocks m a h G U ∅ {[p]} (q1 :: q2 :: l) ∅ x); [done| |set_solver|done|].
      * intros r Hr. by destruct (empty_tables r).
      * exists p, 144. split_and!; [set_solver|done|lia|lia].
  - constructor; [apply sample_executable|rewrite sample_headers; intros r ->%list_elem_of_singleton _; by_decide|by_decide].
  - apply sample_arguments; [done|done|]. intros x Hx. pose proof (Hqp x Hx). split_and!; [by apply Hqt|simpl; lia|simpl; lia].
  - destruct Hst as [Hs1 Hs2 _ _]. rewrite sample_headers in Hu. destruct (Hu _ ltac:(by left) ltac:(done)) as [Hd1 _].
    exists p, q, m, a, h. eexists _, m', F'. clear -E Hs1 Hs2 Hd1.
    split_and!; [exact E|done|exact Hd1|exact Hs2|exact Hs1].
Defined.

Example sample_missing : ext2_path_lookup sample_elf_disk sample_mount [47; 98] = Ok (-1, None).
Proof. by vm_compute. Qed.

Lemma exec_missing_witness : ∃ (q : Z) (m : mem) (a : Z) h,
  ∃ s2, exec (H0 := sample_machine 0) [47; 98] q (q + 16) (sample_execing m a h) =
      ((on_heap (free 0);; proc_free_rest 1);; mret None) s2 ∧
    on_heap (free 0) s2 = Err (Fault (2 ^ 64 - 8)).
Proof.
  destruct (sample_memory 6) as (m0 & a0 & [|q [|q1 [|q2 l]]] & [Hav Hl] & Hout); [done..|].
  destruct (page_filled m0 a0 mheap_init [] ∅ q (q1 :: q2 :: l) (sample_data q) (heap_init m0 a0 _ Hav)) as
    (m & a & Hh & Hat & Hd & Hqk & _ & Hqt); [by_decide|].
  exists q, m, a, mheap_init.
  destruct (exec_missing (H0 := sample_machine 0) (sample_execing m a mheap_init) 1 task0 0 (set_fdtable 64 (set_allocs USED task0)) m a mheap_init
    [] ∅ q1 q2 l {[ q / PGSIZE := q ]} [47; 98] (-1, None) q (q + 16) sample_args sample_envs) as
    (nlst & lk & s0 & s1 & s2 & l1 & _ & _ & _ & _ & _ & _ & _ & E & F).
  - done.
  - done.
  - done.
  - done.
  - done.
  - split; by_decide.
  - done.
  - exact Hh.
  - intros ->. simpl in Hl. lia.
  - apply sample_missing.
  - by intros inode.
  - apply not_elem_of_dom. rewrite Hd. apply not_elem_of_dom, Hout. by_decide.
  - apply sample_arguments; [done|done|]. intros x Hx. destruct Hqk as (_ & Hq & _). unfold in_page, MAIN_KERNEL_DMW in *.
    split_and!; [by apply Hqt|simpl; lia|simpl; lia].
  - by exists s2.
Defined.
