(* ===== verification/SysNo.v ===== *)
(** * include/syscall.h: the numbers of the system calls that have a handler *)

From S2P Require Import Prelude.

Definition SYS_getcwd := 17.
Definition SYS_dup := 23.
Definition SYS_dup3 := 24.
Definition SYS_fcntl := 25.
Definition SYS_ioctl := 29.
Definition SYS_mkdirat := 34.
Definition SYS_unlinkat := 35.
Definition SYS_faccessat := 48.
Definition SYS_chdir := 49.
Definition SYS_openat := 56.
Definition SYS_close := 57.
Definition SYS_pipe2 := 59.
Definition SYS_getdents64 := 61.
Definition SYS_lseek := 62.
Definition SYS_read := 63.
Definition SYS_write := 64.
Definition SYS_writev := 66.
Definition SYS_sendfile := 71.
Definition SYS_ppoll := 73.
Definition SYS_readlinkat := 78.
Definition SYS_fstat := 80.
Definition SYS_exit := 93.
Definition SYS_exit_group := 94.
Definition SYS_set_tid_address := 96.
Definition SYS_set_robust_list := 99.
Definition SYS_nanosleep := 101.
Definition SYS_setitimer := 103.
Definition SYS_clock_gettime := 113.
Definition SYS_tgkill := 131.
Definition SYS_rt_sigaction := 134.
Definition SYS_rt_sigprocmask := 135.
Definition SYS_reboot := 142.
Definition SYS_setgid := 144.
Definition SYS_setuid := 146.
Definition SYS_setpgid := 154.
Definition SYS_getpgid := 155.
Definition SYS_newuname := 160.
Definition SYS_gettimeofday := 169.
Definition SYS_getpid := 172.
Definition SYS_getppid := 173.
Definition SYS_getuid := 174.
Definition SYS_geteuid := 175.
Definition SYS_getgid := 176.
Definition SYS_gettid := 178.
Definition SYS_brk := 214.
Definition SYS_munmap := 215.
Definition SYS_clone := 220.
Definition SYS_execve := 221.
Definition SYS_mmap := 222.
Definition SYS_mprotect := 226.
Definition SYS_wait4 := 260.
Definition SYS_prlimit64 := 261.
Definition SYS_getrandom := 278.
Definition SYS_statx := 291.
