(* ===== verification/Syscall.v ===== *)
(** * core/syscall.c, core/time.c, core/trap.c: system calls and traps

    A handler reads its arguments from the trap frame of the caller
    ([argraw]) and returns the value for [a0]; one that reaches [yield] stops
    there ([control]) and goes on in [resume_at].  Messages on the console
    are not represented. *)

From S2P Require Import Prelude Mem CString KList PageAlloc Vm Malloc MList AddrSpace Ext2 Uart Fs Proc Exec SysNo.

Definition SIGALRM := 14.
Definition POLLIN := 1.
Definition sizeof_rusage := 144.
Definition off_a7 := 80.

(** include/asm/exception.h, include/asm/cpu.h *)
Definition E_PIL := 0x01.
Definition E_PIS := 0x02.
Definition E_PIF := 0x03.
Definition E_ADE := 0x08.
Definition E_ALE := 0x09.
Definition E_SYS := 0x0B.
Definition E_INE := 0x0D.
Definition E_FPD := 0x0F.
Definition HWI_VEC := 0x3fc.
Definition TI_VEC := Z.shiftl 1 11.
Definition CSR_ESTAT_ECODE := Z.shiftl 0x3f 16.
Definition CSR_ESTAT_ESUBCODE := Z.shiftl 0x1ff 22.

Section program.
Context {A : Type} `{PageAllocator A} `{Machine}.
Abbreviation K := (M (kstate A)).

(** ** Arguments *)
Definition get_trapframe : K Z := gets cur_sp.

Definition argraw (n : Z) : K Z :=
  if (0 <=? n) && (n <=? 5)
  then tf ← get_trapframe; uload64 (tf + off_a0 + 8 * n) else panic.
Definition argint (n : Z) : K Z := v ← argraw n; mret (s32 v).
Definition argaddr (n : Z) : K Z := argraw n.
(** The [max] bytes [argstr] copies. *)
Definition argstr (n max : Z) : K (list Z) := a ← argaddr n; uread (Z.to_nat max) a.

Definition slash : Z := 47.

(** [get_path] to a buffer of 256 bytes. *)
Definition get_path (p : nat) (ref_path : Z) : K (list Z) :=
  c ← uload8 ref_path;
  if negb (c =? slash) then
    t ← task p;
    r ← ustring 256 ref_path;
    fits 256 (cwd t ++ (if bool_decide (cwd t = [slash]) then [] else [slash]) ++ r)
  else ustring 256 ref_path.

(** ** Files *)
Definition vaddr (pg : Z) (m : mem) (p : Z) : option Z := translate m pg p.

Definition sys_openat : K Z :=
  p ← my_proc; dirfd ← argint 0; flags ← argint 2;
  a ← argraw 1; path ← get_path p a;
  t ← my_fdtable; e2 ← gets mount;
  r ← on_fs (openat sector e2 t dirfd path flags); mret (u64 r).
Definition sys_close : K Z :=
  fd ← argint 0; t ← my_fdtable; r ← on_fs (close t fd); mret (u64 r).
Definition sys_read : K Z :=
  fd ← argint 0; buf ← argaddr 1; count ← argraw 2;
  t ← my_fdtable; e2 ← gets mount; pg ← gets pgdl;
  on_fs (read sector e2 (vaddr pg) t fd buf count).
Definition write_fd (fd buf count : Z) : K Z :=
  t ← my_fdtable; pg ← gets pgdl; on_fs (write (vaddr pg) t fd buf count).
Definition sys_write : K Z :=
  fd ← argint 0; buf ← argaddr 1; count ← argraw 2; write_fd fd buf count.
Definition sys_lseek : K Z :=
  fd ← argint 0; offset ← argint 1; whence ← argint 2;
  t ← my_fdtable; r ← on_fs (lseek t fd offset whence); mret (u64 r).
Definition sys_fcntl : K Z :=
  fd ← argint 0; cmd ← argint 1; arg ← argint 2;
  t ← my_fdtable; r ← on_fs (fcntl t fd cmd arg); mret (u64 r).
Definition sys_dup3 : K Z :=
  oldfd ← argint 0; newfd ← argint 1; flags ← argint 2;
  t ← my_fdtable; r ← on_fs (dup3 t oldfd newfd flags); mret (u64 r).
Definition sys_dup2 : K Z :=
  oldfd ← argint 0; newfd ← argint 1;
  t ← my_fdtable; r ← on_fs (dup3 t oldfd newfd 0); mret (u64 r).
Definition sys_dup : K Z :=
  fd ← argint 0; t ← my_fdtable; r ← on_fs (dup t fd); mret (u64 r).

Fixpoint writev_loop (n : nat) (fd iov : Z) : K unit :=
  match n with
  | O => mret tt
  | S n => base ← uload64 iov; len ← uload64 (u64 (iov + 8));
           write_fd fd base len;; writev_loop n fd (u64 (iov + 16))
  end.
Definition sys_writev : K Z :=
  fd ← argint 0; iov ← argraw 1; len ← argraw 2; writev_loop (Z.to_nat len) fd iov;; mret 0.

(** [buf] is a local array: one byte at [frame]. *)
Fixpoint sendfile_loop (fuel : nat) (out_fd in_fd total_len : Z) : K Z :=
  match fuel with
  | O => fail Fuel
  | S fuel =>
      t ← my_fdtable; e2 ← gets mount;
      this_len ← on_fs (read sector e2 (λ _ a, Some a) t in_fd frame 1);
      if this_len =? 0 then mret total_len
      else on_fs (write (λ _ a, Some a) t out_fd frame this_len);;
           sendfile_loop fuel out_fd in_fd (u64 (total_len + this_len))
  end.
Definition sys_sendfile : K Z :=
  out_fd ← argint 0; in_fd ← argint 1; offset ← argraw 2;
  if negb (offset =? 0) then panic else sendfile_loop patience out_fd in_fd 0.

(** ** Memory and identity *)
Definition sys_brk : K Z :=
  p ← my_proc; addr ← argraw 0; t ← task p; assert (negb (bss t =? 0));;
  (if negb (addr =? 0) then update p (set_bss addr) else mret tt);;
  t ← task p; mret (bss t).

Definition sys_mmap : K Z :=
  addr ← argraw 0; length ← argraw 1; fd ← argraw 4;
  if negb (addr =? 0) then mret addr else on_vm (page_alloc length).

Definition utsname_field := 65.
Definition uts_strings : list (list Z) :=
  [ [76; 111; 79; 83]; [108; 111; 99; 97; 108; 104; 111; 115; 116]; [118; 49; 46; 50];
    [83; 104; 105; 114; 111; 32; 0xe3; 0x81; 0x97; 0xe3; 0x82; 0x8d];
    [76; 111; 111; 110; 103; 65; 114; 99; 104; 54; 52] ].
Fixpoint write_fields (a : Z) (l : list (list Z)) : K unit :=
  match l with
  | [] => mret tt
  | s :: l => uwrite a (s ++ [0]);; write_fields (u64 (a + utsname_field)) l
  end.
Definition sys_newuname : K Z := a ← argraw 0; write_fields a uts_strings;; mret 0.
Definition sys_read_link_at : K Z := mret 0.

Definition rand_step : K Z := zoom seed with_seed rand.
Fixpoint getrandom_loop (n : nat) (buf : Z) : K unit :=
  match n with
  | O => mret tt
  | S n => r ← rand_step; ustore8 buf (u8 r);; getrandom_loop n (u64 (buf + 1))
  end.
Definition sys_getrandom : K Z :=
  buf ← argraw 0; bufsize ← argraw 1; getrandom_loop (Z.to_nat bufsize) buf;; mret bufsize.

Definition sys_getcwd : K Z := buf ← argraw 0; size ← argraw 1; getcwd buf size.

(** The loop of [sys_chdir] from index [i] down: cut at the last slash that is not the
    first byte. *)
Fixpoint cut_last (i : nat) (path : list Z) : list Z :=
  match i with
  | O => [slash]
  | S j => if bool_decide (path !! i = Some slash) then take i path else cut_last j path
  end.

Definition dots : list Z := [46; 46].

(** The string in a buffer of bytes; without a NUL the C code reads past the end. *)
Definition string_in (l : list Z) : K (list Z) :=
  if bool_decide (0 ∈ l) then mret (c_str l) else fail (Fault (Z.of_nat (length l))).

Definition chdir_path (cwd path : list Z) : list Z :=
  if bool_decide (path = dots) then cut_last (length cwd) cwd
  else if bool_decide (head path = Some slash) then path
  else cwd ++ (if bool_decide (cwd = [slash]) then [] else [slash]) ++ path.

Definition sys_chdir : K Z :=
  p ← my_proc;
  buf ← argstr 0 256;
  path ← string_in buf;
  t ← task p;
  newpath ← fits 256 (chdir_path (cwd t) path);
  update p (set_cwd newpath);;
  mret 0.

Definition sys_get_proc_id : K Z := v ← get_proc_id; mret (u64 v).
Definition sys_set_proc_id : K Z := newpid ← argint 0; r ← set_proc_id newpid; mret (u64 r).
Definition sys_poll : K Z := mret POLLIN.
Definition sys_pipe2 : K Z := panic.
Definition sys_return_zero : K Z := mret 0.
Definition sys_return_wrong : K Z := mret (u64 (-1)).
Definition sys_return_random : K Z := rand_step.

(** ** Processes *)
Definition sys_clone : K Z := p ← my_proc; np ← fork p; t ← task np; mret (u64 (pid t)).

Definition sys_execve : K Z :=
  p ← my_proc; filename_addr ← argraw 0; argv ← argraw 1; envp ← argraw 2;
  buf ← get_path p filename_addr;
  np ← exec buf argv envp;
  match np with
  | None => mret (u64 (-1))
  | Some np =>
      nm ← fits 32 buf; update np (set_name nm);;
      t ← task p; update np (set_cwd (cwd t));;
      t ← task p; update np (set_pid (pid t));;
      t ← task p; update np (set_parent (parent t));;
      t ← task p;
      (match parent t with
       | None => fail (Fault 0)
       | Some q => on_links (list_add (children q) (tasks np))
       end);;
      update p (set_pid (-1));;
      update p (set_state TASK_KILLED);;
      mret 0
  end.

Definition clean_up : K unit :=
  p ← my_proc; update p (set_callback 0);; update p (set_timer_call_time (u64 (-1))).

Definition sys_exit : K control :=
  ret ← argint 0; clean_up;;
  c ← exit ret;
  match c with Return _ => mret (Return (u64 (-1))) | Yield k => mret (Yield k) end.

(** One pass of [list_for_each_entry] in [sys_wait4]: the first zombie, and whether a child
    before it can still run. *)
Fixpoint wait_scan (fuel : nat) (head n : node) (runnings : bool) : K (option nat * bool) :=
  match fuel with
  | O => fail Fuel
  | S fuel =>
      if decide (n = head) then mret (None, runnings)
      else match n with
           | children i => fail (Fault (Z.of_nat i))
           | tasks pos =>
               t ← task pos;
               if bool_decide (state t = TASK_ZOMBIE) then mret (Some pos, runnings)
               else
                 n' ← on_links (next (tasks pos));
                 wait_scan fuel head n'
                   (runnings || bool_decide (state t = TASK_RUNNING)
                    || bool_decide (state t = TASK_RUNABLE))
           end
  end.

(** From [find_proc_sat] on. *)
Definition reap (pos : nat) (wstatus rusage : Z) : K Z :=
  (if negb (rusage =? 0)
   then uwrite rusage (replicate (Z.to_nat sizeof_rusage) 0);;
        ustore64 (u64 (rusage + 16)) 1;; ustore64 rusage 1
   else mret tt);;
  (if negb (wstatus =? 0)
   then t ← task pos; ustore64 wstatus (u64 (s32 (exit_code t * 256)))
   else mret tt);;
  update pos (set_state TASK_KILLED);;
  t ← task pos; mret (u64 (pid t)).

(** [cycle_start] to the [yield], or to the end. *)
Definition wait_any (tf wstatus rusage : Z) : K control :=
  p ← my_proc;
  fuel ← gets (λ s, S (size (links s)));
  first ← on_links (next (children p));
  r ← wait_scan fuel (children p) first false;
  match r with
  | (Some pos, _) => v ← reap pos wstatus rusage; mret (Return v)
  | (None, false) => mret (Return (u64 (-1)))
  | (None, true) => yield;; mret (Yield (InWaitAny tf wstatus rusage))
  end.

(** The [while] loop for one child, likewise. *)
Definition wait_pid (tf : Z) (pos : nat) (wstatus rusage : Z) : K control :=
  t ← task pos;
  if bool_decide (state t = TASK_ZOMBIE) then v ← reap pos wstatus rusage; mret (Return v)
  else yield;; mret (Yield (InWaitPid tf pos wstatus rusage)).

Definition sys_wait4 : K control :=
  v ← argraw 0; wstatus ← argraw 1; rusage ← argraw 3;
  tf ← get_trapframe;
  p ← my_proc;
  if v =? u64 (-1) then wait_any tf wstatus rusage
  else
    pos ← proc_find (s32 v);
    match pos with
    | None => fail (Fault 0)
    | Some pos =>
        t ← task pos;
        if bool_decide (parent t ≠ Some p) then mret (Return (u64 (-1)))
        else wait_pid tf pos wstatus rusage
    end.

(** ** Signals and time *)
Definition do_signal (signum : Z) : K unit :=
  p ← my_proc; t ← task p;
  if callback t =? 0 then panic else on_mem (run_handler (callback t) signum).

Definition sys_rt_sigaction : K Z :=
  p ← my_proc; act ← argraw 1;
  sa_handler ← uload64 act; assert (negb (sa_handler =? 0));;
  sa_handler ← uload64 act; update p (set_callback sa_handler);; mret 0.

Definition get_ns : K Z := t ← gets tick; mret (u64 (t * 1000 * 2)).
Definition get_tick_by_ms (ms : Z) : Z := ms / 2.

Definition sys_setitimer : K Z :=
  p ← my_proc; new ← argraw 1;
  isec ← uload64 new; iusec ← uload64 (u64 (new + 8));
  assert ((isec =? 0) && (iusec =? 0));;
  t ← gets tick;
  sec ← uload64 (u64 (new + 16)); usec ← uload64 (u64 (new + 24));
  update p (set_timer_call_time (u64 (t + get_tick_by_ms (u64 (sec * 10 + usec)))));;
  mret 0.

Definition get_ticks : K Z := gets ticks.

Definition timer_handler : K control :=
  modify (λ s, with_ticks (u64 (ticks s + 1)) s);;
  p ← my_proc; t ← task p;
  tk ← gets ticks;
  (if negb (callback t =? 0) && (timer_call_time t <=? tk)
   then update p (set_timer_call_time (u64 (-1)));; do_signal SIGALRM
   else mret tt);;
  yield;; mret (Yield InUser).

Definition timer_init : K unit := modify (with_ticks 0).

(** ** Dispatch *)
Definition ret (c : K Z) : K control := v ← c; mret (Return v).

(** The table [syscalls] by its designators. *)
Definition syscall_table : list (Z * K control) :=
  [(SYS_openat, ret sys_openat);
   (SYS_close, ret sys_close);
   (SYS_read, ret sys_read);
   (SYS_write, ret sys_write);
   (SYS_lseek, ret sys_lseek);
   (SYS_exit, sys_exit);
   (SYS_fstat, ret sys_return_wrong);
   (SYS_fcntl, ret sys_fcntl);
   (SYS_exit_group, sys_exit);
   (SYS_brk, ret sys_brk);
   (SYS_mmap, ret sys_mmap);
   (SYS_writev, ret sys_writev);
   (SYS_newuname, ret sys_newuname);
   (SYS_readlinkat, ret sys_read_link_at);
   (SYS_getrandom, ret sys_getrandom);
   (SYS_rt_sigaction, ret sys_rt_sigaction);
   (SYS_setitimer, ret sys_setitimer);
   (SYS_clone, ret sys_clone);
   (SYS_wait4, sys_wait4);
   (SYS_execve, ret sys_execve);
   (SYS_set_tid_address, ret sys_get_proc_id);
   (SYS_set_robust_list, ret sys_return_zero);
   (SYS_rt_sigprocmask, ret sys_return_zero);
   (SYS_gettid, ret sys_get_proc_id);
   (SYS_getpid, ret sys_get_proc_id);
   (SYS_getppid, ret sys_get_proc_id);
   (SYS_geteuid, ret sys_return_zero);
   (SYS_getuid, ret sys_return_zero);
   (SYS_getgid, ret sys_return_zero);
   (SYS_getpgid, ret sys_return_zero);
   (SYS_setuid, ret sys_return_zero);
   (SYS_setpgid, ret sys_return_zero);
   (SYS_setgid, ret sys_return_zero);
   (SYS_tgkill, ret sys_return_zero);
   (SYS_prlimit64, ret sys_return_zero);
   (SYS_mprotect, ret sys_return_zero);
   (SYS_statx, ret sys_return_zero);
   (SYS_chdir, ret sys_chdir);
   (SYS_getcwd, ret sys_getcwd);
   (SYS_dup3, ret sys_dup3);
   (SYS_getdents64, ret sys_return_zero);
   (SYS_mkdirat, ret sys_return_wrong);
   (SYS_dup, ret sys_dup);
   (SYS_pipe2, ret sys_pipe2);
   (SYS_unlinkat, ret sys_return_wrong);
   (SYS_ioctl, ret sys_return_zero);
   (SYS_ppoll, ret sys_poll);
   (SYS_reboot, ret sys_return_zero);
   (SYS_nanosleep, ret sys_return_zero);
   (SYS_munmap, ret sys_return_zero);
   (SYS_clock_gettime, ret sys_return_zero);
   (SYS_gettimeofday, ret sys_return_zero);
   (SYS_faccessat, ret sys_return_wrong);
   (SYS_pipe2, ret sys_pipe2);
   (SYS_sendfile, ret sys_sendfile)].
(** [None] for an empty or missing entry. *)
Definition syscalls (num : Z) : option (K control) := snd <$> List.find (λ e, e.1 =? num) syscall_table.

(** [trapframe->a0 = ret] once the handler returns. *)
Definition finish (tf : Z) (c : control) : K control :=
  match c with
  | Return v => ustore64 (tf + off_a0) v;; mret (Return v)
  | Yield k => mret (Yield k)
  end.

(** For a number without a handler, [sys_exit]. *)
Definition syscall_handler : K control :=
  tf ← get_trapframe;
  num ← uload64 (tf + off_a7);
  let num := s32 num in
  c ← (match syscalls num with
       | Some h => h
       | None => argraw 0;; argraw 1;; argraw 2;; sys_exit
       end);
  finish tf c.

Definition r_trap_era : K Z := tf ← get_trapframe; uload64 (tf + off_era).
Definition w_trap_era (era : Z) : K unit := tf ← get_trapframe; ustore64 (tf + off_era) era.

Definition trap_handler (estat ecfg : Z) : K control :=
  era ← r_trap_era;
  if negb (Z.land (Z.land estat ecfg) HWI_VEC =? 0) then panic
  else if negb (Z.land (Z.land estat ecfg) TI_VEC =? 0) then timer_handler
  else
    w_trap_era (u64 (era + 4));;
    my_proc;;
    let ecode := u8 (Z.shiftr (Z.land estat CSR_ESTAT_ECODE) 16) in
    let esubcode := u16 (Z.shiftr (Z.land estat CSR_ESTAT_ESUBCODE) 22) in
    if ecode =? E_SYS then syscall_handler
    else if ecode =? E_FPD then mret (Return 0)
    else if (ecode =? E_PIL) || (ecode =? E_PIS) || (ecode =? E_PIF) then mret (Return 0)
    else if ecode =? E_ADE then
      if (esubcode =? 1) || (esubcode =? 0) then exit 1 else panic
    else if ecode =? E_INE then exit 1
    else mret (Return 0).

(** The rest of a trap whose process gets the processor back in [yield]. *)
Definition resume_at (k : resume) : K control :=
  match k with
  | InUser => mret (Return 0)
  | InExit => mret (Return (-1))
  | InWaitAny tf wstatus rusage => c ← wait_any tf wstatus rusage; finish tf c
  | InWaitPid tf pos wstatus rusage => c ← wait_pid tf pos wstatus rusage; finish tf c
  end.
End program.
