(* ===== verification/Kernel.v ===== *)
(** * core/sche.c: the scheduler and the kernel as a step relation

    A [machine] is the state of the kernel and the place at which it executes:
    in the loop of [scheduler], or in a process (in its program, or in the part
    of a trap after a [yield]).  Between two traps a process changes memory as
    it likes; a trap brings any trap frame and any exception.  The theorems
    hold in all reachable machines.  A machine whose kernel traps itself has no
    step: what the processor goes on to do then depends on its registers, which
    are not modelled.  Nor is the timer interrupt that [getstr] lets in while it
    polls: a system call gives up the processor in [wait_any], [wait_pid],
    [exit] and nowhere else. *)

From S2P Require Import Prelude Mem CString KList PageAlloc Vm Malloc MList AddrSpace Ext2 Uart Fs Proc Exec Syscall.

Section program.
Context {A : Type} `{PageAllocator A} `{Machine}.
Abbreviation K := (M (kstate A)).

(** The body of the [for] loop of [scheduler] up to [swtch]: whether slot [i] gets the
    processor. *)
Definition sched_visit (i : nat) : K bool :=
  t ← task i;
  if bool_decide (allocs t = UNUSED) || (pid t =? 0) then mret false
  else match state t with
       | TASK_RUNABLE =>
           update kproc (set_state TASK_RUNABLE);;
           update i (set_state TASK_RUNNING);;
           switch_to kproc i;;
           mret true
       | TASK_ZOMBIE => mret false
       | TASK_KILLED => if pid t =? 0 then panic else mret false
       | TASK_RUNNING => mret false
       end.

(** The scheduler before slot [i] (64: at the end of a pass) with its variable [run], a
    process at the point [k], or after [shutdown]. *)
Inductive place := Scheduler (i : nat) (run : bool) | Process (k : resume) | Shutdown.

(** [slot] is the [i] of the scheduler while a process executes. *)
Record machine := { ker : kstate A; at_place : place; slot : nat }.

(** What a process does in the kernel until it returns or yields: the rest of its trap, or,
    from the program, a whole one. *)
Inductive runs (k : resume) (s : kstate A) : control → kstate A → Prop :=
| runs_rest c s' : k ≠ InUser → resume_at k s = Ok (c, s') → runs k s c s'
| runs_trap sp estat ecfg c s' : k = InUser →
    trap_handler estat ecfg (with_cur_sp sp s) = Ok (c, s') → runs k s c s'.

Inductive step : machine → machine → Prop :=
| step_skip s i run s' n : (i < PROC_MAX)%nat → sched_visit i s = Ok (false, s') →
    step {| ker := s; at_place := Scheduler i run; slot := n |}
         {| ker := s'; at_place := Scheduler (S i) run; slot := n |}
| step_dispatch s i run s' k n : (i < PROC_MAX)%nat → sched_visit i s = Ok (true, s') →
    points s' !! i = Some k →
    step {| ker := s; at_place := Scheduler i run; slot := n |}
         {| ker := s'; at_place := Process k; slot := i |}
| step_pass s n :
    step {| ker := s; at_place := Scheduler PROC_MAX true; slot := n |}
         {| ker := s; at_place := Scheduler 0 false; slot := n |}
| step_shutdown s n :
    step {| ker := s; at_place := Scheduler PROC_MAX false; slot := n |}
         {| ker := s; at_place := Shutdown; slot := n |}
| step_return s k v s' n : runs k s (Return v) s' →
    step {| ker := s; at_place := Process k; slot := n |}
         {| ker := s'; at_place := Process InUser; slot := n |}
| step_yield s k k' s' p n : runs k s (Yield k') s' → cur_proc s' = Some p →
    step {| ker := s; at_place := Process k; slot := n |}
         {| ker := with_points (<[p := k']> (points s')) s';
            at_place := Scheduler (S n) true; slot := n |}
| step_user s m n :
    step {| ker := s; at_place := Process InUser; slot := n |}
         {| ker := with_heap (m, (pages (fs s)).2, kheap s) s; at_place := Process InUser;
            slot := n |}.

(** [n] steps, and the slots that get the processor in them. *)
Definition dispatch_of (pl pl' : place) : list nat :=
  match pl, pl' with Scheduler i _, Process _ => [i] | _, _ => [] end.

Inductive reach : nat → list nat → machine → machine → Prop :=
| reach_0 m : reach 0 [] m m
| reach_S n ds m m' m'' : reach n ds m m' → step m' m'' →
    reach (S n) (ds ++ dispatch_of (at_place m') (at_place m'')) m m''.
End program.

(** ** What the scheduler depends on

    The part of a slot, and of the kernel's state, that decides who runs. *)
Abbreviation slot_core := (Z * proc_state * alloc_state)%type.
Definition core (t : task_struct) : slot_core := (pid t, state t, allocs t).
Record table := {
  slots : list slot_core; next_pid : Z; current : option nat; resumes : gmap nat resume
}.

Section view.
Context {A : Type} `{PageAllocator A} `{Machine}.
Abbreviation K := (M (kstate A)).

Definition view (s : kstate A) : table :=
  {| slots := core <$> proc s; next_pid := last_pid s; current := cur_proc s;
     resumes := points s |}.

(** A computation that leaves that part alone. *)
Definition keeps {B} (c : K B) : Prop := ∀ s b s', c s = Ok (b, s') → view s' = view s.

Lemma keeps_bind {B C} (c : K B) (f : B → K C) : keeps c → (∀ b, keeps (f b)) → keeps (c ≫= f).
Proof. intros Hc Hf s b s' (a & s1 & E1%Hc & E2%Hf)%bind_inv. congruence. Qed.
Lemma keeps_ret {B} (b : B) : keeps (mret b).
Proof. by intros s b' s' [= <- <-]. Qed.
Lemma keeps_fail {B} e : keeps (fail e : K B).
Proof. done. Qed.
Lemma keeps_panic {B} : keeps (panic : K B).
Proof. done. Qed.
Lemma keeps_gets {B} (f : kstate A → B) : keeps (gets f).
Proof. by intros s b' s' [= <- <-]. Qed.
Lemma keeps_assert b : keeps (assert b).
Proof. by destruct b; [apply keeps_ret|]. Qed.
Lemma keeps_modify f : (∀ s, view (f s) = view s) → keeps (modify f).
Proof. intros Hf s b s' [= <- <-]. apply Hf. Qed.
Lemma keeps_zoom {T B} (g : kstate A → T) st (c : M T B) : (∀ t s, view (st t s) = view s) → keeps (zoom g st c).
Proof.
  intros Hst s b s'. unfold zoom. destruct (c (g s)) as [[b' t]|]; [|done]. intros [= <- <-]. apply Hst.
Qed.
Lemma keeps_on_links {B} (c : M _ B) : keeps (on_links c).
Proof. by apply keeps_zoom. Qed.
Lemma keeps_on_fs {B} (c : M _ B) : keeps (on_fs c).
Proof. by apply keeps_zoom. Qed.
Lemma keeps_on_heap {B} (c : M _ B) : keeps (on_heap c).
Proof. by apply keeps_zoom. Qed.
Lemma keeps_task i : keeps (task i).
Proof. intros s t s'. unfold task. destruct (proc s !! i); [|done]. by intros [= <- <-]. Qed.
Lemma keeps_update i f : (∀ t, core (f t) = core t) → keeps (update i f).
Proof.
  intros Hf s b s'. unfold update. destruct (proc s !! i) as [t|] eqn:E; [|done].
  intros [= <- <-]. unfold view. simpl. f_equal. rewrite list_fmap_insert, Hf.
  apply list_insert_id. by rewrite list_lookup_fmap, E.
Qed.
Lemma keeps_my_proc : keeps (my_proc : K nat).
Proof. intros s p s'. unfold my_proc. simpl. unfold mbind, M_bind. simpl. by destruct (cur_proc s); [intros [= <- <-]|]. Qed.
Lemma keeps_user_addr a : keeps (user_addr a).
Proof. intros s x s'. unfold user_addr. destruct (translate _ _ _); [|done]. by intros [= <- <-]. Qed.
End view.

Ltac keeps_step :=
  match goal with
  | |- keeps (mbind _ _) => apply keeps_bind; [|intros]
  | |- keeps (mret _) => apply keeps_ret
  | |- keeps (fail _) => apply keeps_fail
  | |- keeps panic => apply keeps_panic
  | |- keeps (gets _) => apply keeps_gets
  | |- keeps (assert _) => apply keeps_assert
  | |- keeps (task _) => apply keeps_task
  | |- keeps my_proc => apply keeps_my_proc
  | |- keeps (user_addr _) => apply keeps_user_addr
  | |- keeps (on_links _) => apply keeps_on_links
  | |- keeps (on_fs _) => apply keeps_on_fs
  | |- keeps (on_heap _) => apply keeps_on_heap
  | |- keeps (on_vm _) => apply keeps_on_heap
  | |- keeps (on_mem _) => apply keeps_on_heap
  | |- keeps (update _ _) => apply keeps_update; by intros []
  | |- keeps (modify _) => apply keeps_modify; done
  | |- keeps (zoom _ _ _) => apply keeps_zoom; done
  | |- keeps (if ?b then _ else _) => destruct b
  | |- keeps (match ?x with _ => _ end) => destruct x
  | |- keeps (let '_ := ?x in _) => destruct x
  end.
(** A computation made of steps that leave the view alone. *)
Ltac keeps := repeat (done || keeps_step || (solve [eauto with keeps])).
Create HintDb keeps discriminated.

Section keeps.
Context {A : Type} `{PageAllocator A} `{Machine}.
Abbreviation K := (M (kstate A)).

Lemma keeps_uload8 a : keeps (A:=A) (uload8 a).
Proof. unfold uload8. keeps. Qed.
Lemma keeps_uload64 a : keeps (A:=A) (uload64 a).
Proof. unfold uload64. keeps. Qed.
Lemma keeps_ustore8 a v : keeps (A:=A) (ustore8 a v).
Proof. unfold ustore8. keeps. Qed.
Lemma keeps_ustore64 a v : keeps (A:=A) (ustore64 a v).
Proof. unfold ustore64. keeps. Qed.
#[local] Hint Resolve keeps_uload8 keeps_uload64 keeps_ustore8 keeps_ustore64 : keeps.

Lemma keeps_uread n a : keeps (A:=A) (uread n a).
Proof. revert a. induction n; intros; simpl; keeps. Qed.
Lemma keeps_uwrite a l : keeps (A:=A) (uwrite a l).
Proof. revert a. induction l; intros; simpl; keeps. Qed.
Lemma keeps_ustring n a : keeps (A:=A) (ustring n a).
Proof. revert a. induction n; intros; simpl; keeps. Qed.
Lemma keeps_fits n l : keeps (A:=A) (fits n l).
Proof. unfold fits. keeps. Qed.
Lemma keeps_argraw n : keeps (A:=A) (argraw n).
Proof. unfold argraw, get_trapframe. keeps. Qed.
#[local] Hint Resolve keeps_uread keeps_uwrite keeps_ustring keeps_fits keeps_argraw : keeps.

Lemma keeps_argint n : keeps (A:=A) (argint n).
Proof. unfold argint. keeps. Qed.
Lemma keeps_my_fdtable : keeps (A:=A) my_fdtable.
Proof. unfold my_fdtable. keeps. Qed.
Lemma keeps_get_path p a : keeps (A:=A) (get_path p a).
Proof. unfold get_path. keeps. Qed.
#[local] Hint Resolve keeps_argint keeps_my_fdtable keeps_get_path : keeps.

(** *** exec.c *)
Lemma keeps_alloc_vm_of p a b c : keeps (A:=A) (alloc_vm_of p a b c).
Proof. unfold alloc_vm_of. keeps. Qed.
#[local] Hint Resolve keeps_alloc_vm_of : keeps.
Lemma keeps_load_segment p g : keeps (A:=A) (load_segment p g).
Proof. unfold load_segment. keeps. Qed.
#[local] Hint Resolve keeps_load_segment : keeps.
Lemma keeps_load_segments n p g : keeps (A:=A) (load_segments n p g).
Proof. revert g. induction n; intros; simpl; keeps. Qed.
#[local] Hint Resolve keeps_load_segments : keeps.
Lemma keeps_elf_loader p path : keeps (A:=A) (elf_loader p path).
Proof. unfold elf_loader, parse_and_load. keeps. Qed.
Lemma keeps_copy_word g d v : keeps (A:=A) (copy_word g d v).
Proof. unfold copy_word. keeps. Qed.
Lemma keeps_ucopy_to_va g d a n : keeps (A:=A) (ucopy_to_va g d a n).
Proof.
  unfold ucopy_to_va. generalize (copy_fuel n). intros fuel. revert d a n.
  induction fuel; intros; simpl; keeps.
Qed.
Lemma keeps_ustrlen a : keeps (A:=A) (ustrlen a).
Proof. unfold ustrlen. keeps. Qed.
#[local] Hint Resolve keeps_copy_word keeps_ucopy_to_va keeps_ustrlen : keeps.
Lemma keeps_push_strings n g v sl bp c : keeps (A:=A) (push_strings n g v sl bp c).
Proof. revert v sl bp c. induction n; intros; simpl; keeps. Qed.

(** *** syscall.c *)
Lemma keeps_write_fd fd b n : keeps (A:=A) (write_fd fd b n).
Proof. unfold write_fd. keeps. Qed.
#[local] Hint Resolve keeps_write_fd : keeps.
Lemma keeps_writev_loop n fd v : keeps (A:=A) (writev_loop n fd v).
Proof. revert v. induction n; intros; simpl; keeps. Qed.
Lemma keeps_sendfile_loop n o i t : keeps (A:=A) (sendfile_loop n o i t).
Proof. revert t. induction n; intros; simpl; keeps. Qed.
Lemma keeps_write_fields a l : keeps (A:=A) (write_fields a l).
Proof. revert a. induction l; intros; simpl; keeps. Qed.
Lemma keeps_getrandom_loop n a : keeps (A:=A) (getrandom_loop n a).
Proof. revert a. induction n; intros; simpl; unfold rand_step; keeps. Qed.
Lemma keeps_wait_scan n h x b : keeps (A:=A) (wait_scan n h x b).
Proof. revert x b. induction n; intros; simpl; keeps. Qed.
Lemma keeps_clean_up : keeps (A:=A) clean_up.
Proof. unfold clean_up. keeps. Qed.
Lemma keeps_do_signal v : keeps (A:=A) (do_signal v).
Proof. unfold do_signal. keeps. Qed.
End keeps.
#[export] Hint Resolve keeps_uload8 keeps_uload64 keeps_ustore8 keeps_ustore64 keeps_uread
  keeps_uwrite keeps_ustring keeps_fits keeps_argraw keeps_argint keeps_my_fdtable keeps_get_path
  keeps_alloc_vm_of keeps_elf_loader keeps_copy_word keeps_ucopy_to_va keeps_ustrlen
  keeps_push_strings keeps_write_fd keeps_writev_loop keeps_sendfile_loop keeps_write_fields
  keeps_getrandom_loop keeps_wait_scan keeps_clean_up keeps_do_signal : keeps.

(** ** A sample: the scheduler's process, one process and its child *)
Definition sample_iface : Machine := {|
  translate := λ _ _ a, Some a; elf_buf := 0; exec_helper := 0; frame := 0; sector := λ _, [];
  run_handler := λ _ _, mret tt; patience := 0
|}.

Definition sample_task (p : Z) (parent : nat) (st : proc_state) : task_struct :=
  set_pid p (set_parent (Some parent) (set_state st (set_allocs USED task0))).

Definition sample_links : gmap node (list_head node) :=
  {[ children 1 := Build_list_head (tasks 2) (tasks 2); tasks 2 := Build_list_head (children 1) (children 1) ]}.

Definition sample_kernel (cur : nat) (st0 st1 st2 : proc_state) : kstate Z :=
  Build_kstate
    (sample_task 0 0 st0 :: sample_task 1 0 st1 :: sample_task 2 1 st2 :: replicate 61 task0) 3
    (Some cur) sample_links
    {| fds := []; tables := ∅; inodes := ∅; pages := (write_bytes 64 (replicate 512 0) ∅, 0);
       console := {| rx := []; tx := []; getstr_buf := [] |} |}
    mheap_init 0 0 64 0 0 {[ 1%nat := InUser; 2%nat := InUser ]} sample_fs.
