(* ===== verification/SchedSpec.v ===== *)
(** * The process table as an abstract machine

    What [Kernel] promises about scheduling, without the code: a table of
    (pid, state, allocated) per slot, the moves the kernel makes on it for a
    process and those of the scheduler.  [Sched] proves that the kernel makes
    no other moves. *)

From S2P Require Import Prelude Proc Kernel.

Implicit Types (T : table) (w i j : nat).

(** ** Moves *)
Definition with_slots (l : list slot_core) T : table :=
  {| slots := l; next_pid := next_pid T; current := current T; resumes := resumes T |}.
Definition set_st (st : proc_state) (x : slot_core) : slot_core := (x.1.1, st, x.2).
Definition with_state i (st : proc_state) T : table := with_slots (alter (set_st st) i (slots T)) T.

(** [i] is the first slot that is not in use. *)
Definition fresh T i : Prop :=
  (∃ p st, slots T !! i = Some (p, st, UNUSED)) ∧
  ∀ j x, (j < i)%nat → slots T !! j = Some x → x.2 = USED.

(** A new process in slot [i], in use or given back at once. *)
Definition allocated i (a : alloc_state) T : table :=
  {| slots := <[i := (next_pid T, TASK_RUNABLE, a)]> (slots T); next_pid := s32 (next_pid T + 1);
     current := current T; resumes := resumes T |}.
Definition entered i (k : resume) T : table :=
  {| slots := slots T; next_pid := next_pid T; current := current T;
     resumes := <[i := k]> (resumes T) |}.

(** [w] gives up the processor, which goes to the scheduler. *)
Definition yielded w T : table :=
  with_state kproc TASK_RUNNING
    match slots T !! w with
    | Some (_, TASK_RUNNING, _) => with_state w TASK_RUNABLE T
    | _ => T
    end.

(** [w] is replaced by the process in slot [i]. *)
Definition replaced w i T : table :=
  match slots T !! w with
  | Some (p, _, a) => with_slots (<[w := (-1, TASK_KILLED, a)]> (<[i := (p, TASK_RUNABLE, USED)]> (slots T))) T
  | None => T
  end.

(** One stretch of execution of process [w] in the kernel. *)
Inductive kernel_run w T : control → table → Prop :=
| kr_keep v : kernel_run w T (Return v) T
| kr_reap v i p a : slots T !! i = Some (p, TASK_ZOMBIE, a) →
    kernel_run w T (Return v) (with_state i TASK_KILLED T)
| kr_clone v i : fresh T i → kernel_run w T (Return v) (entered i InUser (allocated i USED T))
| kr_exec v i : fresh T i →
    kernel_run w T (Return v) (replaced w i (entered i InUser (allocated i USED T)))
| kr_exec_fails v i : fresh T i → kernel_run w T (Return v) (allocated i UNUSED T)
| kr_yield k : k ≠ InExit → kernel_run w T (Yield k) (yielded w T)
| kr_exit : kernel_run w T (Yield InExit) (yielded w (with_state w TASK_ZOMBIE T)).

Lemma run_return w T v T' v' : kernel_run w T (Return v) T' → kernel_run w T (Return v') T'.
Proof. intros Hr. inversion Hr; subst; econstructor; eauto. Qed.

Lemma yielded_current w T : current (yielded w T) = current T.
Proof. unfold yielded. simpl. by destruct (slots T !! w) as [[[? []] ?]|]. Qed.

Lemma run_current w T c T' : kernel_run w T c T' → current T' = current T.
Proof.
  intros Hr. inversion Hr; subst; rewrite ?yielded_current; try done.
  unfold replaced. by destruct (_ !! w) as [[[? ?] ?]|].
Qed.

(** The scheduler at slot [i]: whether it dispatches the slot. *)
Definition runnable T i : Prop := ∃ p, slots T !! i = Some (p, TASK_RUNABLE, USED) ∧ p ≠ 0.
Definition dispatched i T : table :=
  let T := with_state i TASK_RUNNING (with_state kproc TASK_RUNABLE T) in
  {| slots := slots T; next_pid := next_pid T; current := Some i; resumes := resumes T |}.

Inductive tmove : place * nat * table → place * nat * table → Prop :=
| tm_skip T i run n : (i < PROC_MAX)%nat → ¬ runnable T i →
    tmove (Scheduler i run, n, T) (Scheduler (S i) run, n, T)
| tm_dispatch T i run n k : (i < PROC_MAX)%nat → runnable T i → resumes T !! i = Some k →
    tmove (Scheduler i run, n, T) (Process k, i, dispatched i T)
| tm_pass T n : tmove (Scheduler PROC_MAX true, n, T) (Scheduler 0 false, n, T)
| tm_shutdown T n : tmove (Scheduler PROC_MAX false, n, T) (Shutdown, n, T)
| tm_return T T' n k v w : current T = Some w → kernel_run w T (Return v) T' →
    tmove (Process k, n, T) (Process InUser, n, T')
| tm_yield T T' n k k' w : current T = Some w → kernel_run w T (Yield k') T' →
    tmove (Process k, n, T) (Scheduler (S n) true, n, entered w k' T').

Inductive treach : nat → list nat → place * nat * table → place * nat * table → Prop :=
| treach_0 c : treach 0 [] c c
| treach_S n ds c c' c'' : treach n ds c c' → tmove c' c'' →
    treach (S n) (ds ++ dispatch_of c'.1.1 c''.1.1) c c''.

(** ** Tables after a move *)
Lemma with_state_lookup i st T j :
  slots (with_state i st T) !! j = (if decide (i = j) then set_st st else id) <$> slots T !! j.
Proof.
  simpl. destruct (decide (i = j)) as [->|].
  - apply list_lookup_alter_eq.
  - rewrite list_lookup_alter_ne by done. by destruct (slots T !! j).
Qed.

Lemma with_state_length i st T : length (slots (with_state i st T)) = length (slots T).
Proof. apply length_alter. Qed.

Lemma insert_lookup (l : list slot_core) i x j : (i < length l)%nat →
  <[i := x]> l !! j = if decide (i = j) then Some x else l !! j.
Proof.
  intros. destruct (decide (i = j)) as [<-|]; [by apply list_lookup_insert_eq|].
  by apply list_lookup_insert_ne.
Qed.

(** ** The invariant *)

(** Who has the processor: a process, or the scheduler in slot 0. *)
Definition holder (pl : place) T : nat :=
  match pl with Process _ => default kproc (current T) | _ => kproc end.

Record sane (n : Z) (pl : place) (sl : nat) T : Prop := {
  sane_length : length (slots T) = PROC_MAX;
  sane_kproc : ∃ st, slots T !! kproc = Some (0, st, USED);
  sane_running : ∀ i p, slots T !! i = Some (p, TASK_RUNNING, USED) → i = holder pl T;
  sane_pid : ∀ i p st, slots T !! i = Some (p, st, USED) → p = -1 ∨ 0 ≤ p < next_pid T;
  sane_inj : ∀ i j p st st', slots T !! i = Some (p, st, USED) → slots T !! j = Some (p, st', USED) →
    p ≠ -1 → i = j;
  sane_next : 0 < next_pid T ≤ n;
  sane_resume : ∀ i, runnable T i → ∃ k, resumes T !! i = Some k ∧ k ≠ InExit;
  sane_process : ∀ k, pl = Process k → k ≠ InExit ∧ current T = Some sl ∧
    ∃ p st, p ≠ 0 ∧ slots T !! sl = Some (p, st, USED)
}.

Section preservation.
Lemma sane_weaken n n' pl sl T : sane n pl sl T → n ≤ n' → sane n' pl sl T.
Proof. intros [? ? ? ? ? ? ? ?] ?. split; try done. lia. Qed.

Lemma fresh_lt T i : fresh T i → (i < length (slots T))%nat.
Proof. intros [(p & st & Hf) _]. by eapply lookup_lt_Some. Qed.

(** A new process, with a pid of its own and, if it stays, a point to start at. *)
Lemma sane_new n pl sl T T' i a : sane n pl sl T → n < 2 ^ 31 - 1 → fresh T i →
  slots T' = slots (allocated i a T) → next_pid T' = next_pid (allocated i a T) →
  current T' = current T → (∀ j, j ≠ i → resumes T' !! j = resumes T !! j) →
  (a = USED → resumes T' !! i = Some InUser) → sane (n + 1) pl sl T'.
Proof.
  intros [Hl Hk Hr Hp Hi Hn Hs Hc] Hb Hf Es En Ec Hother Hnew.
  pose proof (fresh_lt _ _ Hf) as Hlt. destruct Hf as [(p0 & st0 & Hf) _].
  unfold allocated in *. simpl in *. rewrite swrap_id in En by lia.
  assert (i ≠ kproc) as Hik by (intros ->; destruct Hk as [st Hk]; congruence).
  split; unfold holder, runnable; rewrite ?Es, ?En, ?Ec.
  - by rewrite length_insert.
  - destruct Hk as [st Hk]. exists st. by rewrite list_lookup_insert_ne.
  - intros j p. rewrite insert_lookup by done. destruct (decide (i = j)); [done|]. apply Hr.
  - intros j p st. rewrite insert_lookup by done. destruct (decide (i = j)).
    + intros [= <- <- ->]. lia.
    + intros ?%Hp. lia.
  - intros j j' p st st'. rewrite !insert_lookup by done.
    destruct (decide (i = j)) as [<-|], (decide (i = j')) as [<-|]; [done| | |by apply Hi].
    + intros [= <- <- ->] ?%Hp ?. lia.
    + intros ?%Hp [= <- <- ->] ?. lia.
  - lia.
  - intros j (p & Hj & Hne). rewrite insert_lookup in Hj by done.
    destruct (decide (i = j)) as [<-|].
    + injection Hj as _ ->. exists InUser. by rewrite Hnew.
    + destruct (Hs j) as (k & ? & ?); [by exists p|]. exists k. by rewrite Hother.
  - intros k Hpl. destruct (Hc k Hpl) as (? & ? & p & st & Hne & Hsl). split_and!; [done..|].
    exists p, st. split; [done|]. rewrite list_lookup_insert_ne; [done|]. intros ->. congruence.
Qed.

(** A state other than RUNNING, and other than RUNABLE unless the slot can start. *)
Lemma sane_state n pl sl T i st : sane n pl sl T → st ≠ TASK_RUNNING →
  (st = TASK_RUNABLE → i = kproc ∨ ∃ k, resumes T !! i = Some k ∧ k ≠ InExit) →
  sane n pl sl (with_state i st T).
Proof.
  intros [Hl Hk Hr Hp Hi Hn Hs Hc] Hne Hst.
  assert (∀ j p st' , slots (with_state i st T) !! j = Some (p, st', USED) →
    ∃ st0, slots T !! j = Some (p, st0, USED) ∧ st' = if decide (i = j) then st else st0) as Hold.
  { intros j p st'. rewrite with_state_lookup. destruct (slots T !! j) as [[[p0 st0] a0]|]; [|done].
    destruct (decide (i = j)); intros [= -> <- ->]; eauto. }
  split; [by rewrite with_state_length| | | | |done| |].
  - destruct Hk as [st0 Hk]. rewrite with_state_lookup, Hk. simpl. destruct (decide _); eauto.
  - intros j p (st0 & Hj & Est)%Hold. apply (Hr j p). destruct (decide (i = j)); congruence.
  - intros j p st' (st0 & Hj & _)%Hold. by eapply Hp.
  - intros j j' p st1 st2 (? & ? & _)%Hold (? & ? & _)%Hold. by eapply Hi.
  - intros j (p & (st0 & Hj & Est)%Hold & Hp0). destruct (decide (i = j)) as [<-|].
    + destruct Hst as [->|(k & ? & ?)]; [done| |by exists k]. destruct Hk as [? Hk]. congruence.
    + apply Hs. exists p. by rewrite Est.
  - intros k Hpl. destruct (Hc k Hpl) as (? & ? & p & st0 & Hp0 & Hsl). split_and!; [done..|].
    exists p. rewrite with_state_lookup, Hsl. destruct (decide _); eauto.
Qed.

(** The holder [i] gets the processor; every other slot in use is not RUNNING. *)
Lemma sane_run n pl pl' sl sl' T T' i : sane n pl sl T → holder pl' T' = i →
  slots T' = slots (with_state i TASK_RUNNING T) → next_pid T' = next_pid T →
  (∀ j p, slots T !! j = Some (p, TASK_RUNNING, USED) → j = i) →
  (∀ j, runnable T j → ∃ k, resumes T' !! j = Some k ∧ k ≠ InExit) →
  (∀ k, pl' = Process k → k ≠ InExit ∧ current T' = Some sl' ∧
    ∃ p st, p ≠ 0 ∧ slots T !! sl' = Some (p, st, USED)) → sane n pl' sl' T'.
Proof.
  intros [Hl Hk Hr Hp Hi Hn _ _] Hh Es En Hnone Hs Hc.
  assert (∀ j p st, slots T' !! j = Some (p, st, USED) →
    ∃ st0, slots T !! j = Some (p, st0, USED) ∧ st = if decide (i = j) then TASK_RUNNING else st0) as Hold.
  { intros j p st. rewrite Es, with_state_lookup. destruct (slots T !! j) as [[[p0 st0] a0]|]; [|done].
    destruct (decide (i = j)); intros [= -> <- ->]; eauto. }
  split; rewrite ?En.
  - by rewrite Es, with_state_length.
  - destruct Hk as [st0 Hk]. rewrite Es, with_state_lookup, Hk. destruct (decide _); eauto.
  - intros j p (st0 & Hj & Est)%Hold. destruct (decide (i = j)) as [<-|]; [done|].
    rewrite Hh. apply (Hnone j p). by rewrite Hj, Est.
  - intros j p st (st0 & Hj & _)%Hold. by eapply Hp.
  - intros j j' p st1 st2 (? & ? & _)%Hold (? & ? & _)%Hold. by eapply Hi.
  - done.
  - intros j (p & (st0 & Hj & Est)%Hold & Hp0). apply Hs. exists p. split; [|done].
    destruct (decide (i = j)); [done|]. by rewrite Est.
  - intros k Hpl. destruct (Hc k Hpl) as (? & ? & p & st0 & ? & Hsl). split_and!; [done..|].
    exists p. rewrite Es, with_state_lookup, Hsl. destruct (decide _); eauto.
Qed.

Lemma sane_dispatched n i run sl T k : sane n (Scheduler i run) sl T → runnable T i →
  resumes T !! i = Some k → sane n (Process k) i (dispatched i T).
Proof.
  intros Hs Hi Hk.
  assert (sane n (Scheduler i run) sl (with_state kproc TASK_RUNABLE T)) as Hs'.
  { apply sane_state; auto. }
  assert (k ≠ InExit) as Hne.
  { destruct (sane_resume _ _ _ _ Hs i Hi) as (k' & ? & ?). congruence. }
  destruct Hi as (p & Hi & Hp). destruct (sane_kproc _ _ _ _ Hs) as [st Hk0].
  assert (i ≠ kproc) as Hik by congruence.
  eapply (sane_run _ _ _ _ _ _ _ i Hs'); [done..| | |].
  - intros j q Hj. assert (j = kproc) as -> by exact (sane_running _ _ _ _ Hs' _ _ Hj).
    rewrite with_state_lookup, Hk0 in Hj. done.
  - apply (sane_resume _ _ _ _ Hs').
  - intros k' [= <-]. split_and!; [done..|]. exists p, TASK_RUNABLE. split; [done|].
    rewrite with_state_lookup, Hi. by destruct (decide _).
Qed.

Lemma sane_yielded n k0 sl T w k i run : sane n (Process k0) sl T → current T = Some w →
  (k = InExit → ∃ p, slots T !! w = Some (p, TASK_ZOMBIE, USED)) →
  sane n (Scheduler i run) sl (entered w k (yielded w T)).
Proof.
  intros Hs Hw Hk.
  destruct (sane_process _ _ _ _ Hs k0 eq_refl) as (_ & Hcur & p & st & Hp & Hsl).
  assert (sl = w) as -> by congruence.
  set (T1 := match slots T !! w with Some (_, TASK_RUNNING, _) => with_state w TASK_RUNABLE T | _ => T end).
  assert (next_pid T1 = next_pid T ∧ resumes T1 = resumes T) as [En Er].
  { unfold T1. by destruct (slots T !! w) as [[[? []] ?]|]. }
  assert (length (slots T1) = length (slots T)) as El.
  { unfold T1. destruct (slots T !! w) as [[[? []] ?]|]; try done. apply with_state_length. }
  assert (∀ j q st1 a1, slots T1 !! j = Some (q, st1, a1) → ∃ st2, slots T !! j = Some (q, st2, a1) ∧
    (st1 = st2 ∨ j = w ∧ st1 = TASK_RUNABLE ∧ st2 = TASK_RUNNING)) as Hold.
  { intros j q st1 a1. unfold T1. destruct (slots T !! w) as [[[q0 []] a0]|] eqn:E; eauto.
    rewrite with_state_lookup. destruct (decide (w = j)) as [<-|].
    - rewrite E. intros [= <- <- <-]. eauto 10.
    - simpl. rewrite option_fmap_id. eauto. }
  assert (∀ j q st2 a1, slots T !! j = Some (q, st2, a1) → ∃ st1, slots T1 !! j = Some (q, st1, a1)) as Hnew.
  { intros j q st2 a1 Hj. unfold T1. destruct (slots T !! w) as [[[q0 []] a0]|] eqn:E; eauto.
    rewrite with_state_lookup, Hj. destruct (decide _); simpl; eauto. }
  destruct Hs as [Hl Hkp Hr Hpid Hinj Hn Hres Hproc].
  assert (∀ j q, slots T1 !! j = Some (q, TASK_RUNNING, USED) → j = kproc) as Hnone.
  { intros j q Hj. destruct (Hold _ _ _ _ Hj) as (st2 & Hj2 & [<-|(-> & ? & _)]); [|done].
    assert (j = w) as -> by (rewrite (Hr _ _ Hj2); unfold holder; by rewrite Hw).
    unfold T1 in Hj. rewrite Hj2, with_state_lookup, Hj2 in Hj. by destruct (decide (w = w)). }
  assert (sane n (Scheduler i run) w (entered w k T1)) as Hs1.
  { split; simpl.
    - by rewrite El.
    - destruct Hkp as [st0 Hkp]. by apply Hnew in Hkp.
    - done.
    - intros j q st1 (st2 & Hj & _)%Hold. rewrite En. by eapply Hpid.
    - intros j j' q st1 st2 (? & ? & _)%Hold (? & ? & _)%Hold. by eapply Hinj.
    - by rewrite En.
    - intros j (q & (st2 & Hj & Hst)%Hold & Hq). rewrite Er. destruct (decide (w = j)) as [<-|].
      + exists k. rewrite lookup_insert_eq. split; [done|]. intros E.
        destruct (Hk E) as [q' Hz]. destruct Hst as [<-|(_ & _ & ->)]; congruence.
      + rewrite lookup_insert_ne by done. destruct Hst as [<-|(-> & _)]; [|done].
        apply Hres. by exists q.
    - done. }
  eapply (sane_run _ _ _ _ _ _ _ kproc Hs1); [done..| | |done].
  - intros j q Hj. by eapply Hnone.
  - apply (sane_resume _ _ _ _ Hs1).
Qed.

(** [execve]: the new process takes over the pid. *)
Lemma sane_replaced n k0 sl T w i p st : sane n (Process k0) sl T → current T = Some w →
  slots T !! i = Some (p, st, USED) → i ≠ kproc → i ≠ w → (∃ k, resumes T !! i = Some k ∧ k ≠ InExit) →
  sane n (Process k0) sl (replaced w i T).
Proof.
  intros Hs Hw Hi Hik Hiw Hres.
  destruct (sane_process _ _ _ _ Hs k0 eq_refl) as (Hk0 & Hcur & pw & stw & Hpw & Hsl).
  assert (sl = w) as -> by congruence. destruct (sane_kproc _ _ _ _ Hs) as [stk Hkp].
  assert (w ≠ kproc) as Hwk by congruence.
  destruct Hs as [Hl _ Hr Hpid Hinj Hn Hres' Hproc].
  assert (w < length (slots T))%nat by (by eapply lookup_lt_Some).
  assert (i < length (slots T))%nat by (by eapply lookup_lt_Some).
  unfold replaced. rewrite Hsl.
  assert (∀ j x, (<[w:=(-1, TASK_KILLED, USED)]> (<[i:=(pw, TASK_RUNABLE, USED)]> (slots T))) !! j = Some x →
    (j = w ∧ x = (-1, TASK_KILLED, USED)) ∨ (j = i ∧ x = (pw, TASK_RUNABLE, USED)) ∨
    (j ≠ w ∧ j ≠ i ∧ slots T !! j = Some x)) as Hold.
  { intros j x. rewrite !insert_lookup by (rewrite ?length_insert; done).
    destruct (decide (w = j)), (decide (i = j)); subst; try intros [= <-]; eauto 10. }
  split; simpl.
  - by rewrite !length_insert.
  - exists stk. by rewrite !list_lookup_insert_ne.
  - intros j q [[-> ?]|[[-> ?]|(_ & _ & Hj)]]%Hold; [done..|by eapply Hr].
  - intros j q st' [[-> [= -> ->]]|[[-> [= -> ->]]|(_ & _ & Hj)]]%Hold; [lia| |]; by eapply Hpid.
  - intros j j' q st1 st2 [[-> [= -> ->]]|[[-> [= -> ->]]|(? & ? & Hj)]]%Hold
      [[-> E]|[[-> E]|(? & ? & Hj')]]%Hold; try done; try (injection E; done).
    + intros Hq. destruct (Hinj _ _ _ _ _ Hsl Hj' Hq). done.
    + injection E as -> _. intros Hq. destruct (Hinj _ _ _ _ _ Hsl Hj Hq). done.
    + by eapply Hinj.
  - done.
  - intros j (q & [[-> ?]|[[-> ?]|(_ & _ & Hj)]]%Hold & Hq); [done..|]. apply Hres'. by exists q.
  - intros k [= <-]. split_and!; [done..|]. exists (-1), TASK_KILLED. split; [done|].
    apply list_lookup_insert_eq. by rewrite length_insert.
Qed.

Lemma sane_return n k sl T w v T' : sane n (Process k) sl T → n < 2 ^ 31 - 1 →
  current T = Some w → kernel_run w T (Return v) T' → sane (n + 1) (Process k) sl T'.
Proof.
  intros Hs Hn Hw Hr. destruct (sane_process _ _ _ _ Hs k eq_refl) as (_ & Hsl & p & st & Hp & Hc).
  assert (sl = w) as -> by congruence. inversion Hr; subst.
  - eapply sane_weaken; [done|lia].
  - eapply sane_weaken; [by apply sane_state|lia].
  - eapply (sane_new _ _ _ _ _ i USED Hs); try done; intros; simpl;
      [by rewrite lookup_insert_ne|by rewrite lookup_insert_eq].
  - match goal with Hf : fresh _ _ |- _ => rename Hf into Hfr end.
    pose proof (fresh_lt _ _ Hfr) as Hlt. destruct (sane_kproc _ _ _ _ Hs) as [stk Hk].
    destruct Hfr as [(q & st' & Hi) Hfirst].
    assert (sane (n + 1) (Process k) w (entered i InUser (allocated i USED T))) as Hs'.
    { eapply (sane_new _ _ _ _ _ i USED Hs); try done; [by split; eauto|intros; simpl..];
        [by rewrite lookup_insert_ne|by rewrite lookup_insert_eq]. }
    eapply sane_replaced; [done|done| | | |].
    + simpl. by apply list_lookup_insert_eq.
    + congruence.
    + congruence.
    + exists InUser. simpl. by rewrite lookup_insert_eq.
  - by eapply (sane_new _ _ _ _ _ i UNUSED Hs).
Qed.

Lemma sane_place n k k' sl T : sane n (Process k) sl T → k' ≠ InExit → sane n (Process k') sl T.
Proof.
  intros [? ? ? ? ? ? ? Hc] ?. split; try done. intros _ [= <-].
  destruct (Hc k eq_refl) as (_ & ?). done.
Qed.

Lemma sane_move n pl sl T pl' sl' T' : sane n pl sl T → n < 2 ^ 31 - 1 →
  tmove (pl, sl, T) (pl', sl', T') → sane (n + 1) pl' sl' T'.
Proof.
  intros Hs Hn Hm. inversion Hm; subst.
  - destruct Hs as [? ? ? ? ? [? ?] ? ?]. split; try done. lia.
  - eapply sane_weaken; [by eapply sane_dispatched|lia].
  - destruct Hs as [? ? ? ? ? [? ?] ? ?]. split; try done. lia.
  - destruct Hs as [? ? ? ? ? [? ?] ? ?]. split; try done. lia.
  - eapply sane_place; [by eapply sane_return|done].
  - eapply sane_weaken; [|instantiate (1 := n); lia].
    match goal with H : kernel_run _ _ _ _ |- _ => inversion H; subst end.
    + by eapply sane_yielded.
    + eapply sane_yielded; [by apply sane_state|done|]. intros _.
      destruct (sane_process _ _ _ _ Hs _ eq_refl) as (_ & Hsl & p & st & _ & Hc).
      assert (sl' = w) as -> by congruence. exists p. rewrite with_state_lookup, Hc.
      by destruct (decide (w = w)).
Qed.

Lemma sane_reach n0 n ds c c' : sane n0 c.1.1 c.1.2 c.2 → treach n ds c c' →
  n0 + Z.of_nat n < 2 ^ 31 → sane (n0 + Z.of_nat n) c'.1.1 c'.1.2 c'.2.
Proof.
  intros Hs Hr. induction Hr as [|n ds c c' [[pl' sl'] T'] Hr IH Hm]; intros Hb.
  - by rewrite Z.add_0_r.
  - destruct c' as [[pl sl] T]. simpl in *.
    replace (n0 + Z.of_nat (S n)) with (n0 + Z.of_nat n + 1) by lia.
    eapply sane_move; [apply IH; [done|lia]|lia|done].
Qed.
End preservation.

(** ** Slots over time *)
Section over_time.
Lemma replaced_lookup w i T j x : slots T !! j = Some x → j ≠ w → j ≠ i →
  slots (replaced w i T) !! j = Some x.
Proof.
  intros Hj Hw Hi. unfold replaced. destruct (slots T !! w) as [[[p st] a]|]; [|done]. simpl.
  by rewrite !list_lookup_insert_ne.
Qed.

Lemma fresh_not_used T i j p st : fresh T i → slots T !! j = Some (p, st, USED) → j ≠ i.
Proof. intros [(? & ? & ?) _] Hj ->. congruence. Qed.

(** A slot in use of a process that is not executing: a run of another process leaves it, but
    for the reaping of a zombie. *)
Lemma run_lookup w T c T' j p st : kernel_run w T c T' → slots T !! j = Some (p, st, USED) →
  j ≠ w → j ≠ kproc →
  slots T' !! j = Some (p, st, USED) ∨ (st = TASK_ZOMBIE ∧ slots T' !! j = Some (p, TASK_KILLED, USED)).
Proof.
  intros Hr Hj Hw Hk.
  assert (∀ T0, slots T0 !! j = Some (p, st, USED) → slots (yielded w T0) !! j = Some (p, st, USED)) as Hy.
  { intros T0 Hj0. unfold yielded. rewrite with_state_lookup, decide_False by done.
    rewrite option_fmap_id.
    destruct (slots T0 !! w) as [[[q []] a]|]; try done.
    rewrite with_state_lookup, decide_False by done. by rewrite option_fmap_id. }
  inversion Hr; subst.
  - by left.
  - rewrite with_state_lookup, Hj. destruct (decide (i = j)) as [->|]; [right|by left].
    simplify_eq. done.
  - left. simpl. rewrite list_lookup_insert_ne; [done|]. intros ->. by eapply fresh_not_used.
  - left. assert (j ≠ i) by by eapply fresh_not_used.
    apply replaced_lookup; [|done|done]. simpl. by rewrite list_lookup_insert_ne.
  - left. simpl. rewrite list_lookup_insert_ne; [done|]. intros ->. by eapply fresh_not_used.
  - left. by apply Hy.
  - left. apply Hy. rewrite with_state_lookup, Hj. by rewrite decide_False.
Qed.

Definition used T i : Prop := ∃ p st, slots T !! i = Some (p, st, USED).

Lemma with_state_used T i st j : used (with_state i st T) j ↔ used T j.
Proof.
  unfold used. rewrite with_state_lookup. destruct (slots T !! j) as [[[p0 st0] a0]|]; [|done].
  destruct (decide (i = j)); simpl; split; intros (p & st' & [= -> <- ->]); eauto.
Qed.

Lemma insert_used (l : list slot_core) i p st j :
  (∃ q st', l !! j = Some (q, st', USED)) → ∃ q st', <[i := (p, st, USED)]> l !! j = Some (q, st', USED).
Proof.
  intros (q & st' & Hj). destruct (decide (i = j)) as [<-|].
  - rewrite list_lookup_insert_eq by (by eapply lookup_lt_Some). eauto.
  - rewrite list_lookup_insert_ne by done. eauto.
Qed.

Lemma yielded_used w T j : used T j → used (yielded w T) j.
Proof.
  intros Hj. unfold yielded. apply with_state_used.
  destruct (slots T !! w) as [[[q []] a]|]; try done. by apply with_state_used.
Qed.

Lemma run_used w T c T' j : kernel_run w T c T' → used T j → used T' j.
Proof.
  intros Hr Hj. inversion Hr; subst.
  - done.
  - by apply with_state_used.
  - by apply insert_used.
  - unfold replaced. simpl. destruct (_ !! w) as [[[p st] a]|] eqn:E; [|by apply insert_used].
    destruct a; [|by apply insert_used, insert_used, insert_used].
    unfold used. simpl. destruct (decide (w = j)) as [<-|].
    + destruct Hj as (q & st' & Hj). match goal with Hf : fresh _ _ |- _ => destruct Hf as [(? & ? & Hi) _] end.
      rewrite list_lookup_insert_ne in E by congruence. simpl in *. congruence.
    + rewrite list_lookup_insert_ne by done. by apply insert_used, insert_used.
  - destruct Hj as (q & st' & Hj). exists q, st'. simpl. rewrite list_lookup_insert_ne; [done|].
    intros ->. by eapply fresh_not_used.
  - by apply yielded_used.
  - by apply yielded_used, with_state_used.
Qed.

Lemma move_used c c' j : tmove c c' → used c.2 j → used c'.2 j.
Proof.
  intros Hm Hj. inversion Hm; subst; simpl in *; try done.
  - change (used (with_state i TASK_RUNNING (with_state kproc TASK_RUNABLE T)) j).
    by apply with_state_used, with_state_used.
  - eapply run_used; eauto.
  - change (used T' j) || change (used (entered w k' T'0) j); eapply (run_used w); eauto.
Qed.

Lemma reach_used n ds c c' j : treach n ds c c' → used c.2 j → used c'.2 j.
Proof. induction 1; [done|]. intros. eapply move_used; eauto. Qed.

(** A process that is not executing. *)
Definition off_cpu (c : place * nat * table) j : Prop :=
  j ≠ kproc ∧ ∀ k, c.1.1 = Process k → current c.2 ≠ Some j.

(** Moves that do not dispatch [j] leave its slot as it is, but for the reaping. *)
Lemma move_lookup c c' j p st : tmove c c' → off_cpu c j → slots c.2 !! j = Some (p, st, USED) →
  j ∉ dispatch_of c.1.1 c'.1.1 → off_cpu c' j ∧
  (slots c'.2 !! j = Some (p, st, USED) ∨ st = TASK_ZOMBIE ∧ slots c'.2 !! j = Some (p, TASK_KILLED, USED)).
Proof.
  intros Hm [Hk Hoff] Hj Hd. inversion Hm; subst; simpl in *.
  - split; [by split|by left].
  - assert (j ≠ i) by set_solver. split.
    + split; [done|]. intros k' _ [= <-]. done.
    + left. unfold dispatched. simpl.
      change (slots (with_state i TASK_RUNNING (with_state kproc TASK_RUNABLE T)) !! j = Some (p, st, USED)).
      by rewrite !with_state_lookup, !decide_False, !option_fmap_id by done.
  - split; [by split|by left].
  - split; [by split|by left].
  - assert (j ≠ w) by (intros ->; by eapply Hoff). split; [|by eapply run_lookup].
    split; [done|]. intros k' _. simpl.
    erewrite run_current by done. congruence.
  - assert (j ≠ w) by (intros ->; by eapply Hoff). split; [by split|]. simpl. by eapply run_lookup.
Qed.

(** A process that cannot run again: it has exited or was reaped. *)
Definition dead T i : Prop :=
  ∃ p st, slots T !! i = Some (p, st, USED) ∧ (st = TASK_ZOMBIE ∨ st = TASK_KILLED).
Definition killed T i : Prop := ∃ p, slots T !! i = Some (p, TASK_KILLED, USED).

Lemma dead_not_dispatched c c' j : tmove c c' → dead c.2 j → j ∉ dispatch_of c.1.1 c'.1.1.
Proof.
  intros Hm (p & st & Hj & Hst). inversion Hm; subst; simpl in *; try apply not_elem_of_nil.
  apply not_elem_of_cons. split; [|apply not_elem_of_nil]. intros ->.
  match goal with Hr : runnable _ _ |- _ => destruct Hr as (q & Hr & _) end.
  destruct Hst; congruence.
Qed.

Lemma reach_dead n ds c c' j : treach n ds c c' → off_cpu c j → dead c.2 j →
  off_cpu c' j ∧ dead c'.2 j ∧ (killed c.2 j → killed c'.2 j) ∧ j ∉ ds.
Proof.
  induction 1 as [|n ds c c' c'' Hr IH Hm]; intros Hoff Hd.
  - split_and!; [done..|apply not_elem_of_nil].
  - destruct (IH Hoff Hd) as (Hoff' & Hd' & Hk & Hni).
    pose proof (dead_not_dispatched _ _ _ Hm Hd') as Hni'. pose proof Hd' as (p & st & Hj & Hst).
    destruct (move_lookup _ _ _ _ _ Hm Hoff' Hj Hni') as [Hoff'' Hj'']. split_and!; [done| | |].
    + destruct Hj'' as [?|[_ ?]]; eexists _, _; eauto.
    + intros [q Hq]%Hk. exists q. destruct Hj'' as [?|[_ ?]]; congruence.
    + by apply not_elem_of_app.
Qed.
End over_time.

(** ** The order of dispatches *)
Section order.

(** A slot the scheduler passed in the current pass without dispatching any is not runnable. *)
Definition quiet (c : place * nat * table) : Prop :=
  match c.1.1 with
  | Scheduler i false => ∀ j, (j < i)%nat → ¬ runnable c.2 j
  | Shutdown => ∀ j, (j < PROC_MAX)%nat → ¬ runnable c.2 j
  | _ => True
  end.

Lemma quiet_move c c' : tmove c c' → quiet c → quiet c'.
Proof.
  intros Hm Hq. inversion Hm; subst; simpl in *; try done.
  - destruct run; [done|]. intros j Hj. destruct (decide (j = i)) as [->|]; [done|].
    apply Hq. lia.
  - intros j Hj. lia.
Qed.

Lemma reach_quiet n ds c c' : treach n ds c c' → quiet c → quiet c'.
Proof. induction 1; eauto using quiet_move. Qed.

(** How far the scheduler is from slot [j]. *)
Definition distance (c : place * nat * table) (j : nat) : nat :=
  let from i := if decide (i ≤ j)%nat then (j - i)%nat else (PROC_MAX + j - i)%nat in
  match c.1.1 with Scheduler i _ => from i | Process _ => from (S c.1.2) | Shutdown => 0%nat end.

(** A runnable slot stays so, and the scheduler comes nearer with every other dispatch. *)
Lemma distance_move c c' j : tmove c c' → quiet c → off_cpu c j → runnable c.2 j →
  (j < PROC_MAX)%nat → j ∉ dispatch_of c.1.1 c'.1.1 →
  runnable c'.2 j ∧ off_cpu c' j ∧ (distance c' j + length (dispatch_of c.1.1 c'.1.1) ≤ distance c j)%nat.
Proof.
  intros Hm Hq Hoff Hr Hj Hd. pose proof Hr as (p & Hs & Hp).
  destruct (move_lookup _ _ _ _ _ Hm Hoff Hs Hd) as [Hoff' [Hs'|[? _]]]; [|done].
  split_and!; [by exists p|done|].
  inversion Hm; subst; unfold distance, PROC_MAX in *; cbn [fst snd dispatch_of length] in *;
    repeat case_decide; try lia.
  - assert (i ≠ j) by (by intros ->). lia.
  - assert (i ≠ j) by set_solver. lia.
Qed.

Lemma distance_reach n ds c c' j : treach n ds c c' → quiet c → off_cpu c j → runnable c.2 j →
  (j < PROC_MAX)%nat → j ∉ ds →
  runnable c'.2 j ∧ off_cpu c' j ∧ (distance c' j + length ds ≤ distance c j)%nat.
Proof.
  induction 1 as [|n ds c c' c'' Hr IH Hm]; intros Hq Hoff Hrun Hj Hni;
    [split_and!; [done..|simpl; lia]|].
  apply not_elem_of_app in Hni as [Hni1 Hni2].
  destruct (IH Hq Hoff Hrun Hj Hni1) as (Hrun' & Hoff' & Hd).
  destruct (distance_move _ _ _ Hm (reach_quiet _ _ _ _ Hr Hq) Hoff' Hrun' Hj Hni2) as (? & ? & ?).
  rewrite length_app. split_and!; [done..|lia].
Qed.

Lemma distance_bound c j : (j < PROC_MAX)%nat → (∀ k, c.1.1 = Process k → (c.1.2 < PROC_MAX)%nat) →
  (distance c j ≤ 63)%nat.
Proof.
  intros Hj Hs. unfold distance, PROC_MAX in *.
  destruct c as [[[i run|k|] sl] T]; cbn [fst snd] in *; [|specialize (Hs k eq_refl)|];
    repeat case_decide; try lia.
Qed.
End order.
