(* ===== verification/Sched.v ===== *)
(** * The kernel refines the abstract process table

    Every step of [Kernel] is a move of [SchedSpec] on the view of the state:
    the system calls and traps one by one ([behaves]), then the scheduler, then
    whole executions.  The theorems at the end carry the properties of the
    abstract machine over to the kernel. *)

From S2P Require Import Prelude Mem CString KList PageAlloc Vm Malloc MList AddrSpace Ext2 Uart Fs Proc Exec Syscall Kernel SchedSpec.

Section refinement.
Context {A : Type} `{PageAllocator A} `{Machine}.
Abbreviation K := (M (kstate A)).
Implicit Types (s : kstate A).

(** ** Effects on the view *)
(** Split the conditional a run [E] starts with. *)
Ltac split_match E :=
  lazymatch type of E with (match ?x with _ => _ end) _ = _ => destruct x end;
  cbn beta iota in E.

Lemma alter_at {B} (f : B → B) (i : nat) (l : list B) x : l !! i = Some x → alter f i l = <[i := f x]> l.
Proof.
  intros E. apply list_eq. intros j. destruct (decide (i = j)) as [<-|].
  - rewrite list_lookup_insert_eq by (by eapply lookup_lt_Some). by rewrite list_lookup_alter_eq, E.
  - by rewrite list_lookup_insert_ne, list_lookup_alter_ne.
Qed.

Lemma update_view i f g s u s' : (∀ t, core (f t) = g (core t)) → update i f s = Ok (u, s') →
  is_Some (proc s !! i) ∧ view s' = with_slots (alter g i (slots (view s))) (view s).
Proof.
  intros Hf. unfold update. destruct (proc s !! i) as [t|] eqn:E; [|done]. intros [= <- <-].
  split; [done|]. unfold view, with_slots. simpl. f_equal. rewrite list_fmap_insert, Hf.
  symmetry. apply alter_at. by rewrite list_lookup_fmap, E.
Qed.

Lemma set_state_view i st s u s' : update i (set_state st) s = Ok (u, s') →
  view s' = with_state i st (view s).
Proof. intros E. eapply (update_view _ _ (set_st st)) in E as [_ E]; [done|by intros []]. Qed.

Lemma task_ok i s t s' : task i s = Ok (t, s') → s' = s ∧ proc s !! i = Some t.
Proof. unfold task. destruct (proc s !! i); [|done]. by intros [= <- <-]. Qed.

Lemma my_proc_ok s p s' : my_proc s = Ok (p, s') → s' = s ∧ cur_proc s = Some p.
Proof.
  unfold my_proc. intros (c & s1 & [= <- <-] & E)%bind_inv. destruct (cur_proc s); [|done].
  by injection E as <- <-.
Qed.

Lemma view_slot s i t : proc s !! i = Some t → slots (view s) !! i = Some (core t).
Proof. intros E. unfold view. simpl. by rewrite list_lookup_fmap, E. Qed.

(** A computation known to keep the view. *)
Ltac kept E :=
  let Hk := fresh in
  match type of E with ?c ?s = Ok (?b, ?s') =>
    assert (view s' = view s) as Hk by (revert E; match goal with |- _ → ?G =>
      let Hc := fresh in assert (keeps (A:=A) c) as Hc by keeps; intros E; exact (Hc _ _ _ E) end);
    clear E; rename Hk into E
  end.

Lemma proc_alloc_view s i s' : proc_alloc s = Ok (i, s') → fresh (view s) i ∧ ∃ st,
  view s' = {| slots := <[i := (last_pid s, st, USED)]> (slots (view s));
               next_pid := s32 (last_pid s + 1); current := cur_proc s; resumes := points s |}.
Proof.
  unfold proc_alloc. intros E. minv E. injection E0 as <- <-.
  destruct (find_from is_unused (proc s) 0) as [i'|] eqn:Hfind; [|done].
  apply find_from_ok in Hfind as (j & p & -> & Hj & Hp & Hbefore).
  unfold is_unused in *. apply bool_decide_eq_true in Hp. simpl in *.
  assert (fresh (view s) j) as Hfresh.
  { split.
    - exists (pid p), (state p). rewrite (view_slot _ _ _ Hj). unfold core. by rewrite Hp.
    - intros j' x Hlt Hx. unfold view in Hx. simpl in Hx. rewrite list_lookup_fmap in Hx.
      destruct (proc s !! j') as [p'|] eqn:Hp'; [|done]. injection Hx as <-.
      specialize (Hbefore j' p' Hlt Hp'). apply bool_decide_eq_false in Hbefore.
      simpl. by destruct (allocs p'). }
  do 4 minv E. kept E0. kept E1. kept E2. kept E3.
  minv E. injection E4 as <- <-. minv E. injection E4 as <- <-. 
  minv E. eapply (update_view _ _ (λ x, (last_pid s3, x.1.2, x.2))) in E4 as [_ E4]; [|by intros []].
  minv E. eapply (update_view _ _ (λ x, (x.1, USED))) in E5 as [_ E5]; [|by intros []].
  do 6 minv E. kept E6. kept E7. kept E8. kept E9. kept E10. kept E11.
  do 3 minv E. kept E12. kept E13. kept E14. injection E as <- <-.
  split; [done|]. exists (state p). assert (view s3 = view s) as Hv by congruence.
  rewrite E14, E13, E12, E11, E10, E9, E8, E7, E6, E5, E4.
  injection Hv as Hs Hn Hc Hr. unfold view, with_slots. simpl. rewrite Hn, Hc, Hr. f_equal.
  assert ((core <$> proc s3) !! j = Some (core p)) as Hj3 by (by rewrite Hs, list_lookup_fmap, Hj).
  rewrite (alter_at _ _ _ _ Hj3), (alter_at _ _ _ (last_pid s, state p, allocs p)), list_insert_insert_eq.
  - by rewrite Hs.
  - apply list_lookup_insert_eq. by eapply lookup_lt_Some.
Qed.

(** Step over one computation that keeps the view. *)
Ltac peel E :=
  let a := fresh "a" in let s1 := fresh "s" in let F := fresh "F" in
  apply bind_inv in E as (a & s1 & F & E); cbn beta iota in E; kept F.

Lemma runable_view s i st (s1 : kstate A) : fresh (view s) i →
  view s1 = {| slots := <[i := (last_pid s, st, USED)]> (slots (view s));
               next_pid := s32 (last_pid s + 1); current := cur_proc s; resumes := points s |} →
  with_state i TASK_RUNABLE (view s1) = allocated i USED (view s).
Proof.
  intros Hf ->. apply fresh_lt in Hf. unfold allocated, with_state, with_slots. simpl. f_equal.
  rewrite (alter_at _ _ _ (last_pid s, st, USED)) by (by apply list_lookup_insert_eq).
  by rewrite list_insert_insert_eq.
Qed.

Lemma unused_view T i : fresh T i →
  with_slots (alter (λ x, (x.1, UNUSED)) i (slots (allocated i USED T))) (allocated i USED T) =
  allocated i UNUSED T.
Proof.
  intros Hf%fresh_lt. unfold allocated, with_slots. simpl. f_equal.
  rewrite (alter_at _ _ _ (next_pid T, TASK_RUNABLE, USED)) by (by apply list_lookup_insert_eq).
  by rewrite list_insert_insert_eq.
Qed.

Lemma replaced_view T w i p st a q : i ≠ w → slots T !! w = Some (p, st, a) →
  slots T !! i = Some (q, TASK_RUNABLE, USED) →
  with_state w TASK_KILLED (with_slots (alter (λ x, (-1, x.1.2, x.2)) w
    (alter (λ x, (p, x.1.2, x.2)) i (slots T))) T) = replaced w i T.
Proof.
  intros Hne Hw Hi. unfold replaced. rewrite Hw. unfold with_state, with_slots. simpl. f_equal.
  rewrite (alter_at _ i _ _ Hi). simpl.
  rewrite (alter_at (λ x, (-1, x.1.2, x.2)) w _ (p, st, a)) by (by rewrite list_lookup_insert_ne).
  simpl. rewrite (alter_at _ w _ (-1, st, a)).
  - by rewrite list_insert_insert_eq.
  - apply list_lookup_insert_eq. rewrite length_insert. by eapply lookup_lt_Some.
Qed.

Lemma view_with_points s1 i k : view (with_points (<[i := k]> (points s1)) s1) = entered i k (view s1).
Proof. done. Qed.

Lemma fork_view p s np s' : fork p s = Ok (np, s') →
  fresh (view s) np ∧ view s' = entered np InUser (allocated np USED (view s)).
Proof.
  unfold fork. intros E. minv E. apply proc_alloc_view in E0 as [Hf [st E0]]. repeat peel E. minv E.
  apply set_state_view in E1. repeat peel E. minv E. injection E2 as <- <-. injection E as <- <-.
  split; [done|]. rewrite view_with_points. f_equal.
  rewrite <- (runable_view s a st s0) by done. congruence.
Qed.

Lemma proc_free_view p s u s' : proc_free p s = Ok (u, s') →
  view s' = with_slots (alter (λ x, (x.1, UNUSED)) p (slots (view s))) (view s).
Proof.
  unfold proc_free. intros E. repeat peel E.
  eapply (update_view _ _ (λ x, (x.1, UNUSED))) in E as [_ E]; [|by intros []].
  assert (view s11 = view s) as Hv by congruence. by rewrite Hv in E.
Qed.

Lemma exec_view path argv envp s r s' : exec path argv envp s = Ok (r, s') →
  ∃ i, fresh (view s) i ∧
    match r with
    | None => view s' = allocated i UNUSED (view s)
    | Some p => p = i ∧ view s' = entered i InUser (allocated i USED (view s))
    end.
Proof.
  unfold exec, fill_stack. intros E. minv E. apply proc_alloc_view in E0 as [Hf [st E0]]. repeat peel E. minv E.
  apply set_state_view in E1. do 6 peel E. exists a. split; [done|].
  assert (view s8 = allocated a USED (view s)) as Hv.
  { rewrite <- (runable_view s a st s0) by done. congruence. }
  split_match E.
  - minv E. injection E as <- <-. apply proc_free_view in E2. rewrite E2, Hv. by apply unused_view.
  - do 5 peel E. split_match E. peel E. split_match E; [done|].
    peel E. split_match E. peel E. split_match E; [done|].
    repeat peel E. minv E. injection E2 as <- <-. repeat peel E. injection E as <- <-.
    split; [done|]. rewrite <- Hv. transitivity (view (with_points (<[a := InUser]> (points s21)) s21)).
    + congruence.
    + rewrite view_with_points. f_equal. congruence.
Qed.

Lemma yield_view s u s' : yield s = Ok (u, s') → ∃ w, cur_proc s = Some w ∧ view s' = yielded w (view s).
Proof.
  unfold yield. intros E. minv E. apply my_proc_ok in E0 as [-> Hw]. exists a. split; [done|].
  minv E. apply task_ok in E0 as [-> Ht]. minv E. apply set_state_view in E. rewrite E.
  unfold yielded. rewrite (view_slot _ _ _ Ht). unfold core. case_bool_decide as Hst.
  - rewrite Hst. by apply set_state_view in E0 as ->.
  - injection E0 as _ <-. by destruct (state a0).
Qed.

(** ** The handlers

    [behaves w c]: every run of [c] by process [w] is a [kernel_run]. *)
Definition behaves (w : nat) (c : K control) : Prop := ∀ s v s',
  cur_proc s = Some w → used (view s) w → c s = Ok (v, s') → kernel_run w (view s) v (view s').

Lemma cur_proc_view s s' : view s' = view s → cur_proc s' = cur_proc s.
Proof. intros E. by apply (f_equal current) in E. Qed.

Lemma behaves_bind {B} w (c : K B) f : keeps c → (∀ b, behaves w (f b)) → behaves w (c ≫= f).
Proof.
  intros Hc Hf s v s' Hw Hu (b & s1 & E1%Hc & E2)%bind_inv. rewrite <- E1. eapply Hf; [|by rewrite E1|done].
  by rewrite (cur_proc_view _ _ E1).
Qed.

Lemma behaves_return w v : behaves w (mret (Return v)).
Proof. intros s v' s' _ _ [= <- <-]. constructor. Qed.

Lemma behaves_fail w e : behaves w (fail e).
Proof. done. Qed.

Lemma behaves_ret w (c : K Z) : keeps c → behaves w (ret c).
Proof. intros Hc. apply behaves_bind; [done|]. intros. apply behaves_return. Qed.

Lemma behaves_then {B} w (c : K B) (f : B → K control) :
  (∀ s b s', cur_proc s = Some w → used (view s) w → c s = Ok (b, s') →
    ∀ v s'', f b s' = Ok (v, s'') → kernel_run w (view s) v (view s'')) → behaves w (c ≫= f).
Proof. intros Hc s v s' Hw Hu (b & s1 & E1 & E2)%bind_inv. by eapply Hc. Qed.

Lemma behaves_yield w k : k ≠ InExit → behaves w (yield;; mret (Yield k)).
Proof.
  intros Hk. apply behaves_then. intros s u s' Hw _ (w' & Hw' & E)%yield_view v s'' [= <- <-].
  assert (w' = w) as -> by congruence. rewrite E. by constructor.
Qed.

Lemma behaves_exit w code : behaves w (exit code).
Proof.
  unfold exit. intros s v s' Hw Hu E. minv E. apply my_proc_ok in E0 as [-> Hw'].
  assert (a = w) as -> by congruence. peel E. unfold kill in E. minv E. apply set_state_view in E0.
  minv E. apply my_proc_ok in E1 as [-> Hw2]. assert (a1 = w) as ->.
  { apply (f_equal current) in E0, F. simpl in *. congruence. }
  destruct (decide (w = w)); [|done]. minv E. injection E as <- <-.
  apply yield_view in E1 as (w' & Hw3 & E1). assert (w' = w) as -> by congruence.
  rewrite E1, E0, F. constructor.
Qed.

Lemma behaves_clone w : behaves w (ret sys_clone).
Proof.
  intros s v s' Hw Hu E. unfold ret, sys_clone in E. minv E. injection E as <- <-.
  minv E0. apply my_proc_ok in E as [-> _]. minv E0. apply fork_view in E as [Hf E].
  minv E0. apply task_ok in E1 as [-> _]. injection E0 as <- <-. rewrite E. by constructor.
Qed.

Lemma behaves_execve w : behaves w (ret sys_execve).
Proof.
  intros s v s' Hw Hu E. unfold ret, sys_execve in E. minv E. injection E as <- <-.
  minv E0. apply my_proc_ok in E as [-> Hw']. assert (a0 = w) as -> by congruence.
  do 4 peel E0. minv E0. apply exec_view in E as (i & Hf & E).
  assert (view s4 = view s) as Hv by congruence. rewrite Hv in *.
  destruct a4 as [np|].
  2: { injection E0 as <- <-. rewrite E. by constructor. }
  destruct E as [-> E]. assert (w ≠ i) as Hne.
  { intros ->. destruct Hu as (p & st & Hu), Hf as [(q & st' & Hf) _]. congruence. }
  do 4 peel E0. minv E0. apply task_ok in E1 as [-> Ht]. minv E0.
  eapply (update_view _ _ (λ x, (pid a8, x.1.2, x.2))) in E1 as [_ E1]; [|by intros []].
  do 4 peel E0. minv E0.
  eapply (update_view _ _ (λ x, (-1, x.1.2, x.2))) in E2 as [_ E2]; [|by intros []].
  minv E0. apply set_state_view in E3. injection E0 as <- <-.
  set (T := entered i InUser (allocated i USED (view s))) in *.
  match goal with |- kernel_run _ _ _ ?v => assert (v = replaced w i T) as -> end; [|by apply kr_exec].
  assert (view s9 = T) as Hv9 by congruence. assert (slots T !! w = Some (core a8)) as Hs
    by (rewrite <- Hv9; by apply view_slot).
  rewrite <- (replaced_view T w i (pid a8) (state a8) (allocs a8) (next_pid (view s))).
  - rewrite E3, E2. f_equal. assert (view s14 = view s10) as -> by congruence. by rewrite E1, Hv9.
  - done.
  - done.
  - unfold T. simpl. apply list_lookup_insert_eq. by apply (fresh_lt (view s)).
Qed.

Lemma behaves_sys_exit w : behaves w sys_exit.
Proof.
  unfold sys_exit. apply behaves_bind; [keeps|]. intros code. apply behaves_bind; [keeps|]. intros _.
  intros s v s' Hw Hu E. minv E. apply (behaves_exit w) in E0; [|done..].
  destruct a; injection E as <- <-; [|done]. by eapply run_return.
Qed.

Lemma reap_view pos ws ru s v s' : reap pos ws ru s = Ok (v, s') →
  view s' = with_state pos TASK_KILLED (view s).
Proof.
  unfold reap. intros E. do 2 peel E. minv E. apply set_state_view in E0. minv E.
  apply task_ok in E1 as [-> _]. injection E as _ <-. rewrite E0. f_equal. congruence.
Qed.

Lemma wait_scan_ok fuel head n b s r s' : wait_scan fuel head n b s = Ok (r, s') →
  ∀ pos, r.1 = Some pos → ∃ t, proc s !! pos = Some t ∧ state t = TASK_ZOMBIE.
Proof.
  revert n b s. induction fuel as [|fuel IH]; intros n b s; simpl; [done|].
  destruct (decide (n = head)); [by intros [= <- <-] pos|].
  destruct n as [i|pos0]; [done|]. intros E pos Hr. minv E. apply task_ok in E0 as [-> Ht].
  case_bool_decide as Hz.
  - injection E as <- <-. injection Hr as <-. eauto.
  - minv E. destruct (IH _ _ _ E pos Hr) as (t & Ht' & ?).
    unfold on_links, zoom in E0. destruct (next _ _) as [[? ?]|]; [|done]. injection E0 as <- <-.
    by exists t.
Qed.

Lemma behaves_wait_any w tf ws ru : behaves w (wait_any tf ws ru).
Proof.
  intros s v s' Hw Hu E. unfold wait_any in E. do 3 peel E. minv E.
  pose proof (wait_scan_ok _ _ _ _ _ _ _ E0) as Hz. kept E0.
  assert (view s3 = view s) as Hv by congruence.
  destruct a2 as [[pos|] []].
  1,2: destruct (Hz pos eq_refl) as (t & Ht & Hst); minv E; injection E as <- <-;
    apply reap_view in E1; rewrite E1, Hv; apply view_slot in Ht; unfold core in Ht; rewrite Hst in Ht;
    econstructor; erewrite <- Ht; by replace (view s) with (view s2) by congruence.
  - rewrite <- Hv. eapply (behaves_yield w (InWaitAny tf ws ru)); [done| | |done].
    + by rewrite (cur_proc_view _ _ Hv).
    + by rewrite Hv.
  - injection E as <- <-. rewrite Hv. constructor.
Qed.

Lemma behaves_wait_pid w tf pos ws ru : behaves w (wait_pid tf pos ws ru).
Proof.
  unfold wait_pid. intros s v s' Hw Hu E. minv E. apply task_ok in E0 as [-> Ht].
  case_bool_decide as Hz.
  - minv E. injection E as <- <-. apply reap_view in E0. rewrite E0.
    apply view_slot in Ht. unfold core in Ht. rewrite Hz in Ht. by econstructor.
  - by eapply (behaves_yield w (InWaitPid tf pos ws ru)).
Qed.

Lemma keeps_proc_find v : keeps (A:=A) (proc_find v).
Proof. unfold proc_find. keeps. Qed.

Lemma behaves_wait4 w : behaves w sys_wait4.
Proof.
  unfold sys_wait4. do 3 (apply behaves_bind; [keeps|intros]).
  apply behaves_bind; [unfold get_trapframe; keeps|intros]. apply behaves_bind; [keeps|intros].
  destruct (_ =? _); [apply behaves_wait_any|].
  apply behaves_bind; [apply keeps_proc_find|intros [pos|]]; [|apply behaves_fail].
  apply behaves_bind; [keeps|intros t]. case_bool_decide; [apply behaves_return|apply behaves_wait_pid].
Qed.

Lemma behaves_timer w : behaves w timer_handler.
Proof.
  unfold timer_handler. do 4 (apply behaves_bind; [keeps|intros]). apply behaves_bind; [keeps|intros].
  by apply behaves_yield.
Qed.

(** ** Traps *)

(** The handlers of the table that do not touch the process table. *)
Ltac plain_handler :=
  apply behaves_ret;
  unfold sys_openat, sys_close, sys_read, sys_write, sys_lseek, sys_fcntl, sys_brk, sys_mmap,
    sys_writev, sys_newuname, sys_read_link_at, sys_getrandom, sys_rt_sigaction, sys_setitimer,
    sys_get_proc_id, get_proc_id, sys_return_zero, sys_return_wrong, sys_chdir, sys_getcwd, getcwd,
    sys_dup3, sys_dup, sys_pipe2, sys_poll, sys_sendfile, argstr, argaddr, string_in;
  keeps.

Lemma syscalls_behave w num h : syscalls num = Some h → behaves w h.
Proof.
  unfold syscalls. intros ([n h'] & Hf & ->)%fmap_Some. apply List.find_some in Hf as [Hin _]. unfold syscall_table in Hin.
  repeat (destruct Hin as [[= _ <-]|Hin];
    [first [solve [plain_handler]|apply behaves_clone|apply behaves_execve|apply behaves_sys_exit|apply behaves_wait4]|]). done.
Qed.

Lemma behaves_finish w c tf : behaves w c → behaves w (v ← c; finish tf v).
Proof.
  intros Hc. apply behaves_then. intros s v s' Hw Hu E v' s'' E'.
  pose proof (Hc _ _ _ Hw Hu E) as Hr. destruct v; cbn in E'.
  - peel E'. injection E' as <- <-. rewrite F. done.
  - by injection E' as <- <-.
Qed.

Lemma behaves_syscall w : behaves w syscall_handler.
Proof.
  unfold syscall_handler. apply behaves_bind; [unfold get_trapframe; keeps|intros tf].
  apply behaves_bind; [keeps|intros num]. apply behaves_finish.
  destruct (syscalls _) eqn:E; [by eapply syscalls_behave|].
  do 3 (apply behaves_bind; [keeps|intros]). apply behaves_sys_exit.
Qed.

Lemma behaves_trap w estat ecfg : behaves w (trap_handler estat ecfg).
Proof.
  unfold trap_handler, r_trap_era, w_trap_era, get_trapframe.
  apply behaves_bind; [keeps|intros era]. destruct (negb _); [apply behaves_fail|].
  destruct (negb _); [apply behaves_timer|].
  apply behaves_bind; [keeps|intros]. apply behaves_bind; [keeps|intros].
  repeat case_match; first [apply behaves_syscall|apply behaves_return|apply behaves_exit|apply behaves_fail].
Qed.

Lemma behaves_resume w k : behaves w (resume_at k).
Proof.
  destruct k; simpl; [apply behaves_return..| |].
  - apply behaves_finish, behaves_wait_any.
  - apply behaves_finish, behaves_wait_pid.
Qed.

Lemma runs_kernel w k s c s' : cur_proc s = Some w → used (view s) w → runs k s c s' →
  kernel_run w (view s) c (view s').
Proof.
  intros Hw Hu Hr. inversion Hr; subst.
  - by eapply behaves_resume.
  - eapply (behaves_trap w) in H2; [exact H2|done..].
Qed.

(** ** The machine *)
Definition abstract (m : machine (A:=A)) : place * nat * table := (at_place m, slot m, view (ker m)).

(** A process that executes is in use. *)
Definition running_used (c : place * nat * table) : Prop :=
  ∀ k, c.1.1 = Process k → ∃ w, current c.2 = Some w ∧ used c.2 w.

Lemma sane_running_used n pl sl T : sane n pl sl T → running_used (pl, sl, T).
Proof.
  intros Hs k Hk. simpl in Hk. destruct (sane_process _ _ _ _ Hs k Hk) as (_ & Hc & p & st & _ & Hu).
  exists sl. split; [done|]. by exists p, st.
Qed.

Lemma sched_visit_false i s s' : sched_visit i s = Ok (false, s') → s' = s ∧ ¬ runnable (view s) i.
Proof.
  unfold sched_visit. intros E. minv E. apply task_ok in E0 as [-> Ht].
  assert (∀ st, state a = st → st ≠ TASK_RUNABLE → ¬ runnable (view s) i) as Hn.
  { intros st Hst Hne (p & Hr & _). rewrite (view_slot _ _ _ Ht) in Hr. unfold core in Hr. congruence. }
  case_bool_decide as Hu; simpl in E.
  { injection E as <-. split; [done|]. intros (p & Hr & _). rewrite (view_slot _ _ _ Ht) in Hr.
    unfold core in Hr. congruence. }
  destruct (Z.eqb_spec (pid a) 0) as [H0'|]; simpl in E.
  { injection E as <-. split; [done|]. intros (p & Hr & Hp). rewrite (view_slot _ _ _ Ht) in Hr.
    unfold core in Hr. congruence. }
  destruct (state a) eqn:Hst.
  - injection E as <-. split; [done|]. by apply (Hn _ eq_refl).
  - do 3 minv E. done.
  - injection E as <-. split; [done|]. by apply (Hn _ eq_refl).
  - injection E as <-. split; [done|]. by apply (Hn _ eq_refl).
Qed.

Lemma sched_visit_true i s s' : sched_visit i s = Ok (true, s') →
  runnable (view s) i ∧ view s' = dispatched i (view s).
Proof.
  unfold sched_visit. intros E. minv E. apply task_ok in E0 as [-> Ht].
  case_bool_decide as Hu; simpl in E; [done|]. destruct (Z.eqb_spec (pid a) 0) as [|Hp]; simpl in E; [done|].
  destruct (state a) eqn:Hst; try done. split.
  { exists (pid a). rewrite (view_slot _ _ _ Ht). unfold core. rewrite Hst. by destruct (allocs a). }
  minv E. apply set_state_view in E0. minv E. apply set_state_view in E1. minv E. injection E as <-.
  unfold switch_to in E2. minv E2. injection E as _ <-. minv E2. apply task_ok in E as [-> _].
  injection E2 as _ <-. unfold dispatched. rewrite <- E0, <- E1. done.
Qed.

Lemma step_refines m m' : running_used (abstract m) → step m m' → tmove (abstract m) (abstract m').
Proof.
  intros Hu Hs. inversion Hs; subst; unfold abstract; simpl.
  - apply sched_visit_false in H2 as [-> ?]. by constructor.
  - apply sched_visit_true in H2 as [? Hv]. rewrite Hv. constructor; [done..|].
    apply (f_equal resumes) in Hv. simpl in *. congruence.
  - constructor.
  - constructor.
  - destruct (Hu k eq_refl) as (w & Hw & Hused). econstructor; [done|]. by eapply runs_kernel.
  - destruct (Hu k eq_refl) as (w & Hw & Hused). rewrite view_with_points.
    pose proof (runs_kernel _ _ _ _ _ Hw Hused H1) as Hr.
    assert (p = w) as ->.
    { apply run_current in Hr. simpl in *. congruence. }
    by econstructor.
  - destruct (Hu InUser eq_refl) as (w & Hw & Hused). econstructor; [done|]. apply (kr_keep _ _ 0).
Qed.

Lemma reach_refines n0 n ds m m' : sane n0 (at_place m) (slot m) (view (ker m)) → reach n ds m m' →
  n0 + Z.of_nat n < 2 ^ 31 →
  treach n ds (abstract m) (abstract m') ∧
  sane (n0 + Z.of_nat n) (at_place m') (slot m') (view (ker m')).
Proof.
  intros Hs Hr. induction Hr as [m|n ds m m' m'' Hr IH Hstep]; intros Hn.
  - split; [constructor|]. by rewrite Z.add_0_r.
  - destruct (IH Hs) as [Ht Hs']; [lia|]. assert (tmove (abstract m') (abstract m'')) as Hm.
    { apply step_refines; [|done]. by eapply sane_running_used. }
    split; [by apply (treach_S n ds (abstract m) (abstract m') (abstract m''))|]. replace (n0 + Z.of_nat (S n)) with (n0 + Z.of_nat n + 1) by lia.
    eapply sane_move; [done|lia|done].
Qed.

(** ** Boot *)
Lemma kernel_proc_init_view s u s' : kernel_proc_init s = Ok (u, s') →
  (∃ p, slots (view s) !! 0%nat = Some (p, UNUSED)) →
  view s' = {| slots := <[0%nat := (0, TASK_RUNNING, USED)]> (slots (view s));
               next_pid := s32 (last_pid s + 1); current := cur_proc s; resumes := points s |}.
Proof.
  unfold kernel_proc_init. intros E [p Hp]. minv E. apply proc_alloc_view in E0 as [Hf [st Hv]].
  pose proof (fresh_lt _ _ Hf) as Hlt. assert (a = 0%nat) as ->.
  { destruct Hf as [_ Hfirst]. destruct a as [|a]; [done|].
    specialize (Hfirst 0%nat (p, UNUSED) ltac:(lia) Hp). done. }
  peel E. minv E. eapply (update_view _ _ (λ x, (0, x.1.2, x.2))) in E0 as [_ E0]; [|by intros []].
  do 2 peel E. minv E. apply set_state_view in E1. repeat peel E. kept E.
  assert (view s' = view s5) as -> by congruence. rewrite E1. assert (view s4 = view s2) as -> by congruence.
  rewrite E0, F, Hv. unfold with_state, with_slots. simpl. f_equal.
  rewrite (alter_at (λ x, (0, x.1.2, x.2)) _ _ (last_pid s, st, USED)) by (by apply list_lookup_insert_eq).
  rewrite list_insert_insert_eq, (alter_at _ _ _ (0, st, USED)) by (by apply list_lookup_insert_eq).
  by rewrite list_insert_insert_eq.
Qed.

(** [proc_init] leaves the scheduler's process alone in the table. *)
Lemma proc_init_sane s u s' : last_pid s = 0 → proc_init s = Ok (u, s') →
  sane 1 (Scheduler 0 false) 0 (view s').
Proof.
  intros H0' E. unfold proc_init in E. minv E. injection E0 as _ <-. minv E. injection E0 as _ <-.
  minv E. set (sz := with_links _ _) in E0.
  assert (slots (view sz) = replicate PROC_MAX (0, TASK_RUNNING, UNUSED)) as Hs0 by done.
  assert (last_pid sz = 0) as Hl0 by done. clearbody sz.
  assert (0 < length (slots (view sz)))%nat as Hlt by (rewrite Hs0, length_replicate; unfold PROC_MAX; lia).
  apply kernel_proc_init_view in E0; [|exists (0, TASK_RUNNING); by rewrite Hs0].
  minv E. injection E1 as _ <-. minv E.
  assert (view s' = view (with_cur_proc (Some kproc) s0)) as ->.
  { revert E E1. unfold assert, gets. destruct (_ =? _); [|done]. intros [= _ <-] [= _ <-]. done. }
  unfold view in E0 |- *. simpl. injection E0 as Es En Ec Er.
  assert (∀ j x, <[0%nat := (0, TASK_RUNNING, USED)]> (slots (view sz)) !! j = Some x → x.2 = USED →
    j = 0%nat ∧ x = (0, TASK_RUNNING, USED)) as Hone.
  { intros j x. rewrite insert_lookup by done. destruct (decide (0 = j)%nat).
    - intros [= <-]. done.
    - rewrite Hs0. intros [-> _]%lookup_replicate. done. }
  change (core <$> proc sz) with (slots (view sz)) in Es. rewrite Es, En, Hl0.
  split; cbn [slots next_pid current resumes holder]; rewrite ?swrap_id by lia.
  - by rewrite length_insert, Hs0, length_replicate.
  - exists TASK_RUNNING. by rewrite list_lookup_insert_eq.
  - intros i p [-> _]%Hone; done.
  - intros i p st [_ [= -> _]]%Hone; [lia|done].
  - intros i j p st st' [-> _]%Hone [-> _]%Hone; done.
  - lia.
  - intros i (p & [_ ?]%Hone & _); done.
  - done.
Qed.

(** [user_init] adds the first process. *)
Lemma user_init_sane n argv envp s u s' : sane n (Scheduler 0 false) 0 (view s) → n < 2 ^ 31 - 1 →
  user_init argv envp s = Ok (u, s') → sane (n + 1) (Scheduler 0 false) 0 (view s').
Proof.
  intros Hs Hn E. unfold user_init in E. minv E. apply exec_view in E0 as (i & Hf & Hv).
  destruct a as [p|]; [|done]. destruct Hv as [-> Hv].
  assert (keeps (A:=A) (update i (set_cwd [47; 98; 105; 110]))) as Hk by keeps.
  rewrite (Hk _ _ _ E), Hv. eapply (sane_new _ _ _ _ _ i USED Hs); try done; intros; simpl.
  - by rewrite lookup_insert_ne.
  - by rewrite lookup_insert_eq.
Qed.
End refinement.
