(* ===== verification/KernelProps.v ===== *)
(** * What holds in every execution of the kernel

    The properties of [SchedSpec] for the machine of [Kernel], stated on the
    process table of the C code, and the effect of [sys_wait4].  An execution
    starts in a state with the invariant [booted], which [proc_init] and
    [user_init] establish ([Sched.proc_init_sane], [Sched.user_init_sane]). *)

From S2P Require Import Prelude Mem CString KList PageAlloc Vm Malloc MList AddrSpace Ext2 Uart Fs Proc Exec Syscall Kernel SchedSpec Sched.

Section properties.
Context {A : Type} `{PageAllocator A} `{Machine}.
Implicit Types (m : machine (A:=A)).

(** [m] has the invariant of the process table, after at most [n] processes. *)
Definition booted (n : Z) m : Prop := sane n (at_place m) (slot m) (view (ker m)).

(** Slot [i] holds a process in state [st]. *)
Definition in_state m (i : nat) (st : proc_state) : Prop :=
  ∃ t, proc (ker m) !! i = Some t ∧ allocs t = USED ∧ state t = st.

(** A process [j] other than the scheduler's that does not execute. *)
Definition waits m (j : nat) : Prop :=
  j ≠ kproc ∧ ∀ k, at_place m = Process k → cur_proc (ker m) ≠ Some j.

Lemma slot_view m i t : proc (ker m) !! i = Some t → slots (view (ker m)) !! i = Some (core t).
Proof. apply view_slot. Qed.

Lemma view_slot_inv m i p st a : slots (view (ker m)) !! i = Some (p, st, a) →
  ∃ t, proc (ker m) !! i = Some t ∧ pid t = p ∧ state t = st ∧ allocs t = a.
Proof.
  unfold view. simpl. rewrite list_lookup_fmap. destruct (proc (ker m) !! i) as [t|]; [|done].
  intros [= <- <- <-]. eauto.
Qed.

(** C2: one process runs at a time.  In every execution of fewer than 2^31 steps from a
    booted machine: slot 0 keeps the scheduler's process with pid 0; the only slot in state
    TASK_RUNNING is that of the process that executes ([cur_proc]), or slot 0 while the
    scheduler does; a process that executes owns its slot; and no two processes have the same
    pid, apart from -1, which [sys_execve] leaves in the slot it replaced. *)
Theorem one_running n0 n ds m m' : booted n0 m → reach n ds m m' → n0 + Z.of_nat n < 2 ^ 31 →
  (∃ t, proc (ker m') !! kproc = Some t ∧ allocs t = USED ∧ pid t = 0) ∧
  (∀ i, in_state m' i TASK_RUNNING →
    match at_place m' with Process _ => cur_proc (ker m') = Some i | _ => i = kproc end) ∧
  (∀ k, at_place m' = Process k → ∃ i t, cur_proc (ker m') = Some i ∧ i ≠ kproc ∧
    proc (ker m') !! i = Some t ∧ allocs t = USED) ∧
  (∀ i j ti tj, proc (ker m') !! i = Some ti → proc (ker m') !! j = Some tj → allocs ti = USED →
    allocs tj = USED → pid ti = pid tj → pid ti ≠ -1 → i = j).
Proof.
  intros Hb Hr Hn. destruct (reach_refines _ _ _ _ _ Hb Hr Hn) as [_ Hs].
  pose proof (sane_kproc _ _ _ _ Hs) as [st Hk]. pose proof (sane_process _ _ _ _ Hs) as Hp.
  split_and!.
  - apply view_slot_inv in Hk as (t & ? & ? & _ & ?). eauto.
  - intros i (t & Ht & Hu & Hst). apply slot_view in Ht. unfold core in Ht. rewrite Hu, Hst in Ht.
    pose proof (sane_running _ _ _ _ Hs _ _ Ht) as ->. unfold holder.
    destruct (at_place m') eqn:E; try done. destruct (Hp _ eq_refl) as (_ & Hc & _). simpl in *.
    by rewrite Hc.
  - intros k E. destruct (Hp k E) as (_ & Hc & p & st' & Hp0 & Hsl).
    apply view_slot_inv in Hsl as (t & Ht & Hpid & _ & Hu). exists (slot m'), t. split_and!; [done| |done..].
    intros Hz. rewrite Hz in Ht. apply slot_view in Ht. unfold core in Ht. simplify_eq.
  - intros i j ti tj Hi Hj Hui Huj Hpid Hne. apply slot_view in Hi, Hj. unfold core in Hi, Hj.
    rewrite Hui in Hi. rewrite Huj, <- Hpid in Hj. by eapply (sane_inj _ _ _ _ Hs).
Qed.

Lemma in_state_view m i st : in_state m i st ↔ ∃ p, slots (view (ker m)) !! i = Some (p, st, USED).
Proof.
  split.
  - intros (t & Ht & Hu & Hst). exists (pid t). apply slot_view in Ht. unfold core in Ht. congruence.
  - intros (p & (t & Ht & _ & Hst & Hu)%view_slot_inv). by exists t.
Qed.

Lemma booted_runnable n m j : booted n m → j ≠ kproc → in_state m j TASK_RUNABLE →
  runnable (view (ker m)) j ∧ (j < PROC_MAX)%nat.
Proof.
  intros Hb Hj (p & Hs)%in_state_view. pose proof (sane_kproc _ _ _ _ Hb) as [st Hk]. split.
  - exists p. split; [done|]. intros ->. by apply Hj, (sane_inj _ _ _ _ Hb j kproc 0 TASK_RUNABLE st).
  - rewrite <- (sane_length _ _ _ _ Hb). by eapply lookup_lt_Some.
Qed.

(** C3: no starvation.  Let a process in slot [j] be runnable and not executing at some point
    [m] of an execution that started in the scheduler.  However the execution goes on, until [j]
    is dispatched at most 63 other dispatches happen, [j] stays runnable, and the machine does
    not shut down. *)
Theorem no_starvation n0 n1 ds1 m0 m n ds m' j : booted n0 m0 → at_place m0 = Scheduler 0 false →
  reach n1 ds1 m0 m → waits m j → in_state m j TASK_RUNABLE → reach n ds m m' →
  n0 + Z.of_nat n1 + Z.of_nat n < 2 ^ 31 → j ∉ ds →
  (length ds ≤ 63)%nat ∧ in_state m' j TASK_RUNABLE ∧ at_place m' ≠ Shutdown.
Proof.
  intros Hb0 H0' Hr1 [Hj Hoff] Hrun Hr Hn Hd.
  destruct (reach_refines _ _ _ _ _ Hb0 Hr1) as [Ht1 Hb]; [lia|].
  destruct (reach_refines _ _ _ _ _ Hb Hr) as [Ht _]; [lia|].
  destruct (booted_runnable _ _ _ Hb Hj Hrun) as [Hrj Hlt].
  assert (quiet (abstract m0)) as Hq0 by (unfold quiet, abstract; simpl; rewrite H0'; lia).
  pose proof (reach_quiet _ _ _ _ Ht1 Hq0) as Hq.
  destruct (distance_reach _ _ _ _ j Ht Hq) as (Hrj' & _ & Hdist); [by split|done..|].
  assert (distance (abstract m) j ≤ 63)%nat.
  { apply distance_bound; [done|]. intros k Hk. destruct (sane_process _ _ _ _ Hb k Hk) as (_ & _ & p & st & _ & Hu).
    simpl. apply lookup_lt_Some in Hu. by rewrite (sane_length _ _ _ _ Hb) in Hu. }
  split_and!; [lia| |].
  - apply in_state_view. destruct Hrj' as (p & ? & _). eauto.
  - intros E. pose proof (reach_quiet _ _ _ _ Ht Hq) as Hq'. unfold quiet, abstract in Hq'. simpl in Hq'.
    rewrite E in Hq'. by eapply Hq'.
Qed.

(** The machine shuts down only when no process can run. *)
Theorem shutdown_idle n0 n ds m m' i : booted n0 m → at_place m = Scheduler 0 false →
  reach n ds m m' → n0 + Z.of_nat n < 2 ^ 31 → at_place m' = Shutdown → i ≠ kproc →
  ¬ in_state m' i TASK_RUNABLE ∧ ¬ in_state m' i TASK_RUNNING.
Proof.
  intros Hb H0' Hr Hn Hend Hi. destruct (reach_refines _ _ _ _ _ Hb Hr Hn) as [Ht Hs].
  assert (quiet (abstract m)) as Hq0 by (unfold quiet, abstract; simpl; rewrite H0'; lia).
  pose proof (reach_quiet _ _ _ _ Ht Hq0) as Hq. unfold quiet, abstract in Hq. simpl in Hq.
  rewrite Hend in Hq. split.
  - intros Hrun. destruct (booted_runnable _ _ _ Hs Hi Hrun) as [Hrj Hlt]. by eapply Hq.
  - intros (p & Hp)%in_state_view. apply (sane_running _ _ _ _ Hs) in Hp. rewrite Hend in Hp. done.
Qed.

(** C24: a process that has exited, or was reaped, never runs again: slot [j] is never
    dispatched, and a reaped one stays TASK_KILLED for ever, so that a parent in the loop of
    [sys_wait4] for it yields each time it is resumed and never returns. *)
Theorem dead_never_runs n0 n ds m m' j : booted n0 m → reach n ds m m' → n0 + Z.of_nat n < 2 ^ 31 →
  waits m j → in_state m j TASK_ZOMBIE ∨ in_state m j TASK_KILLED →
  j ∉ ds ∧ waits m' j ∧ (in_state m' j TASK_ZOMBIE ∨ in_state m' j TASK_KILLED) ∧
  (in_state m j TASK_KILLED → in_state m' j TASK_KILLED ∧
    ∀ tf wstatus rusage c s', resume_at (InWaitPid tf j wstatus rusage) (ker m') = Ok (c, s') →
      c = Yield (InWaitPid tf j wstatus rusage)).
Proof.
  intros Hb Hr Hn Hw Hst. destruct (reach_refines _ _ _ _ _ Hb Hr Hn) as [Ht Hs].
  assert (dead (view (ker m)) j) as Hd.
  { destruct Hst as [(p & ?)%in_state_view|(p & ?)%in_state_view]; eexists _, _; eauto. }
  destruct (reach_dead _ _ _ _ j Ht Hw Hd) as (Hw' & (p & st & Hp & Hst') & Hk & Hni).
  split_and!; [done|done| |].
  - destruct Hst' as [-> | ->]; [left|right]; apply in_state_view; eauto.
  - intros Hkm. assert (in_state m' j TASK_KILLED) as Hkm'.
    { apply in_state_view. apply in_state_view in Hkm. by apply Hk. }
    split; [done|]. intros tf ws ru c s' E. destruct Hkm' as (t & Htj & _ & Hkt).
    simpl in E. minv E. unfold wait_pid in E0. minv E0. apply task_ok in E1 as [-> Htj'].
    simplify_eq. rewrite Hkt in E0. rewrite bool_decide_eq_false_2 in E0 by done.
    minv E0. injection E0 as <- <-. by injection E as <- <-.
Qed.

(** C25: process slots are never given back.  A slot in use stays in use in every execution
    (nothing calls [proc_free] on it), and when all 64 are in use [fork] and [exec] end in
    [panic] from then on. *)
Theorem slots_leak n0 n ds m m' : booted n0 m → reach n ds m m' → n0 + Z.of_nat n < 2 ^ 31 →
  (∀ i t, proc (ker m) !! i = Some t → allocs t = USED →
    ∃ t', proc (ker m') !! i = Some t' ∧ allocs t' = USED) ∧
  ((∀ i t, proc (ker m) !! i = Some t → allocs t = USED) →
    (∀ p, fork p (ker m') = Err Halt) ∧ ∀ path argv envp, exec path argv envp (ker m') = Err Halt).
Proof.
  intros Hb Hr Hn. destruct (reach_refines _ _ _ _ _ Hb Hr Hn) as [Ht Hs].
  assert (∀ i t, proc (ker m) !! i = Some t → allocs t = USED →
    ∃ t', proc (ker m') !! i = Some t' ∧ allocs t' = USED) as Hused.
  { intros i t Hi Hu. apply slot_view in Hi. unfold core in Hi. rewrite Hu in Hi.
    destruct (reach_used _ _ _ _ i Ht) as (p & st & Hi'); [by eexists _, _|].
    apply view_slot_inv in Hi' as (t' & ? & _ & _ & ?). eauto. }
  split; [done|]. intros Hall.
  assert (find_from is_unused (proc (ker m')) 0 = None) as Hnone.
  { destruct (find_from is_unused (proc (ker m')) 0) as [i|] eqn:E; [|done].
    apply find_from_ok in E as (j & t & _ & Hj & Hun & _). unfold is_unused in Hun.
    apply bool_decide_eq_true in Hun. destruct (lookup_lt_is_Some_2 (proc (ker m)) j) as [t0 Ht0].
    { apply lookup_lt_Some in Hj. pose proof (sane_length _ _ _ _ Hb) as L. pose proof (sane_length _ _ _ _ Hs) as L'.
      unfold view in L, L'. simpl in L, L'. rewrite length_fmap in L, L'. lia. }
    destruct (Hused j t0 Ht0 (Hall j t0 Ht0)) as (t' & Ht' & Hu'). congruence. }
  assert (proc_alloc (ker m') = Err Halt) as Halloc.
  { unfold proc_alloc. rewrite (bind_ok _ _ _ (proc (ker m')) (ker m')) by done. by rewrite Hnone. }
  split; [intros p; unfold fork|intros; unfold exec]; by apply bind_err.
Qed.

(** C1: the kernel implements the abstract process table: every execution of the machine is,
    on the view (pid, state, use of every slot, [last_pid], [cur_proc], the points where
    suspended processes resume), an execution of [SchedSpec] with the same dispatches. *)
Theorem kernel_refines_table n0 n ds m m' : booted n0 m → reach n ds m m' → n0 + Z.of_nat n < 2 ^ 31 →
  treach n ds (abstract m) (abstract m').
Proof. intros Hb Hr Hn. by destruct (reach_refines _ _ _ _ _ Hb Hr Hn). Qed.
End properties.

(** ** Witnesses: the scheduler passes slot 0 and dispatches process 1; process 2, its child, is
    runnable or dead *)
Section witnesses.
#[local] Existing Instance sample_iface.

Definition sample_machine (st1 st2 : proc_state) : machine (A:=Z) :=
  {| ker := sample_kernel 0 TASK_RUNNING st1 st2; at_place := Scheduler 0 false; slot := 0 |}.
Definition sample_running (st2 : proc_state) : machine (A:=Z) :=
  {| ker := with_pgdl 0 (with_cur_proc (Some 1%nat) (sample_kernel 0 TASK_RUNABLE TASK_RUNNING st2));
     at_place := Process InUser; slot := 1 |}.

Lemma sample_slots st1 st2 i p st : slots (view (ker (sample_machine st1 st2))) !! i = Some (p, st, USED) →
  i = 0%nat ∧ p = 0 ∧ st = TASK_RUNNING ∨ i = 1%nat ∧ p = 1 ∧ st = st1 ∨ i = 2%nat ∧ p = 2 ∧ st = st2.
Proof.
  intros E. change (slots (view (ker (sample_machine st1 st2)))) with
    ((0, TASK_RUNNING, USED) :: (1, st1, USED) :: (2, st2, USED) :: replicate 61 (0, TASK_RUNNING, UNUSED)) in E.
  destruct i as [|[|[|i]]]; [cbn in E; injection E as <- <-; tauto..|].
  change (replicate 61 (0, TASK_RUNNING, UNUSED) !! i = Some (p, st, USED)) in E.
  by apply lookup_replicate in E as [? _].
Qed.

Lemma sample_booted st1 st2 : st1 ≠ TASK_RUNNING → st2 ≠ TASK_RUNNING → booted 3 (sample_machine st1 st2).
Proof.
  intros Hst1 Hst. split.
  - done.
  - by exists TASK_RUNNING.
  - intros i p [(-> & _)|[(_ & _ & ?)|(_ & _ & ?)]]%sample_slots; done.
  - intros i p st Hi%sample_slots. right. simpl. lia.
  - intros i j p st st' Hi%sample_slots Hj%sample_slots _. lia.
  - done.
  - intros i (p & [(_ & ? & _)|[(-> & _)|(-> & _)]]%sample_slots & ?); [done|by exists InUser..].
  - done.
Qed.

Lemma sample_reach st2 : reach 2 [1%nat] (sample_machine TASK_RUNABLE st2) (sample_running st2).
Proof.
  set (mid := {| ker := ker (sample_machine TASK_RUNABLE st2); at_place := Scheduler 1 false; slot := 0 |}).
  refine (reach_S 1 [] _ mid (sample_running st2) _ _).
  - refine (reach_S 0 [] _ (sample_machine TASK_RUNABLE st2) mid (reach_0 _) _). constructor; [unfold PROC_MAX; lia|done].
  - constructor; [unfold PROC_MAX; lia|done|done].
Qed.

Lemma one_running_witness :
  reach 2 [1%nat] (sample_machine TASK_RUNABLE TASK_RUNABLE) (sample_running TASK_RUNABLE) ∧
  ∀ i, in_state (sample_running TASK_RUNABLE) i TASK_RUNNING → Some 1%nat = Some i.
Proof.
  split; [apply sample_reach|].
  exact (proj1 (proj2 (one_running 3 2 _ _ _ (sample_booted TASK_RUNABLE TASK_RUNABLE ltac:(done) ltac:(done)) (sample_reach _) ltac:(lia)))).
Defined.

Lemma no_starvation_witness : (length [1%nat] ≤ 63)%nat ∧ in_state (sample_running TASK_RUNABLE) 2 TASK_RUNABLE.
Proof.
  destruct (no_starvation 3 0 [] (sample_machine TASK_RUNABLE TASK_RUNABLE) (sample_machine TASK_RUNABLE TASK_RUNABLE) 2 [1%nat]
    (sample_running TASK_RUNABLE) 2) as (? & ? & _).
  - by apply sample_booted.
  - done.
  - constructor.
  - by split.
  - by eexists.
  - apply sample_reach.
  - lia.
  - by_decide.
  - by split.
Defined.

Definition sample_idle (i : nat) : machine (A:=Z) :=
  {| ker := ker (sample_machine TASK_ZOMBIE TASK_KILLED); at_place := Scheduler i false; slot := 0 |}.

Lemma sample_idle_reach i : (i ≤ PROC_MAX)%nat → reach i [] (sample_idle 0) (sample_idle i).
Proof.
  induction i as [|i IH]; intros Hi; [constructor|].
  refine (reach_S i [] _ (sample_idle i) (sample_idle (S i)) (IH ltac:(lia)) _).
  constructor; [lia|]. unfold sched_visit. destruct i as [|[|[|i]]]; [done..|].
  rewrite (bind_ok _ _ _ task0 (ker (sample_idle 0))); [done|]. apply task_run.
  change (replicate 61 task0 !! i = Some task0). apply lookup_replicate. unfold PROC_MAX in Hi. split; [done|lia].
Qed.

Lemma shutdown_idle_witness : ¬ in_state (sample_idle 64) 1 TASK_RUNABLE.
Proof.
  refine (proj1 (shutdown_idle 3 65 [] (sample_idle 0)
    {| ker := ker (sample_idle 0); at_place := Shutdown; slot := 0 |} 1 _ _ _ _ _ _)).
  - by apply sample_booted.
  - done.
  - refine (reach_S 64 [] _ (sample_idle PROC_MAX)
      {| ker := ker (sample_idle 0); at_place := Shutdown; slot := 0 |} (sample_idle_reach 64 ltac:(unfold PROC_MAX; lia)) _).
    constructor.
  - lia.
  - done.
  - done.
Defined.

Lemma dead_never_runs_witness : in_state (sample_running TASK_KILLED) 2 TASK_KILLED ∧ 2%nat ∉ [1%nat].
Proof.
  destruct (dead_never_runs 3 2 [1%nat] (sample_machine TASK_RUNABLE TASK_KILLED) (sample_running TASK_KILLED) 2) as (Hni & _ & _ & Hk).
  - by apply sample_booted.
  - apply sample_reach.
  - lia.
  - by split.
  - right. by eexists.
  - split; [|exact Hni]. apply Hk. by eexists.
Defined.

Lemma slots_leak_witness : ∃ t, proc (ker (sample_running TASK_KILLED)) !! 2%nat = Some t ∧ allocs t = USED.
Proof.
  refine (proj1 (slots_leak 3 2 [1%nat] (sample_machine TASK_RUNABLE TASK_KILLED) (sample_running TASK_KILLED) _ _ _) 2%nat
    (sample_task 2 1 TASK_KILLED) eq_refl eq_refl).
  - by apply sample_booted.
  - apply sample_reach.
  - lia.
Defined.

Lemma kernel_refines_table_witness :
  treach 2 [1%nat] (abstract (sample_machine TASK_RUNABLE TASK_RUNABLE)) (abstract (sample_running TASK_RUNABLE)).
Proof.
  eapply (kernel_refines_table 3); [by apply sample_booted|apply sample_reach|lia].
Defined.
End witnesses.
