(* ===== verification/Wait.v ===== *)
(** * core/syscall.c: sys_wait4

    The three outcomes of a pass over the list of children, for a well-formed
    list ([KList.circ]): the first zombie is reaped, the caller yields while a
    child can still run, or there is nothing to wait for. *)

From S2P Require Import Prelude Mem CString KList PageAlloc Vm Malloc MList AddrSpace Ext2 Uart Fs Proc Exec Syscall Kernel.

Section wait.
Context {A : Type} `{PageAllocator A} `{Machine}.
Implicit Types (s : kstate A) (kids : list (nat * task_struct)).

Definition alive (t : task_struct) : Prop := state t = TASK_RUNNING ∨ state t = TASK_RUNABLE.

(** [kids] are the children of slot [p], in the order of its list, with their slots. *)
Record family s (p : nat) kids : Prop := {
  fam_list : circ (links s) (children p) ((λ k, tasks k.1) <$> kids);
  fam_slot : ∀ i t, (i, t) ∈ kids → proc s !! i = Some t
}.

(** The nodes a pass has still to visit. *)
Definition pending s (p : nat) (n : node) kids : Prop :=
  match kids with
  | [] => n = children p
  | (i, _) :: kids' => n = tasks i ∧ chain (links s) n (((λ k, tasks k.1) <$> kids') ++ [children p])
  end.

Lemma pending_next s p i t kids : pending s p (tasks i) ((i, t) :: kids) →
  ∃ n, on_links (next (tasks i)) s = Ok (n, s) ∧ pending s p n kids.
Proof.
  intros [_ Hc]. destruct kids as [|[j u] kids]; simpl in Hc.
  - destruct Hc as (Hn & _ & _). exists (children p). split; [|done].
    unfold on_links, zoom. rewrite (next_ok _ _ _ Hn). by destruct s.
  - destruct Hc as (Hn & _ & Hc). exists (tasks j). split; [|by split].
    unfold on_links, zoom. rewrite (next_ok _ _ _ Hn). by destruct s.
Qed.

Lemma wait_scan_step s p fuel i t kids b : proc s !! i = Some t → state t ≠ TASK_ZOMBIE →
  pending s p (tasks i) ((i, t) :: kids) → ∃ n, pending s p n kids ∧
  wait_scan (S fuel) (children p) (tasks i) b s =
    wait_scan fuel (children p) n (b || bool_decide (state t = TASK_RUNNING) || bool_decide (state t = TASK_RUNABLE)) s.
Proof.
  intros Ht Hz Hp. destruct (pending_next _ _ _ _ _ Hp) as (n & En & Hn). exists n. split; [done|].
  simpl. rewrite (bind_ok _ _ _ _ _ (task_run _ _ _ Ht)), bool_decide_eq_false_2 by done.
  by rewrite (bind_ok _ _ _ _ _ En).
Qed.

Lemma wait_scan_zombie s p pre pos t post : state t = TASK_ZOMBIE →
  (∀ k, k ∈ pre → state k.2 ≠ TASK_ZOMBIE) →
  (∀ i u, (i, u) ∈ pre ++ (pos, t) :: post → proc s !! i = Some u) →
  ∀ fuel n b, pending s p n (pre ++ (pos, t) :: post) → (length pre < fuel)%nat →
  ∃ r, wait_scan fuel (children p) n b s = Ok ((Some pos, r), s).
Proof.
  intros Hz Hpre Hslot. induction pre as [|[i u] pre IH]; intros fuel n b Hp Hf.
  - destruct fuel as [|fuel]; [simpl in Hf; lia|]. destruct Hp as [-> _]. exists b. simpl.
    rewrite (bind_ok _ _ _ _ _ (task_run _ _ _ (Hslot pos t ltac:(simpl; set_solver)))).
    by rewrite bool_decide_eq_true_2.
  - destruct fuel as [|fuel]; [simpl in Hf; lia|]. assert (n = tasks i) as -> by apply Hp.
    destruct (wait_scan_step s p fuel i u (pre ++ (pos, t) :: post) b) as (n & Hn & E).
    + apply Hslot. simpl. set_solver.
    + apply (Hpre (i, u)). set_solver.
    + done.
    + rewrite E. apply IH; [|intros; apply Hslot; simpl; set_solver|done|simpl in Hf; lia].
      intros k Hk. apply Hpre. set_solver.
Qed.

Lemma wait_scan_none s p kids : (∀ k, k ∈ kids → state k.2 ≠ TASK_ZOMBIE) →
  (∀ i u, (i, u) ∈ kids → proc s !! i = Some u) →
  ∀ fuel n b, pending s p n kids → (length kids < fuel)%nat →
  ∃ r, wait_scan fuel (children p) n b s = Ok ((None, r), s) ∧
    (r = true ↔ b = true ∨ ∃ k, k ∈ kids ∧ alive k.2).
Proof.
  intros Hz Hslot. induction kids as [|[i u] kids IH]; intros fuel n b Hp Hf.
  - destruct fuel as [|fuel]; [simpl in Hf; lia|]. simpl in Hp. subst n. exists b. simpl.
    destruct (decide _); [|done]. split; [done|]. set_solver.
  - destruct fuel as [|fuel]; [simpl in Hf; lia|]. assert (n = tasks i) as -> by apply Hp.
    destruct (wait_scan_step s p fuel i u kids b) as (n & Hn & E).
    + apply Hslot. set_solver.
    + apply (Hz (i, u)). set_solver.
    + done.
    + assert (∀ k, k ∈ kids → state k.2 ≠ TASK_ZOMBIE) as Hz' by (intros; apply Hz; set_solver).
      assert (∀ j t, (j, t) ∈ kids → proc s !! j = Some t) as Hslot' by (intros; apply Hslot; set_solver).
      rewrite E. destruct (IH Hz' Hslot' fuel n
        (b || bool_decide (state u = TASK_RUNNING) || bool_decide (state u = TASK_RUNABLE)) Hn) as (r & Er & Hr); [simpl in Hf; lia|].
      exists r. split; [exact Er|]. rewrite Hr, !orb_true_iff, !bool_decide_eq_true. unfold alive. split.
      * intros [[[?|?]|?]|(k & ? & ?)]; [by left|right; exists (i, u); set_solver..|right; exists k; set_solver].
      * intros [?|(k & [->|Hk]%elem_of_cons & Ha)]; [tauto|simpl in Ha; tauto|right; eauto].
Qed.

Lemma family_pending s p kids : family s p kids →
  ∃ n, on_links (next (children p)) s = Ok (n, s) ∧ pending s p n kids ∧ (length kids < S (size (links s)))%nat.
Proof.
  intros [Hc _]. pose proof (circ_length _ _ _ Hc) as Hlen. rewrite length_fmap in Hlen.
  destruct Hc as [_ Hc]. destruct kids as [|[i t] kids]; simpl in Hc.
  - destruct Hc as (Hn & _ & _). exists (children p). split_and!; [|done|done].
    unfold on_links, zoom. rewrite (next_ok _ _ _ Hn). by destruct s.
  - destruct Hc as (Hn & Hp & Hc). exists (tasks i). split_and!; [|done|done].
    unfold on_links, zoom. rewrite (next_ok _ _ _ Hn). by destruct s.
Qed.

(** C22: [sys_wait4] for any child.  With the children of the caller on a well-formed list:
    the first zombie among them is reaped ([wait_any] goes on as [reap] does); without a zombie
    the caller gives up the processor exactly when some child can still run; without either,
    -1 and nothing changes. *)
Theorem wait_any_outcomes s p kids tf wstatus rusage : cur_proc s = Some p → family s p kids →
  (∀ pre pos t post, kids = pre ++ (pos, t) :: post → state t = TASK_ZOMBIE →
    (∀ k, k ∈ pre → state k.2 ≠ TASK_ZOMBIE) →
    wait_any tf wstatus rusage s = (v ← reap pos wstatus rusage; mret (Return v)) s) ∧
  ((∀ k, k ∈ kids → state k.2 ≠ TASK_ZOMBIE) → (∃ k, k ∈ kids ∧ alive k.2) →
    wait_any tf wstatus rusage s = (yield;; mret (Yield (InWaitAny tf wstatus rusage))) s) ∧
  ((∀ k, k ∈ kids → state k.2 ≠ TASK_ZOMBIE) → (∀ k, k ∈ kids → ¬ alive k.2) →
    wait_any tf wstatus rusage s = Ok (Return (2 ^ 64 - 1), s)).
Proof.
  intros Hp Hf. destruct (family_pending _ _ _ Hf) as (n & En & Hn & Hlen).
  assert (∀ r, wait_scan (S (size (links s))) (children p) n false s = Ok (r, s) →
    wait_any tf wstatus rusage s = (match r with
      | (Some pos, _) => v ← reap pos wstatus rusage; mret (Return v)
      | (None, false) => mret (Return (u64 (-1)))
      | (None, true) => yield;; mret (Yield (InWaitAny tf wstatus rusage))
      end) s) as Hrun.
  { intros r Er. unfold wait_any. rewrite (bind_ok _ _ _ p s).
    - rewrite (bind_ok _ _ _ (S (size (links s))) s) by done. rewrite (bind_ok _ _ _ _ _ En).
      by rewrite (bind_ok _ _ _ _ _ Er).
    - unfold my_proc. rewrite (bind_ok _ _ _ (cur_proc s) s) by done. by rewrite Hp. }
  split_and!.
  - intros pre pos t post -> Hz Hpre. destruct (wait_scan_zombie s p pre pos t post Hz Hpre) with
      (fuel := S (size (links s))) (n := n) (b := false) as [r Er]; [apply (fam_slot _ _ _ Hf)|done| |].
    { rewrite length_app in Hlen. simpl in Hlen. lia. }
    by rewrite (Hrun _ Er).
  - intros Hz Hal. destruct (wait_scan_none s p kids Hz (fam_slot _ _ _ Hf) (S (size (links s))) n false Hn Hlen)
      as (r & Er & Hr). rewrite (Hrun _ Er). by replace r with true by (symmetry; apply Hr; by right).
  - intros Hz Hno. destruct (wait_scan_none s p kids Hz (fam_slot _ _ _ Hf) (S (size (links s))) n false Hn Hlen)
      as (r & Er & Hr). rewrite (Hrun _ Er). destruct r; [|done]. exfalso.
    destruct (proj1 Hr eq_refl) as [|(k & ? & ?)]; [done|]. by eapply Hno.
Qed.

Lemma update_run s i t f : proc s !! i = Some t → update i f s = Ok (tt, with_proc (<[i := f t]> (proc s)) s).
Proof. unfold update. by intros ->. Qed.

Lemma ustore64_run s a x v : translate (pages (fs s)).1 (pgdl s) a = Some x → mapped (pages (fs s)).1 x 8 →
  ustore64 a v s = Ok (tt, with_heap (write_bytes x (le_split 8 v) (pages (fs s)).1, (pages (fs s)).2, kheap s) s).
Proof.
  intros Hx Hm. unfold ustore64. rewrite (bind_ok _ _ _ x s) by (unfold user_addr; by rewrite Hx).
  unfold on_mem, on_vm, on_heap, on_pages, in_mem, zoom. simpl. by rewrite (store_ok 8 _ _ _ Hm).
Qed.

Lemma my_proc_run s c : cur_proc s = Some c → my_proc s = Ok (c, s).
Proof. intros E. unfold my_proc. rewrite (bind_ok _ _ _ (cur_proc s) s) by done. by rewrite E. Qed.

Lemma with_proc_slot s i t : (i < length (proc s))%nat → proc (with_proc (<[i := t]> (proc s)) s) !! i = Some t.
Proof. apply list_lookup_insert_eq. Qed.

Lemma yield_stopped s c t t0 : cur_proc s = Some c → proc s !! c = Some t → state t ≠ TASK_RUNNING →
  proc s !! kproc = Some t0 →
  yield s = Ok (tt, with_proc (<[kproc := set_state TASK_RUNNING t0]> (proc s)) s).
Proof.
  intros Hc Ht Hst H0'. unfold yield. rewrite (bind_ok _ _ _ _ _ (my_proc_run _ _ Hc)).
  rewrite (bind_ok _ _ _ _ _ (task_run _ _ _ Ht)), bool_decide_eq_false_2 by done.
  rewrite (bind_ok _ _ _ tt s) by done. by apply update_run.
Qed.

(** C23: exit and wait.  A process that calls [exit] becomes a zombie with the exit code, hands
    the processor to the scheduler, and keeps its pid and slot; whenever its parent reaps it,
    with a status word mapped, it gets the pid, and the low 24 bits of the exit code times 256
    in the word, sign-extended; the slot stays allocated, in state TASK_KILLED. *)
Theorem exit_then_reap s c t t0 code : cur_proc s = Some c → proc s !! c = Some t → c ≠ kproc →
  proc s !! kproc = Some t0 → ∃ s1 t1, exit code s = Ok (Yield InExit, s1) ∧
    proc s1 !! c = Some t1 ∧ state t1 = TASK_ZOMBIE ∧ exit_code t1 = code ∧ pid t1 = pid t ∧
    proc s1 !! kproc = Some (set_state TASK_RUNNING t0) ∧ fs s1 = fs s ∧
    ∀ s2 wstatus x, proc s2 !! c = Some t1 → wstatus ≠ 0 →
      translate (pages (fs s2)).1 (pgdl s2) wstatus = Some x → mapped (pages (fs s2)).1 x 8 →
      ∃ s3, reap c wstatus 0 s2 = Ok (u64 (pid t), s3) ∧
        word64_at (pages (fs s3)).1 x (u64 (s32 (code * 256))) ∧
        proc s3 = <[c := set_state TASK_KILLED t1]> (proc s2) ∧
        allocs (set_state TASK_KILLED t1) = allocs t.
Proof.
  intros Hc Ht Hne H0'. set (t1 := set_state TASK_ZOMBIE (set_exit_code code t)).
  set (sa := with_proc (<[c := set_exit_code code t]> (proc s)) s).
  set (sb := with_proc (<[c := t1]> (proc sa)) sa).
  assert (c < length (proc s))%nat as Hlt by (by eapply lookup_lt_Some).
  assert (proc sb !! c = Some t1) as Hb.
  { apply with_proc_slot. unfold sa. simpl. by rewrite length_insert. }
  exists (with_proc (<[kproc := set_state TASK_RUNNING t0]> (proc sb)) sb), t1. split.
  { unfold exit. rewrite (bind_ok _ _ _ _ _ (my_proc_run _ _ Hc)), (bind_ok _ _ _ _ _ (update_run _ _ _ _ Ht)).
    fold sa. unfold kill. rewrite (bind_ok _ _ _ tt sb).
    - rewrite (bind_ok _ _ _ c sb) by (by apply my_proc_run). destruct (decide (c = c)); [|done].
      rewrite (bind_ok _ _ _ _ _ (yield_stopped sb c t1 t0 Hc Hb ltac:(by destruct t)
        ltac:(unfold sb, sa; simpl; by rewrite !list_lookup_insert_ne))). done.
    - apply update_run. by apply with_proc_slot. }
  simpl. split_and!.
  - rewrite list_lookup_insert_ne by done. exact Hb.
  - by destruct t.
  - by destruct t.
  - by destruct t.
  - apply list_lookup_insert_eq. rewrite !length_insert. by eapply lookup_lt_Some.
  - done.
  - intros s2 ws x Hs2 Hws Hx Hm. eexists. split; [|split_and!].
    + unfold reap. rewrite (bind_ok _ _ _ tt s2) by done. destruct (Z.eqb_spec ws 0); [done|]. simpl.
      erewrite bind_ok; [|rewrite (bind_ok _ _ _ _ _ (task_run _ _ _ Hs2)); by apply ustore64_run].
      erewrite bind_ok; [|by apply update_run]. erewrite bind_ok; [|apply task_run; by apply with_proc_slot,
        (lookup_lt_Some _ _ _ Hs2)]. unfold t1. by destruct t.
    + unfold t1. destruct t. apply store64_at, wrap_bound. lia.
    + done.
    + by destruct t.
Qed.
End wait.

(** ** Witnesses *)
Section witnesses.
#[local] Existing Instance sample_iface.

Lemma sample_family : family (sample_kernel 1 TASK_RUNABLE TASK_RUNNING TASK_ZOMBIE) 1
  [(2%nat, sample_task 2 1 TASK_ZOMBIE)].
Proof.
  split.
  - split; [by_decide|]. by split_and!.
  - by intros i t [= -> ->]%list_elem_of_singleton.
Qed.

Lemma wait_any_outcomes_witness :
  wait_any 64 0 0 (sample_kernel 1 TASK_RUNABLE TASK_RUNNING TASK_ZOMBIE) =
  (v ← reap 2 0 0; mret (Return v)) (sample_kernel 1 TASK_RUNABLE TASK_RUNNING TASK_ZOMBIE).
Proof.
  destruct (wait_any_outcomes (sample_kernel 1 TASK_RUNABLE TASK_RUNNING TASK_ZOMBIE) 1 _ 64 0 0 eq_refl
    sample_family) as (Hz & _).
  apply (Hz [] 2%nat (sample_task 2 1 TASK_ZOMBIE) []); [reflexivity|reflexivity|].
  by intros k ?%not_elem_of_nil.
Defined.

Lemma exit_then_reap_witness : ∃ s1, exit 3 (sample_kernel 2 TASK_RUNABLE TASK_ZOMBIE TASK_RUNNING) = Ok (Yield InExit, s1) ∧
  ∃ s3, reap 2 64 0 s1 = Ok (2, s3) ∧ word64_at (pages (fs s3)).1 64 768.
Proof.
  destruct (exit_then_reap (sample_kernel 2 TASK_RUNABLE TASK_ZOMBIE TASK_RUNNING) 2
    (sample_task 2 1 TASK_RUNNING) (sample_task 0 0 TASK_RUNABLE) 3 eq_refl eq_refl ltac:(done) eq_refl)
    as (s1 & t1 & E & Ht1 & _ & _ & _ & _ & Hfs & Hreap).
  exists s1. split; [exact E|].
  destruct (Hreap s1 64 64 Ht1) as (s3 & E3 & Hw & _); [done|done| |].
  - rewrite Hfs. eapply mapped_mem_at_part; [apply (mem_at_mapped _ 64), write_bytes_at|by vm_compute].
  - exists s3. split; [exact E3|exact Hw].
Defined.
End witnesses.
