(* ===== verification/Boot.v ===== *)
(** * core/kmain.c: the boot

    [kmain] runs the initialisers of all components in order: on the memory and
    the free list ([pmm_init]), the table of open files, the process table, the
    disk controller, the file system and the first process.  Its state is that
    of the kernel and the controller's.  The page allocator is the one of
    mm/memblock.c.  [kmain_booted] composes the parts: what [kmain] leaves is a
    machine with the invariant from which [KernelProps] starts.  The writes to
    control registers ([w_csr_euen], [dmw_init], [tlb_init], [vm_init],
    [intr_on], and [trap_init] but for [timer_init]) change nothing the model
    represents. *)

From S2P Require Import Prelude Mem CString KList PageAlloc Vm Malloc MList AddrSpace Ext2 Ahci Uart Fs Proc Exec Syscall Kernel SchedSpec Sched KernelProps.

Section boot.
Context {D : Type} `{Hba D} `{Machine}.
Abbreviation BM := (M (kstate Z * D)).

Definition on_kernel {B} : M (kstate Z) B → BM B := zoom fst (λ s t, (s, t.2)).
(** The driver works on the kernel's memory and the controller. *)
Definition on_disk {B} : M (mem * D) B → BM B :=
  zoom (λ t, ((pages (fs t.1)).1, t.2))
    (λ r t, (with_heap (r.1, (pages (fs t.1)).2, kheap t.1) t.1, r.2)).

(** [ext2_init_disk], and what [disk_init] found: the result code is ignored. *)
Definition ext2_init_disk : M (kstate Z) unit :=
  r ← lift (ext2_init sector 0);
  match r with
  | (_, Some e2fs) => modify (with_mount e2fs)
  | (_, None) => mret tt
  end.

(** [kernel_end] is the linker's symbol, [ahci_buf] the driver's buffer, [buf] the one on the
    stack of [disk_init], [argv] and [envp] the arrays of [user_init]; [fuel] bounds the wait
    for the controller. *)
Definition kmain (kernel_end ahci_buf buf : Z) (fuel : nat) (argv envp : Z) : BM unit :=
  on_kernel timer_init;;
  on_kernel (on_vm (pmm_init kernel_end));;
  on_kernel (on_fs fs_init);;
  on_kernel proc_init;;
  on_disk (disk_init ahci_buf fuel buf);;
  on_kernel ext2_init_disk;;
  on_kernel (user_init argv envp).

(** [scheduler], entered at the end of [kmain]. *)
Definition entered_scheduler (s : kstate Z) : machine (A:=Z) :=
  {| ker := s; at_place := Scheduler 0 false; slot := 0 |}.

Lemma on_kernel_inv {B} (c : M (kstate Z) B) t b t' : on_kernel c t = Ok (b, t') →
  c t.1 = Ok (b, t'.1).
Proof.
  unfold on_kernel, zoom. destruct (c t.1) as [[x s]|]; [|done]. by intros [= <- <-].
Qed.

Lemma on_disk_view {B} (c : M (mem * D) B) t b t' : on_disk c t = Ok (b, t') → view t'.1 = view t.1.
Proof. unfold on_disk, zoom. destruct (c _) as [[x [m d]]|]; [|done]. by intros [= <- <-]. Qed.

(** A kernel that booted keeps every invariant of the process table: the state in which [kmain]
    enters the scheduler, from the zeroed statics, is [booted]. *)
Lemma kmain_booted kernel_end ahci_buf buf fuel argv envp s d u s' d' : last_pid s = 0 →
  kmain kernel_end ahci_buf buf fuel argv envp (s, d) = Ok (u, (s', d')) →
  booted 2 (entered_scheduler s').
Proof.
  intros H0' E. unfold kmain in E.
  minv E. apply on_kernel_inv in E0. injection E0 as <- E0.
  minv E. apply on_kernel_inv in E1. minv E. apply on_kernel_inv in E2. minv E. apply on_kernel_inv in E3.
  minv E. apply on_disk_view in E4. minv E. apply on_kernel_inv in E5. apply on_kernel_inv in E.
  simpl in E.
  assert (last_pid s2.1 = 0) as Hl.
  { pose proof (keeps_on_heap (A:=Z) _ _ _ _ E1) as K1. pose proof (keeps_on_fs (A:=Z) _ _ _ _ E2) as K2.
    assert (last_pid s0.1 = 0) as <- by (rewrite <- E0; done).
    apply (f_equal next_pid) in K1, K2. simpl in K1, K2. congruence. }
  destruct a2. apply (proc_init_sane _ _ _ Hl) in E3.
  assert (view s5.1 = view s4.1) as Hv5.
  { unfold ext2_init_disk in E5. minv E5. unfold lift in E6. destruct (ext2_init sector 0) as [[r o]|]; [|done].
    injection E6 as <- <-. destruct o; by injection E5 as _ <-. }
  rewrite <- E4, <- Hv5 in E3. unfold booted. simpl. eapply (user_init_sane 1); [done|lia|done].
Qed.
End boot.
